(** * Gallant Solutions: the real-time scene engine

    A shallow embedding of the two scene controllers ([PortalScene] in
    [src/portal.ts], [WorldScene] in [src/world.ts]) and of the phase
    orchestrator ([GallantExperience] in [src/main.ts]), followed by the
    properties of the scene/animation engine.

    Conventions of the embedding.
    - A JavaScript number is a [num]: an exact rational, or one of the
      IEEE special values [PInf], [NInf], [NaN].  Finite arithmetic is
      exact (no rounding, no overflow); the special values propagate as
      IEEE 754 prescribes.  Zero carries no sign: a zero divisor counts
      as [+0].
    - [Math.sin], [Math.cos] and [Math.sqrt] are not rational functions;
      they are supplied by a [MathLib] record.
    - The clock reads the exact time since its start, where the library
      sums rounded differences of [performance.now()].  A property that
      turns on whether a reading has reached a threshold is stated for
      readings at least [Clock.tolerance] away from it.
    - Objects are records, methods are functions that return the updated
      record.  What a method does to the browser (the animation-frame
      queue, the GPU resources, promise resolution) is threaded through an
      explicit [Env].
    - The draws of [Math.random] made by the constructors are inputs. *)

From stdpp Require Import gmap strings.
From Stdlib Require Import QArith Qabs Qround Lqa Lia List Bool.
Import ListNotations.
Close Scope Q_scope.
Set Warnings "-clear-no-such-hyp".

(* ================================================================= *)
(** ** JavaScript numbers *)

Module Num.

Inductive num : Type :=
| Fin (q : Q)
| PInf
| NInf
| NaN.

Arguments Fin q%_Q.

Definition zero : num := Fin 0.
Definition one : num := Fin 1.

Definition is_finite (x : num) : bool :=
  match x with Fin _ => true | _ => false end.

Definition is_nan (x : num) : bool :=
  match x with NaN => true | _ => false end.

(** Unary minus. *)
Definition neg (x : num) : num :=
  match x with
  | Fin q => Fin (- q)
  | PInf => NInf
  | NInf => PInf
  | NaN => NaN
  end.

(** [x + y]. *)
Definition add (x y : num) : num :=
  match x, y with
  | NaN, _ | _, NaN => NaN
  | Fin a, Fin b => Fin (a + b)
  | PInf, NInf | NInf, PInf => NaN
  | PInf, _ | _, PInf => PInf
  | NInf, _ | _, NInf => NInf
  end.

(** [x - y]. *)
Definition sub (x y : num) : num := add x (neg y).

(** The infinity whose sign is that of the finite, non-zero [q],
    flipped when [flip] is set. *)
Definition signed_inf (q : Q) (flip : bool) : num :=
  match (q ?= 0)%Q, flip with
  | Lt, false | Gt, true => NInf
  | _, _ => PInf
  end.

(** [x * y]. *)
Definition mul (x y : num) : num :=
  match x, y with
  | NaN, _ | _, NaN => NaN
  | Fin a, Fin b => Fin (a * b)
  | Fin a, PInf | PInf, Fin a =>
      match (a ?= 0)%Q with Eq => NaN | _ => signed_inf a false end
  | Fin a, NInf | NInf, Fin a =>
      match (a ?= 0)%Q with Eq => NaN | _ => signed_inf a true end
  | PInf, PInf | NInf, NInf => PInf
  | PInf, NInf | NInf, PInf => NInf
  end.

(** [x / y]: a finite dividend over zero gives an infinity of the
    dividend's sign, and [0 / 0] is [NaN]. *)
Definition div (x y : num) : num :=
  match x, y with
  | NaN, _ | _, NaN => NaN
  | Fin a, Fin b =>
      match (b ?= 0)%Q with
      | Eq => match (a ?= 0)%Q with
              | Eq => NaN
              | Gt => PInf
              | Lt => NInf
              end
      | _ => Fin (a / b)
      end
  | Fin _, PInf | Fin _, NInf => Fin 0
  | PInf, Fin b => signed_inf b false
  | NInf, Fin b => signed_inf b true
  | _, _ => NaN
  end.

(** Rounding toward zero, as the remainder operator needs it. *)
Definition trunc (q : Q) : Z :=
  match (q ?= 0)%Q with
  | Lt => Qceiling q
  | _ => Qfloor q
  end.

(** [x % y]: the remainder has the sign of the dividend. *)
Definition rem (x y : num) : num :=
  match x, y with
  | Fin a, Fin b =>
      match (b ?= 0)%Q with
      | Eq => NaN
      | _ => Fin (a - inject_Z (trunc (a / b)) * b)
      end
  | Fin a, PInf | Fin a, NInf => Fin a
  | _, _ => NaN
  end.

(** [x < y]; every comparison with [NaN] is false. *)
Definition ltb (x y : num) : bool :=
  match x, y with
  | NaN, _ | _, NaN => false
  | Fin a, Fin b => match (a ?= b)%Q with Lt => true | _ => false end
  | _, NInf => false
  | NInf, _ => true
  | PInf, _ => false
  | Fin _, PInf => true
  end.

(** [x <= y]. *)
Definition leb (x y : num) : bool :=
  match x, y with
  | NaN, _ | _, NaN => false
  | Fin a, Fin b => match (a ?= b)%Q with Gt => false | _ => true end
  | NInf, _ => true
  | _, PInf => true
  | _, _ => false
  end.

(** [x === y] on numbers; [NaN] equals nothing. *)
Definition eqb (x y : num) : bool :=
  match x, y with
  | Fin a, Fin b => match (a ?= b)%Q with Eq => true | _ => false end
  | PInf, PInf | NInf, NInf => true
  | _, _ => false
  end.

(** [x > y]. *)
Definition gtb (x y : num) : bool := ltb y x.

(** [Math.min(x, y)]. *)
Definition min (x y : num) : num :=
  match x, y with
  | NaN, _ | _, NaN => NaN
  | _, _ => if ltb y x then y else x
  end.

(** [Math.abs(x)]. *)
Definition abs (x : num) : num :=
  match x with
  | Fin q => Fin (Qabs q)
  | PInf | NInf => PInf
  | NaN => NaN
  end.

(** [Math.pow(x, n)] for a natural exponent. *)
Fixpoint pow (x : num) (n : nat) : num :=
  match n with
  | O => Fin 1
  | S m => mul x (pow x m)
  end.

(** Equality of numbers as values: rationals up to [Qeq].  [NaN] is
    related to itself here, so that [equiv x NaN] says "x is NaN". *)
Definition equiv (x y : num) : Prop :=
  match x, y with
  | Fin a, Fin b => (a == b)%Q
  | PInf, PInf | NInf, NInf | NaN, NaN => True
  | _, _ => False
  end.

(** The functions of [Math] that leave the rationals. *)
Record MathLib : Type := {
  Math_sin : num -> num;
  Math_cos : num -> num;
  Math_sqrt : num -> num
}.

End Num.

Export Num.

Declare Scope num_scope.
Delimit Scope num_scope with num.
Bind Scope num_scope with num.
Infix "+" := add : num_scope.
Infix "-" := sub : num_scope.
Infix "*" := mul : num_scope.
Infix "/" := div : num_scope.
Infix "%%" := rem (at level 40, left associativity) : num_scope.
Notation "- x" := (neg x) : num_scope.
Infix "<?" := ltb : num_scope.
Infix "<=?" := leb : num_scope.
Infix ">?" := gtb (at level 70) : num_scope.
Infix "=n=" := equiv (at level 70, no associativity).


(* ================================================================= *)
(** ** The parts of three.js the controllers use *)

Module Vector2.
Local Open Scope num_scope.

Record t : Type := mk { x : num; y : num }.

Definition origin : t := mk (Fin 0) (Fin 0).

(** [this.lerp(v, alpha)]: each component moves by [(v - this) * alpha]. *)
Definition lerp (this v : t) (alpha : num) : t :=
  mk (x this + (x v - x this) * alpha)
     (y this + (y v - y this) * alpha).

(** [this.length()]. *)
Definition length (M : MathLib) (this : t) : num :=
  Math_sqrt M (x this * x this + y this * y this).

End Vector2.

Module Vector3.

Record t : Type := mk { x : num; y : num; z : num }.

Definition origin : t := mk (Fin 0) (Fin 0) (Fin 0).

Definition set_x (v : t) (a : num) : t := mk a (y v) (z v).
Definition set_y (v : t) (a : num) : t := mk (x v) a (z v).
Definition set_z (v : t) (a : num) : t := mk (x v) (y v) a.

End Vector3.

(** [THREE.Clock] with [autoStart]: the first reading starts the clock
    and is 0, every later reading is the time since that start.  [now]
    is the browser's time in seconds.

    The library keeps [elapsedTime] as a sum: each reading adds the
    difference between [performance.now()] and its value at the
    previous reading, divided by 1000, and every step is rounded to a
    double.  Here the reading is that sum without the rounding, the
    exact difference [now - start]. *)
Module Clock.
Local Open Scope num_scope.

Definition t : Type := option num.

Definition fresh : t := None.

Definition getElapsedTime (now : Q) (c : t) : t * num :=
  match c with
  | None => (Some (Fin now), Fin 0)
  | Some start => (c, Fin now - start)
  end.

(** How far a reading is kept from a threshold where a property turns
    on the side of the threshold it falls on: one millisecond.  The
    rounded sum of the library and the exact reading differ by a few
    units in the last place of a double per reading, so that outside
    this band the two fall on the same side. *)
Definition tolerance : Q := 0.001.

End Clock.

(** [THREE.PerspectiveCamera]: the fields the controllers touch. *)
Record Camera : Type := {
  fov : num;
  aspect : num;
  position : Vector3.t;
  rotation : Vector3.t
}.

(** [THREE.WebGLRenderer]: its output size, its pixel ratio, the GPU
    context it holds, and the number of [render] calls made so far. *)
Record Renderer : Type := {
  width : num;
  height : num;
  pixelRatio : num;
  context : nat;
  renders : nat
}.

Definition setSize (r : Renderer) (w h : num) : Renderer :=
  {| width := w; height := h; pixelRatio := pixelRatio r;
     context := context r; renders := renders r |}.

Definition setPixelRatio (r : Renderer) (p : num) : Renderer :=
  {| width := width r; height := height r; pixelRatio := p;
     context := context r; renders := renders r |}.

Definition render (r : Renderer) : Renderer :=
  {| width := width r; height := height r; pixelRatio := pixelRatio r;
     context := context r; renders := S (renders r) |}.

(** A node of the scene graph as [scene.traverse] sees it: the GPU
    handle of its geometry, if it has one, and those of its materials
    (none, one, or an array). *)
Record Object3D : Type := {
  geometry : option nat;
  material : list nat
}.

(* ================================================================= *)
(** ** The browser environment *)

(** The callbacks the controllers hand to [requestAnimationFrame]:
    the two [animate] arrow functions, and the [transitionAnimate]
    closure, which captures [startTime] and the promise's [resolve]. *)
Inductive Callback : Type :=
| CbPortalAnimate
| CbPortalTransition (startTime : num) (promise : nat)
| CbWorldAnimate.

Record Env : Type := {
  innerWidth : num;
  innerHeight : num;
  devicePixelRatio : num;
  rafNext : nat;
  rafQueue : list (nat * Callback);
  gpuLive : gset nat;
  promiseNext : nat;
  resolved : list nat
}.

Module Browser.

(** A freshly loaded page: nothing queued, nothing on the GPU. *)
Definition open (w h dpr : num) : Env :=
  {| innerWidth := w; innerHeight := h; devicePixelRatio := dpr;
     rafNext := 1; rafQueue := []; gpuLive := ∅;
     promiseNext := 0; resolved := [] |}.

Definition with_raf (e : Env) (n : nat) (q : list (nat * Callback)) : Env :=
  {| innerWidth := innerWidth e; innerHeight := innerHeight e;
     devicePixelRatio := devicePixelRatio e;
     rafNext := n; rafQueue := q; gpuLive := gpuLive e;
     promiseNext := promiseNext e; resolved := resolved e |}.

(** [requestAnimationFrame(cb)]: queues [cb] for the next frame and
    returns its handle. *)
Definition requestAnimationFrame (cb : Callback) (e : Env) : nat * Env :=
  (rafNext e, with_raf e (S (rafNext e)) (rafQueue e ++ [(rafNext e, cb)])).

(** [cancelAnimationFrame(id)]: drops the queued callback with that
    handle; a handle that is not queued is ignored. *)
Definition cancelAnimationFrame (id : nat) (e : Env) : Env :=
  with_raf e (rafNext e)
    (List.filter (fun c => negb (Nat.eqb (fst c) id)) (rafQueue e)).

Definition with_gpu (e : Env) (g : gset nat) : Env :=
  {| innerWidth := innerWidth e; innerHeight := innerHeight e;
     devicePixelRatio := devicePixelRatio e;
     rafNext := rafNext e; rafQueue := rafQueue e; gpuLive := g;
     promiseNext := promiseNext e; resolved := resolved e |}.

(** [dispose()] on a geometry, a material or a renderer: the resource
    stops being live; disposing of a released resource does nothing. *)
Definition dispose (h : nat) (e : Env) : Env :=
  with_gpu e (gpuLive e ∖ {[h]}).

(** Uploading a resource makes it live. *)
Definition upload (h : nat) (e : Env) : Env :=
  with_gpu e ({[h]} ∪ gpuLive e).

(** [new Promise(...)]: a fresh promise. *)
Definition newPromise (e : Env) : nat * Env :=
  (promiseNext e,
   {| innerWidth := innerWidth e; innerHeight := innerHeight e;
      devicePixelRatio := devicePixelRatio e;
      rafNext := rafNext e; rafQueue := rafQueue e; gpuLive := gpuLive e;
      promiseNext := S (promiseNext e); resolved := resolved e |}).

(** A call of the promise's [resolve]; every call is logged. *)
Definition resolve (p : nat) (e : Env) : Env :=
  {| innerWidth := innerWidth e; innerHeight := innerHeight e;
     devicePixelRatio := devicePixelRatio e;
     rafNext := rafNext e; rafQueue := rafQueue e; gpuLive := gpuLive e;
     promiseNext := promiseNext e; resolved := resolved e ++ [p] |}.

(** The window takes a new size. *)
Definition resizeTo (w h : num) (e : Env) : Env :=
  {| innerWidth := w; innerHeight := h;
     devicePixelRatio := devicePixelRatio e;
     rafNext := rafNext e; rafQueue := rafQueue e; gpuLive := gpuLive e;
     promiseNext := promiseNext e; resolved := resolved e |}.

(** How often [resolve] was called on promise [p]. *)
Definition resolveCalls (p : nat) (e : Env) : nat :=
  count_occ Nat.eq_dec (resolved e) p.

(** [scene.traverse] of [destroy]: the geometry of each node, then its
    materials, are disposed of. *)
Definition disposeObject (o : Object3D) (e : Env) : Env :=
  let e1 := match geometry o with
            | Some g => dispose g e
            | None => e
            end in
  fold_left (fun acc m => dispose m acc) (material o) e1.

Definition disposeAll (os : list Object3D) (e : Env) : Env :=
  fold_left (fun acc o => disposeObject o acc) os e.

Definition uploadObject (o : Object3D) (e : Env) : Env :=
  let e1 := match geometry o with
            | Some g => upload g e
            | None => e
            end in
  fold_left (fun acc m => upload m acc) (material o) e1.

Definition uploadAll (os : list Object3D) (e : Env) : Env :=
  fold_left (fun acc o => uploadObject o acc) os e.

End Browser.

(** The browser runs one animation frame: the callbacks queued so far
    are taken off the queue and invoked in order; what they request is
    queued for the next frame. *)
Definition runFrame {St : Type}
    (run : Callback -> Env * St -> Env * St) (es : Env * St) : Env * St :=
  fold_left (fun acc c => run (snd c) acc) (rafQueue (fst es))
            (Browser.with_raf (fst es) (rafNext (fst es)) [], snd es).

(* ================================================================= *)
(** ** Portal scene controller ([src/portal.ts]) *)

Module PortalScene.
Local Open Scope num_scope.

(** One orbit ring: its rotation, its uniform scale, the opacity of its
    material, and its [userData]. *)
Record Ring : Type := {
  ring_rotation : Vector3.t;
  ring_scale : num;
  ring_opacity : num;
  speed : num;
  baseTilt : num
}.

Record GlobeUniforms : Type := {
  globe_time : num;
  mouseInfluence : Vector2.t;
  glowIntensity : num
}.

Record CoreUniforms : Type := {
  core_time : num;
  intensity : num
}.

Record CursorUniforms : Type := {
  cursor_time : num;
  mousePos : Vector3.t
}.

Record t : Type := {
  camera : Camera;
  renderer : Renderer;
  globe : Vector3.t;              (* globe.rotation *)
  globeCore : Vector3.t;          (* globeCore.rotation *)
  rings : list Ring;              (* rings.children *)
  particles : list Vector3.t;     (* the position attribute *)
  particlesRotation : Vector3.t;  (* particles.rotation *)
  mouse : Vector2.t;
  targetMouse : Vector2.t;
  clock : Clock.t;
  animationId : nat;
  isDestroyed : bool;
  isTransitioning : bool;
  globeMaterial : GlobeUniforms;
  coreMaterial : CoreUniforms;
  particleMaterial : num;         (* uniforms.time *)
  cursorMaterial : CursorUniforms;
  scene : list Object3D           (* the nodes [scene.traverse] visits *)
}.

(** What procedural generation hands to the constructor: the GPU
    context of the canvas, the 1200 particle positions drawn at random,
    and the nodes of the scene graph with their GPU handles. *)
Record Assets : Type := {
  assets_context : nat;
  assets_particles : list Vector3.t;
  assets_scene : list Object3D
}.

Definition ringConfig (tilt spd : num) : Ring :=
  {| ring_rotation := Vector3.mk tilt (Fin 0) (Fin 0);
     ring_scale := Fin 1; ring_opacity := Fin 0.25;
     speed := spd; baseTilt := tilt |}.

Definition ringConfigs : list Ring :=
  [ ringConfig (Fin 0.4) (Fin 0.3);
    ringConfig (Fin (-0.6)) (Fin (-0.2));
    ringConfig (Fin 0.2) (Fin 0.15) ].

(** [ring.rotation.y += speed * 0.01; ring.rotation.z = sin(...) * 0.05]. *)
Definition spinRing (M : MathLib) (time : num) (r : Ring) : Ring :=
  {| ring_rotation :=
       Vector3.mk (Vector3.x (ring_rotation r))
                  (Vector3.y (ring_rotation r) + speed r * Fin 0.01)
                  (Math_sin M (time * Fin 0.3 + baseTilt r) * Fin 0.05);
     ring_scale := ring_scale r; ring_opacity := ring_opacity r;
     speed := speed r; baseTilt := baseTilt r |}.

(** The render loop. *)
Definition animate (M : MathLib) (now : Q) (es : Env * t) : Env * t :=
  let (e, s) := es in
  if isDestroyed s then (e, s)
  else
    let (id, e1) := Browser.requestAnimationFrame CbPortalAnimate e in
    let (clk, time) := Clock.getElapsedTime now (clock s) in
    let m := Vector2.lerp (mouse s) (targetMouse s) (Fin 0.05) in
    let mouseDist := Vector2.length M m in
    let glowTarget := Fin 0.5 + mouseDist * Fin 0.5 in
    let glow := glowIntensity (globeMaterial s) in
    (e1,
     {| camera := camera s;
        renderer := render (renderer s);
        globe :=
          Vector3.mk (Math_sin M (time * Fin 0.2) * Fin 0.1
                        + Vector2.y m * Fin 0.2)
                     (time * Fin 0.15 + Vector2.x m * Fin 0.3)
                     (Vector3.z (globe s));
        globeCore :=
          Vector3.mk (time * Fin 0.1) (- time * Fin 0.2)
                     (Vector3.z (globeCore s));
        rings := List.map (spinRing M time) (rings s);
        particles := particles s;
        particlesRotation :=
          Vector3.mk (Math_sin M (time * Fin 0.05) * Fin 0.02)
                     (time * Fin 0.02)
                     (Vector3.z (particlesRotation s));
        mouse := m;
        targetMouse := targetMouse s;
        clock := clk;
        animationId := id;
        isDestroyed := isDestroyed s;
        isTransitioning := isTransitioning s;
        globeMaterial :=
          {| globe_time := time;
             mouseInfluence := Vector2.mk (Vector2.x m) (Vector2.y m);
             glowIntensity := glow + (glowTarget - glow) * Fin 0.05 |};
        coreMaterial :=
          {| core_time := time; intensity := intensity (coreMaterial s) |};
        particleMaterial := time;
        cursorMaterial :=
          {| cursor_time := time;
             mousePos := Vector3.mk (Vector2.x m * Fin 3)
                                    (Vector2.y m * Fin 2) (Fin 0) |};
        scene := scene s |}).

(** The constructor: camera and renderer set up from the window, the
    scene built by [init], which ends by calling [animate] once. *)
Definition create (M : MathLib) (now : Q) (a : Assets) (e : Env) : Env * t :=
  let e1 := Browser.uploadAll (assets_scene a)
              (Browser.upload (assets_context a) e) in
  animate M now
    (e1,
     {| camera :=
          {| fov := Fin 60; aspect := innerWidth e / innerHeight e;
             position := Vector3.mk (Fin 0) (Fin 0) (Fin 5);
             rotation := Vector3.origin |};
        renderer :=
          {| width := innerWidth e; height := innerHeight e;
             pixelRatio := min (devicePixelRatio e) (Fin 2);
             context := assets_context a; renders := 0 |};
        globe := Vector3.origin;
        globeCore := Vector3.origin;
        rings := ringConfigs;
        particles := assets_particles a;
        particlesRotation := Vector3.origin;
        mouse := Vector2.origin;
        targetMouse := Vector2.origin;
        clock := Clock.fresh;
        animationId := 0;
        isDestroyed := false;
        isTransitioning := false;
        globeMaterial :=
          {| globe_time := Fin 0; mouseInfluence := Vector2.origin;
             glowIntensity := Fin 0.5 |};
        coreMaterial := {| core_time := Fin 0; intensity := Fin 1 |};
        particleMaterial := Fin 0;
        cursorMaterial :=
          {| cursor_time := Fin 0; mousePos := Vector3.origin |};
        scene := assets_scene a |}).

(** The [mousemove] listener of [setupEvents]. *)
Definition onMouseMove (clientX clientY : num) (es : Env * t) : Env * t :=
  let (e, s) := es in
  (e,
   {| camera := camera s; renderer := renderer s; globe := globe s;
      globeCore := globeCore s; rings := rings s; particles := particles s;
      particlesRotation := particlesRotation s; mouse := mouse s;
      targetMouse :=
        Vector2.mk ((clientX / innerWidth e) * Fin 2 - Fin 1)
                   (- (clientY / innerHeight e) * Fin 2 + Fin 1);
      clock := clock s; animationId := animationId s;
      isDestroyed := isDestroyed s; isTransitioning := isTransitioning s;
      globeMaterial := globeMaterial s; coreMaterial := coreMaterial s;
      particleMaterial := particleMaterial s;
      cursorMaterial := cursorMaterial s; scene := scene s |}).

(** The [resize] listener of [setupEvents]. *)
Definition onResize (es : Env * t) : Env * t :=
  let (e, s) := es in
  if isDestroyed s then (e, s)
  else
    (e,
     {| camera :=
          {| fov := fov (camera s);
             aspect := innerWidth e / innerHeight e;
             position := position (camera s);
             rotation := rotation (camera s) |};
        renderer := setSize (renderer s) (innerWidth e) (innerHeight e);
        globe := globe s;
        globeCore := globeCore s; rings := rings s; particles := particles s;
        particlesRotation := particlesRotation s; mouse := mouse s;
        targetMouse := targetMouse s;
        clock := clock s; animationId := animationId s;
        isDestroyed := isDestroyed s; isTransitioning := isTransitioning s;
        globeMaterial := globeMaterial s; coreMaterial := coreMaterial s;
        particleMaterial := particleMaterial s;
        cursorMaterial := cursorMaterial s; scene := scene s |}).

(** [const duration = 0.7]. *)
Definition duration : num := Fin 0.7.

(** [const progress = Math.min(elapsed / duration, 1)]. *)
Definition progress (elapsed : num) : num := min (elapsed / duration) (Fin 1).

(** [const eased = 1 - Math.pow(1 - progress, 3)]. *)
Definition eased (p : num) : num := Fin 1 - pow (Fin 1 - p) 3.

(** A JavaScript index as a number. *)
Definition index (i : nat) : num := Fin (inject_Z (Z.of_nat i)).

(** The body of [rings.children.forEach((ring, i) => ...)] in the
    transition. *)
Definition burstRing (ez : num) (i : nat) (r : Ring) : Ring :=
  {| ring_rotation := ring_rotation r;
     ring_scale := Fin 1 + ez * (Fin 2 + index i * Fin 0.5);
     ring_opacity := Fin 0.4 * (Fin 1 - ez);
     speed := speed r; baseTilt := baseTilt r |}.

(** The body of the loop over the position attribute. *)
Definition rushParticle (ez : num) (p : Vector3.t) : Vector3.t :=
  Vector3.mk (Vector3.x p * (Fin 1 - ez * Fin 0.02))
             (Vector3.y p * (Fin 1 - ez * Fin 0.02))
             (Vector3.z p * (Fin 1 - ez * Fin 0.02)).

(** One frame of the transition: the closure [transitionAnimate], with
    the [startTime] and the promise it captured. *)
Definition transitionAnimate (now : Q) (startTime : num) (p : nat)
    (es : Env * t) : Env * t :=
  let (e, s) := es in
  if isDestroyed s then (Browser.resolve p e, s)
  else
    let (clk, time) := Clock.getElapsedTime now (clock s) in
    let elapsed := time - startTime in
    let pr := progress elapsed in
    let ez := eased pr in
    let s' :=
      {| camera :=
           {| fov := Fin 60 + ez * Fin 40;
              aspect := aspect (camera s);
              position :=
                Vector3.set_z (position (camera s)) (Fin 5 - ez * Fin 5.5);
              rotation := rotation (camera s) |};
         renderer := render (renderer s);
         globe := globe s;
         globeCore := globeCore s;
         rings := imap (burstRing ez) (rings s);
         particles := List.map (rushParticle ez) (particles s);
         particlesRotation := particlesRotation s;
         mouse := mouse s;
         targetMouse := targetMouse s;
         clock := clk;
         animationId := animationId s;
         isDestroyed := isDestroyed s;
         isTransitioning := isTransitioning s;
         globeMaterial :=
           {| globe_time := globe_time (globeMaterial s);
              mouseInfluence := mouseInfluence (globeMaterial s);
              glowIntensity := Fin 0.5 + ez * Fin 3 |};
         coreMaterial :=
           {| core_time := core_time (coreMaterial s);
              intensity := Fin 1 + ez * Fin 5 |};
         particleMaterial := particleMaterial s;
         cursorMaterial := cursorMaterial s;
         scene := scene s |} in
    if pr <? Fin 1
    then (snd (Browser.requestAnimationFrame
                 (CbPortalTransition startTime p) e), s')
    else (Browser.resolve p e, s').

(** [transitionOut()]: the promise it returns, with the new state.  A
    call made while a transition runs returns at once, so the promise of
    the [async] function is resolved on the spot.  Otherwise the promise
    of the [async] function settles with the one created inside, and
    the two are one promise here. *)
Definition transitionOut (now : Q) (es : Env * t) : Env * t * nat :=
  let (e, s) := es in
  let (p, e1) := Browser.newPromise e in
  if isTransitioning s then (Browser.resolve p e1, s, p)
  else
    let (clk, startTime) := Clock.getElapsedTime now (clock s) in
    (snd (Browser.requestAnimationFrame (CbPortalTransition startTime p) e1),
     {| camera := camera s; renderer := renderer s; globe := globe s;
        globeCore := globeCore s; rings := rings s; particles := particles s;
        particlesRotation := particlesRotation s; mouse := mouse s;
        targetMouse := targetMouse s;
        clock := clk; animationId := animationId s;
        isDestroyed := isDestroyed s; isTransitioning := true;
        globeMaterial := globeMaterial s; coreMaterial := coreMaterial s;
        particleMaterial := particleMaterial s;
        cursorMaterial := cursorMaterial s; scene := scene s |},
     p).

(** [destroy()]. *)
Definition destroy (es : Env * t) : Env * t :=
  let (e, s) := es in
  let e1 := Browser.cancelAnimationFrame (animationId s) e in
  let e2 := Browser.dispose (context (renderer s)) e1 in
  (Browser.disposeAll (scene s) e2,
   {| camera := camera s; renderer := renderer s; globe := globe s;
      globeCore := globeCore s; rings := rings s; particles := particles s;
      particlesRotation := particlesRotation s; mouse := mouse s;
      targetMouse := targetMouse s;
      clock := clock s; animationId := animationId s;
      isDestroyed := true; isTransitioning := isTransitioning s;
      globeMaterial := globeMaterial s; coreMaterial := coreMaterial s;
      particleMaterial := particleMaterial s;
      cursorMaterial := cursorMaterial s; scene := scene s |}).

(** The frame callbacks of this controller, as the browser invokes
    them. *)
Definition runCallback (M : MathLib) (now : Q) (cb : Callback)
    (es : Env * t) : Env * t :=
  match cb with
  | CbPortalAnimate => animate M now es
  | CbPortalTransition startTime p => transitionAnimate now startTime p es
  | CbWorldAnimate => es
  end.

(** One animation frame of a page that holds this controller only. *)
Definition frame (M : MathLib) (now : Q) (es : Env * t) : Env * t :=
  runFrame (runCallback M now) es.

(** Successive animation frames, at the given times. *)
Definition frames (M : MathLib) (nows : list Q) (es : Env * t) : Env * t :=
  fold_left (fun acc now => frame M now acc) nows es.

(** What can happen to a page that holds this controller: the browser
    runs a frame, the pointer moves, the window is resized, or the
    owner calls one of the two public methods. *)
Inductive Action : Type :=
| DoFrame (now : Q)
| DoMouseMove (clientX clientY : num)
| DoResize (w h : num)
| DoTransitionOut (now : Q)
| DoDestroy.

Definition act (M : MathLib) (es : Env * t) (a : Action) : Env * t :=
  match a with
  | DoFrame now => frame M now es
  | DoMouseMove x y => onMouseMove x y es
  | DoResize w h => onResize (Browser.resizeTo w h (fst es), snd es)
  | DoTransitionOut now => fst (transitionOut now es)
  | DoDestroy => destroy es
  end.

Definition acts (M : MathLib) (l : list Action) (es : Env * t) : Env * t :=
  fold_left (act M) l es.

End PortalScene.

(* ================================================================= *)
(** ** World scene controller ([src/world.ts]) *)

Module WorldScene.
Local Open Scope num_scope.

(** A floating solid: its position, its rotation and its [userData]. *)
Record Floater : Type := {
  floater_position : Vector3.t;
  floater_rotation : Vector3.t;
  startY : num;
  startX : num;
  floatSpeed : num;
  rotSpeed : num;
  phase : num;
  floatAmplitude : num
}.

Record t : Type := {
  camera : Camera;
  renderer : Renderer;
  particles : num;                (* the star material's uniforms.time *)
  gridFloor : Vector3.t;          (* gridFloor.position *)
  floatingObjects : list Floater; (* floatingObjects.children *)
  fogPlanes : list num;           (* uniforms.time of each fog plane *)
  clock : Clock.t;
  animationId : nat;
  isDestroyed : bool;
  scrollProgress : num;
  mouse : Vector2.t;
  targetMouse : Vector2.t;
  scene : list Object3D           (* the nodes [scene.traverse] visits *)
}.

(** What procedural generation hands to the constructor. *)
Record Assets : Type := {
  assets_context : nat;
  assets_floaters : list Floater;
  assets_fog : nat;
  assets_scene : list Object3D
}.

(** [a || d] on numbers: [0] and [NaN] are falsy. *)
Definition orElse (a d : num) : num :=
  match a with
  | NaN => d
  | Fin q => match (q ?= 0)%Q with Eq => d | _ => a end
  | _ => a
  end.

(** The body of [floatingObjects.children.forEach]. *)
Definition floatObject (M : MathLib) (time : num) (o : Floater) : Floater :=
  {| floater_position :=
       Vector3.mk
         (startX o
            + Math_cos M (time * floatSpeed o * Fin 0.5 + phase o) * Fin 0.3)
         (startY o
            + Math_sin M (time * floatSpeed o + phase o)
              * orElse (floatAmplitude o) (Fin 0.5))
         (Vector3.z (floater_position o));
     floater_rotation :=
       Vector3.mk (Vector3.x (floater_rotation o) + rotSpeed o * Fin 0.003)
                  (Vector3.y (floater_rotation o) + rotSpeed o * Fin 0.004)
                  (Vector3.z (floater_rotation o) + rotSpeed o * Fin 0.001);
     startY := startY o; startX := startX o; floatSpeed := floatSpeed o;
     rotSpeed := rotSpeed o; phase := phase o;
     floatAmplitude := floatAmplitude o |}.

(** [const targetY = 2 - this.scrollProgress * 3]. *)
Definition targetY (p : num) : num := Fin 2 - p * Fin 3.

(** [const targetZ = 10 - this.scrollProgress * 5]. *)
Definition targetZ (p : num) : num := Fin 10 - p * Fin 5.

(** [this.gridFloor.position.z = -(time * 0.5) % 4]: the unary minus
    binds tighter than [%]. *)
Definition gridOffset (time : num) : num := (- (time * Fin 0.5)) %% Fin 4.

(** The render loop. *)
Definition animate (M : MathLib) (now : Q) (es : Env * t) : Env * t :=
  let (e, s) := es in
  if isDestroyed s then (e, s)
  else
    let (id, e1) := Browser.requestAnimationFrame CbWorldAnimate e in
    let (clk, time) := Clock.getElapsedTime now (clock s) in
    let m := Vector2.lerp (mouse s) (targetMouse s) (Fin 0.03) in
    let pos := position (camera s) in
    (e1,
     {| camera :=
          {| fov := fov (camera s);
             aspect := aspect (camera s);
             position :=
               Vector3.mk
                 (Vector3.x pos
                    + (Vector2.x m * Fin 1.5 - Vector3.x pos) * Fin 0.02)
                 (Vector3.y pos
                    + (targetY (scrollProgress s) - Vector3.y pos) * Fin 0.05)
                 (Vector3.z pos
                    + (targetZ (scrollProgress s) - Vector3.z pos) * Fin 0.05);
             rotation :=
               Vector3.mk (Vector2.y m * Fin 0.01)
                          (- Vector2.x m * Fin 0.02)
                          (Vector3.z (rotation (camera s))) |};
        renderer := render (renderer s);
        particles := time;
        gridFloor := Vector3.set_z (gridFloor s) (gridOffset time);
        floatingObjects := List.map (floatObject M time) (floatingObjects s);
        fogPlanes := List.map (fun _ => time) (fogPlanes s);
        clock := clk;
        animationId := id;
        isDestroyed := isDestroyed s;
        scrollProgress := scrollProgress s;
        mouse := m;
        targetMouse := targetMouse s;
        scene := scene s |}).

(** The constructor. *)
Definition create (M : MathLib) (now : Q) (a : Assets) (e : Env) : Env * t :=
  let e1 := Browser.uploadAll (assets_scene a)
              (Browser.upload (assets_context a) e) in
  animate M now
    (e1,
     {| camera :=
          {| fov := Fin 50; aspect := innerWidth e / innerHeight e;
             position := Vector3.mk (Fin 0) (Fin 2) (Fin 10);
             rotation := Vector3.origin |};
        renderer :=
          {| width := innerWidth e; height := innerHeight e;
             pixelRatio := min (devicePixelRatio e) (Fin 2);
             context := assets_context a; renders := 0 |};
        particles := Fin 0;
        gridFloor := Vector3.origin;
        floatingObjects := assets_floaters a;
        fogPlanes := repeat (Fin 0) (assets_fog a);
        clock := Clock.fresh;
        animationId := 0;
        isDestroyed := false;
        scrollProgress := Fin 0;
        mouse := Vector2.origin;
        targetMouse := Vector2.origin;
        scene := assets_scene a |}).

(** [handleMove(x, y)], the body of the [mousemove] and [touchmove]
    listeners. *)
Definition handleMove (x y : num) (es : Env * t) : Env * t :=
  let (e, s) := es in
  (e,
   {| camera := camera s; renderer := renderer s; particles := particles s;
      gridFloor := gridFloor s; floatingObjects := floatingObjects s;
      fogPlanes := fogPlanes s; clock := clock s;
      animationId := animationId s; isDestroyed := isDestroyed s;
      scrollProgress := scrollProgress s; mouse := mouse s;
      targetMouse :=
        Vector2.mk ((x / innerWidth e) * Fin 2 - Fin 1)
                   (- (y / innerHeight e) * Fin 2 + Fin 1);
      scene := scene s |}).

(** The [resize] listener. *)
Definition onResize (es : Env * t) : Env * t :=
  let (e, s) := es in
  if isDestroyed s then (e, s)
  else
    (e,
     {| camera :=
          {| fov := fov (camera s);
             aspect := innerWidth e / innerHeight e;
             position := position (camera s);
             rotation := rotation (camera s) |};
        renderer :=
          setPixelRatio
            (setSize (renderer s) (innerWidth e) (innerHeight e))
            (min (devicePixelRatio e) (Fin 1.5));
        particles := particles s;
        gridFloor := gridFloor s; floatingObjects := floatingObjects s;
        fogPlanes := fogPlanes s; clock := clock s;
        animationId := animationId s; isDestroyed := isDestroyed s;
        scrollProgress := scrollProgress s; mouse := mouse s;
        targetMouse := targetMouse s; scene := scene s |}).

(** [updateScroll(progress)]. *)
Definition updateScroll (progress : num) (s : t) : t :=
  {| camera := camera s; renderer := renderer s; particles := particles s;
     gridFloor := gridFloor s; floatingObjects := floatingObjects s;
     fogPlanes := fogPlanes s; clock := clock s;
     animationId := animationId s; isDestroyed := isDestroyed s;
     scrollProgress := progress; mouse := mouse s;
     targetMouse := targetMouse s; scene := scene s |}.

(** [destroy()]. *)
Definition destroy (es : Env * t) : Env * t :=
  let (e, s) := es in
  let e1 := Browser.cancelAnimationFrame (animationId s) e in
  let e2 := Browser.dispose (context (renderer s)) e1 in
  (Browser.disposeAll (scene s) e2,
   {| camera := camera s; renderer := renderer s; particles := particles s;
      gridFloor := gridFloor s; floatingObjects := floatingObjects s;
      fogPlanes := fogPlanes s; clock := clock s;
      animationId := animationId s; isDestroyed := true;
      scrollProgress := scrollProgress s; mouse := mouse s;
      targetMouse := targetMouse s; scene := scene s |}).

(** The frame callbacks of this controller. *)
Definition runCallback (M : MathLib) (now : Q) (cb : Callback)
    (es : Env * t) : Env * t :=
  match cb with
  | CbWorldAnimate => animate M now es
  | _ => es
  end.

(** One animation frame of a page that holds this controller only. *)
Definition frame (M : MathLib) (now : Q) (es : Env * t) : Env * t :=
  runFrame (runCallback M now) es.

(** Successive animation frames, at the given times. *)
Definition frames (M : MathLib) (nows : list Q) (es : Env * t) : Env * t :=
  fold_left (fun acc now => frame M now acc) nows es.

End WorldScene.

(* ================================================================= *)
(** ** Phase orchestrator ([src/main.ts]) *)

Module GallantExperience.
Local Open Scope num_scope.

Inductive Phase : Type := PhasePortal | PhaseWorld.

(** What the orchestrator does to its collaborators, in the order it
    does it: the audio system, the DOM containers, the flash overlay,
    and the two controllers. *)
Inductive Effect : Type :=
| PlayTransitionWhoosh
| AudioStart
| FadePortalUI
| FlashOn
| ShowWorld
| ConstructWorld
| HidePortal
| DestroyPortal
| FlashOff
| AudioStop
| RevealWorld.

Definition Effect_eq_dec (a b : Effect) : {a = b} + {a <> b}.
Proof. decide equality. Defined.

(** Where a call of the [async] method [enterWorld] is suspended. *)
Inductive Pc : Type :=
| AwaitTransition (promise : nat)  (* await this.portal.transitionOut() *)
| AwaitFlashPeak                   (* await setTimeout(r, 150) *)
| AwaitWorldStart                  (* await setTimeout(r, 50) *)
| AwaitFlashEnd                    (* await setTimeout(r, 400) *)
| Finished.

(** The page the orchestrator runs in: which canvases the document
    has, and what the constructors of the two controllers are handed. *)
Record Config : Type := {
  hasPortalCanvas : bool;
  hasWorldCanvas : bool;
  portalAssets : PortalScene.Assets;
  worldAssets : WorldScene.Assets
}.

(** The orchestrator and the objects it created.  There is one place
    in the heap per controller: the orchestrator constructs each at most
    once.  A controller stays
    in the heap once constructed, since its window listeners hold it;
    [portal] and [world] tell whether the orchestrator's field of that
    name still refers to it (is not [null]). *)
Record t : Type := {
  env : Env;
  portalObj : option PortalScene.t;
  worldObj : option WorldScene.t;
  portal : bool;
  world : bool;
  currentPhase : Phase;
  calls : list Pc;          (* the calls of [enterWorld] in flight *)
  scrollListeners : nat;    (* listeners [initWorld] put on the content *)
  effects : list Effect
}.

Definition Heap : Type := (option PortalScene.t * option WorldScene.t)%type.

Definition with_heap (a : t) (e : Env) (h : Heap) : t :=
  {| env := e; portalObj := fst h; worldObj := snd h;
     portal := portal a; world := world a;
     currentPhase := currentPhase a; calls := calls a;
     scrollListeners := scrollListeners a; effects := effects a |}.

Definition with_calls (a : t) (cs : list Pc) (fx : list Effect) : t :=
  {| env := env a; portalObj := portalObj a; worldObj := worldObj a;
     portal := portal a; world := world a;
     currentPhase := currentPhase a; calls := cs;
     scrollListeners := scrollListeners a; effects := effects a ++ fx |}.

(** [initPortal()], called by the constructor. *)
Definition boot (M : MathLib) (cfg : Config) (now : Q) (e : Env) : t :=
  if hasPortalCanvas cfg then
    let (e1, p) := PortalScene.create M now (portalAssets cfg) e in
    {| env := e1; portalObj := Some p; worldObj := None;
       portal := true; world := false;
       currentPhase := PhasePortal; calls := [];
       scrollListeners := 0; effects := [] |}
  else
    {| env := e; portalObj := None; worldObj := None;
       portal := false; world := false;
       currentPhase := PhasePortal; calls := [];
       scrollListeners := 0; effects := [] |}.

(** [initWorld()]: the controller and the scroll listener.  The other
    listeners it installs (navigation links, hover sounds, card tilt,
    the contact form) act on the document only. *)
Definition initWorld (M : MathLib) (cfg : Config) (now : Q) (a : t) : t :=
  if hasWorldCanvas cfg then
    let (e1, w) := WorldScene.create M now (worldAssets cfg) (env a) in
    {| env := e1; portalObj := portalObj a; worldObj := Some w;
       portal := portal a; world := true;
       currentPhase := currentPhase a; calls := calls a;
       scrollListeners := S (scrollListeners a);
       effects := effects a ++ [ConstructWorld] |}
  else a.

(** [const progress = scrollTop / scrollHeight], where [scrollHeight]
    is [scrollContent.scrollHeight - scrollContent.clientHeight]. *)
Definition scrollProgressOf (scrollTop scrollHeight clientHeight : num) : num :=
  scrollTop / (scrollHeight - clientHeight).

(** The [scroll] listener of [initWorld], up to the call of
    [updateScroll]; what follows it restyles the navigation bar and the
    sections of the document. *)
Definition onScroll (scrollTop scrollHeight clientHeight : num) (a : t) : t :=
  let progress := scrollProgressOf scrollTop scrollHeight clientHeight in
  if world a then
    match worldObj a with
    | Some w =>
        with_heap a (env a)
          (portalObj a, Some (WorldScene.updateScroll progress w))
    | None => a
    end
  else a.

(** [enterWorld()] up to its first [await]. *)
Definition enterWorld (now : Q) (a : t) : t :=
  match currentPhase a with
  | PhaseWorld => a
  | PhasePortal =>
      let fx := [PlayTransitionWhoosh; AudioStart; FadePortalUI] in
      match portal a, portalObj a with
      | true, Some p =>
          let '(e1, p1, pr) := PortalScene.transitionOut now (env a, p) in
          {| env := e1; portalObj := Some p1; worldObj := worldObj a;
             portal := portal a; world := world a;
             currentPhase := PhaseWorld;
             calls := calls a ++ [AwaitTransition pr];
             scrollListeners := scrollListeners a;
             effects := effects a ++ fx |}
      | _, _ =>
          {| env := env a; portalObj := portalObj a; worldObj := worldObj a;
             portal := portal a; world := world a;
             currentPhase := PhaseWorld;
             calls := calls a ++ [AwaitFlashPeak];
             scrollListeners := scrollListeners a;
             effects := effects a ++ fx ++ [FlashOn] |}
      end
  end.

(** The part of [enterWorld] that runs when the timer the call waits
    for fires: from one [await] to the next. *)
Definition resume (M : MathLib) (cfg : Config) (now : Q) (pc : Pc) (a : t)
    : Pc * t :=
  match pc with
  | AwaitFlashPeak =>
      (AwaitWorldStart, initWorld M cfg now (with_calls a (calls a) [ShowWorld]))
  | AwaitWorldStart =>
      let a1 := with_calls a (calls a) [HidePortal] in
      match portal a1, portalObj a1 with
      | true, Some p =>
          let (e1, p1) := PortalScene.destroy (env a1, p) in
          (AwaitFlashEnd,
           {| env := e1; portalObj := Some p1; worldObj := worldObj a1;
              portal := false; world := world a1;
              currentPhase := currentPhase a1; calls := calls a1;
              scrollListeners := scrollListeners a1;
              effects := effects a1 ++ [DestroyPortal] |})
      | _, _ => (AwaitFlashEnd, a1)
      end
  | AwaitFlashEnd =>
      (Finished, with_calls a (calls a) [FlashOff; AudioStop; RevealWorld])
  | AwaitTransition _ | Finished => (pc, a)
  end.

(** The timer of the [k]-th call in flight fires. *)
Definition onTimeout (M : MathLib) (cfg : Config) (now : Q) (k : nat) (a : t)
    : t :=
  match calls a !! k with
  | Some pc =>
      let (pc', a1) := resume M cfg now pc a in
      with_calls a1 (<[k := pc']> (calls a1)) []
  | None => a
  end.

(** Microtasks: each call that awaits a promise on which [resolve] was
    called goes on to the flash and waits for the first timer. *)
Definition settleCall (e : Env) (pc : Pc) : Pc * list Effect :=
  match pc with
  | AwaitTransition p =>
      match Browser.resolveCalls p e with
      | O => (pc, [])
      | S _ => (AwaitFlashPeak, [FlashOn])
      end
  | _ => (pc, [])
  end.

Definition settle (a : t) : t :=
  with_calls a (List.map (fun pc => fst (settleCall (env a) pc)) (calls a))
    (List.flat_map (fun pc => snd (settleCall (env a) pc)) (calls a)).

(** The frame callbacks, dispatched to the controller that owns them. *)
Definition runCallback (M : MathLib) (now : Q) (cb : Callback)
    (eh : Env * Heap) : Env * Heap :=
  let '(e, (po, wo)) := eh in
  match cb, po, wo with
  | CbWorldAnimate, _, Some w =>
      let (e1, w1) := WorldScene.animate M now (e, w) in (e1, (po, Some w1))
  | CbWorldAnimate, _, None => eh
  | _, Some p, _ =>
      let (e1, p1) := PortalScene.runCallback M now cb (e, p) in
      (e1, (Some p1, wo))
  | _, None, _ => eh
  end.

(** One animation frame of the page. *)
Definition onFrame (M : MathLib) (now : Q) (a : t) : t :=
  let (e1, h1) := runFrame (runCallback M now)
                    (env a, (portalObj a, worldObj a)) in
  with_heap a e1 h1.

(** The window's [mousemove] listeners, one per constructed controller. *)
Definition onMouseMove (x y : num) (a : t) : t :=
  let po := option_map (fun p => snd (PortalScene.onMouseMove x y (env a, p)))
              (portalObj a) in
  let wo := option_map (fun w => snd (WorldScene.handleMove x y (env a, w)))
              (worldObj a) in
  with_heap a (env a) (po, wo).

(** The window is resized and its [resize] listeners run. *)
Definition onResize (w h : num) (a : t) : t :=
  let e1 := Browser.resizeTo w h (env a) in
  let po := option_map (fun p => snd (PortalScene.onResize (e1, p)))
              (portalObj a) in
  let wo := option_map (fun s => snd (WorldScene.onResize (e1, s)))
              (worldObj a) in
  with_heap a e1 (po, wo).

(** A click on the enter button.  [initPortal] returns before it
    installs the listener that calls [enterWorld] when the document has
    no portal canvas: on such a page the button has no listener and a
    click does nothing. *)
Definition onEnterClick (cfg : Config) (now : Q) (a : t) : t :=
  if hasPortalCanvas cfg then enterWorld now a else a.

(** What can happen to the page. *)
Inductive Event : Type :=
| EvEnter                                        (* click on the enter button *)
| EvFrame                                        (* an animation frame *)
| EvTimeout (k : nat)                            (* a timer of [enterWorld] *)
| EvScroll (scrollTop scrollHeight clientHeight : num)
| EvMouseMove (x y : num)
| EvResize (w h : num).

(** One turn of the event loop at time [now]: the task, then the
    microtasks it made runnable. *)
Definition step (M : MathLib) (cfg : Config) (a : t) (ev : Q * Event) : t :=
  let now := fst ev in
  settle
    match snd ev with
    | EvEnter => onEnterClick cfg now a
    | EvFrame => onFrame M now a
    | EvTimeout k => onTimeout M cfg now k a
    | EvScroll top sh ch =>
        Nat.iter (scrollListeners a) (onScroll top sh ch) a
    | EvMouseMove x y => onMouseMove x y a
    | EvResize w h => onResize w h a
    end.

Definition run (M : MathLib) (cfg : Config) (evs : list (Q * Event)) (a : t)
    : t :=
  fold_left (step M cfg) evs a.

(** How many times the portal controller was destroyed, and how many
    world controllers were constructed. *)
Definition portalDestroyCalls (a : t) : nat :=
  count_occ Effect_eq_dec (effects a) DestroyPortal.

Definition worldConstructions (a : t) : nat :=
  count_occ Effect_eq_dec (effects a) ConstructWorld.

End GallantExperience.

(* ================================================================= *)
(** ** A sample page *)

Module Sample.

(** Stand-ins for the transcendental functions: enough to run the
    state machines, where only the rational part of a frame matters. *)
Definition math : MathLib :=
  {| Math_sin := fun _ => Fin 0;
     Math_cos := fun _ => Fin 1;
     Math_sqrt := fun x => x |}.

(** A 1920 by 1080 window. *)
Definition window : Env := Browser.open (Fin 1920) (Fin 1080) (Fin 1).

Definition portalAssets : PortalScene.Assets :=
  {| PortalScene.assets_context := 1;
     PortalScene.assets_particles :=
       [Vector3.mk (Fin 4) (Fin 0) (Fin 3); Vector3.mk (Fin (-6)) (Fin 8) (Fin 0)];
     PortalScene.assets_scene :=
       [ {| geometry := Some 2; material := [3] |};
         {| geometry := Some 4; material := [5] |};
         {| geometry := None; material := [] |} ] |}.

(** Two grid lines share one material, as in [init]. *)
Definition worldAssets : WorldScene.Assets :=
  {| WorldScene.assets_context := 10;
     WorldScene.assets_floaters :=
       [ {| WorldScene.floater_position := Vector3.mk (Fin 1) (Fin 2) (Fin (-10));
            WorldScene.floater_rotation := Vector3.origin;
            WorldScene.startY := Fin 2; WorldScene.startX := Fin 1;
            WorldScene.floatSpeed := Fin 0.5; WorldScene.rotSpeed := Fin 1;
            WorldScene.phase := Fin 0; WorldScene.floatAmplitude := Fin 0.4 |} ];
     WorldScene.assets_fog := 2;
     WorldScene.assets_scene :=
       [ {| geometry := Some 11; material := [12] |};
         {| geometry := Some 13; material := [12] |} ] |}.

Definition config : GallantExperience.Config :=
  {| GallantExperience.hasPortalCanvas := true;
     GallantExperience.hasWorldCanvas := true;
     GallantExperience.portalAssets := portalAssets;
     GallantExperience.worldAssets := worldAssets |}.

(** The portal controller on its own, just constructed. *)
Definition portal : Env * PortalScene.t :=
  PortalScene.create math 0 portalAssets window.

(** The world controller on its own, just constructed. *)
Definition world : Env * WorldScene.t :=
  WorldScene.create math 0 worldAssets window.

(** The same controllers after the pointer moved to (1440, 270). *)
Definition portalMoved : Env * PortalScene.t :=
  PortalScene.onMouseMove (Fin 1440) (Fin 270) portal.

Definition worldMoved : Env * WorldScene.t :=
  WorldScene.handleMove (Fin 1440) (Fin 270) world.

(** What happens to the portal controller before the transition is
    asked for, while it runs, and after it. *)
Definition before : list PortalScene.Action :=
  [PortalScene.DoMouseMove (Fin 1440) (Fin 270); PortalScene.DoFrame 0.5].

Definition during : list PortalScene.Action :=
  [PortalScene.DoFrame 1.2; PortalScene.DoResize (Fin 1280) (Fin 720);
   PortalScene.DoTransitionOut 1.3; PortalScene.DoFrame 1.4].

Definition afterwards : list PortalScene.Action :=
  [PortalScene.DoFrame 1.8; PortalScene.DoDestroy; PortalScene.DoFrame 1.9].

(** The portal controller with a transition under way, and the same
    once destroyed. *)
Definition portalInTransition : Env * PortalScene.t :=
  PortalScene.acts math during (fst (PortalScene.transitionOut 1 portal)).

Definition portalTornDown : Env * PortalScene.t :=
  PortalScene.destroy portalInTransition.

Definition worldTornDown : Env * WorldScene.t :=
  WorldScene.destroy world.

(** The page, just loaded. *)
Definition page : GallantExperience.t :=
  GallantExperience.boot math config 0 window.

(** Two clicks on the enter button, ten milliseconds apart, then the
    frames of the transition and the three timers of the sequence. *)
Definition doubleEnter : list (Q * GallantExperience.Event) :=
  [ (1, GallantExperience.EvEnter); (1.01, GallantExperience.EvEnter);
    (1.1, GallantExperience.EvFrame); (1.5, GallantExperience.EvFrame);
    (1.8, GallantExperience.EvFrame);
    (1.95, GallantExperience.EvTimeout 0);
    (2, GallantExperience.EvTimeout 0);
    (2.4, GallantExperience.EvTimeout 0) ]%Q.

(** The page once the world is showing. *)
Definition entered : GallantExperience.t :=
  GallantExperience.run math config doubleEnter page.

(** What else happens to the page around the clicks. *)
Definition idle : list (Q * GallantExperience.Event) :=
  [ (0.5, GallantExperience.EvFrame);
    (0.6, GallantExperience.EvMouseMove (Fin 1440) (Fin 270));
    (0.7, GallantExperience.EvTimeout 0) ]%Q.

Definition zooming : list (Q * GallantExperience.Event) :=
  [ (1.1, GallantExperience.EvFrame);
    (1.3, GallantExperience.EvResize (Fin 1280) (Fin 720));
    (1.5, GallantExperience.EvFrame) ]%Q.

Definition scrolling : list (Q * GallantExperience.Event) :=
  [ (2.5, GallantExperience.EvEnter);
    (2.6, GallantExperience.EvFrame);
    (3, GallantExperience.EvScroll (Fin 300) (Fin 2400) (Fin 600)) ]%Q.

(** The world controller of that page. *)
Definition enteredWorld : WorldScene.t :=
  match GallantExperience.worldObj entered with
  | Some w => w
  | None => snd world
  end.

End Sample.

(* ================================================================= *)
(** ** Vocabulary of the properties *)

Module Spec.

(** [|a - b|], the distance between two numbers. *)
Definition dist (a b : num) : num := Num.abs (Num.sub a b).

(** [nxt] is, on each axis, no farther from [tgt] than [cur] is. *)
Definition noFarther (nxt cur tgt : Vector2.t) : Prop :=
  Num.leb (dist (Vector2.x nxt) (Vector2.x tgt))
          (dist (Vector2.x cur) (Vector2.x tgt)) = true
  /\ Num.leb (dist (Vector2.y nxt) (Vector2.y tgt))
             (dist (Vector2.y cur) (Vector2.y tgt)) = true.

(** The GPU handles [scene.traverse] reaches. *)
Definition handlesOf (o : Object3D) : gset nat :=
  match geometry o with
  | Some g => {[g]}
  | None => ∅
  end ∪ list_to_set (material o).

Definition handles (os : list Object3D) : gset nat :=
  ⋃ (List.map handlesOf os).

(** Whether a callback is a frame of a transition. *)
Definition isTransition (cb : Callback) : bool :=
  match cb with
  | CbPortalTransition _ _ => true
  | _ => false
  end.

(** Whether a callback is a frame of the transition that resolves
    promise [p]. *)
Definition resolves (p : nat) (cb : Callback) : bool :=
  match cb with
  | CbPortalTransition _ p' => Nat.eqb p' p
  | _ => false
  end.

(** How many queued callbacks will resolve promise [p]. *)
Definition pendingIn (p : nat) (q : list (nat * Callback)) : nat :=
  length (List.filter (fun c => resolves p (snd c)) q).

(** The bookkeeping of frames and promises, for the callbacks [q] yet
    to run, the environment [e] and the portal's [animationId]:
    handles are below the next handle; the handle [destroy] would
    cancel is not that of a transition frame; and every promise handed
    out is either resolved once with no frame left, or not resolved
    with one frame left. *)
Record queueInv (q : list (nat * Callback)) (e : Env) (animId : nat)
    : Prop := {
  inv_handles : Forall (fun c => fst c < rafNext e) q;
  inv_animId : animId < rafNext e;
  inv_cancel : Forall (fun c => fst c = animId -> isTransition (snd c) = false) q;
  inv_once : forall p,
    Browser.resolveCalls p e + pendingIn p q
    = if p <? promiseNext e then 1 else 0
}.

(** Every frame in [q] of the transition of promise [p] carries the
    start time [st]. *)
Definition startsAt (p : nat) (st : num) (q : list (nat * Callback)) : Prop :=
  Forall (fun c => match snd c with
                   | CbPortalTransition st' p' => p' = p -> st' = st
                   | _ => True
                   end) q.

(** The callbacks of the transition of promise [p] carry the start
    time [st]. *)
Definition tracks (p : nat) (st : num) (cb : Callback) : Prop :=
  match cb with
  | CbPortalTransition st' p' => p' = p -> st' = st
  | _ => True
  end.

(** The invariant of a page that holds the portal controller, while
    the callbacks [rest] of the running frame are yet to be invoked
    ([rest] is empty between frames): the bookkeeping of [queueInv];
    the clock runs since [c]; every callback satisfies [P]; at least
    [n] promises were handed out; [resolve] was called at least [r]
    times on promise [p]. *)
Definition frameInv (P : Callback -> Prop) (c : Q) (n p r : nat)
    (rest : list (nat * Callback)) (es : Env * PortalScene.t) : Prop :=
  queueInv (rest ++ rafQueue (fst es)) (fst es)
           (PortalScene.animationId (snd es))
  /\ PortalScene.clock (snd es) = Some (Fin c)
  /\ Forall (fun cb => P (snd cb)) (rest ++ rafQueue (fst es))
  /\ n <= promiseNext (fst es)
  /\ r <= Browser.resolveCalls p (fst es).

(** Neither [destroy] nor [transitionOut] is called in [l]. *)
Definition quiet (l : list PortalScene.Action) : bool :=
  forallb (fun a => match a with
                    | PortalScene.DoDestroy
                    | PortalScene.DoTransitionOut _ => false
                    | _ => true
                    end) l.

(** What [P] must allow for [frameInv] to be kept: the render loops,
    and the transition frames of promises yet to be handed out. *)
Definition admits (P : Callback -> Prop) (n : nat) : Prop :=
  P CbPortalAnimate /\ P CbWorldAnimate
  /\ forall st p, n <= p -> P (CbPortalTransition st p).

(** The two counts of the orchestrator: destructions of the portal
    controller, constructions of a world controller. *)
Definition counts (a : GallantExperience.t) : nat * nat :=
  (GallantExperience.portalDestroyCalls a,
   GallantExperience.worldConstructions a).

(** What holds of the orchestrator while a call of [enterWorld] is
    suspended at [pc]. *)
Definition pcInv (a : GallantExperience.t) (pc : GallantExperience.Pc)
    : Prop :=
  match pc with
  | GallantExperience.AwaitTransition _ | GallantExperience.AwaitFlashPeak =>
      GallantExperience.portal a = true /\ counts a = (0, 0)
  | GallantExperience.AwaitWorldStart =>
      GallantExperience.portal a = true /\ counts a = (0, 1)
  | GallantExperience.AwaitFlashEnd | GallantExperience.Finished =>
      GallantExperience.portal a = false /\ counts a = (1, 1)
  end.

(** The invariant of the orchestrator's state machine: in the portal
    phase no call of [enterWorld] is in flight and nothing was
    destroyed or constructed; in the world phase exactly one call is in
    flight, and the counts are those of the point it has reached. *)
Definition phaseInv (a : GallantExperience.t) : Prop :=
  GallantExperience.portalObj a <> None
  /\ match GallantExperience.currentPhase a with
     | GallantExperience.PhasePortal =>
         GallantExperience.calls a = []
         /\ GallantExperience.portal a = true /\ counts a = (0, 0)
     | GallantExperience.PhaseWorld =>
         exists pc, GallantExperience.calls a = [pc] /\ pcInv a pc
     end.

(** No call in flight awaits a promise that has been resolved. *)
Definition settled (a : GallantExperience.t) : Prop :=
  forall p, In (GallantExperience.AwaitTransition p) (GallantExperience.calls a) ->
            Browser.resolveCalls p (GallantExperience.env a) = 0.

(** How far the sequence of [enterWorld] has come. *)
Definition rank (pc : GallantExperience.Pc) : nat :=
  match pc with
  | GallantExperience.AwaitTransition _ => 0
  | GallantExperience.AwaitFlashPeak => 1
  | GallantExperience.AwaitWorldStart => 2
  | GallantExperience.AwaitFlashEnd => 3
  | GallantExperience.Finished => 4
  end.

Definition stage (a : GallantExperience.t) : nat :=
  match GallantExperience.calls a with
  | [pc] => rank pc
  | _ => 0
  end.

(** [frameInv] for the page of the orchestrator: it holds of the
    portal controller in the heap. *)
Definition heapInv (P : Callback -> Prop) (c : Q) (n p r : nat)
    (rest : list (nat * Callback)) (eh : Env * GallantExperience.Heap)
    : Prop :=
  exists s, fst (snd eh) = Some s /\ frameInv P c n p r rest (fst eh, s).

Definition pageInv (P : Callback -> Prop) (c : Q) (n p r : nat)
    (a : GallantExperience.t) : Prop :=
  heapInv P c n p r []
    (GallantExperience.env a,
     (GallantExperience.portalObj a, GallantExperience.worldObj a)).

(** The invariant of the page once the enter button was clicked at
    time [t1]: the world phase, with the transition whose promise is
    [p] started at [t1] on a clock running since [c]; the call of
    [enterWorld] still awaits [p], or has moved on. *)
Definition liveInv (t1 c : Q) (p : nat) (a : GallantExperience.t) : Prop :=
  phaseInv a /\ settled a
  /\ GallantExperience.currentPhase a = GallantExperience.PhaseWorld
  /\ pageInv (tracks p (Fin (t1 + - c))) c (S p) p 0 a
  /\ (GallantExperience.calls a = [GallantExperience.AwaitTransition p]
      \/ 1 <= stage a).

End Spec.

(* ================================================================= *)
(** ** Vocabulary of the further properties *)

Module Extra.

(** A vector whose three components are finite numbers. *)
Definition finite3 (v : Vector3.t) : Prop :=
  Num.is_finite (Vector3.x v) = true
  /\ Num.is_finite (Vector3.y v) = true
  /\ Num.is_finite (Vector3.z v) = true.

(** [b] is, on each axis, no farther from the origin than [a]. *)
Definition inward (a b : Vector3.t) : Prop :=
  Num.leb (Num.abs (Vector3.x b)) (Num.abs (Vector3.x a)) = true
  /\ Num.leb (Num.abs (Vector3.y b)) (Num.abs (Vector3.y a)) = true
  /\ Num.leb (Num.abs (Vector3.z b)) (Num.abs (Vector3.z a)) = true.

(** [lo <= x <= hi] on numbers. *)
Definition within (lo hi x : num) : Prop :=
  Num.leb lo x = true /\ Num.leb x hi = true.

End Extra.

(* ================================================================= *)
(** ** A page that holds the world controller only *)

Module WorldPage.

(** What can happen to it: the browser runs a frame, the pointer
    moves, the window is resized, the owner reports a scroll position
    or destroys the controller. *)
Inductive Action : Type :=
| DoFrame (now : Q)
| DoMove (x y : num)
| DoResize (w h : num)
| DoScroll (progress : num)
| DoDestroy.

Definition act (M : MathLib) (es : Env * WorldScene.t) (a : Action)
    : Env * WorldScene.t :=
  match a with
  | DoFrame now => WorldScene.frame M now es
  | DoMove x y => WorldScene.handleMove x y es
  | DoResize w h => WorldScene.onResize (Browser.resizeTo w h (fst es), snd es)
  | DoScroll p => (fst es, WorldScene.updateScroll p (snd es))
  | DoDestroy => WorldScene.destroy es
  end.

Definition acts (M : MathLib) (l : list Action) (es : Env * WorldScene.t)
    : Env * WorldScene.t :=
  fold_left (act M) l es.

End WorldPage.

(* ================================================================= *)
(** ** Further sample runs *)

Module Scenario.

(** What happens to the world controller after a bad scroll event. *)
Definition afterNaN : list WorldPage.Action :=
  [WorldPage.DoFrame 1.1; WorldPage.DoScroll (Fin 0.5);
   WorldPage.DoMove (Fin 100) (Fin 100); WorldPage.DoFrame 1.2;
   WorldPage.DoResize (Fin 1280) (Fin 720); WorldPage.DoFrame 1.3].

(** Frames of the world controller with a pointer move and a resize
    in between. *)
Definition steadyFrames : list WorldPage.Action :=
  [WorldPage.DoFrame 0.1; WorldPage.DoMove (Fin 100) (Fin 100);
   WorldPage.DoFrame 0.2; WorldPage.DoResize (Fin 1280) (Fin 720);
   WorldPage.DoFrame 0.3].

(** The sample page without its portal canvas. *)
Definition noPortal : GallantExperience.Config :=
  {| GallantExperience.hasPortalCanvas := false;
     GallantExperience.hasWorldCanvas := true;
     GallantExperience.portalAssets := Sample.portalAssets;
     GallantExperience.worldAssets := Sample.worldAssets |}.

End Scenario.

(* ================================================================= *)
(** ** The script of [enterWorld] *)

Module Script.
Import GallantExperience.

(** What [enterWorld] does before its first [await]. *)
Definition opening : list Effect :=
  [PlayTransitionWhoosh; AudioStart; FadePortalUI].

(** ... by the time the world is shown; [initWorld] constructs the
    world controller if the document has the world canvas. *)
Definition shown (cfg : Config) : list Effect :=
  opening ++ [FlashOn; ShowWorld]
    ++ (if hasWorldCanvas cfg then [ConstructWorld] else []).

(** ... by the time the portal is hidden; there is a portal controller
    to destroy if the document has the portal canvas. *)
Definition hidden (cfg : Config) : list Effect :=
  shown cfg ++ [HidePortal]
    ++ (if hasPortalCanvas cfg then [DestroyPortal] else []).

(** ... and by the time it returns. *)
Definition whole (cfg : Config) : list Effect :=
  hidden cfg ++ [FlashOff; AudioStop; RevealWorld].

(** The effects of a call suspended at [pc]. *)
Definition upTo (cfg : Config) (pc : Pc) : list Effect :=
  match pc with
  | AwaitTransition _ => opening
  | AwaitFlashPeak => opening ++ [FlashOn]
  | AwaitWorldStart => shown cfg
  | AwaitFlashEnd => hidden cfg
  | Finished => whole cfg
  end.

(** The invariant of the effect log: nothing is logged in the portal
    phase; in the world phase one call is in flight and the log is what
    that call has done so far. *)
Definition logInv (cfg : Config) (a : t) : Prop :=
  (portal a = true -> portalObj a <> None)
  /\ match currentPhase a with
     | PhasePortal =>
         calls a = [] /\ effects a = [] /\ portal a = hasPortalCanvas cfg
     | PhaseWorld =>
         exists pc, calls a = [pc] /\ effects a = upTo cfg pc
           /\ match pc with
              | AwaitTransition _ =>
                  portal a = true /\ hasPortalCanvas cfg = true
              | AwaitFlashPeak | AwaitWorldStart =>
                  portal a = hasPortalCanvas cfg
              | AwaitFlashEnd | Finished => True
              end
     end.

(** A page on which [enterWorld] never ran and nothing can run: the
    portal phase, no call of [enterWorld] in flight, no effect logged,
    no controller in the heap, no scroll listener, no frame requested,
    nothing on the GPU. *)
Definition inert (a : t) : Prop :=
  currentPhase a = PhasePortal /\ calls a = [] /\ effects a = []
  /\ portalObj a = None /\ worldObj a = None
  /\ portal a = false /\ world a = false
  /\ scrollListeners a = 0
  /\ rafQueue (env a) = [] /\ gpuLive (env a) = ∅.

End Script.

(* ================================================================= *)
(** ** The life of a controller: its frame requests *)

Module Loop.

Definition isFrame (a : WorldPage.Action) : bool :=
  match a with WorldPage.DoFrame _ => true | _ => false end.

Definition isDestroy (a : WorldPage.Action) : bool :=
  match a with WorldPage.DoDestroy => true | _ => false end.

(** Whether [destroy] is called in [l]. *)
Definition destroys (l : list WorldPage.Action) : bool := existsb isDestroy l.

(** The animation frames of [l] that come before any call of
    [destroy]. *)
Fixpoint framesAlive (l : list WorldPage.Action) : nat :=
  match l with
  | [] => 0
  | WorldPage.DoFrame _ :: l => S (framesAlive l)
  | WorldPage.DoDestroy :: _ => 0
  | _ :: l => framesAlive l
  end.

(** Neither a scroll report nor a call of [destroy] is in [l]. *)
Definition steady (l : list WorldPage.Action) : bool :=
  forallb (fun a => match a with
                    | WorldPage.DoScroll _ | WorldPage.DoDestroy => false
                    | _ => true
                    end) l.

(** What is left of a distance after [n] frames of easing by 0.05. *)
Fixpoint decay (n : nat) : Q :=
  match n with
  | O => 1
  | S m => 0.95 * decay m
  end.

(** The frame requests of a page that holds the world controller only:
    the one of the render loop while the controller lives, none once it
    is destroyed. *)
Definition loopInv (es : Env * WorldScene.t) : Prop :=
  rafQueue (fst es)
  = if WorldScene.isDestroyed (snd es) then []
    else [(WorldScene.animationId (snd es), CbWorldAnimate)].

End Loop.

(* ================================================================= *)
(** ** Audio system ([src/audio.ts]) *)

Module AudioSystem.

(** The text of the audio-toggle button's icon: what the document
    loaded, the loudspeaker, the muted loudspeaker. *)
Inductive Icon : Type := IconAsLoaded | IconLoud | IconMuted.

(** The audio-toggle button: whether it has the class [playing], and
    the text of its [.audio-icon] child if it has one. *)
Record Button : Type := {
  playingClass : bool;
  audioIcon : option Icon
}.

(** The Web Audio side of the page, as far as the audio system drives
    it: how many [AudioContext]s were constructed; the nodes handed out
    so far (each [create...] call takes the next number); the source
    nodes that were started and have not stopped; the frequency set on
    an oscillator; the stops scheduled with [stop(t)]; the ramps asked
    of the master gain, as value and end time; the timers of [stop()]
    that are yet to fire; and the button.  The connections between
    nodes and the gains of the voices are left out. *)
Record Web : Type := {
  contexts : nat;
  nextNode : nat;
  sounding : gset nat;
  frequency : list (nat * Q);
  stopsAt : list (nat * Q);
  ramps : list (Q * Q);
  timers : nat;
  button : option Button
}.

(** The fields of [AudioSystem]. *)
Record t : Type := {
  ctx : option nat;
  masterGain : option nat;
  isPlaying : bool;
  oscillators : list nat;
  noiseNode : option nat
}.

(** [new AudioContext()]. *)
Definition newContext (w : Web) : nat * Web :=
  (contexts w,
   {| contexts := S (contexts w); nextNode := nextNode w;
      sounding := sounding w; frequency := frequency w;
      stopsAt := stopsAt w; ramps := ramps w; timers := timers w;
      button := button w |}).

(** [ctx.createOscillator()], [createGain()], [createBiquadFilter()],
    [createBufferSource()]: a new node. *)
Definition createNode (w : Web) : nat * Web :=
  (nextNode w,
   {| contexts := contexts w; nextNode := S (nextNode w);
      sounding := sounding w; frequency := frequency w;
      stopsAt := stopsAt w; ramps := ramps w; timers := timers w;
      button := button w |}).

Definition with_sounding (w : Web) (g : gset nat) : Web :=
  {| contexts := contexts w; nextNode := nextNode w;
     sounding := g; frequency := frequency w;
     stopsAt := stopsAt w; ramps := ramps w; timers := timers w;
     button := button w |}.

(** [node.start()]. *)
Definition startNode (n : nat) (w : Web) : Web :=
  with_sounding w ({[n]} ∪ sounding w).

(** [node.stop()]; stopping a node that has stopped is harmless (the
    code catches what it might throw). *)
Definition stopNode (n : nat) (w : Web) : Web :=
  with_sounding w (sounding w ∖ {[n]}).

(** [osc.frequency.value = f], [osc.frequency.setValueAtTime(f, now)]. *)
Definition setFrequency (n : nat) (f : Q) (w : Web) : Web :=
  {| contexts := contexts w; nextNode := nextNode w;
     sounding := sounding w; frequency := frequency w ++ [(n, f)];
     stopsAt := stopsAt w; ramps := ramps w; timers := timers w;
     button := button w |}.

(** [node.stop(t)]. *)
Definition stopNodeAt (n : nat) (t : Q) (w : Web) : Web :=
  {| contexts := contexts w; nextNode := nextNode w;
     sounding := sounding w; frequency := frequency w;
     stopsAt := stopsAt w ++ [(n, t)]; ramps := ramps w; timers := timers w;
     button := button w |}.

(** [masterGain.gain.linearRampToValueAtTime(v, t)]. *)
Definition rampTo (v t : Q) (w : Web) : Web :=
  {| contexts := contexts w; nextNode := nextNode w;
     sounding := sounding w; frequency := frequency w;
     stopsAt := stopsAt w; ramps := ramps w ++ [(v, t)]; timers := timers w;
     button := button w |}.

Definition with_timers (w : Web) (k : nat) : Web :=
  {| contexts := contexts w; nextNode := nextNode w;
     sounding := sounding w; frequency := frequency w;
     stopsAt := stopsAt w; ramps := ramps w; timers := k;
     button := button w |}.

(** The button update that ends [start] and [stop]. *)
Definition setButton (playing : bool) (i : Icon) (w : Web) : Web :=
  {| contexts := contexts w; nextNode := nextNode w;
     sounding := sounding w; frequency := frequency w;
     stopsAt := stopsAt w; ramps := ramps w; timers := timers w;
     button :=
       option_map
         (fun b => {| playingClass := playing;
                      audioIcon := option_map (fun _ => i) (audioIcon b) |})
         (button w) |}.

(** The audio clock reaches [now]: the stops scheduled up to then take
    place. *)
Definition due (now : Q) (c : nat * Q) : bool := Qle_bool (snd c) now.

Definition elapse (now : Q) (w : Web) : Web :=
  {| contexts := contexts w; nextNode := nextNode w;
     sounding :=
       sounding w
         ∖ list_to_set (List.map fst (List.filter (due now) (stopsAt w)));
     frequency := frequency w;
     stopsAt := List.filter (fun c => negb (due now c)) (stopsAt w);
     ramps := ramps w; timers := timers w; button := button w |}.

Definition with_playing (s : t) (b : bool) : t :=
  {| ctx := ctx s; masterGain := masterGain s; isPlaying := b;
     oscillators := oscillators s; noiseNode := noiseNode s |}.

Definition with_sources (s : t) (os : list nat) (n : option nat) : t :=
  {| ctx := ctx s; masterGain := masterGain s; isPlaying := isPlaying s;
     oscillators := os; noiseNode := n |}.

(** [initContext()]. *)
Definition initContext (ws : Web * t) : Web * t :=
  let (w, s) := ws in
  match ctx s with
  | Some _ => ws
  | None =>
      let (c, w1) := newContext w in
      let (g, w2) := createNode w1 in
      (w2,
       {| ctx := Some c; masterGain := Some g; isPlaying := isPlaying s;
          oscillators := oscillators s; noiseNode := noiseNode s |})
  end.

(** [const freqs = [55, 82.5, 110, 165]]. *)
Definition freqs : list Q := [55; 82.5; 110; 165]%Q.

(** The body of [freqs.forEach((freq, i) => ...)]: an oscillator with
    its gain, a slow oscillator that wobbles its pitch with its gain;
    both oscillators are started and pushed on [oscillators]. *)
Definition voice (ws : Web * t) (v : nat * Q) : Web * t :=
  let (w, s) := ws in
  let (i, freq) := v in
  let (osc, w1) := createNode w in
  let (gain, w2) := createNode w1 in
  let w3 := setFrequency osc freq w2 in
  let (lfo, w4) := createNode w3 in
  let (lfoGain, w5) := createNode w4 in
  let w6 := setFrequency lfo (0.1 + inject_Z (Z.of_nat i) * 0.05)%Q w5 in
  let w7 := startNode lfo w6 in
  let w8 := startNode osc w7 in
  (w8, with_sources s (oscillators s ++ [osc; lfo]) (noiseNode s)).

(** [start()]. *)
Definition start (now : Q) (ws : Web * t) : Web * t :=
  let (w, s) := initContext ws in
  match ctx s, masterGain s with
  | Some _, Some _ =>
      if isPlaying s then (w, s)
      else
        let (w1, s1) :=
          fold_left voice (imap pair freqs) (w, with_playing s true) in
        let (noise, w2) := createNode w1 in
        let (noiseFilter, w3) := createNode w2 in
        let (noiseGain, w4) := createNode w3 in
        let w5 := startNode noise w4 in
        let w6 := rampTo 0.6 (now + 2) w5 in
        (setButton true IconLoud w6,
         with_sources s1 (oscillators s1) (Some noise))
  | _, _ => (w, s)
  end.

(** [stop()], up to the timer it sets. *)
Definition stop (now : Q) (ws : Web * t) : Web * t :=
  let (w, s) := ws in
  match ctx s, masterGain s with
  | Some _, Some _ =>
      let w1 := rampTo 0 (now + 1) w in
      let w2 := with_timers w1 (S (timers w1)) in
      (setButton false IconMuted w2, with_playing s false)
  | _, _ => ws
  end.

(** The callback [stop()] hands to [setTimeout]: it reads the fields
    when it runs. *)
Definition onStopTimer (ws : Web * t) : Web * t :=
  let (w, s) := ws in
  let w1 := fold_left (fun acc o => stopNode o acc) (oscillators s) w in
  let w2 := match noiseNode s with
            | Some n => stopNode n w1
            | None => w1
            end in
  (w2, with_sources s [] None).

(** One of the timers set by [stop()] fires, if one is pending. *)
Definition fireTimer (ws : Web * t) : Web * t :=
  match timers (fst ws) with
  | O => ws
  | S k => onStopTimer (with_timers (fst ws) k, snd ws)
  end.

(** [toggle()]. *)
Definition toggle (now : Q) (ws : Web * t) : Web * t :=
  if isPlaying (snd ws) then stop now ws else start now ws.

(** [playTransitionWhoosh()]: an oscillator, a gain and a filter; the
    oscillator is started, and its stop scheduled two seconds on. *)
Definition playTransitionWhoosh (now : Q) (ws : Web * t) : Web * t :=
  let (w, s) := initContext ws in
  match ctx s, masterGain s with
  | Some _, Some _ =>
      let (osc, w1) := createNode w in
      let (gain, w2) := createNode w1 in
      let (filter, w3) := createNode w2 in
      let w4 := setFrequency osc 200 w3 in
      (stopNodeAt osc (now + 2) (startNode osc w4), s)
  | _, _ => (w, s)
  end.

(** [playHoverBlip()]. *)
Definition playHoverBlip (now : Q) (ws : Web * t) : Web * t :=
  let (w, s) := initContext ws in
  match ctx s, masterGain s with
  | Some _, Some _ =>
      let (osc, w1) := createNode w in
      let (gain, w2) := createNode w1 in
      let w3 := setFrequency osc 800 w2 in
      (stopNodeAt osc (now + 0.2) (startNode osc w3), s)
  | _, _ => (w, s)
  end.

(** [get playing()]. *)
Definition playing (s : t) : bool := isPlaying s.

(** The audio system as its constructor leaves it, on a page whose
    button, if it has one, does not have the class [playing]; [icon]
    tells whether the button has an icon. *)
Definition page (b : option bool) : Web :=
  {| contexts := 0; nextNode := 0; sounding := ∅; frequency := [];
     stopsAt := []; ramps := []; timers := 0;
     button :=
       option_map
         (fun icon => {| playingClass := false;
                         audioIcon := if icon : bool then Some IconAsLoaded
                                      else None |}) b |}.

Definition create (b : option bool) : Web * t :=
  (page b,
   {| ctx := None; masterGain := None; isPlaying := false;
      oscillators := []; noiseNode := None |}).

(** What can happen to the audio system: its public methods are
    called at an audio time, a timer of [stop()] fires, the audio clock
    moves on. *)
Inductive Action : Type :=
| DoStart (now : Q)
| DoStop (now : Q)
| DoToggle (now : Q)
| DoWhoosh (now : Q)
| DoBlip (now : Q)
| DoTimer
| DoElapse (now : Q).

Definition act (ws : Web * t) (a : Action) : Web * t :=
  match a with
  | DoStart now => start now ws
  | DoStop now => stop now ws
  | DoToggle now => toggle now ws
  | DoWhoosh now => playTransitionWhoosh now ws
  | DoBlip now => playHoverBlip now ws
  | DoTimer => fireTimer ws
  | DoElapse now => (elapse now (fst ws), snd ws)
  end.

Definition acts (l : list Action) (ws : Web * t) : Web * t :=
  fold_left act l ws.

(** The sources the fields of the audio system refer to. *)
Definition drone (s : t) : gset nat :=
  list_to_set (oscillators s)
  ∪ match noiseNode s with
    | Some n => {[n]}
    | None => ∅
    end.

(** The bookkeeping of the audio system. *)
Record inv (ws : Web * t) : Prop := {
  inv_ctx : contexts (fst ws) = match ctx (snd ws) with
                                | Some _ => 1
                                | None => 0
                                end;
  inv_gain : masterGain (snd ws) = None -> ctx (snd ws) = None;
  inv_fresh : forall n,
    n ∈ sounding (fst ws) \/ n ∈ drone (snd ws)
    \/ In n (List.map fst (stopsAt (fst ws))) ->
    n < nextNode (fst ws);
  inv_sounding : drone (snd ws) ⊆ sounding (fst ws);
  inv_oneshot : forall n,
    In n (List.map fst (stopsAt (fst ws))) -> n ∉ drone (snd ws);
  inv_noise : forall n,
    noiseNode (snd ws) = Some n -> ~ In n (oscillators (snd ws));
  inv_quiet :
    isPlaying (snd ws) = false ->
    1 <= timers (fst ws)
    \/ (oscillators (snd ws) = [] /\ noiseNode (snd ws) = None);
  inv_button : forall b,
    button (fst ws) = Some b -> playingClass b = isPlaying (snd ws);
  inv_playing : isPlaying (snd ws) = true -> ctx (snd ws) <> None
}.

(** [ws'] is [ws] but for the nodes handed out and the context
    constructed in between: what sounds, what is scheduled, the timers,
    the button and the sources of the drone are the same. *)
Definition grown (ws ws' : Web * t) : Prop :=
  nextNode (fst ws) <= nextNode (fst ws')
  /\ sounding (fst ws') = sounding (fst ws)
  /\ stopsAt (fst ws') = stopsAt (fst ws)
  /\ timers (fst ws') = timers (fst ws)
  /\ button (fst ws') = button (fst ws)
  /\ isPlaying (snd ws') = isPlaying (snd ws)
  /\ oscillators (snd ws') = oscillators (snd ws)
  /\ noiseNode (snd ws') = noiseNode (snd ws).

(** A source that sounds and that nothing will stop: no field refers
    to it and no stop is scheduled for it. *)
Definition orphan (n : nat) (ws : Web * t) : Prop :=
  n ∈ sounding (fst ws) /\ (n ∉ drone (snd ws))
  /\ ~ In n (List.map fst (stopsAt (fst ws))).

End AudioSystem.

(* ================================================================= *)
(** ** Sample runs of the audio system *)

Module AudioScenario.

(** What may follow: the toggle is clicked twice, sounds are played,
    the timers fire, two seconds pass. *)
Definition laterSounds : list AudioSystem.Action :=
  [AudioSystem.DoToggle 5; AudioSystem.DoTimer; AudioSystem.DoBlip 6;
   AudioSystem.DoToggle 7; AudioSystem.DoWhoosh 8; AudioSystem.DoStop 9;
   AudioSystem.DoTimer; AudioSystem.DoTimer; AudioSystem.DoElapse 11].

End AudioScenario.

(* ================================================================= *)
(** ** The counters of the home section ([animateCounters]) *)

Module Counters.
Local Open Scope num_scope.

(** [Math.round(x)]: the nearest integer, a half going up. *)
Definition round (x : num) : num :=
  match x with
  | Fin q => Fin (inject_Z (Qfloor (q + (1 # 2))))
  | _ => x
  end.

(** What [parseInt] makes of [el.dataset.target || '0']: the attribute
    is missing or empty, it starts with the digits of an integer, or it
    does not. *)
Inductive Target : Type :=
| NoTarget
| Digits (z : Z)
| NotANumber.

Definition parseTarget (a : Target) : num :=
  match a with
  | NoTarget => Fin 0
  | Digits z => Fin (inject_Z z)
  | NotANumber => NaN
  end.

(** [const duration = 2000]. *)
Definition duration : num := Fin 2000.

(** One [.stat-number] element with the closure [update] made for it:
    the target and the start time the closure captured, the number the
    element shows ([None] until the first update), and whether a frame
    of [update] is requested. *)
Record t : Type := {
  target : num;
  start : Q;
  textContent : option num;
  requested : bool
}.

(** The body of the loop over the elements, [performance.now()]
    returning [now]. *)
Definition begin (a : Target) (now : Q) : t :=
  {| target := parseTarget a; start := now; textContent := None;
     requested := true |}.

(** [animateCounters()], on the elements with the times at which the
    loop reaches them. *)
Definition animateCounters (els : list (Target * Q)) : list t :=
  List.map (fun e => begin (fst e) (snd e)) els.

(** The closure [update]. *)
Definition update (now : Q) (c : t) : t :=
  let elapsed := Fin now - Fin (start c) in
  let progress := min (elapsed / duration) (Fin 1) in
  let eased := Fin 1 - pow (Fin 1 - progress) 3 in
  {| target := target c; start := start c;
     textContent := Some (round (target c * eased));
     requested := progress <? Fin 1 |}.

(** An animation frame: [update] runs if it was requested. *)
Definition frame (now : Q) (c : t) : t :=
  if requested c then update now c else c.

Definition frames (nows : list Q) (c : t) : t :=
  fold_left (fun acc now => frame now acc) nows c.

End Counters.

(* ================================================================= *)
(** ** The active navigation link ([updateActiveNav]) *)

Module Nav.
Local Open Scope num_scope.

(** [const sections = ['home', 'services', ...]]. *)
Definition sections : list string :=
  ["home"; "services"; "portfolio"; "about"; "testimonials"; "cta";
   "contact"]%string.

(** The document as [updateActiveNav] reads it: the [offsetTop] of the
    element with a given id, if there is one. *)
Definition Document : Type := gmap string num.

(** [section && section.offsetTop <= scrollTop]. *)
Definition reached (doc : Document) (scrollTop : num) (id : string) : bool :=
  match doc !! id with
  | Some offsetTop => offsetTop <=? scrollTop
  | None => false
  end.

(** The loop that finds the active section. *)
Definition activeSection (doc : Document) (containerScrollTop : num) : string :=
  let scrollTop := containerScrollTop + Fin 200 in
  fold_left (fun active id => if reached doc scrollTop id then id else active)
            sections "home"%string.

(** [updateActiveNav(container)]: of the navigation links, given by
    their [data-section] attributes, those that end up with the class
    [active]. *)
Definition updateActiveNav (doc : Document) (containerScrollTop : num)
    (links : list (option string)) : list bool :=
  let active := activeSection doc containerScrollTop in
  List.map (fun l => match l with
                     | Some s => String.eqb s active
                     | None => false
                     end) links.

(** The place of an id in [sections]. *)
Fixpoint indexIn (l : list string) (id : string) : nat :=
  match l with
  | [] => 0
  | x :: l' => if String.eqb x id then 0 else S (indexIn l' id)
  end.

Definition place (id : string) : nat := indexIn sections id.

End Nav.

(* ================================================================= *)
(** ** A sample document *)

Module NavScenario.

(** A document that has four of the seven sections. *)
Definition sectionTops : Nav.Document :=
  <["home"%string := Fin 0]>
    (<["services"%string := Fin 900]>
       (<["about"%string := Fin 2600]>
          (<["contact"%string := Fin 4100]> ∅))).

End NavScenario.

(* ================================================================= *)
(** ** The tilt of a card ([setup3DTilt]) *)

Module Tilt.
Local Open Scope num_scope.

(** [element.style.transform] as the code writes it. *)
Record Transform : Type := {
  rotateX : num;
  rotateY : num;
  translateZ : num;
  scale : num
}.

(** The two closures handed to [requestAnimationFrame]. *)
Inductive Callback : Type := UpdateTilt | ResetAnim.

(** What [getBoundingClientRect()] returns. *)
Record Rect : Type := {
  left : Q;
  top : Q;
  width : Q;
  height : Q
}.

(** One tilting element: the variables its closures share, its inline
    transform ([None] is the empty string), and the frame requests of a
    page that holds this element only. *)
Record t : Type := {
  serviceCard : bool;   (* element.classList.contains('service-card') *)
  currentRotateX : num;
  currentRotateY : num;
  targetRotateX : num;
  targetRotateY : num;
  animId : option nat;
  transform : option Transform;
  rafNext : nat;
  rafQueue : list (nat * Callback)
}.

(** The body of [tiltElements.forEach] up to the listeners. *)
Definition create (service : bool) : t :=
  {| serviceCard := service;
     currentRotateX := Fin 0; currentRotateY := Fin 0;
     targetRotateX := Fin 0; targetRotateY := Fin 0;
     animId := None; transform := None;
     rafNext := 1; rafQueue := [] |}.

(** [const lerp = (a, b, t) => a + (b - a) * t]. *)
Definition lerp (a b t : num) : num := a + (b - a) * t.

Definition with_raf (s : t) (n : nat) (q : list (nat * Callback)) : t :=
  {| serviceCard := serviceCard s;
     currentRotateX := currentRotateX s; currentRotateY := currentRotateY s;
     targetRotateX := targetRotateX s; targetRotateY := targetRotateY s;
     animId := animId s; transform := transform s;
     rafNext := n; rafQueue := q |}.

Definition with_animId (s : t) (a : option nat) : t :=
  {| serviceCard := serviceCard s;
     currentRotateX := currentRotateX s; currentRotateY := currentRotateY s;
     targetRotateX := targetRotateX s; targetRotateY := targetRotateY s;
     animId := a; transform := transform s;
     rafNext := rafNext s; rafQueue := rafQueue s |}.

Definition with_target (s : t) (x y : num) : t :=
  {| serviceCard := serviceCard s;
     currentRotateX := currentRotateX s; currentRotateY := currentRotateY s;
     targetRotateX := x; targetRotateY := y;
     animId := animId s; transform := transform s;
     rafNext := rafNext s; rafQueue := rafQueue s |}.

Definition with_current (s : t) (x y : num) (tr : option Transform) : t :=
  {| serviceCard := serviceCard s;
     currentRotateX := x; currentRotateY := y;
     targetRotateX := targetRotateX s; targetRotateY := targetRotateY s;
     animId := animId s; transform := tr;
     rafNext := rafNext s; rafQueue := rafQueue s |}.

Definition requestAnimationFrame (cb : Callback) (s : t) : nat * t :=
  (rafNext s, with_raf s (S (rafNext s)) (rafQueue s ++ [(rafNext s, cb)])).

Definition cancelAnimationFrame (id : nat) (s : t) : t :=
  with_raf s (rafNext s)
    (List.filter (fun c => negb (Nat.eqb (fst c) id)) (rafQueue s)).

(** Whether [animId] is truthy: neither [null] nor [0]. *)
Definition truthy (a : option nat) : bool :=
  match a with
  | Some (S _) => true
  | _ => false
  end.

(** The closure [updateTilt]. *)
Definition updateTilt (s : t) : t :=
  let x := lerp (currentRotateX s) (targetRotateX s) (Fin 0.08) in
  let y := lerp (currentRotateY s) (targetRotateY s) (Fin 0.08) in
  let tz := if serviceCard s then Fin 15 else Fin 10 in
  let s1 := with_current s x y
              (Some {| rotateX := x; rotateY := y; translateZ := tz;
                       scale := Fin 1.02 |}) in
  if (abs (x - targetRotateX s) >? Fin 0.01)
     || (abs (y - targetRotateY s) >? Fin 0.01)
  then let (id, s2) := requestAnimationFrame UpdateTilt s1 in
       with_animId s2 (Some id)
  else s1.

(** The [mousemove] listener of the element. *)
Definition onMouseMove (clientX clientY : Q) (rect : Rect) (s : t) : t :=
  let centerX := Fin (left rect) + Fin (width rect) / Fin 2 in
  let centerY := Fin (top rect) + Fin (height rect) / Fin 2 in
  let mouseX := Fin clientX - centerX in
  let mouseY := Fin clientY - centerY in
  let maxTilt := if serviceCard s then Fin 6 else Fin 8 in
  let s1 := with_target s
              (- (mouseY / (Fin (height rect) / Fin 2)) * maxTilt)
              ((mouseX / (Fin (width rect) / Fin 2)) * maxTilt) in
  if truthy (animId s1) then s1
  else let (id, s2) := requestAnimationFrame UpdateTilt s1 in
       with_animId s2 (Some id).

(** The closure [resetAnim] of a [mouseleave]. *)
Definition resetAnim (s : t) : t :=
  let x := lerp (currentRotateX s) (Fin 0) (Fin 0.1) in
  let y := lerp (currentRotateY s) (Fin 0) (Fin 0.1) in
  let s1 := with_current s x y
              (Some {| rotateX := x; rotateY := y; translateZ := Fin 0;
                       scale := Fin 1 |}) in
  if (abs x >? Fin 0.1) || (abs y >? Fin 0.1)
  then snd (requestAnimationFrame ResetAnim s1)
  else with_current s1 x y None.

(** The [mouseleave] listener of the element. *)
Definition onMouseLeave (s : t) : t :=
  let s1 := with_target s (Fin 0) (Fin 0) in
  let s2 := if truthy (animId s1)
            then match animId s1 with
                 | Some id => with_animId (cancelAnimationFrame id s1) None
                 | None => s1
                 end
            else s1 in
  snd (requestAnimationFrame ResetAnim s2).

Definition runCallback (cb : Callback) (s : t) : t :=
  match cb with
  | UpdateTilt => updateTilt s
  | ResetAnim => resetAnim s
  end.

(** One animation frame: the callbacks queued so far run in order;
    what they request is queued for the next frame. *)
Definition frame (s : t) : t :=
  fold_left (fun acc c => runCallback (snd c) acc) (rafQueue s)
            (with_raf s (rafNext s) []).

Definition frames (n : nat) (s : t) : t := Nat.iter n frame s.

(** What can happen to the element. *)
Inductive Action : Type :=
| DoMove (clientX clientY : Q) (rect : Rect)
| DoLeave
| DoFrame.

Definition act (s : t) (a : Action) : t :=
  match a with
  | DoMove x y r => onMouseMove x y r s
  | DoLeave => onMouseLeave s
  | DoFrame => frame s
  end.

Definition acts (l : list Action) (s : t) : t := fold_left act l s.

(** The pointer is over an element of positive size. *)
Definition inside (clientX clientY : Q) (r : Rect) : Prop :=
  (0 < width r /\ 0 < height r
   /\ left r <= clientX <= left r + width r
   /\ top r <= clientY <= top r + height r)%Q.

(** The pointer does not leave in [l]. *)
Definition stays (l : list Action) : bool :=
  forallb (fun a => match a with DoLeave => false | _ => true end) l.

(** [r] to the power [n]. *)
Fixpoint shrink (r : Q) (n : nat) : Q :=
  match n with
  | O => 1
  | S m => (r * shrink r m)%Q
  end.

(** The loop of [updateTilt] after [k] frames of a run toward the
    target [(tx, ty)] from [(cx, cy)]: either its next frame is
    requested under the handle in [animId], and the rotation has come
    the fraction [1 - 0.92^k] of the way, or it has stopped within 0.01
    of the target and left its last handle in [animId]. *)
Definition following (cx cy tx ty : Q) (k : nat) (s : t) : Prop :=
  targetRotateX s = Fin tx /\ targetRotateY s = Fin ty
  /\ exists x y,
       currentRotateX s = Fin x /\ currentRotateY s = Fin y
       /\ ((exists id,
              rafQueue s = [(id, UpdateTilt)] /\ animId s = Some id
              /\ 0 < id < rafNext s
              /\ (x - tx == shrink 0.92 k * (cx - tx))%Q
              /\ (y - ty == shrink 0.92 k * (cy - ty))%Q)
           \/ (rafQueue s = [] /\ truthy (animId s) = true
               /\ (Qabs (x - tx) <= 0.01)%Q /\ (Qabs (y - ty) <= 0.01)%Q)).

(** The loop of [resetAnim] after [k] frames from [(cx, cy)]. *)
Definition resetting (cx cy : Q) (k : nat) (s : t) : Prop :=
  animId s = None
  /\ targetRotateX s = Fin 0 /\ targetRotateY s = Fin 0
  /\ exists x y,
       currentRotateX s = Fin x /\ currentRotateY s = Fin y
       /\ ((exists id,
              rafQueue s = [(id, ResetAnim)]
              /\ (x == shrink 0.9 k * cx)%Q /\ (y == shrink 0.9 k * cy)%Q)
           \/ (rafQueue s = [] /\ transform s = None
               /\ (Qabs x <= 0.1)%Q /\ (Qabs y <= 0.1)%Q)).

End Tilt.

(* ================================================================= *)
(** ** A pointer hovering over a card *)

Module TiltScenario.

Definition card : Tilt.Rect :=
  {| Tilt.left := 100; Tilt.top := 200; Tilt.width := 300;
     Tilt.height := 400 |}.

(** The pointer moves about the card while frames pass. *)
Definition hovering : list Tilt.Action :=
  [Tilt.DoMove 120 220 card; Tilt.DoFrame; Tilt.DoFrame;
   Tilt.DoMove 380 590 card; Tilt.DoFrame].

End TiltScenario.

(* ================================================================= *)
(** ** The sound of [enterWorld] *)

Module Soundtrack.

(** What [enterWorld] asks of the audio system: the whoosh and the
    ambient sound when the button is clicked at [t0], and [stop()] when
    the flash is removed at [t1]; [between] is what else happens to the
    audio system in the meantime. *)
Definition entering (t0 : Q) (between : list AudioSystem.Action) (t1 : Q)
    : list AudioSystem.Action :=
  [AudioSystem.DoWhoosh t0; AudioSystem.DoStart t0] ++ between
    ++ [AudioSystem.DoStop t1].

End Soundtrack.

(* ================================================================= *)
(** ** The spin of the rings and the renders of a transition *)

Module Spin.

Definition isAnimate (c : nat * Callback) : bool :=
  match snd c with
  | CbPortalAnimate => true
  | _ => false
  end.

(** How many of the callbacks in [q] are frames of the render loop. *)
Definition loops (q : list (nat * Callback)) : nat :=
  length (List.filter isAnimate q).

(** The animation frames in [l]. *)
Definition frameCount (l : list PortalScene.Action) : nat :=
  length (List.filter (fun a => match a with
                                | PortalScene.DoFrame _ => true
                                | _ => false
                                end) l).

(** [destroy] is not called in [l]. *)
Definition lives (l : list PortalScene.Action) : bool :=
  forallb (fun a => match a with
                    | PortalScene.DoDestroy => false
                    | _ => true
                    end) l.

(** Ring [r] is ring [r0] turned [k] times by its step about Y: its
    speed is the same, and its rotation about Y has grown by [k] times
    [speed * 0.01]. *)
Definition turned (k : nat) (r0 r : PortalScene.Ring) : Prop :=
  PortalScene.speed r = PortalScene.speed r0
  /\ exists y0 y sp,
       Vector3.y (PortalScene.ring_rotation r0) = Fin y0
       /\ Vector3.y (PortalScene.ring_rotation r) = Fin y
       /\ PortalScene.speed r0 = Fin sp
       /\ (y == y0 + inject_Z (Z.of_nat k) * (sp * 0.01))%Q.

(** The portal controller between two frames, after [k] frames of its
    render loop: it lives, one frame of the loop is requested, and each
    ring has turned [k] times. *)
Definition spinning (k : nat) (es : Env * PortalScene.t) : Prop :=
  PortalScene.isDestroyed (snd es) = false
  /\ loops (rafQueue (fst es)) = 1
  /\ Forall2 (turned k) PortalScene.ringConfigs (PortalScene.rings (snd es)).

(** The same while the callbacks [rest] of a frame are yet to run:
    the loop has run in this frame or is about to. *)
Definition midFrame (k : nat) (rest : list (nat * Callback))
    (es : Env * PortalScene.t) : Prop :=
  PortalScene.isDestroyed (snd es) = false
  /\ ((loops rest = 1 /\ loops (rafQueue (fst es)) = 0
       /\ Forall2 (turned k) PortalScene.ringConfigs
            (PortalScene.rings (snd es)))
      \/ (loops rest = 0 /\ loops (rafQueue (fst es)) = 1
          /\ Forall2 (turned (S k)) PortalScene.ringConfigs
               (PortalScene.rings (snd es)))).

(** The portal controller between two frames with the render loop
    alone requested, and with a frame of the transition of promise [p]
    requested after it; the clock runs since [c], [tr] is the flag
    [isTransitioning], [n] counts the renders. *)
Definition idle (c : Q) (tr : bool) (n : nat) (es : Env * PortalScene.t)
    : Prop :=
  PortalScene.isDestroyed (snd es) = false
  /\ PortalScene.clock (snd es) = Some (Fin c)
  /\ PortalScene.isTransitioning (snd es) = tr
  /\ renders (PortalScene.renderer (snd es)) = n
  /\ exists a, rafQueue (fst es) = [(a, CbPortalAnimate)].

Definition zooming (c : Q) (st : num) (p n : nat) (es : Env * PortalScene.t)
    : Prop :=
  PortalScene.isDestroyed (snd es) = false
  /\ PortalScene.clock (snd es) = Some (Fin c)
  /\ renders (PortalScene.renderer (snd es)) = n
  /\ exists a b,
       rafQueue (fst es) = [(a, CbPortalAnimate); (b, CbPortalTransition st p)].

End Spin.

(* ================================================================= *)
(** ** The parallax of the section headers (scroll listener of
    [setup3DTilt]) *)

Module Parallax.
Local Open Scope num_scope.

(** [Math.max(x, y)]. *)
Definition max (x y : num) : num :=
  match x, y with
  | NaN, _ | _, NaN => NaN
  | _, _ => if x <? y then y else x
  end.

(** The transform written on a header. *)
Record Style : Type := {
  translateZ : num;
  rotateX : num
}.

(** The body of [headers.forEach], for a header whose bounding
    rectangle has the top [rectTop] in a window of height
    [innerHeight]. *)
Definition headerStyle (innerHeight rectTop : num) : Style :=
  let centerY := innerHeight / Fin 2 in
  let offset := (rectTop - centerY) / centerY in
  {| translateZ := max (Fin 0) (Fin 40 - abs offset * Fin 30);
     rotateX := offset * Fin (-3) |}.

End Parallax.

(* ================================================================= *)
(** * Properties *)

(** ** Arithmetic of [num] on finite values *)

Section FiniteArithmetic.
Local Open Scope Q_scope.

Lemma leb_Fin (a b : Q) : Num.leb (Fin a) (Fin b) = true <-> a <= b.
Proof.
  unfold Num.leb. rewrite Qle_alt.
  destruct (a ?= b); split; intros H; try reflexivity; try discriminate.
  now destruct H.
Qed.

Lemma ltb_Fin (a b : Q) : Num.ltb (Fin a) (Fin b) = true <-> a < b.
Proof.
  unfold Num.ltb. rewrite Qlt_alt.
  destruct (a ?= b); split; intros H; try reflexivity; discriminate.
Qed.

Lemma ltb_Fin_false (a b : Q) : Num.ltb (Fin a) (Fin b) = false <-> b <= a.
Proof.
  split; intros H.
  - apply Qnot_lt_le. intros L. apply ltb_Fin in L. congruence.
  - destruct (Num.ltb (Fin a) (Fin b)) eqn:E; [|reflexivity].
    apply ltb_Fin in E. lra.
Qed.

Lemma equiv_refl (x : num) : x =n= x.
Proof. destruct x; simpl; auto. reflexivity. Qed.

Lemma equiv_sym (x y : num) : x =n= y -> y =n= x.
Proof. destruct x, y; simpl; auto. intros H; now symmetry. Qed.

Lemma equiv_trans (x y z : num) : x =n= y -> y =n= z -> x =n= z.
Proof.
  destruct x, y, z; simpl; auto; try contradiction.
  intros H1 H2. now rewrite H1.
Qed.

End FiniteArithmetic.

(** ** Pointer smoothing *)

Section Smoothing.
Local Open Scope Q_scope.

(** One smoothing step on one axis, on rationals. *)
Lemma smooth_axis_contracts (c t f : Q) :
  0 < f < 1 -> Qabs (c + (t - c) * f + - t) <= Qabs (c + - t).
Proof.
  intros [Hf0 Hf1].
  assert (E : c + (t - c) * f + - t == (c + - t) * (1 - f)) by ring.
  rewrite E, Qabs_Qmult.
  assert (Hd : 0 <= Qabs (c + - t)) by apply Qabs_nonneg.
  rewrite (Qabs_pos (1 - f)) by lra.
  nra.
Qed.

Lemma lerp_noFarther (cx cy tx ty f : Q) :
  0 < f < 1 ->
  Spec.noFarther
    (Vector2.lerp (Vector2.mk (Fin cx) (Fin cy)) (Vector2.mk (Fin tx) (Fin ty))
       (Fin f))
    (Vector2.mk (Fin cx) (Fin cy)) (Vector2.mk (Fin tx) (Fin ty)).
Proof.
  intros Hf. split; apply leb_Fin; apply smooth_axis_contracts; exact Hf.
Qed.

End Smoothing.

(** C9. A pointer-smoothing step [current += (target - current) * factor]
    with a factor strictly between 0 and 1 never moves the pointer away
    from the target, on either axis; this holds of the step in general,
    of the step the portal's [animate] takes (factor 0.05) and of the
    step the world's [animate] takes (factor 0.03). *)
Theorem C9_pointer_smoothing_never_moves_away
    (f cx cy tx ty : Q) (M : MathLib) (now : Q)
    (ep : Env) (p : PortalScene.t) (ew : Env) (w : WorldScene.t) :
  (0 < f < 1)%Q ->
  PortalScene.isDestroyed p = false ->
  PortalScene.mouse p = Vector2.mk (Fin cx) (Fin cy) ->
  PortalScene.targetMouse p = Vector2.mk (Fin tx) (Fin ty) ->
  WorldScene.isDestroyed w = false ->
  WorldScene.mouse w = Vector2.mk (Fin cx) (Fin cy) ->
  WorldScene.targetMouse w = Vector2.mk (Fin tx) (Fin ty) ->
  Spec.noFarther
    (Vector2.lerp (Vector2.mk (Fin cx) (Fin cy)) (Vector2.mk (Fin tx) (Fin ty))
       (Fin f))
    (Vector2.mk (Fin cx) (Fin cy)) (Vector2.mk (Fin tx) (Fin ty))
  /\ Spec.noFarther
       (PortalScene.mouse (snd (PortalScene.animate M now (ep, p))))
       (PortalScene.mouse p) (PortalScene.targetMouse p)
  /\ Spec.noFarther
       (WorldScene.mouse (snd (WorldScene.animate M now (ew, w))))
       (WorldScene.mouse w) (WorldScene.targetMouse w).
Proof.
  intros Hf Hpd Hpm Hpt Hwd Hwm Hwt. split; [|split].
  - apply lerp_noFarther; exact Hf.
  - unfold PortalScene.animate. rewrite Hpd.
    destruct (Clock.getElapsedTime now (PortalScene.clock p)) as [clk time].
    cbn [snd PortalScene.mouse Browser.requestAnimationFrame].
    rewrite Hpm, Hpt. apply lerp_noFarther. lra.
  - unfold WorldScene.animate. rewrite Hwd.
    destruct (Clock.getElapsedTime now (WorldScene.clock w)) as [clk time].
    cbn [snd WorldScene.mouse Browser.requestAnimationFrame].
    rewrite Hwm, Hwt. apply lerp_noFarther. lra.
Qed.

Lemma C9_witness :
  Spec.noFarther
    (Vector2.lerp (Vector2.mk (Fin (0 # 100)) (Fin (0 # 100)))
       (Vector2.mk (Fin (960 # 1920)) (Fin (540 # 1080))) (Fin 0.5))
    (Vector2.mk (Fin (0 # 100)) (Fin (0 # 100)))
    (Vector2.mk (Fin (960 # 1920)) (Fin (540 # 1080)))
  /\ Spec.noFarther
       (PortalScene.mouse
          (snd (PortalScene.animate Sample.math 1
                  (fst Sample.portalMoved, snd Sample.portalMoved))))
       (PortalScene.mouse (snd Sample.portalMoved))
       (PortalScene.targetMouse (snd Sample.portalMoved))
  /\ Spec.noFarther
       (WorldScene.mouse
          (snd (WorldScene.animate Sample.math 1
                  (fst Sample.worldMoved, snd Sample.worldMoved))))
       (WorldScene.mouse (snd Sample.worldMoved))
       (WorldScene.targetMouse (snd Sample.worldMoved)).
Proof.
  apply (C9_pointer_smoothing_never_moves_away
           0.5 (0 # 100) (0 # 100) (960 # 1920) (540 # 1080)).
  - split; reflexivity.
  - reflexivity.
  - reflexivity.
  - reflexivity.
  - reflexivity.
  - reflexivity.
  - reflexivity.
Defined.

(** ** Camera easing in the world scene *)

(** C8. On every frame the world controller renders, with scroll
    progress [p], camera Y and camera Z each move by 0.05 of what
    separates them from [targetY = 2 - 3 p] and [targetZ = 10 - 5 p];
    after [updateScroll(0.5)] one frame moves camera Y by 0.05 of its
    distance to 0.5. *)
Theorem C8_camera_eases_toward_scroll_targets
    (M : MathLib) (now : Q) (e : Env) (w : WorldScene.t) (x : num)
    (y z p : Q) :
  WorldScene.isDestroyed w = false ->
  position (WorldScene.camera w) = Vector3.mk x (Fin y) (Fin z) ->
  WorldScene.scrollProgress w = Fin p ->
  let w1 := snd (WorldScene.animate M now (e, w)) in
  let w2 := snd (WorldScene.animate M now
                   (e, WorldScene.updateScroll (Fin 0.5) w)) in
  WorldScene.targetY (Fin p) =n= Fin (2 - 3 * p)
  /\ WorldScene.targetZ (Fin p) =n= Fin (10 - 5 * p)
  /\ Vector3.y (position (WorldScene.camera w1))
       =n= Fin (y + 0.05 * ((2 - 3 * p) - y))
  /\ Vector3.z (position (WorldScene.camera w1))
       =n= Fin (z + 0.05 * ((10 - 5 * p) - z))
  /\ Vector3.y (position (WorldScene.camera w2))
       =n= Fin (y + 0.05 * (0.5 - y)).
Proof.
  intros Hd Hpos Hp w1 w2. subst w1 w2.
  unfold WorldScene.animate, WorldScene.updateScroll.
  cbn [WorldScene.isDestroyed WorldScene.clock WorldScene.camera
       WorldScene.scrollProgress WorldScene.mouse WorldScene.targetMouse].
  rewrite Hd.
  destruct (Clock.getElapsedTime now (WorldScene.clock w)) as [clk time].
  cbn [snd fst Browser.requestAnimationFrame WorldScene.camera position].
  rewrite Hpos, Hp.
  unfold WorldScene.targetY, WorldScene.targetZ.
  cbn [Vector3.x Vector3.y Vector3.z Num.add Num.sub Num.mul Num.neg
       Num.equiv].
  repeat split; ring.
Qed.

Lemma C8_witness :
  WorldScene.targetY (Fin 0) =n= Fin (2 - 3 * 0)
  /\ WorldScene.targetZ (Fin 0) =n= Fin (10 - 5 * 0)
  /\ Vector3.y (position (WorldScene.camera
        (snd (WorldScene.animate Sample.math 1
                (fst Sample.world, snd Sample.world)))))
       =n= Fin ((200 # 100) + 0.05 * ((2 - 3 * 0) - (200 # 100)))
  /\ Vector3.z (position (WorldScene.camera
        (snd (WorldScene.animate Sample.math 1
                (fst Sample.world, snd Sample.world)))))
       =n= Fin ((1000 # 100) + 0.05 * ((10 - 5 * 0) - (1000 # 100)))
  /\ Vector3.y (position (WorldScene.camera
        (snd (WorldScene.animate Sample.math 1
                (fst Sample.world,
                 WorldScene.updateScroll (Fin 0.5) (snd Sample.world))))))
       =n= Fin ((200 # 100) + 0.05 * (0.5 - (200 # 100))).
Proof.
  apply (C8_camera_eases_toward_scroll_targets
           Sample.math 1 (fst Sample.world) (snd Sample.world)
           (Fin (0 # 100000)) (200 # 100) (1000 # 100) 0).
  - reflexivity.
  - reflexivity.
  - reflexivity.
Defined.

(** ** The transition's progress and its end pose *)

Section Progress.
Local Open Scope Q_scope.

Lemma progress_Fin (x : Q) :
  PortalScene.progress (Fin x)
  = if Num.ltb (Fin 1) (Fin (x / 0.7)) then Fin 1 else Fin (x / 0.7).
Proof. reflexivity. Qed.

(** The progress of a finite elapsed time is [min (x / 0.7) 1]. *)
Lemma progress_value (x : Q) :
  exists q, PortalScene.progress (Fin x) = Fin q
            /\ q <= 1 /\ q <= x / 0.7 /\ (q == 1 \/ q == x / 0.7).
Proof.
  rewrite progress_Fin.
  destruct (Num.ltb (Fin 1) (Fin (x / 0.7))) eqn:E.
  - apply ltb_Fin in E. exists 1. repeat split; lra.
  - apply ltb_Fin_false in E. exists (x / 0.7). repeat split; lra.
Qed.

Lemma div_07_mono (x y : Q) : x <= y -> x / 0.7 <= y / 0.7.
Proof.
  intros H. unfold Qdiv. apply Qmult_le_compat_r; [exact H|].
  now vm_compute.
Qed.

Lemma div_07_ge_1 (x : Q) : 0.7 <= x -> 1 <= x / 0.7.
Proof.
  intros H. apply Qle_shift_div_l; [reflexivity | lra].
Qed.

Lemma progress_le_1 (x : Q) :
  Num.leb (PortalScene.progress (Fin x)) (Fin 1) = true.
Proof.
  destruct (progress_value x) as (q & -> & H & _). now apply leb_Fin.
Qed.

Lemma progress_mono (x y : Q) :
  x <= y ->
  Num.leb (PortalScene.progress (Fin x)) (PortalScene.progress (Fin y)) = true.
Proof.
  intros H. pose proof (div_07_mono x y H) as D.
  destruct (progress_value x) as (q & -> & Hq1 & Hqx & _).
  destruct (progress_value y) as (r & -> & Hr1 & Hry & [Hr|Hr]);
    apply leb_Fin; lra.
Qed.

(** From the configured duration on, the progress is 1 and the
    test [progress < 1] fails. *)
Lemma progress_done (el : num) :
  Num.leb PortalScene.duration el = true ->
  PortalScene.progress el =n= Fin 1
  /\ Num.ltb (PortalScene.progress el) (Fin 1) = false.
Proof.
  destruct el as [x| | |]; try discriminate.
  - intros H. apply leb_Fin in H. apply div_07_ge_1 in H.
    destruct (progress_value x) as (q & -> & Hq1 & Hqx & [Hq|Hq]).
    + split; [exact Hq | apply ltb_Fin_false; lra].
    + split; [simpl; lra | apply ltb_Fin_false; lra].
  - intros _. split; reflexivity.
Qed.

Lemma eased_one (p : num) : p =n= Fin 1 -> PortalScene.eased p =n= Fin 1.
Proof.
  destruct p as [q| | |]; simpl; try contradiction.
  intros H. rewrite H. ring.
Qed.

End Progress.

(** C7. On the frame at which the transition completes (elapsed time
    at least the duration, so progress 1 and eased value 1) the camera's
    field of view is 100 and its Z position is -0.5, and the completion
    is signalled. *)
Theorem C7_transition_end_pose
    (now : Q) (startTime : num) (pr : nat) (e : Env) (p : PortalScene.t) :
  PortalScene.isDestroyed p = false ->
  Num.leb PortalScene.duration
    (Num.sub (snd (Clock.getElapsedTime now (PortalScene.clock p))) startTime)
    = true ->
  let elapsed :=
    Num.sub (snd (Clock.getElapsedTime now (PortalScene.clock p))) startTime in
  let r := PortalScene.transitionAnimate now startTime pr (e, p) in
  PortalScene.progress elapsed =n= Fin 1
  /\ PortalScene.eased (PortalScene.progress elapsed) =n= Fin 1
  /\ fov (PortalScene.camera (snd r)) =n= Fin 100
  /\ Vector3.z (position (PortalScene.camera (snd r))) =n= Fin (-0.5)
  /\ resolved (fst r) = resolved e ++ [pr]
  /\ rafQueue (fst r) = rafQueue e.
Proof.
  intros Hd Hel elapsed r. subst r.
  destruct (progress_done elapsed Hel) as [Hp Hlt].
  pose proof (eased_one _ Hp) as Hz.
  unfold PortalScene.transitionAnimate. rewrite Hd.
  subst elapsed.
  destruct (Clock.getElapsedTime now (PortalScene.clock p)) as [clk time].
  cbn [snd] in *. rewrite Hlt.
  cbn [snd fst PortalScene.camera fov position Vector3.set_z Vector3.z
       Browser.resolve resolved rafQueue].
  destruct (PortalScene.eased (PortalScene.progress (Num.sub time startTime)))
    as [q| | |]; try contradiction.
  simpl in Hz.
  repeat split; try assumption; simpl; rewrite Hz; reflexivity.
Qed.

Lemma C7_witness :
  PortalScene.progress
    (Num.sub (snd (Clock.getElapsedTime 1.7
                     (PortalScene.clock (snd Sample.portal)))) (Fin 1))
    =n= Fin 1
  /\ PortalScene.eased
       (PortalScene.progress
          (Num.sub (snd (Clock.getElapsedTime 1.7
                           (PortalScene.clock (snd Sample.portal)))) (Fin 1)))
       =n= Fin 1
  /\ fov (PortalScene.camera
            (snd (PortalScene.transitionAnimate 1.7 (Fin 1) 0
                    (fst Sample.portal, snd Sample.portal)))) =n= Fin 100
  /\ Vector3.z (position (PortalScene.camera
            (snd (PortalScene.transitionAnimate 1.7 (Fin 1) 0
                    (fst Sample.portal, snd Sample.portal))))) =n= Fin (-0.5)
  /\ resolved (fst (PortalScene.transitionAnimate 1.7 (Fin 1) 0
                      (fst Sample.portal, snd Sample.portal)))
     = resolved (fst Sample.portal) ++ [0]
  /\ rafQueue (fst (PortalScene.transitionAnimate 1.7 (Fin 1) 0
                      (fst Sample.portal, snd Sample.portal)))
     = rafQueue (fst Sample.portal).
Proof.
  apply (C7_transition_end_pose 1.7 (Fin 1) 0
           (fst Sample.portal) (snd Sample.portal)).
  - reflexivity.
  - reflexivity.
Defined.

(** ** The grid floor's offset *)

Section GridOffset.
Local Open Scope Q_scope.

Lemma Qfloor_unique (z : Z) (x : Q) :
  inject_Z z <= x -> x < inject_Z (z + 1) -> Qfloor x = z.
Proof.
  intros Hlo Hhi.
  pose proof (Qfloor_le x) as F1. pose proof (Qlt_floor x) as F2.
  assert (A : (Qfloor x < z + 1)%Z).
  { rewrite Zlt_Qlt. eapply Qle_lt_trans; eassumption. }
  assert (B : (z < Qfloor x + 1)%Z).
  { rewrite Zlt_Qlt. eapply Qle_lt_trans; eassumption. }
  lia.
Qed.

Lemma Qfloor_succ (x : Q) : Qfloor (x + 1) = (Qfloor x + 1)%Z.
Proof.
  pose proof (Qfloor_le x) as F1. pose proof (Qlt_floor x) as F2.
  apply Qfloor_unique.
  - rewrite inject_Z_plus. change (inject_Z 1) with 1. lra.
  - rewrite !inject_Z_plus in *. change (inject_Z 1) with 1 in *. lra.
Qed.

Lemma Qceiling_pred (x : Q) : Qceiling (x - 1) = (Qceiling x - 1)%Z.
Proof.
  unfold Qceiling.
  assert (E : - (x - 1) == - x + 1) by ring.
  rewrite E, Qfloor_succ. lia.
Qed.

(** Toward zero is upward on what is not positive. *)
Lemma trunc_nonpos (q : Q) : q <= 0 -> Num.trunc q = Qceiling q.
Proof.
  intros H. unfold Num.trunc.
  destruct (Qcompare_spec q 0) as [E|L|G].
  - rewrite E. reflexivity.
  - reflexivity.
  - lra.
Qed.

Lemma gridOffset_Fin (t : Q) :
  WorldScene.gridOffset (Fin t)
  = Fin (- (t * 0.5) - inject_Z (Num.trunc (- (t * 0.5) / 4)) * 4).
Proof. reflexivity. Qed.

Lemma gridOffset_shift_8 (t : Q) :
  0 <= t ->
  WorldScene.gridOffset (Fin (t + 8)) =n= WorldScene.gridOffset (Fin t).
Proof.
  intros Ht. rewrite !gridOffset_Fin. simpl.
  assert (E : - ((t + 8) * 0.5) / 4 == - (t * 0.5) / 4 - 1) by field.
  assert (N : - (t * 0.5) / 4 <= 0).
  { assert (- (t * 0.5) / 4 == - t * (1 # 8)) as -> by field. lra. }
  rewrite (trunc_nonpos (- ((t + 8) * 0.5) / 4)) by (rewrite E; lra).
  rewrite (trunc_nonpos (- (t * 0.5) / 4)) by exact N.
  rewrite E, Qceiling_pred.
  unfold Zminus. rewrite inject_Z_plus.
  change (inject_Z (Z.opp 1)) with (-1).
  generalize (inject_Z (Qceiling (- (t * 0.5) / 4))). intros c. ring.
Qed.

End GridOffset.

(** C2, as the code has it.  The grid floor's Z offset is
    [-(t * 0.5) % 4]: it wraps every 4 units of [t * 0.5], that is every
    8 units of [t]; for every [t >= 0] the offset at [t + 8] is the
    offset at [t], and each frame stores that offset in the grid. *)
Theorem C2_grid_offset_period_is_8
    (t : Q) (M : MathLib) (now : Q) (e : Env) (w : WorldScene.t) :
  (0 <= t)%Q ->
  WorldScene.isDestroyed w = false ->
  WorldScene.gridOffset (Num.add (Fin t) (Fin 8))
    =n= WorldScene.gridOffset (Fin t)
  /\ Vector3.z (WorldScene.gridFloor (snd (WorldScene.animate M now (e, w))))
     = WorldScene.gridOffset
         (snd (Clock.getElapsedTime now (WorldScene.clock w))).
Proof.
  intros Ht Hd. split.
  - apply gridOffset_shift_8. exact Ht.
  - unfold WorldScene.animate. rewrite Hd.
    destruct (Clock.getElapsedTime now (WorldScene.clock w)) as [clk time].
    reflexivity.
Qed.

Lemma C2_witness :
  WorldScene.gridOffset (Num.add (Fin 3) (Fin 8))
    =n= WorldScene.gridOffset (Fin 3)
  /\ Vector3.z (WorldScene.gridFloor
        (snd (WorldScene.animate Sample.math 3
                (fst Sample.world, snd Sample.world))))
     = WorldScene.gridOffset
         (snd (Clock.getElapsedTime 3 (WorldScene.clock (snd Sample.world)))).
Proof.
  apply (C2_grid_offset_period_is_8 3 Sample.math 3
           (fst Sample.world) (snd Sample.world)).
  - discriminate.
  - reflexivity.
Defined.

(** C2, as stated, fails: the offset at [t = 0] is 0, the offset at
    [t = 0 + 4] is -2. *)
Lemma C2_counterexample :
  WorldScene.gridOffset (Fin 0) =n= Fin 0
  /\ WorldScene.gridOffset (Num.add (Fin 0) (Fin 4)) =n= Fin (-2)
  /\ Num.ltb (WorldScene.gridOffset (Num.add (Fin 0) (Fin 4)))
             (WorldScene.gridOffset (Fin 0)) = true.
Proof. repeat split. Qed.

(** ** Scroll progress *)

(** C1, as the code has it.  When [scrollHeight] equals
    [clientHeight] the scroll listener divides [scrollTop] by zero and
    hands the quotient to [updateScroll] as it is: [NaN] when
    [scrollTop] is 0, an infinity of the sign of [scrollTop] otherwise.
    It is never 0. *)
Theorem C1_unscrollable_progress_is_not_clamped
    (a : GallantExperience.t) (w : WorldScene.t) (top h : Q) :
  GallantExperience.world a = true ->
  GallantExperience.worldObj a = Some w ->
  let progress :=
    GallantExperience.scrollProgressOf (Fin top) (Fin h) (Fin h) in
  GallantExperience.worldObj
    (GallantExperience.onScroll (Fin top) (Fin h) (Fin h) a)
  = Some (WorldScene.updateScroll progress w)
  /\ WorldScene.scrollProgress (WorldScene.updateScroll progress w) = progress
  /\ progress = match (top ?= 0)%Q with
                | Eq => NaN
                | Gt => PInf
                | Lt => NInf
                end
  /\ Num.is_finite progress = false
  /\ Num.eqb progress (Fin 0) = false.
Proof.
  intros Hw Ho progress.
  assert (P : progress = match (top ?= 0)%Q with
                         | Eq => NaN | Gt => PInf | Lt => NInf end).
  { subst progress. unfold GallantExperience.scrollProgressOf.
    cbn [Num.sub Num.neg Num.add Num.div].
    assert (Z0 : (h + - h ?= 0)%Q = Eq) by (apply Qeq_alt; ring).
    rewrite Z0. reflexivity. }
  repeat split.
  - unfold GallantExperience.onScroll. rewrite Hw, Ho. reflexivity.
  - exact P.
  - rewrite P. destruct (top ?= 0)%Q; reflexivity.
  - rewrite P. destruct (top ?= 0)%Q; reflexivity.
Qed.

Lemma C1_witness :
  GallantExperience.worldObj
    (GallantExperience.onScroll (Fin 0) (Fin 600) (Fin 600) Sample.entered)
  = Some (WorldScene.updateScroll
            (GallantExperience.scrollProgressOf (Fin 0) (Fin 600) (Fin 600))
            Sample.enteredWorld)
  /\ WorldScene.scrollProgress
       (WorldScene.updateScroll
          (GallantExperience.scrollProgressOf (Fin 0) (Fin 600) (Fin 600))
          Sample.enteredWorld)
     = GallantExperience.scrollProgressOf (Fin 0) (Fin 600) (Fin 600)
  /\ GallantExperience.scrollProgressOf (Fin 0) (Fin 600) (Fin 600) = NaN
  /\ Num.is_finite
       (GallantExperience.scrollProgressOf (Fin 0) (Fin 600) (Fin 600)) = false
  /\ Num.eqb (GallantExperience.scrollProgressOf (Fin 0) (Fin 600) (Fin 600))
             (Fin 0) = false.
Proof.
  apply (C1_unscrollable_progress_is_not_clamped
           Sample.entered Sample.enteredWorld 0 600).
  - vm_compute. reflexivity.
  - vm_compute. reflexivity.
Defined.

(** C1, as stated, fails: the page is showing the world, a scroll
    event arrives with [scrollTop = 0] and [scrollHeight = clientHeight
    = 600], and the progress the world controller holds afterwards is
    [NaN], which is not 0. *)
Lemma C1_counterexample :
  option_map WorldScene.scrollProgress
    (GallantExperience.worldObj
       (GallantExperience.step Sample.math Sample.config Sample.entered
          (3%Q, GallantExperience.EvScroll (Fin 0) (Fin 600) (Fin 600))))
  = Some NaN
  /\ Num.eqb NaN (Fin 0) = false.
Proof. split; vm_compute; reflexivity. Qed.

(** ** After destruction *)

Lemma portal_callback_destroyed (M : MathLib) (now : Q) (cb : Callback)
    (e : Env) (s : PortalScene.t) :
  PortalScene.isDestroyed s = true ->
  snd (PortalScene.runCallback M now cb (e, s)) = s.
Proof.
  intros H. destruct cb; simpl; try rewrite H; reflexivity.
Qed.

Lemma world_callback_destroyed (M : MathLib) (now : Q) (cb : Callback)
    (e : Env) (s : WorldScene.t) :
  WorldScene.isDestroyed s = true ->
  snd (WorldScene.runCallback M now cb (e, s)) = s.
Proof.
  intros H. destruct cb; simpl; try rewrite H; reflexivity.
Qed.

(** A frame leaves alone a state that each callback leaves alone. *)
Lemma runFrame_fixed {St : Type} (run : Callback -> Env * St -> Env * St)
    (s : St) :
  (forall cb e, snd (run cb (e, s)) = s) ->
  forall e, snd (runFrame run (e, s)) = s.
Proof.
  intros Hrun e. unfold runFrame. cbn [fst snd].
  generalize (Browser.with_raf e (rafNext e) []).
  induction (rafQueue e) as [|c q IH]; intros e0; [reflexivity|].
  cbn [fold_left].
  destruct (run (snd c) (e0, s)) as [e1 s1] eqn:E.
  assert (s1 = s) as -> by (rewrite <- (Hrun (snd c) e0), E; reflexivity).
  apply IH.
Qed.

Lemma portal_frames_destroyed (M : MathLib) (nows : list Q)
    (e : Env) (s : PortalScene.t) :
  PortalScene.isDestroyed s = true ->
  snd (PortalScene.frames M nows (e, s)) = s.
Proof.
  intros H. unfold PortalScene.frames. revert e.
  induction nows as [|now nows IH]; intros e; [reflexivity|].
  cbn [fold_left].
  destruct (PortalScene.frame M now (e, s)) as [e1 s1] eqn:E.
  assert (s1 = s) as ->.
  { change s1 with (snd (e1, s1)). rewrite <- E.
    apply runFrame_fixed. intros cb e0.
    now apply portal_callback_destroyed. }
  apply IH.
Qed.

Lemma world_frames_destroyed (M : MathLib) (nows : list Q)
    (e : Env) (s : WorldScene.t) :
  WorldScene.isDestroyed s = true ->
  snd (WorldScene.frames M nows (e, s)) = s.
Proof.
  intros H. unfold WorldScene.frames. revert e.
  induction nows as [|now nows IH]; intros e; [reflexivity|].
  cbn [fold_left].
  destruct (WorldScene.frame M now (e, s)) as [e1 s1] eqn:E.
  assert (s1 = s) as ->.
  { change s1 with (snd (e1, s1)). rewrite <- E.
    apply runFrame_fixed. intros cb e0.
    now apply world_callback_destroyed. }
  apply IH.
Qed.

(** C5. Once a controller's [isDestroyed] flag is set, a frame
    callback that still fires changes nothing about the controller (no
    update, no render: the renderer's count of [render] calls is part
    of the state), however many frames follow and whatever is queued,
    and a resize of the window leaves its camera and renderer as they
    were.  This holds of the portal's [animate] and [transitionAnimate]
    and of the world's [animate]. *)
Theorem C5_destroyed_controller_ignores_frames_and_resize
    (M : MathLib) (now : Q) (startTime : num) (pr : nat) (nows : list Q)
    (width height : num)
    (ep : Env) (ps : PortalScene.t) (ew : Env) (ws : WorldScene.t) :
  PortalScene.isDestroyed ps = true ->
  WorldScene.isDestroyed ws = true ->
  (PortalScene.animate M now (ep, ps) = (ep, ps)
   /\ snd (PortalScene.transitionAnimate now startTime pr (ep, ps)) = ps
   /\ snd (PortalScene.frames M nows (ep, ps)) = ps
   /\ snd (PortalScene.onResize (Browser.resizeTo width height ep, ps)) = ps)
  /\ (WorldScene.animate M now (ew, ws) = (ew, ws)
      /\ snd (WorldScene.frames M nows (ew, ws)) = ws
      /\ snd (WorldScene.onResize (Browser.resizeTo width height ew, ws)) = ws).
Proof.
  intros Hp Hw. split; repeat split.
  - unfold PortalScene.animate. now rewrite Hp.
  - unfold PortalScene.transitionAnimate. now rewrite Hp.
  - now apply portal_frames_destroyed.
  - unfold PortalScene.onResize. now rewrite Hp.
  - unfold WorldScene.animate. now rewrite Hw.
  - now apply world_frames_destroyed.
  - unfold WorldScene.onResize. now rewrite Hw.
Qed.

(** ** Destroying twice *)

Lemma with_gpu_with_gpu (e : Env) (g g' : gset nat) :
  Browser.with_gpu (Browser.with_gpu e g) g' = Browser.with_gpu e g'.
Proof. reflexivity. Qed.

Lemma fold_dispose (ms : list nat) (e : Env) :
  fold_left (fun acc m => Browser.dispose m acc) ms e
  = Browser.with_gpu e (gpuLive e ∖ list_to_set ms).
Proof.
  revert e. induction ms as [|m ms IH]; intros e; cbn [fold_left].
  - destruct e; unfold Browser.with_gpu; cbn. f_equal. set_solver.
  - rewrite IH. unfold Browser.dispose. rewrite with_gpu_with_gpu.
    f_equal. cbn. set_solver.
Qed.

Lemma disposeObject_spec (o : Object3D) (e : Env) :
  Browser.disposeObject o e
  = Browser.with_gpu e (gpuLive e ∖ Spec.handlesOf o).
Proof.
  unfold Browser.disposeObject, Spec.handlesOf. rewrite fold_dispose.
  destruct (geometry o) as [g|].
  - unfold Browser.dispose. rewrite with_gpu_with_gpu. f_equal. cbn.
    set_solver.
  - f_equal. set_solver.
Qed.

(** [disposeAll] releases exactly the handles the traversal reaches. *)
Lemma disposeAll_spec (os : list Object3D) (e : Env) :
  Browser.disposeAll os e
  = Browser.with_gpu e (gpuLive e ∖ Spec.handles os).
Proof.
  unfold Browser.disposeAll, Spec.handles. revert e.
  induction os as [|o os IH]; intros e; cbn [fold_left List.map].
  - destruct e; unfold Browser.with_gpu; cbn. f_equal. set_solver.
  - rewrite IH, disposeObject_spec, with_gpu_with_gpu. f_equal. cbn.
    set_solver.
Qed.

Lemma filter_twice {A : Type} (f : A -> bool) (l : list A) :
  List.filter f (List.filter f l) = List.filter f l.
Proof.
  induction l as [|a l IH]; [reflexivity|]. cbn.
  destruct (f a) eqn:E; cbn; [rewrite E, IH|]; auto.
Qed.

(** The environment [destroy] leaves: the frame handle [id] cancelled,
    the context [ctx] and the handles of [os] released. *)
Lemma teardown_spec (id ctx : nat) (os : list Object3D) (e : Env) :
  Browser.disposeAll os
    (Browser.dispose ctx (Browser.cancelAnimationFrame id e))
  = {| innerWidth := innerWidth e; innerHeight := innerHeight e;
       devicePixelRatio := devicePixelRatio e;
       rafNext := rafNext e;
       rafQueue :=
         List.filter (fun c => negb (Nat.eqb (fst c) id)) (rafQueue e);
       gpuLive := gpuLive e ∖ ({[ctx]} ∪ Spec.handles os);
       promiseNext := promiseNext e; resolved := resolved e |}.
Proof.
  rewrite disposeAll_spec. unfold Browser.dispose, Browser.with_gpu,
    Browser.cancelAnimationFrame, Browser.with_raf. cbn.
  f_equal. set_solver.
Qed.

(** C6. Calling [destroy] a second time on either controller leaves
    the controller and its environment exactly as the first call left
    them: the flag stays set, the frame queue stays as cancelled, the
    same GPU resources stay released.  [destroy] has no failing path. *)
Theorem C6_destroy_twice_is_destroy_once
    (ep : Env) (ps : PortalScene.t) (ew : Env) (ws : WorldScene.t) :
  (PortalScene.destroy (PortalScene.destroy (ep, ps))
     = PortalScene.destroy (ep, ps)
   /\ PortalScene.isDestroyed (snd (PortalScene.destroy (ep, ps))) = true
   /\ gpuLive (fst (PortalScene.destroy (ep, ps)))
      = gpuLive ep
          ∖ ({[context (PortalScene.renderer ps)]}
               ∪ Spec.handles (PortalScene.scene ps)))
  /\ (WorldScene.destroy (WorldScene.destroy (ew, ws))
        = WorldScene.destroy (ew, ws)
      /\ WorldScene.isDestroyed (snd (WorldScene.destroy (ew, ws))) = true
      /\ gpuLive (fst (WorldScene.destroy (ew, ws)))
         = gpuLive ew
             ∖ ({[context (WorldScene.renderer ws)]}
                  ∪ Spec.handles (WorldScene.scene ws))).
Proof.
  split; repeat split.
  - unfold PortalScene.destroy. cbn -[Browser.disposeAll Browser.dispose
      Browser.cancelAnimationFrame].
    rewrite !teardown_spec. cbn. f_equal. f_equal.
    + apply filter_twice.
    + set_solver.
  - unfold PortalScene.destroy. cbn -[Browser.disposeAll Browser.dispose
      Browser.cancelAnimationFrame]. now rewrite teardown_spec.
  - unfold WorldScene.destroy. cbn -[Browser.disposeAll Browser.dispose
      Browser.cancelAnimationFrame].
    rewrite !teardown_spec. cbn. f_equal. f_equal.
    + apply filter_twice.
    + set_solver.
  - unfold WorldScene.destroy. cbn -[Browser.disposeAll Browser.dispose
      Browser.cancelAnimationFrame]. now rewrite teardown_spec.
Qed.

(** ** Frames and promises: the bookkeeping invariant *)

Section QueueInvariant.
Import Spec.

Lemma pendingIn_cons (p : nat) (c : nat * Callback) (q : list (nat * Callback)) :
  pendingIn p (c :: q) = (if resolves p (snd c) then 1 else 0) + pendingIn p q.
Proof. unfold pendingIn. cbn. destruct (resolves p (snd c)); reflexivity. Qed.

Lemma pendingIn_app (p : nat) (q1 q2 : list (nat * Callback)) :
  pendingIn p (q1 ++ q2) = pendingIn p q1 + pendingIn p q2.
Proof. unfold pendingIn. now rewrite List.filter_app, List.length_app. Qed.

Lemma resolves_transition (p : nat) (cb : Callback) :
  isTransition cb = false -> resolves p cb = false.
Proof. destruct cb; simpl; congruence. Qed.

Lemma resolveCalls_resolve (p p' : nat) (e : Env) :
  Browser.resolveCalls p (Browser.resolve p' e)
  = Browser.resolveCalls p e + (if Nat.eqb p' p then 1 else 0).
Proof.
  unfold Browser.resolveCalls, Browser.resolve. cbn.
  rewrite count_occ_app. cbn.
  destruct (Nat.eq_dec p' p) as [E|N].
  - subst. now rewrite Nat.eqb_refl.
  - apply Nat.eqb_neq in N. now rewrite N.
Qed.

(** Only the handle counter and the promise log of the environment
    matter to the invariant. *)
Lemma queueInv_ext (q : list (nat * Callback)) (e e' : Env) (a : nat) :
  rafNext e' = rafNext e -> resolved e' = resolved e ->
  promiseNext e' = promiseNext e ->
  queueInv q e a -> queueInv q e' a.
Proof.
  intros H1 H2 H3 [I1 I2 I3 I4]. split.
  - now rewrite H1.
  - now rewrite H1.
  - exact I3.
  - intros p. unfold Browser.resolveCalls. rewrite H2, H3. apply I4.
Qed.

(** A callback that is no transition frame leaves the head of the
    queue. *)
Lemma queueInv_skip (c : nat * Callback) (q : list (nat * Callback))
    (e : Env) (a : nat) :
  isTransition (snd c) = false ->
  queueInv (c :: q) e a -> queueInv q e a.
Proof.
  intros Hc [I1 I2 I3 I4]. split.
  - now inversion I1.
  - exact I2.
  - now inversion I3.
  - intros p. specialize (I4 p). rewrite pendingIn_cons in I4.
    now rewrite (resolves_transition p _ Hc) in I4.
Qed.

(** A callback that is no transition frame is requested; the portal's
    [animationId] stays, or becomes the new handle. *)
Lemma queueInv_request (cb : Callback) (rest : list (nat * Callback))
    (e : Env) (a a' : nat) :
  isTransition cb = false ->
  a' = a \/ a' = rafNext e ->
  queueInv (rest ++ rafQueue e) e a ->
  queueInv (rest ++ rafQueue (snd (Browser.requestAnimationFrame cb e)))
           (snd (Browser.requestAnimationFrame cb e)) a'.
Proof.
  intros Hcb Ha [I1 I2 I3 I4]. cbn. rewrite List.app_assoc.
  split; cbn -[Nat.ltb Nat.eqb pendingIn].
  - apply Forall_app. split.
    + eapply Forall_impl; [|exact I1]. cbn. intros; lia.
    + repeat constructor.
  - destruct Ha; subst; lia.
  - apply Forall_app. split.
    + destruct Ha as [->| ->]; [exact I3|].
      eapply Forall_impl; [|exact I1]. cbn. intros c Hc E. lia.
    + repeat constructor. intros _. exact Hcb.
  - intros p. rewrite pendingIn_app, pendingIn_cons. cbn [snd].
    rewrite (resolves_transition p _ Hcb). specialize (I4 p).
    change (pendingIn p []) with 0.
    unfold Browser.resolveCalls in *. cbn -[Nat.ltb] in *. lia.
Qed.

(** The transition frame at the head of the queue requests itself
    again. *)
Lemma queueInv_requeue (id p : nat) (st st' : num)
    (rest : list (nat * Callback)) (e : Env) (a : nat) :
  queueInv ((id, CbPortalTransition st p) :: rest ++ rafQueue e) e a ->
  queueInv
    (rest ++ rafQueue (snd (Browser.requestAnimationFrame
                              (CbPortalTransition st' p) e)))
    (snd (Browser.requestAnimationFrame (CbPortalTransition st' p) e)) a.
Proof.
  intros [I1 I2 I3 I4]. cbn. rewrite List.app_assoc.
  split; cbn -[Nat.ltb Nat.eqb pendingIn].
  - apply Forall_app. split.
    + inversion I1; subst. eapply Forall_impl; [|eassumption]. cbn.
      intros; lia.
    + repeat constructor.
  - lia.
  - apply Forall_app. split.
    + now inversion I3.
    + repeat constructor. cbn. intros E. lia.
  - intros q. specialize (I4 q). rewrite pendingIn_cons in I4.
    rewrite pendingIn_app, pendingIn_cons.
    unfold Browser.resolveCalls in *. cbn -[Nat.ltb] in *.
    change (pendingIn q []) with 0.
    destruct (Nat.eqb p q); destruct (Nat.ltb q (promiseNext e)).
    all: lia.
Qed.

(** The transition frame at the head of the queue resolves its
    promise. *)
Lemma queueInv_resolve (id p : nat) (st : num)
    (q : list (nat * Callback)) (e : Env) (a : nat) :
  queueInv ((id, CbPortalTransition st p) :: q) e a ->
  queueInv q (Browser.resolve p e) a.
Proof.
  intros [I1 I2 I3 I4]. split.
  - now inversion I1.
  - exact I2.
  - now inversion I3.
  - intros r. specialize (I4 r). rewrite pendingIn_cons in I4.
    cbn -[Nat.ltb Nat.eqb pendingIn] in I4.
    rewrite resolveCalls_resolve. cbn [promiseNext Browser.resolve].
    destruct (Nat.eqb p r); destruct (Nat.ltb r (promiseNext e)); lia.
Qed.

(** [cancelAnimationFrame(animationId)] removes no transition frame. *)
Lemma queueInv_cancel (e : Env) (a : nat) :
  queueInv (rafQueue e) e a ->
  queueInv (rafQueue (Browser.cancelAnimationFrame a e))
           (Browser.cancelAnimationFrame a e) a.
Proof.
  intros [I1 I2 I3 I4]. cbn.
  set (keep := fun c : nat * Callback => negb (Nat.eqb (fst c) a)).
  assert (P : forall p q,
             Forall (fun c => fst c = a -> isTransition (snd c) = false) q ->
             pendingIn p (List.filter keep q) = pendingIn p q).
  { intros p q. induction 1 as [|c q Hc _ IH]; [reflexivity|].
    cbn [List.filter]. unfold keep at 1.
    destruct (Nat.eqb_spec (fst c) a) as [E|N]; cbn [negb].
    - rewrite pendingIn_cons, (resolves_transition p _ (Hc E)). exact IH.
    - now rewrite !pendingIn_cons, IH. }
  split; cbn.
  - apply incl_Forall with (l1 := rafQueue e); [|exact I1].
    intros c Hc. now apply List.filter_In in Hc.
  - exact I2.
  - apply incl_Forall with (l1 := rafQueue e); [|exact I3].
    intros c Hc. now apply List.filter_In in Hc.
  - intros p. rewrite (P p _ I3). apply I4.
Qed.

(** A first call of [transitionOut]: a new promise with one frame
    queued for it. *)
Lemma queueInv_start (st : num) (e : Env) (a : nat) :
  queueInv (rafQueue e) e a ->
  queueInv
    (rafQueue (snd (Browser.requestAnimationFrame
                      (CbPortalTransition st (promiseNext e))
                      (snd (Browser.newPromise e)))))
    (snd (Browser.requestAnimationFrame
            (CbPortalTransition st (promiseNext e))
            (snd (Browser.newPromise e)))) a.
Proof.
  intros [I1 I2 I3 I4]. split; cbn -[Nat.ltb Nat.eqb pendingIn].
  - apply Forall_app. split.
    + eapply Forall_impl; [|exact I1]. cbn. intros; lia.
    + repeat constructor.
  - lia.
  - apply Forall_app. split; [exact I3|].
    repeat constructor. cbn. intros E. lia.
  - intros p. specialize (I4 p). rewrite pendingIn_app, pendingIn_cons.
    unfold Browser.resolveCalls in *. cbn -[Nat.ltb Nat.eqb pendingIn] in *.
    change (pendingIn p []) with 0.
    destruct (Nat.eqb_spec (promiseNext e) p) as [E|N];
      destruct (Nat.ltb_spec p (promiseNext e));
      destruct (Nat.ltb_spec p (S (promiseNext e))); lia.
Qed.

(** A call of [transitionOut] while a transition runs: a new promise,
    resolved on the spot. *)
Lemma queueInv_again (e : Env) (a : nat) :
  queueInv (rafQueue e) e a ->
  queueInv (rafQueue (Browser.resolve (promiseNext e) (snd (Browser.newPromise e))))
           (Browser.resolve (promiseNext e) (snd (Browser.newPromise e))) a.
Proof.
  intros [I1 I2 I3 I4]. split; try assumption.
  intros p. specialize (I4 p). rewrite resolveCalls_resolve.
  unfold Browser.resolveCalls in *. cbn -[Nat.ltb Nat.eqb pendingIn] in *.
  destruct (Nat.eqb_spec (promiseNext e) p) as [E|N];
    destruct (Nat.ltb_spec p (promiseNext e));
    destruct (Nat.ltb_spec p (S (promiseNext e))); lia.
Qed.

End QueueInvariant.

(** ** The portal controller keeps the invariant *)

Section PortalInvariant.
Import Spec.

(** The five parts of [frameInv], without opening [queueInv]. *)
Ltac split_inv :=
  split; [|split; [|split; [|split]]]; try reflexivity.

(** A property of the callbacks still to run and of the page holds
    after a frame if each callback maintains it. *)
Lemma runFrame_inv {St : Type} (run : Callback -> Env * St -> Env * St)
    (I : list (nat * Callback) -> Env * St -> Prop) :
  (forall c rest es, I (c :: rest) es -> I rest (run (snd c) es)) ->
  forall es,
    I (rafQueue (fst es)) (Browser.with_raf (fst es) (rafNext (fst es)) [], snd es) ->
    I [] (runFrame run es).
Proof.
  intros Hstep es. unfold runFrame.
  generalize (Browser.with_raf (fst es) (rafNext (fst es)) [], snd es).
  induction (rafQueue (fst es)) as [|c q IH]; intros es0 H; [exact H|].
  cbn [fold_left]. apply IH. now apply Hstep.
Qed.

Lemma animate_alive (M : MathLib) (now : Q) (e : Env) (s : PortalScene.t) :
  PortalScene.isDestroyed s = false ->
  fst (PortalScene.animate M now (e, s))
    = snd (Browser.requestAnimationFrame CbPortalAnimate e)
  /\ PortalScene.animationId (snd (PortalScene.animate M now (e, s)))
     = rafNext e
  /\ PortalScene.clock (snd (PortalScene.animate M now (e, s)))
     = fst (Clock.getElapsedTime now (PortalScene.clock s))
  /\ PortalScene.isDestroyed (snd (PortalScene.animate M now (e, s))) = false.
Proof.
  intros H. unfold PortalScene.animate. rewrite H.
  destruct (Clock.getElapsedTime now (PortalScene.clock s)) as [clk time].
  repeat split.
Qed.

Lemma transitionAnimate_alive (now : Q) (st : num) (p : nat)
    (e : Env) (s : PortalScene.t) :
  PortalScene.isDestroyed s = false ->
  fst (PortalScene.transitionAnimate now st p (e, s))
    = (if Num.ltb (PortalScene.progress
                     (Num.sub (snd (Clock.getElapsedTime now (PortalScene.clock s))) st))
                  (Fin 1)
       then snd (Browser.requestAnimationFrame (CbPortalTransition st p) e)
       else Browser.resolve p e)
  /\ PortalScene.animationId (snd (PortalScene.transitionAnimate now st p (e, s)))
     = PortalScene.animationId s
  /\ PortalScene.clock (snd (PortalScene.transitionAnimate now st p (e, s)))
     = fst (Clock.getElapsedTime now (PortalScene.clock s))
  /\ PortalScene.isDestroyed (snd (PortalScene.transitionAnimate now st p (e, s)))
     = false.
Proof.
  intros H. unfold PortalScene.transitionAnimate. rewrite H.
  destruct (Clock.getElapsedTime now (PortalScene.clock s)) as [clk time].
  cbn [snd fst].
  destruct (Num.ltb _ _); repeat split.
Qed.

Lemma clock_running (now c : Q) :
  Clock.getElapsedTime now (Some (Fin c)) = (Some (Fin c), Fin (now + - c)).
Proof. reflexivity. Qed.

Lemma resolveCalls_mono (p p' : nat) (e : Env) :
  Browser.resolveCalls p e <= Browser.resolveCalls p (Browser.resolve p' e).
Proof. rewrite resolveCalls_resolve. lia. Qed.

(** Each frame callback of the portal keeps the invariant. *)
Lemma portal_callback_frameInv (M : MathLib) (now : Q)
    (P : Callback -> Prop) (c : Q) (n p r : nat)
    (cb : nat * Callback) (rest : list (nat * Callback))
    (es : Env * PortalScene.t) :
  admits P n ->
  frameInv P c n p r (cb :: rest) es ->
  frameInv P c n p r rest (PortalScene.runCallback M now (snd cb) es).
Proof.
  intros (PA & PW & PT) (IQ & IC & IP & IN & IR).
  destruct es as [e s], cb as [id k]. cbn [fst snd] in *.
  rewrite <- List.app_comm_cons in IQ, IP.
  assert (IP' : Forall (fun cb => P (snd cb)) (rest ++ rafQueue e))
    by now inversion IP.
  assert (Pk : P k) by now inversion IP.
  unfold frameInv.
  destruct k as [|st q|]; cbn [PortalScene.runCallback].
  - (* animate *)
    destruct (PortalScene.isDestroyed s) eqn:D.
    + unfold PortalScene.animate. rewrite D. cbn [fst snd].
      split_inv; try assumption.
      now apply (queueInv_skip (id, CbPortalAnimate)).
    + destruct (animate_alive M now e s D) as (E1 & E2 & E3 & _).
      rewrite E1, E2, E3, IC, clock_running. cbn [fst].
      split_inv; try assumption.
      * apply queueInv_request with (a := PortalScene.animationId s);
          [reflexivity | now right |].
        now apply (queueInv_skip (id, CbPortalAnimate)).
      * cbn. rewrite List.app_assoc. apply Forall_app. split; [exact IP'|].
        repeat constructor. exact PA.
  - (* transitionAnimate *)
    destruct (PortalScene.isDestroyed s) eqn:D.
    + unfold PortalScene.transitionAnimate. rewrite D. cbn [fst snd].
      split_inv; try assumption.
      * now apply (queueInv_resolve id q st).
      * etransitivity; [exact IR | apply resolveCalls_mono].
    + destruct (transitionAnimate_alive now st q e s D) as (E1 & E2 & E3 & _).
      rewrite E1, E2, E3, IC, clock_running. cbn [fst snd].
      clear E1 E2 E3. destruct (Num.ltb _ _).
      * split_inv; try assumption.
        -- now apply (queueInv_requeue id q st st).
        -- cbn. rewrite List.app_assoc. apply Forall_app. split; [exact IP'|].
           repeat constructor. exact Pk.
      * split_inv; try assumption.
        -- now apply (queueInv_resolve id q st).
        -- etransitivity; [exact IR | apply resolveCalls_mono].
  - (* a callback of the world controller *)
    cbn [fst snd]. split_inv; try assumption.
    now apply (queueInv_skip (id, CbWorldAnimate)).
Qed.

(** A frame keeps the invariant. *)
Lemma portal_frame_frameInv (M : MathLib) (now : Q)
    (P : Callback -> Prop) (c : Q) (n p r : nat) (es : Env * PortalScene.t) :
  admits P n ->
  frameInv P c n p r [] es ->
  frameInv P c n p r [] (PortalScene.frame M now es).
Proof.
  intros HP HI. unfold PortalScene.frame.
  apply (runFrame_inv (PortalScene.runCallback M now) (frameInv P c n p r)).
  - intros cb rest es0. now apply portal_callback_frameInv.
  - destruct HI as (IQ & IC & IP & IN & IR). destruct es as [e s].
    unfold frameInv. cbn [fst snd app rafQueue Browser.with_raf] in *.
    rewrite List.app_nil_r.
    split_inv; try assumption.
    now apply (queueInv_ext _ e).
Qed.

(** Every action keeps the invariant. *)
Lemma act_frameInv (M : MathLib) (P : Callback -> Prop) (c : Q) (n p r : nat)
    (a : PortalScene.Action) (es : Env * PortalScene.t) :
  admits P n ->
  frameInv P c n p r [] es ->
  frameInv P c n p r [] (PortalScene.act M es a).
Proof.
  intros HP HI. destruct a as [now|x y|w h|now|]; cbn [PortalScene.act];
    [now apply portal_frame_frameInv | unfold frameInv in *..].
  - destruct es as [e s]. exact HI.
  - destruct es as [e s]. destruct HI as (IQ & IC & IP & IN & IR).
    cbn [fst snd app] in *. unfold PortalScene.onResize.
    destruct (PortalScene.isDestroyed s); cbn [fst snd];
      (split_inv; try assumption; now apply (queueInv_ext _ e)).
  - destruct es as [e s]. destruct HI as (IQ & IC & IP & IN & IR).
    destruct HP as (PA & PW & PT).
    cbn [fst snd app] in *. unfold PortalScene.transitionOut.
    cbn [Browser.newPromise].
    destruct (PortalScene.isTransitioning s).
    + cbn [fst snd]. split_inv; try assumption.
      * now apply queueInv_again.
      * cbn. lia.
      * etransitivity; [exact IR|]. rewrite resolveCalls_resolve.
        unfold Browser.resolveCalls. cbn. lia.
    + rewrite IC, clock_running. cbn [fst snd PortalScene.animationId
        PortalScene.clock app].
      split_inv; try assumption.
      * now apply (queueInv_start (Fin (now + - c)) e).
      * cbn. apply Forall_app. split; [exact IP|].
        repeat constructor. cbn. now apply PT.
      * cbn. lia.
  - destruct es as [e s]. destruct HI as (IQ & IC & IP & IN & IR).
    cbn [fst snd app] in *. unfold PortalScene.destroy.
    cbn [fst snd PortalScene.animationId PortalScene.clock app].
    rewrite teardown_spec. cbn [fst snd rafQueue promiseNext].
    split_inv; try assumption.
    + apply (queueInv_ext _ (Browser.cancelAnimationFrame
                               (PortalScene.animationId s) e));
        try reflexivity.
      now apply queueInv_cancel.
    + apply incl_Forall with (l1 := rafQueue e); [|exact IP].
      intros k Hk. now apply List.filter_In in Hk.
Qed.

Lemma acts_frameInv (M : MathLib) (P : Callback -> Prop) (c : Q) (n p r : nat)
    (l : list PortalScene.Action) (es : Env * PortalScene.t) :
  admits P n ->
  frameInv P c n p r [] es ->
  frameInv P c n p r [] (PortalScene.acts M l es).
Proof.
  intros HP. unfold PortalScene.acts. revert es.
  induction l as [|a l IH]; intros es HI; [exact HI|].
  cbn [fold_left]. apply IH. now apply act_frameInv.
Qed.

End PortalInvariant.

(** ** From construction to completion *)

Section PortalLife.
Import Spec.

Lemma fold_upload (ms : list nat) (e : Env) :
  exists g, fold_left (fun acc m => Browser.upload m acc) ms e
            = Browser.with_gpu e g.
Proof.
  revert e. induction ms as [|m ms IH]; intros e; cbn [fold_left].
  - exists (gpuLive e). now destruct e.
  - destruct (IH (Browser.upload m e)) as [g Hg]. exists g. now rewrite Hg.
Qed.

(** Uploading touches the GPU only. *)
Lemma uploadAll_with_gpu (os : list Object3D) (e : Env) :
  exists g, Browser.uploadAll os e = Browser.with_gpu e g.
Proof.
  unfold Browser.uploadAll. revert e.
  induction os as [|o os IH]; intros e; cbn [fold_left].
  - exists (gpuLive e). now destruct e.
  - unfold Browser.uploadObject at 2.
    destruct (fold_upload (material o)
                (match geometry o with
                 | Some g => Browser.upload g e
                 | None => e
                 end)) as [g1 H1].
    rewrite H1.
    destruct (IH (Browser.with_gpu
                    (match geometry o with
                     | Some g => Browser.upload g e
                     | None => e
                     end) g1)) as [g2 H2].
    exists g2. rewrite H2. now destruct (geometry o).
Qed.

(** A controller constructed on a freshly loaded page satisfies the
    invariant. *)
Lemma create_frameInv (M : MathLib) (t0 : Q) (a : PortalScene.Assets)
    (w h dpr : num) (p : nat) :
  frameInv (fun _ => True) t0 0 p 0 []
    (PortalScene.create M t0 a (Browser.open w h dpr)).
Proof.
  unfold PortalScene.create.
  destruct (uploadAll_with_gpu (PortalScene.assets_scene a)
              (Browser.upload (PortalScene.assets_context a)
                 (Browser.open w h dpr))) as [g ->].
  unfold frameInv. cbn. split; [|split; [|split; [|split]]]; try lia.
  - split; cbn.
    + repeat constructor.
    + lia.
    + repeat constructor.
    + intros q. reflexivity.
  - reflexivity.
  - repeat constructor.
Qed.

Lemma not_pending_tracks (p : nat) (st : num) (q : list (nat * Callback)) :
  pendingIn p q = 0 -> Forall (fun cb => tracks p st (snd cb)) q.
Proof.
  induction q as [|k q IH]; intros H; [constructor|].
  rewrite pendingIn_cons in H. constructor.
  - destruct k as [id [|st' p'|]]; cbn in *; try exact I.
    intros E. subst p'. rewrite Nat.eqb_refl in H. discriminate.
  - apply IH. destruct (resolves p (snd k)); [discriminate | exact H].
Qed.

Lemma admits_tracks (p : nat) (st : num) : admits (tracks p st) (S p).
Proof.
  split; [exact I | split; [exact I|]]. intros st' p' H E. lia.
Qed.

Lemma admits_True (n : nat) : admits (fun _ => True) n.
Proof. now repeat split. Qed.

(** A promise not yet handed out has no frame and no resolution. *)
Lemma queueInv_fresh (q : list (nat * Callback)) (e : Env) (a p : nat) :
  queueInv q e a -> promiseNext e <= p ->
  Browser.resolveCalls p e = 0 /\ pendingIn p q = 0.
Proof.
  intros [_ _ _ I4] H. specialize (I4 p).
  destruct (Nat.ltb_spec p (promiseNext e)); lia.
Qed.

(** A promise handed out is resolved at most once, and exactly once
    as soon as no frame is left for it. *)
Lemma queueInv_count (q : list (nat * Callback)) (e : Env) (a p : nat) :
  queueInv q e a -> p < promiseNext e ->
  Browser.resolveCalls p e + pendingIn p q = 1.
Proof.
  intros [_ _ _ I4] H. specialize (I4 p).
  destruct (Nat.ltb_spec p (promiseNext e)); lia.
Qed.

(** What a call of [transitionOut] establishes: its promise [p] is
    handed out, and the frames of its transition, if any, carry the
    clock's reading at the call. *)
Lemma transitionOut_frameInv (now0 c : Q) (n p0 r : nat)
    (es : Env * PortalScene.t) :
  frameInv (fun _ => True) c n p0 r [] es ->
  let p := snd (PortalScene.transitionOut now0 es) in
  p = promiseNext (fst es)
  /\ frameInv (tracks p (Fin (now0 + - c))) c (S p) p 0 []
       (fst (PortalScene.transitionOut now0 es)).
Proof.
  intros (IQ & IC & IP & IN & IR). destruct es as [e s].
  cbn [fst snd app] in *.
  destruct (queueInv_fresh _ _ _ (promiseNext e) IQ (Nat.le_refl _)) as [R0 P0].
  pose proof (not_pending_tracks _ (Fin (now0 + - c)) _ P0) as T.
  unfold PortalScene.transitionOut. cbn [Browser.newPromise].
  destruct (PortalScene.isTransitioning s).
  - cbn [fst snd]. split; [reflexivity|]. unfold frameInv. cbn [fst snd app].
    split; [|split; [|split; [|split]]];
      try assumption; try reflexivity; try (cbn; lia).
    now apply queueInv_again.
  - rewrite IC, clock_running. cbn [fst snd]. split; [reflexivity|].
    unfold frameInv.
    cbn [fst snd app PortalScene.animationId PortalScene.clock].
    split; [|split; [|split; [|split]]];
      try assumption; try reflexivity; try (cbn; lia).
    + now apply (queueInv_start (Fin (now0 + - c)) e).
    + cbn. apply Forall_app. split; [exact T|].
      repeat constructor.
Qed.

Lemma portal_callback_isDestroyed (M : MathLib) (now : Q) (k : Callback)
    (e : Env) (s : PortalScene.t) :
  PortalScene.isDestroyed (snd (PortalScene.runCallback M now k (e, s)))
  = PortalScene.isDestroyed s.
Proof.
  destruct (PortalScene.isDestroyed s) eqn:D.
  - now rewrite portal_callback_destroyed.
  - destruct k as [|st q|]; cbn [PortalScene.runCallback snd].
    + now destruct (animate_alive M now e s D) as (_ & _ & _ & E).
    + now destruct (transitionAnimate_alive now st q e s D) as (_ & _ & _ & E).
    + exact D.
Qed.

(** On a frame at which the controller is destroyed, or the duration
    has passed, no frame of the transition of [p] is requested again. *)
Lemma portal_callback_no_requeue (M : MathLib) (now c : Q) (p : nat)
    (st : num) (k : Callback) (e : Env) (s : PortalScene.t) :
  tracks p st k ->
  PortalScene.clock s = Some (Fin c) ->
  PortalScene.isDestroyed s = true
  \/ Num.leb PortalScene.duration (Num.sub (Fin (now + - c)) st) = true ->
  pendingIn p (rafQueue (fst (PortalScene.runCallback M now k (e, s))))
  = pendingIn p (rafQueue e).
Proof.
  intros T C H.
  destruct (PortalScene.isDestroyed s) eqn:D.
  - destruct k as [|st' q|]; cbn [PortalScene.runCallback].
    + unfold PortalScene.animate. now rewrite D.
    + unfold PortalScene.transitionAnimate. now rewrite D.
    + reflexivity.
  - destruct H as [H|H]; [discriminate|].
    destruct k as [|st' q|]; cbn [PortalScene.runCallback].
    + destruct (animate_alive M now e s D) as (-> & _).
      cbn [snd Browser.requestAnimationFrame rafQueue Browser.with_raf].
      rewrite pendingIn_app. cbn. lia.
    + destruct (transitionAnimate_alive now st' q e s D) as (-> & _).
      rewrite C, clock_running. cbn [snd].
      destruct (Nat.eq_dec q p) as [E|N].
      * cbn in T. rewrite (T E).
        destruct (progress_done _ H) as [_ ->]. reflexivity.
      * destruct (Num.ltb _ _); [|reflexivity].
        cbn [snd Browser.requestAnimationFrame rafQueue Browser.with_raf].
        rewrite pendingIn_app, pendingIn_cons. cbn [snd resolves].
        apply Nat.eqb_neq in N. rewrite N. cbn. lia.
    + reflexivity.
Qed.

(** After such a frame the promise has been resolved exactly once. *)
Lemma frame_completes (M : MathLib) (now c : Q) (p r : nat) (st : num)
    (es : Env * PortalScene.t) :
  frameInv (tracks p st) c (S p) p r [] es ->
  PortalScene.isDestroyed (snd es) = true
  \/ Num.leb PortalScene.duration (Num.sub (Fin (now + - c)) st) = true ->
  Browser.resolveCalls p (fst (PortalScene.frame M now es)) = 1
  /\ pendingIn p (rafQueue (fst (PortalScene.frame M now es))) = 0.
Proof.
  intros HI H.
  set (I := fun (rest : list (nat * Callback)) (x : Env * PortalScene.t) =>
              frameInv (tracks p st) c (S p) p r rest x
              /\ pendingIn p (rafQueue (fst x)) = 0
              /\ (PortalScene.isDestroyed (snd x) = true
                  \/ Num.leb PortalScene.duration
                       (Num.sub (Fin (now + - c)) st) = true)).
  assert (F : I [] (PortalScene.frame M now es)).
  { unfold PortalScene.frame. apply runFrame_inv.
    - intros k rest x (X1 & X2 & X3). destruct x as [e s].
      split; [|split].
      + apply portal_callback_frameInv; [apply admits_tracks | exact X1].
      + destruct X1 as (_ & XC & XP & _). cbn [fst snd] in *.
        inversion XP; subst.
        now rewrite (portal_callback_no_requeue M now c p st).
      + rewrite portal_callback_isDestroyed. exact X3.
    - split; [|split].
      + destruct HI as (IQ & IC & IP & IN & IR). destruct es as [e s].
        unfold frameInv. cbn [fst snd app rafQueue Browser.with_raf] in *.
        rewrite List.app_nil_r.
        split; [|split; [|split; [|split]]]; try assumption; try reflexivity.
        now apply (queueInv_ext _ e).
      + reflexivity.
      + exact H. }
  destruct F as ((FQ & _ & _ & FN & _) & F0 & _). cbn [app] in FQ.
  pose proof (queueInv_count _ _ _ p FQ FN) as Hc.
  split; [lia | exact F0].
Qed.

End PortalLife.

(** ** The transition's completion *)

Section Completion.
Import Spec.

(** The page of the theorems below: a controller constructed on a
    freshly loaded page, anything happening to it, then a call of
    [transitionOut]. *)
Lemma started_frameInv (M : MathLib) (w h dpr : num)
    (assets : PortalScene.Assets) (t0 : Q)
    (before : list PortalScene.Action) (now0 : Q) :
  let es0 := PortalScene.acts M before
               (PortalScene.create M t0 assets (Browser.open w h dpr)) in
  let p := snd (PortalScene.transitionOut now0 es0) in
  frameInv (tracks p (Fin (now0 + - t0))) t0 (S p) p 0 []
    (fst (PortalScene.transitionOut now0 es0)).
Proof.
  intros es0 p.
  assert (H0 : frameInv (fun _ => True) t0 0 0 0 [] es0).
  { apply acts_frameInv; [apply admits_True | apply create_frameInv]. }
  now destruct (transitionOut_frameInv now0 t0 0 0 0 es0 H0) as [_ H].
Qed.

(** Under the invariant the promise is resolved at most once, and
    once resolved it stays resolved exactly once. *)
Lemma resolved_at_most_once (P : Callback -> Prop) (c : Q) (p r : nat)
    (es : Env * PortalScene.t) :
  frameInv P c (S p) p r [] es ->
  r <= Browser.resolveCalls p (fst es) <= 1.
Proof.
  intros (IQ & _ & _ & IN & IR). cbn [app] in IQ.
  pose proof (queueInv_count _ _ _ p IQ IN). lia.
Qed.

Lemma frameInv_resolved (P : Callback -> Prop) (c : Q) (n p r r' : nat)
    (es : Env * PortalScene.t) :
  r' <= Browser.resolveCalls p (fst es) ->
  frameInv P c n p r [] es -> frameInv P c n p r' [] es.
Proof.
  intros H (IQ & IC & IP & IN & _). now repeat (split; [assumption|]).
Qed.

End Completion.

(** ** Destruction during the transition *)

(** C10. A portal controller is destroyed while the promise of a
    [transitionOut] has not been resolved.  The transition's frame is
    still queued ([destroy] cancels the render loop's frame only); when
    it runs it leaves the controller as [destroy] left it (no camera,
    uniform or particle change, no render), resolves the promise, and
    requests no further frame; the promise stays resolved exactly once
    whatever happens later. *)
Theorem C10_destroy_while_transition_pending
    (M : MathLib) (w h dpr : num) (assets : PortalScene.Assets) (t0 : Q)
    (before : list PortalScene.Action) (now0 : Q)
    (mid : list PortalScene.Action) (now1 : Q)
    (later : list PortalScene.Action) :
  let es0 := PortalScene.acts M before
               (PortalScene.create M t0 assets (Browser.open w h dpr)) in
  let es1 := fst (PortalScene.transitionOut now0 es0) in
  let p := snd (PortalScene.transitionOut now0 es0) in
  let es2 := PortalScene.acts M mid es1 in
  let es3 := PortalScene.destroy es2 in
  let es4 := PortalScene.frame M now1 es3 in
  Browser.resolveCalls p (fst es2) = 0 ->
  PortalScene.isDestroyed (snd es3) = true
  /\ Spec.pendingIn p (rafQueue (fst es3)) = 1
  /\ Browser.resolveCalls p (fst es3) = 0
  /\ snd es4 = snd es3
  /\ Browser.resolveCalls p (fst es4) = 1
  /\ Spec.pendingIn p (rafQueue (fst es4)) = 0
  /\ Browser.resolveCalls p (fst (PortalScene.acts M later es4)) = 1.
Proof.
  intros es0 es1 p es2 es3 es4 Hpending.
  pose proof (started_frameInv M w h dpr assets t0 before now0) as H1.
  cbv zeta in H1. fold es0 in H1. fold p in H1. fold es1 in H1.
  assert (H2 : Spec.frameInv (Spec.tracks p (Fin (now0 + - t0))) t0 (S p) p 0 []
                 es2).
  { apply acts_frameInv; [apply admits_tracks | exact H1]. }
  assert (H3 : Spec.frameInv (Spec.tracks p (Fin (now0 + - t0))) t0 (S p) p 0 []
                 es3).
  { apply (act_frameInv M _ _ _ _ _ PortalScene.DoDestroy);
      [apply admits_tracks | exact H2]. }
  assert (D3 : PortalScene.isDestroyed (snd es3) = true).
  { subst es3. now destruct es2. }
  assert (R3 : Browser.resolveCalls p (fst es3) = 0).
  { subst es3. destruct es2 as [e2 s2]. unfold PortalScene.destroy.
    cbn [fst snd]. rewrite teardown_spec. exact Hpending. }
  destruct (frame_completes M now1 t0 p 0 _ _ H3 (or_introl D3)) as [R4 P4].
  fold es4 in R4, P4.
  assert (H4 : Spec.frameInv (Spec.tracks p (Fin (now0 + - t0))) t0 (S p) p 1 []
                 (PortalScene.acts M later es4)).
  { apply acts_frameInv; [apply admits_tracks|].
    apply (frameInv_resolved _ _ _ _ 0); [lia|].
    apply portal_frame_frameInv; [apply admits_tracks | exact H3]. }
  repeat split.
  - exact D3.
  - destruct H3 as (IQ & _ & _ & IN & _). cbn [app] in IQ.
    pose proof (Spec.inv_once _ _ _ IQ p) as Hc.
    pose proof (queueInv_count _ _ _ p IQ IN). lia.
  - exact R3.
  - subst es4. destruct es3 as [e3 s3]. cbn [snd] in *.
    unfold PortalScene.frame. apply runFrame_fixed.
    intros cb e. now apply portal_callback_destroyed.
  - exact R4.
  - exact P4.
  - pose proof (resolved_at_most_once _ _ _ _ _ H4). lia.
Qed.

Lemma C10_witness :
  let es0 := PortalScene.acts Sample.math Sample.before
               (PortalScene.create Sample.math 0 Sample.portalAssets
                  (Browser.open (Fin 1920) (Fin 1080) (Fin 1))) in
  let es1 := fst (PortalScene.transitionOut 1 es0) in
  let p := snd (PortalScene.transitionOut 1 es0) in
  let es2 := PortalScene.acts Sample.math Sample.during es1 in
  let es3 := PortalScene.destroy es2 in
  let es4 := PortalScene.frame Sample.math 1.45 es3 in
  PortalScene.isDestroyed (snd es3) = true
  /\ Spec.pendingIn p (rafQueue (fst es3)) = 1
  /\ Browser.resolveCalls p (fst es3) = 0
  /\ snd es4 = snd es3
  /\ Browser.resolveCalls p (fst es4) = 1
  /\ Spec.pendingIn p (rafQueue (fst es4)) = 0
  /\ Browser.resolveCalls p
       (fst (PortalScene.acts Sample.math Sample.afterwards es4)) = 1.
Proof.
  apply (C10_destroy_while_transition_pending
           Sample.math (Fin 1920) (Fin 1080) (Fin 1) Sample.portalAssets 0
           Sample.before 1 Sample.during 1.45 Sample.afterwards).
  vm_compute. reflexivity.
Defined.

Lemma C5_witness :
  (PortalScene.animate Sample.math 2
     (fst Sample.portalTornDown, snd Sample.portalTornDown)
   = (fst Sample.portalTornDown, snd Sample.portalTornDown)
   /\ snd (PortalScene.transitionAnimate 2 (Fin 1) 0
             (fst Sample.portalTornDown, snd Sample.portalTornDown))
      = snd Sample.portalTornDown
   /\ snd (PortalScene.frames Sample.math [2; 2.1; 2.2]%Q
             (fst Sample.portalTornDown, snd Sample.portalTornDown))
      = snd Sample.portalTornDown
   /\ snd (PortalScene.onResize
             (Browser.resizeTo (Fin 1280) (Fin 720) (fst Sample.portalTornDown),
              snd Sample.portalTornDown))
      = snd Sample.portalTornDown)
  /\ (WorldScene.animate Sample.math 2
        (fst Sample.worldTornDown, snd Sample.worldTornDown)
      = (fst Sample.worldTornDown, snd Sample.worldTornDown)
      /\ snd (WorldScene.frames Sample.math [2; 2.1; 2.2]%Q
                (fst Sample.worldTornDown, snd Sample.worldTornDown))
         = snd Sample.worldTornDown
      /\ snd (WorldScene.onResize
                (Browser.resizeTo (Fin 1280) (Fin 720) (fst Sample.worldTornDown),
                 snd Sample.worldTornDown))
         = snd Sample.worldTornDown).
Proof.
  apply (C5_destroyed_controller_ignores_frames_and_resize
           Sample.math 2 (Fin 1) 0 [2; 2.1; 2.2]%Q (Fin 1280) (Fin 720)
           (fst Sample.portalTornDown) (snd Sample.portalTornDown)
           (fst Sample.worldTornDown) (snd Sample.worldTornDown)).
  - reflexivity.
  - reflexivity.
Defined.

(** ** The orchestrator's state machine *)

Section Orchestrator.
Import Spec.
Import GallantExperience.

Variable M : MathLib.
Variable cfg : Config.

Lemma counts_app (a a' : t) (fx : list Effect) :
  effects a' = effects a ++ fx ->
  counts a'
  = (fst (counts a) + count_occ Effect_eq_dec fx DestroyPortal,
     snd (counts a) + count_occ Effect_eq_dec fx ConstructWorld).
Proof.
  intros H. unfold counts, portalDestroyCalls, worldConstructions.
  now rewrite H, !count_occ_app.
Qed.

Lemma counts_same (a a' : t) : effects a' = effects a -> counts a' = counts a.
Proof.
  intros H. unfold counts, portalDestroyCalls, worldConstructions.
  now rewrite H.
Qed.

(** [pcInv] reads the [portal] flag and the effects only. *)
Lemma pcInv_ext (a a' : t) (pc : Pc) :
  portal a' = portal a -> counts a' = counts a -> pcInv a pc -> pcInv a' pc.
Proof. intros H1 H2. destruct pc; cbn; now rewrite H1, H2. Qed.

(** Effects other than a destruction or a construction do not
    matter to [pcInv]. *)
Lemma pcInv_with_calls (a : t) (cs : list Pc) (fx : list Effect) (pc : Pc) :
  count_occ Effect_eq_dec fx DestroyPortal = 0 ->
  count_occ Effect_eq_dec fx ConstructWorld = 0 ->
  pcInv a pc -> pcInv (with_calls a cs fx) pc.
Proof.
  intros F1 F2 H. apply (pcInv_ext a); [reflexivity | | exact H].
  rewrite (counts_app a _ fx) by reflexivity. rewrite F1, F2.
  destruct (counts a); cbn; f_equal; lia.
Qed.

(** A promise awaited moves on to the flash, or stays: the counts stay
    in either case. *)
Lemma settle_phaseInv (a : t) : phaseInv a -> phaseInv (settle a).
Proof.
  intros [Ho Hp]. split; [exact Ho|]. unfold settle.
  cbn [currentPhase with_calls calls].
  destruct (currentPhase a).
  - destruct Hp as (Hc & Hf & Hn). rewrite Hc. cbn. repeat split; trivial.
    rewrite <- Hn. apply counts_same. cbn. apply List.app_nil_r.
  - destruct Hp as (pc & Hc & Hpc). rewrite Hc. cbn [List.map flat_map].
    eexists. split; [reflexivity|].
    destruct pc as [p| | | |]; cbn [settleCall fst snd];
      try (apply pcInv_with_calls; [reflexivity | reflexivity | exact Hpc]).
    destruct (Browser.resolveCalls p (env a)); cbn [fst snd];
      (apply pcInv_with_calls; [reflexivity | reflexivity | exact Hpc]).
Qed.

Lemma settle_settled (a : t) : settled (settle a).
Proof.
  intros p. unfold settle. cbn [calls with_calls env].
  rewrite List.in_map_iff. intros (pc & E & _).
  destruct pc as [q| | | |]; cbn in E; try discriminate.
  destruct (Browser.resolveCalls q (env a)) eqn:R; cbn in E; [|discriminate].
  now inversion E; subst.
Qed.

(** A frame leaves the portal controller in the heap. *)
Lemma runCallback_portalObj (now : Q) (cb : Callback) (eh : Env * Heap) :
  fst (snd eh) <> None ->
  fst (snd (runCallback M now cb eh)) <> None.
Proof.
  destruct eh as [e [po wo]]. cbn [fst snd]. intros H.
  destruct po as [p|]; [|contradiction]. unfold runCallback.
  destruct cb, wo as [w|]; cbn [fst snd];
    try destruct (WorldScene.animate M now (e, w));
    try destruct (PortalScene.runCallback M now _ (e, p));
    cbn; congruence.
Qed.

Lemma onFrame_portalObj (now : Q) (a : t) :
  portalObj a <> None -> portalObj (onFrame M now a) <> None.
Proof.
  intros H. unfold onFrame.
  destruct (runFrame (runCallback M now) (env a, (portalObj a, worldObj a)))
    as [e1 h1] eqn:E.
  cbn [with_heap portalObj].
  change h1 with (snd (e1, h1)). rewrite <- E.
  apply (runFrame_inv (runCallback M now) (fun _ eh => fst (snd eh) <> None)).
  - intros c rest es. apply runCallback_portalObj.
  - exact H.
Qed.

Lemma onFrame_shape (now : Q) (a : t) :
  let a' := onFrame M now a in
  currentPhase a' = currentPhase a /\ calls a' = calls a
  /\ effects a' = effects a /\ portal a' = portal a.
Proof.
  unfold onFrame.
  destruct (runFrame (runCallback M now) (env a, (portalObj a, worldObj a))).
  now repeat split.
Qed.

Lemma onScroll_shape (top sh ch : num) (a : t) :
  let a' := onScroll top sh ch a in
  portalObj a' = portalObj a /\ currentPhase a' = currentPhase a
  /\ calls a' = calls a /\ effects a' = effects a /\ portal a' = portal a
  /\ env a' = env a.
Proof.
  unfold onScroll. destruct (world a); [|now repeat split].
  destruct (worldObj a); now repeat split.
Qed.

Lemma iter_onScroll_shape (n : nat) (top sh ch : num) (a : t) :
  let a' := Nat.iter n (onScroll top sh ch) a in
  portalObj a' = portalObj a /\ currentPhase a' = currentPhase a
  /\ calls a' = calls a /\ effects a' = effects a /\ portal a' = portal a
  /\ env a' = env a.
Proof.
  induction n as [|n IH]; [now repeat split|].
  change (Nat.iter (S n) (onScroll top sh ch) a)
    with (onScroll top sh ch (Nat.iter n (onScroll top sh ch) a)).
  destruct (onScroll_shape top sh ch (Nat.iter n (onScroll top sh ch) a))
    as (H1 & H2 & H3 & H4 & H5 & H6).
  destruct IH as (I1 & I2 & I3 & I4 & I5 & I6).
  cbv zeta in *. repeat split; congruence.
Qed.

(** Whatever changes the heap and the environment only keeps the
    state machine's invariant, if the portal controller stays. *)
Lemma phaseInv_ext (a a' : t) :
  portalObj a' <> None -> currentPhase a' = currentPhase a ->
  calls a' = calls a -> effects a' = effects a -> portal a' = portal a ->
  phaseInv a -> phaseInv a'.
Proof.
  intros Ho H2 H3 H4 H5 [_ Hp]. split; [exact Ho|].
  rewrite H2, H3, H5, (counts_same a a' H4).
  destruct (currentPhase a); [exact Hp|].
  destruct Hp as (pc & Hc & Hpc). exists pc. split; [exact Hc|].
  eapply pcInv_ext; [exact H5 | now apply counts_same | exact Hpc].
Qed.

Hypothesis world_canvas : hasWorldCanvas cfg = true.

Lemma enterWorld_phaseInv (now : Q) (a : t) :
  phaseInv a -> phaseInv (enterWorld now a).
Proof.
  intros [Ho Hp]. unfold enterWorld.
  destruct (currentPhase a) eqn:Ph; [|split; [exact Ho | now rewrite Ph]].
  destruct Hp as (Hc & Hf & Hn).
  destruct (portalObj a) as [p|] eqn:Op; [|contradiction]. rewrite Hf.
  destruct (PortalScene.transitionOut now (env a, p)) as [[e1 p1] pr].
  split; cbn [portalObj currentPhase calls]; [discriminate|].
  exists (AwaitTransition pr). rewrite Hc. split; [reflexivity|].
  cbn [pcInv portal]. split; [reflexivity|].
  erewrite counts_app by reflexivity. now rewrite Hn.
Qed.

Lemma onTimeout_phaseInv (now : Q) (k : nat) (a : t) :
  phaseInv a -> phaseInv (onTimeout M cfg now k a).
Proof.
  intros H. pose proof H as [Ho Hp]. unfold onTimeout.
  destruct (currentPhase a) eqn:Ph.
  { destruct Hp as (Hc & _). rewrite Hc. exact H. }
  destruct Hp as (pc & Hc & Hpc). rewrite Hc.
  destruct k as [|k]; [|exact H]. cbn [lookup list_lookup].
  destruct pc; cbn [resume].
  - (* no timer is pending *)
    split; [exact Ho|]. cbn [currentPhase with_calls calls]. rewrite Ph, Hc.
    eexists. split; [reflexivity|].
    apply pcInv_with_calls; [reflexivity | reflexivity | exact Hpc].
  - (* the flash has peaked: the world is shown and constructed *)
    unfold initWorld. rewrite world_canvas.
    destruct (WorldScene.create M now (worldAssets cfg) _) as [e1 w].
    destruct Hpc as [Hf Hn].
    split; cbn [portalObj with_calls currentPhase calls]; [exact Ho|].
    rewrite Ph, Hc. eexists. split; [reflexivity|].
    cbn [pcInv portal with_calls]. split; [exact Hf|].
    erewrite counts_app by (cbn; rewrite <- !List.app_assoc; reflexivity).
    now rewrite Hn.
  - (* the world has started: the portal is hidden and destroyed *)
    destruct Hpc as [Hf Hn]. cbn [portal with_calls portalObj]. rewrite Hf.
    destruct (portalObj a) as [p|] eqn:Op; [|contradiction].
    destruct (PortalScene.destroy _) as [e1 p1].
    split; cbn [portalObj with_calls currentPhase calls]; [discriminate|].
    rewrite Ph, Hc. eexists. split; [reflexivity|].
    cbn [pcInv portal with_calls]. split; [reflexivity|].
    erewrite counts_app by (cbn; rewrite <- !List.app_assoc; reflexivity).
    now rewrite Hn.
  - (* the flash is removed *)
    destruct Hpc as [Hf Hn].
    split; cbn [portalObj with_calls currentPhase calls]; [exact Ho|].
    rewrite Ph, Hc. eexists. split; [reflexivity|].
    cbn [pcInv portal with_calls]. split; [exact Hf|].
    erewrite counts_app by (cbn; rewrite <- !List.app_assoc; reflexivity).
    now rewrite Hn.
  - (* the sequence is over *)
    split; [exact Ho|]. cbn [currentPhase with_calls calls]. rewrite Ph, Hc.
    eexists. split; [reflexivity|].
    apply pcInv_with_calls; [reflexivity | reflexivity | exact Hpc].
Qed.

(** Every turn of the event loop keeps the state machine's invariant
    and leaves the calls settled. *)
Lemma step_phaseInv (a : t) (ev : Q * Event) :
  phaseInv a -> phaseInv (step M cfg a ev) /\ settled (step M cfg a ev).
Proof.
  intros H. unfold step. split; [|apply settle_settled].
  apply settle_phaseInv. destruct ev as [now [|  |k|top sh ch|x y|w h]];
    cbn [fst snd].
  - unfold onEnterClick.
    destruct (hasPortalCanvas cfg); [now apply enterWorld_phaseInv | exact H].
  - destruct (onFrame_shape now a) as (H1 & H2 & H3 & H4).
    apply (phaseInv_ext a); try assumption.
    apply onFrame_portalObj. exact (proj1 H).
  - now apply onTimeout_phaseInv.
  - destruct (iter_onScroll_shape (scrollListeners a) top sh ch a)
      as (H1 & H2 & H3 & H4 & H5 & _).
    apply (phaseInv_ext a); try assumption. rewrite H1. exact (proj1 H).
  - apply (phaseInv_ext a); try reflexivity; [|exact H].
    cbn [onMouseMove with_heap portalObj fst].
    destruct H as [Ho _]. destruct (portalObj a); [discriminate | contradiction].
  - apply (phaseInv_ext a); try reflexivity; [|exact H].
    cbn [onResize with_heap portalObj fst].
    destruct H as [Ho _]. destruct (portalObj a); [discriminate | contradiction].
Qed.

Lemma run_phaseInv (evs : list (Q * Event)) (a : t) :
  phaseInv a -> settled a ->
  phaseInv (run M cfg evs a) /\ settled (run M cfg evs a).
Proof.
  unfold run. revert a. induction evs as [|ev evs IH]; intros a H S;
    [now split|].
  cbn [fold_left]. destruct (step_phaseInv a ev H). now apply IH.
Qed.

Hypothesis portal_canvas : hasPortalCanvas cfg = true.

Lemma boot_phaseInv (now : Q) (e : Env) :
  phaseInv (boot M cfg now e) /\ settled (boot M cfg now e).
Proof.
  unfold boot. rewrite portal_canvas.
  destruct (PortalScene.create M now (portalAssets cfg) e) as [e1 p].
  split; [|intros q []].
  split; [discriminate|]. cbn. now repeat split.
Qed.

(** In the world phase a click on the enter button changes nothing. *)
Lemma enter_again (now : Q) (a : t) :
  currentPhase a = PhaseWorld -> settled a ->
  enterWorld now a = a /\ step M cfg a (now, EvEnter) = a.
Proof.
  intros Ph S.
  assert (E : enterWorld now a = a) by (unfold enterWorld; now rewrite Ph).
  split; [exact E|]. unfold step, onEnterClick. cbn [fst snd]. rewrite E.
  assert (E' : (if hasPortalCanvas cfg then a else a) = a)
    by now destruct (hasPortalCanvas cfg).
  rewrite E'. clear E'.
  unfold settle.
  assert (C : List.map (fun pc => fst (settleCall (env a) pc)) (calls a)
              = calls a
              /\ flat_map (fun pc => snd (settleCall (env a) pc)) (calls a) = []).
  { unfold settled in S. induction (calls a) as [|pc l IH]; [now split|].
    destruct IH as [I1 I2]; [intros p Hp; apply S; now right|].
    cbn [List.map flat_map]. rewrite I1, I2.
    destruct pc as [p| | | |]; cbn; try now split.
    rewrite (S p) by now left. now split. }
  destruct C as [-> ->]. destruct a. unfold with_calls. cbn.
  now rewrite List.app_nil_r.
Qed.

End Orchestrator.

(** ** The page of the orchestrator keeps the bookkeeping invariant *)

Section Page.
Import Spec.
Import GallantExperience.

Variable M : MathLib.
Variable cfg : Config.

Lemma frameInv_skip (P : Callback -> Prop) (c : Q) (n p r : nat)
    (k : nat * Callback) (rest : list (nat * Callback))
    (es : Env * PortalScene.t) :
  isTransition (snd k) = false ->
  frameInv P c n p r (k :: rest) es -> frameInv P c n p r rest es.
Proof.
  intros Hk (IQ & IC & IP & IN & IR). rewrite <- List.app_comm_cons in IQ, IP.
  split; [|split; [|split; [|split]]]; try assumption.
  - now apply (queueInv_skip k).
  - now inversion IP.
Qed.

Lemma frameInv_request (P : Callback -> Prop) (c : Q) (n p r : nat)
    (cb : Callback) (rest : list (nat * Callback))
    (e : Env) (s : PortalScene.t) :
  isTransition cb = false -> P cb ->
  frameInv P c n p r rest (e, s) ->
  frameInv P c n p r rest (snd (Browser.requestAnimationFrame cb e), s).
Proof.
  intros Hcb Pcb (IQ & IC & IP & IN & IR). cbn [fst snd] in *.
  split; [|split; [|split; [|split]]]; try assumption.
  - apply queueInv_request with (a := PortalScene.animationId s);
      [exact Hcb | now left | exact IQ].
  - cbn. rewrite List.app_assoc. apply Forall_app. split; [exact IP|].
    repeat constructor. exact Pcb.
Qed.

(** The GPU does not matter to the invariant. *)
Lemma frameInv_with_gpu (P : Callback -> Prop) (c : Q) (n p r : nat)
    (rest : list (nat * Callback)) (e : Env) (g : gset nat)
    (s : PortalScene.t) :
  frameInv P c n p r rest (e, s) ->
  frameInv P c n p r rest (Browser.with_gpu e g, s).
Proof.
  intros (IQ & IC & IP & IN & IR). cbn [fst snd] in *.
  split; [|split; [|split; [|split]]]; try assumption.
  now apply (queueInv_ext _ e).
Qed.

Lemma world_animate_env (now : Q) (e : Env) (w : WorldScene.t) :
  fst (WorldScene.animate M now (e, w))
  = if WorldScene.isDestroyed w then e
    else snd (Browser.requestAnimationFrame CbWorldAnimate e).
Proof.
  unfold WorldScene.animate. destruct (WorldScene.isDestroyed w); [reflexivity|].
  now destruct (Clock.getElapsedTime now (WorldScene.clock w)).
Qed.

Lemma world_create_env (now : Q) (a : WorldScene.Assets) (e : Env) :
  exists g, fst (WorldScene.create M now a e)
            = snd (Browser.requestAnimationFrame CbWorldAnimate
                     (Browser.with_gpu e g)).
Proof.
  unfold WorldScene.create.
  destruct (uploadAll_with_gpu (WorldScene.assets_scene a)
              (Browser.upload (WorldScene.assets_context a) e)) as [g ->].
  exists g. rewrite world_animate_env. reflexivity.
Qed.

(** Each frame callback of the page keeps the invariant. *)
Lemma page_callback_heapInv (now : Q) (P : Callback -> Prop) (c : Q)
    (n p r : nat) (k : nat * Callback) (rest : list (nat * Callback))
    (eh : Env * Heap) :
  admits P n ->
  heapInv P c n p r (k :: rest) eh ->
  heapInv P c n p r rest (runCallback M now (snd k) eh).
Proof.
  intros HP (s & Hs & HI). destruct eh as [e [po wo]]. cbn [fst snd] in *.
  subst po. destruct k as [id cb]. cbn [snd]. unfold runCallback.
  destruct cb as [|st q|].
  - pose proof (portal_callback_frameInv M now P c n p r
                  (id, CbPortalAnimate) rest (e, s) HP HI) as H.
    cbn [snd] in H.
    destruct (PortalScene.runCallback M now CbPortalAnimate (e, s))
      as [e1 s1].
    destruct wo; (exists s1; split; [reflexivity | exact H]).
  - pose proof (portal_callback_frameInv M now P c n p r
                  (id, CbPortalTransition st q) rest (e, s) HP HI) as H.
    cbn [snd] in H.
    destruct (PortalScene.runCallback M now (CbPortalTransition st q) (e, s))
      as [e1 s1].
    destruct wo; (exists s1; split; [reflexivity | exact H]).
  - apply frameInv_skip in HI; [|reflexivity].
    destruct wo as [w|]; [|exists s; split; [reflexivity | exact HI]].
    pose proof (world_animate_env now e w) as E.
    destruct (WorldScene.animate M now (e, w)) as [e1 w1]. cbn [fst] in E.
    exists s. split; [reflexivity|]. cbn [fst]. rewrite E.
    destruct (WorldScene.isDestroyed w); [exact HI|].
    apply frameInv_request; [reflexivity | apply HP | exact HI].
Qed.

Lemma frameInv_begin_frame (P : Callback -> Prop) (c : Q) (n p r : nat)
    (e : Env) (s : PortalScene.t) :
  frameInv P c n p r [] (e, s) ->
  frameInv P c n p r (rafQueue e) (Browser.with_raf e (rafNext e) [], s).
Proof.
  intros (IQ & IC & IP & IN & IR).
  unfold frameInv. cbn [fst snd app rafQueue Browser.with_raf] in *.
  rewrite List.app_nil_r.
  split; [|split; [|split; [|split]]]; try assumption.
  now apply (queueInv_ext _ e).
Qed.

Lemma onFrame_pageInv (now : Q) (P : Callback -> Prop) (c : Q) (n p r : nat)
    (a : t) :
  admits P n -> pageInv P c n p r a -> pageInv P c n p r (onFrame M now a).
Proof.
  intros HP HI. unfold pageInv, onFrame.
  pose proof (runFrame_inv (runCallback M now) (heapInv P c n p r)) as F.
  specialize (F (fun k rest eh => page_callback_heapInv now P c n p r k rest eh HP)
                (env a, (portalObj a, worldObj a))).
  destruct (runFrame (runCallback M now) (env a, (portalObj a, worldObj a)))
    as [e1 [po wo]].
  cbn [with_heap env portalObj worldObj fst snd]. apply F.
  destruct HI as (s & Hs & HI). exists s. split; [exact Hs|].
  now apply frameInv_begin_frame.
Qed.

Lemma pageInv_ext (P : Callback -> Prop) (c : Q) (n p r : nat) (a a' : t) :
  env a' = env a -> portalObj a' = portalObj a ->
  pageInv P c n p r a -> pageInv P c n p r a'.
Proof.
  intros H1 H2 (s & Hs & HI). exists s. cbn [fst snd] in *.
  rewrite H1, H2. now split.
Qed.

Lemma portal_onResize_env (es : Env * PortalScene.t) :
  fst (PortalScene.onResize es) = fst es.
Proof.
  destruct es as [e s]. unfold PortalScene.onResize.
  now destruct (PortalScene.isDestroyed s).
Qed.

Lemma onTimeout_pageInv (now : Q) (k : nat) (P : Callback -> Prop) (c : Q)
    (n p r : nat) (a : t) :
  admits P n -> pageInv P c n p r a ->
  pageInv P c n p r (onTimeout M cfg now k a).
Proof.
  intros HP HI. unfold onTimeout.
  destruct (calls a !! k) as [pc|]; [|exact HI].
  destruct pc; cbn [resume]; try exact HI.
  - (* the world is constructed *)
    unfold initWorld. destruct (hasWorldCanvas cfg); [|exact HI].
    cbn [with_calls env portalObj worldObj].
    destruct (world_create_env now (worldAssets cfg) (env a)) as [g E].
    destruct (WorldScene.create M now (worldAssets cfg) (env a)) as [e1 w].
    cbn [fst] in E. subst e1.
    destruct HI as (s & Hs & HI). exists s. cbn [fst snd] in *.
    split; [exact Hs|].
    apply frameInv_request; [reflexivity | apply HP |].
    now apply frameInv_with_gpu.
  - (* the portal is destroyed *)
    cbn [with_calls portal portalObj env].
    destruct HI as (s & Hs & HI). cbn [fst snd] in *. rewrite Hs.
    destruct (portal a); [|exists s; now split].
    pose proof (act_frameInv M P c n p r PortalScene.DoDestroy (env a, s) HP HI)
      as H.
    cbn [PortalScene.act] in H.
    destruct (PortalScene.destroy (env a, s)) as [e1 s1].
    exists s1. now split.
Qed.

(** Every turn of the event loop other than the first click keeps the
    bookkeeping invariant. *)
Lemma step_pageInv (P : Callback -> Prop) (c : Q) (n p r : nat)
    (a : t) (ev : Q * Event) :
  admits P n ->
  snd ev <> EvEnter \/ currentPhase a = PhaseWorld ->
  pageInv P c n p r a -> pageInv P c n p r (step M cfg a ev).
Proof.
  intros HP Hev HI. unfold step.
  apply (pageInv_ext P c n p r
           (match snd ev with
            | EvEnter => onEnterClick cfg (fst ev) a
            | EvFrame => onFrame M (fst ev) a
            | EvTimeout k => onTimeout M cfg (fst ev) k a
            | EvScroll top sh ch =>
                Nat.iter (scrollListeners a) (onScroll top sh ch) a
            | EvMouseMove x y => onMouseMove x y a
            | EvResize w h => onResize w h a
            end)); [reflexivity | reflexivity |].
  destruct ev as [now [| |k|top sh ch|x y|w h]]; cbn [fst snd] in *.
  - destruct Hev as [Hev|Hev]; [contradiction|].
    unfold onEnterClick, enterWorld. rewrite Hev.
    now destruct (hasPortalCanvas cfg).
  - now apply onFrame_pageInv.
  - now apply onTimeout_pageInv.
  - destruct (iter_onScroll_shape (scrollListeners a) top sh ch a)
      as (H1 & _ & _ & _ & _ & H6).
    now apply (pageInv_ext P c n p r a).
  - destruct HI as (s & Hs & HI). cbn [fst snd] in *.
    exists (snd (PortalScene.onMouseMove x y (env a, s))).
    cbn [onMouseMove with_heap env portalObj fst snd]. rewrite Hs.
    split; [reflexivity|].
    exact (act_frameInv M P c n p r (PortalScene.DoMouseMove x y)
             (env a, s) HP HI).
  - destruct HI as (s & Hs & HI). cbn [fst snd] in *.
    exists (snd (PortalScene.onResize (Browser.resizeTo w h (env a), s))).
    cbn [onResize with_heap env portalObj fst snd]. rewrite Hs.
    split; [reflexivity|].
    pose proof (act_frameInv M P c n p r (PortalScene.DoResize w h)
                  (env a, s) HP HI) as H.
    cbn [PortalScene.act fst snd] in H.
    pose proof (portal_onResize_env (Browser.resizeTo w h (env a), s)) as E.
    destruct (PortalScene.onResize (Browser.resizeTo w h (env a), s))
      as [e1 s1].
    cbn [fst snd] in *. now subst e1.
Qed.

End Page.

(** ** The sequence of [enterWorld] runs to its end *)

Section Sequence.
Import Spec.
Import GallantExperience.

Variable M : MathLib.
Variable cfg : Config.
Hypothesis world_canvas : hasWorldCanvas cfg = true.

(** What a turn of the event loop does to the one call in flight: it
    stays where it is or moves forward, and it awaits the same promise
    if it still awaits one. *)
Lemma step_calls_world (a : t) (ev : Q * Event) (pc : Pc) :
  currentPhase a = PhaseWorld -> calls a = [pc] ->
  currentPhase (step M cfg a ev) = PhaseWorld
  /\ exists pc', calls (step M cfg a ev) = [pc']
                 /\ rank pc <= rank pc'
                 /\ (forall q, pc' = AwaitTransition q -> pc = AwaitTransition q)
                 /\ (snd ev = EvTimeout 0 -> 1 <= rank pc ->
                     Nat.min 4 (S (rank pc)) <= rank pc').
Proof.
  intros Ph Hc. unfold step.
  set (h := match snd ev with
            | EvEnter => onEnterClick cfg (fst ev) a
            | EvFrame => onFrame M (fst ev) a
            | EvTimeout k => onTimeout M cfg (fst ev) k a
            | EvScroll top sh ch =>
                Nat.iter (scrollListeners a) (onScroll top sh ch) a
            | EvMouseMove x y => onMouseMove x y a
            | EvResize w h => onResize w h a
            end).
  assert (H : currentPhase h = PhaseWorld
              /\ exists pc1, calls h = [pc1]
                   /\ rank pc <= rank pc1
                   /\ (forall q, pc1 = AwaitTransition q -> pc = AwaitTransition q)
                   /\ (snd ev = EvTimeout 0 -> 1 <= rank pc ->
                       Nat.min 4 (S (rank pc)) <= rank pc1)).
  { subst h. destruct ev as [now [| |k|top sh ch|x y|w hh]]; cbn [fst snd].
    - assert (E : onEnterClick cfg now a = a).
      { unfold onEnterClick, enterWorld. rewrite Ph.
        now destruct (hasPortalCanvas cfg). }
      rewrite E. split; [exact Ph|].
      exists pc. repeat split; auto; discriminate.
    - destruct (onFrame_shape M now a) as (H1 & H2 & _).
      cbv zeta in H1, H2. rewrite H1, H2. split; [exact Ph|].
      exists pc. repeat split; auto; discriminate.
    - unfold onTimeout. rewrite Hc.
      destruct k as [|k]; cbn [lookup list_lookup].
      + destruct pc; cbn [resume].
        * split; [exact Ph|]. eexists. split; [cbn; now rewrite Hc|].
          repeat split; auto; cbn; lia.
        * unfold initWorld. rewrite world_canvas.
          destruct (WorldScene.create M now (worldAssets cfg) _) as [e1 w].
          split; [exact Ph|]. eexists. split; [cbn; now rewrite Hc|].
          repeat split; cbn; try lia. discriminate.
        * cbn [with_calls portal portalObj].
          destruct (portal a), (portalObj a) as [s|];
            try destruct (PortalScene.destroy _) as [e1 s1];
            (split; [exact Ph|]; eexists; split; [cbn; now rewrite Hc|];
             repeat split; cbn; try lia; discriminate).
        * split; [exact Ph|]. eexists. split; [cbn; now rewrite Hc|].
          repeat split; cbn; try lia. discriminate.
        * split; [exact Ph|]. eexists. split; [cbn; now rewrite Hc|].
          repeat split; cbn; auto; lia.
      + split; [exact Ph|]. exists pc. repeat split; auto. discriminate.
    - destruct (iter_onScroll_shape (scrollListeners a) top sh ch a)
        as (_ & H2 & H3 & _).
      cbv zeta in H2, H3. rewrite H2, H3. split; [exact Ph|].
      exists pc. repeat split; auto; discriminate.
    - split; [exact Ph|]. exists pc. repeat split; auto; discriminate.
    - split; [exact Ph|]. exists pc. repeat split; auto; discriminate. }
  destruct H as (Ph1 & pc1 & Hc1 & R1 & Q1 & T1).
  split; [exact Ph1|]. unfold settle. cbn [calls with_calls]. rewrite Hc1.
  cbn [List.map]. eexists. split; [reflexivity|].
  destruct pc1 as [q| | | |]; cbn [settleCall fst]; try (repeat split; assumption).
  destruct (Browser.resolveCalls q (env h)); cbn [fst].
  - repeat split; assumption.
  - repeat split.
    + cbn in *. lia.
    + discriminate.
    + intros E1 E2. specialize (T1 E1 E2). cbn in *. lia.
Qed.

(** Past the duration, a frame of the page requests no further frame
    of the transition of [p]. *)
Lemma page_callback_no_requeue (now c : Q) (p : nat) (st : num)
    (k : Callback) (e : Env) (s : PortalScene.t) (wo : option WorldScene.t) :
  tracks p st k ->
  PortalScene.clock s = Some (Fin c) ->
  Num.leb PortalScene.duration (Num.sub (Fin (now + - c)) st) = true ->
  pendingIn p (rafQueue (fst (runCallback M now k (e, (Some s, wo)))))
  = pendingIn p (rafQueue e).
Proof.
  intros T C H. unfold runCallback.
  destruct k as [|st' q|].
  - rewrite <- (portal_callback_no_requeue M now c p st CbPortalAnimate e s
                  T C (or_intror H)).
    destruct (PortalScene.runCallback M now CbPortalAnimate (e, s)).
    now destruct wo.
  - rewrite <- (portal_callback_no_requeue M now c p st
                  (CbPortalTransition st' q) e s T C (or_intror H)).
    destruct (PortalScene.runCallback M now (CbPortalTransition st' q) (e, s)).
    now destruct wo.
  - destruct wo as [w|]; [|reflexivity].
    pose proof (world_animate_env M now e w) as E.
    destruct (WorldScene.animate M now (e, w)) as [e1 w1].
    cbn [fst] in *. subst e1.
    destruct (WorldScene.isDestroyed w); [reflexivity|].
    cbn [snd Browser.requestAnimationFrame rafQueue Browser.with_raf].
    rewrite pendingIn_app. cbn. lia.
Qed.

Lemma page_frame_completes (now c : Q) (p r : nat) (st : num) (a : t) :
  pageInv (tracks p st) c (S p) p r a ->
  Num.leb PortalScene.duration (Num.sub (Fin (now + - c)) st) = true ->
  Browser.resolveCalls p (env (onFrame M now a)) = 1.
Proof.
  intros HI H. unfold onFrame.
  set (I := fun (rest : list (nat * Callback)) (eh : Env * Heap) =>
              heapInv (tracks p st) c (S p) p r rest eh
              /\ pendingIn p (rafQueue (fst eh)) = 0).
  assert (F : I [] (runFrame (runCallback M now)
                      (env a, (portalObj a, worldObj a)))).
  { apply runFrame_inv.
    - intros k rest eh (X1 & X2). split.
      + apply page_callback_heapInv; [apply admits_tracks | exact X1].
      + destruct X1 as (s & Hs & _ & XC & XP & _).
        destruct eh as [e [po wo]]. cbn [fst snd] in *. subst po.
        inversion XP; subst.
        now rewrite (page_callback_no_requeue now c p st).
    - split; [|reflexivity].
      destruct HI as (s & Hs & HI). exists s. split; [exact Hs|].
      now apply frameInv_begin_frame. }
  destruct (runFrame (runCallback M now) (env a, (portalObj a, worldObj a)))
    as [e1 h1].
  cbn [with_heap env].
  destruct F as ((s & _ & FQ & _ & _ & FN & _) & F0).
  cbn [fst snd app] in *.
  pose proof (queueInv_count _ _ _ p FQ FN). lia.
Qed.

(** The first click on the enter button, on a page whose document
    has the portal canvas. *)
Lemma enter_live (t1 c : Q) (p0 : nat) (a : t) :
  hasPortalCanvas cfg = true ->
  phaseInv a -> currentPhase a = PhasePortal ->
  pageInv (fun _ => True) c 0 p0 0 a ->
  exists p, liveInv t1 c p (step M cfg a (t1, EvEnter)).
Proof.
  intros Hpc HI Ph HP.
  destruct (step_phaseInv M cfg world_canvas a (t1, EvEnter) HI) as [I1 I2].
  destruct HI as [Ho Hp]. rewrite Ph in Hp. destruct Hp as (Hc & Hf & Hn).
  destruct HP as (s & Hs & HF). cbn [fst snd] in *.
  destruct (transitionOut_frameInv t1 c 0 p0 0 (env a, s) HF) as [_ T].
  cbv zeta in T.
  assert (E : exists e1 s1 pr,
             PortalScene.transitionOut t1 (env a, s) = (e1, s1, pr)).
  { destruct (PortalScene.transitionOut t1 (env a, s)) as [[e1 s1] pr].
    now exists e1, s1, pr. }
  destruct E as (e1 & s1 & pr & E). rewrite E in T. cbn [fst snd] in T.
  exists pr.
  assert (St : step M cfg a (t1, EvEnter)
               = settle {| env := e1; portalObj := Some s1;
                           worldObj := worldObj a; portal := portal a;
                           world := world a; currentPhase := PhaseWorld;
                           calls := calls a ++ [AwaitTransition pr];
                           scrollListeners := scrollListeners a;
                           effects := effects a
                                      ++ [PlayTransitionWhoosh; AudioStart;
                                          FadePortalUI] |}).
  { unfold step. cbn [fst snd]. unfold onEnterClick, enterWorld.
    now rewrite Hpc, Ph, Hf, Hs, E. }
  split; [exact I1|]. split; [exact I2|]. rewrite St.
  split; [reflexivity|]. split.
  - exists s1. split; [reflexivity | exact T].
  - unfold settle. cbn [calls with_calls env]. rewrite Hc.
    cbn [app List.map settleCall].
    destruct (Browser.resolveCalls pr e1); cbn [fst];
      [now left | right; cbn; lia].
Qed.

(** Every later turn of the event loop keeps the sequence alive and
    never moves it backward. *)
Lemma step_live (t1 c : Q) (p : nat) (a : t) (ev : Q * Event) :
  liveInv t1 c p a ->
  liveInv t1 c p (step M cfg a ev)
  /\ stage a <= stage (step M cfg a ev)
  /\ (snd ev = EvTimeout 0 -> 1 <= stage a ->
      Nat.min 4 (S (stage a)) <= stage (step M cfg a ev)).
Proof.
  intros (HI & HS & Ph & HP & HC).
  destruct (step_phaseInv M cfg world_canvas a ev HI) as [I1 I2].
  pose proof (step_pageInv M cfg _ c (S p) p 0 a ev
                (admits_tracks p _) (or_intror Ph) HP) as I3.
  assert (Hpc : exists pc, calls a = [pc]).
  { destruct HI as [_ Hp]. rewrite Ph in Hp.
    destruct Hp as (pc & Hc & _). now exists pc. }
  destruct Hpc as (pc & Hc).
  destruct (step_calls_world a ev pc Ph Hc) as (Ph' & pc' & Hc' & R & Q & T).
  unfold stage. rewrite Hc, Hc'.
  split; [|split; [exact R | exact T]].
  split; [exact I1|]. split; [exact I2|]. split; [exact Ph'|].
  split; [exact I3|].
  unfold stage in *. rewrite Hc' in *. rewrite Hc in HC.
  destruct pc' as [q| | | |]; try (right; cbn; lia).
  left. specialize (Q q eq_refl). subst pc.
  destruct HC as [HC|HC]; [now inversion HC | cbn in HC; lia].
Qed.

Lemma run_live (t1 c : Q) (p : nat) (evs : list (Q * Event)) (a : t) :
  liveInv t1 c p a ->
  liveInv t1 c p (run M cfg evs a) /\ stage a <= stage (run M cfg evs a).
Proof.
  unfold run. revert a. induction evs as [|ev evs IH]; intros a H;
    [now split|].
  cbn [fold_left]. destruct (step_live t1 c p a ev H) as (H1 & H2 & _).
  destruct (IH _ H1) as [H3 H4]. split; [exact H3 | lia].
Qed.

(** The frame that comes when the duration has passed ends the wait
    for the transition. *)
Lemma frame_live (t1 c : Q) (p : nat) (now : Q) (a : t) :
  liveInv t1 c p a -> (t1 + 0.7 <= now)%Q ->
  1 <= stage (step M cfg a (now, EvFrame)).
Proof.
  intros H Hnow. pose proof H as (HI & HS & Ph & HP & HC).
  destruct HC as [HC|HC].
  - assert (Hd : Num.leb PortalScene.duration
                   (Num.sub (Fin (now + - c)) (Fin (t1 + - c))) = true).
    { apply leb_Fin. lra. }
    pose proof (page_frame_completes now c p 0 _ a HP Hd) as R.
    destruct (onFrame_shape M now a) as (_ & H2 & _). cbv zeta in H2.
    unfold step, stage, settle. cbn [fst snd calls with_calls].
    rewrite H2, HC. cbn [List.map settleCall]. rewrite R. cbn. lia.
  - destruct (step_live t1 c p a (now, EvFrame) H) as (_ & H2 & _). lia.
Qed.

End Sequence.

(** ** Entering the world *)

Section Entering.
Import Spec.
Import GallantExperience.

Variable M : MathLib.
Variable cfg : Config.
Hypothesis world_canvas : hasWorldCanvas cfg = true.
Hypothesis portal_canvas : hasPortalCanvas cfg = true.

Lemma run_app (l1 l2 : list (Q * Event)) (a : t) :
  run M cfg (l1 ++ l2) a = run M cfg l2 (run M cfg l1 a).
Proof. unfold run. apply fold_left_app. Qed.

(** Only a click on the enter button leaves the portal phase. *)
Lemma step_currentPhase (a : t) (ev : Q * Event) :
  snd ev <> EvEnter -> currentPhase (step M cfg a ev) = currentPhase a.
Proof.
  intros Hev. unfold step, settle. cbn [currentPhase with_calls].
  destruct ev as [now [| |k|top sh ch|x y|w h]]; cbn [fst snd] in *.
  - contradiction.
  - now destruct (onFrame_shape M now a) as (H1 & _).
  - unfold onTimeout. destruct (calls a !! k) as [pc|]; [|reflexivity].
    destruct pc; cbn [resume]; try reflexivity.
    + unfold initWorld. destruct (hasWorldCanvas cfg); [|reflexivity].
      now destruct (WorldScene.create M now (worldAssets cfg) _).
    + cbn [with_calls portal portalObj].
      destruct (portal a), (portalObj a);
        try destruct (PortalScene.destroy _); reflexivity.
  - now destruct (iter_onScroll_shape (scrollListeners a) top sh ch a)
      as (_ & H2 & _).
  - reflexivity.
  - reflexivity.
Qed.

(** Before the first click the page stays in the portal phase and
    keeps its invariants. *)
Lemma run_before_enter (c : Q) (p0 : nat) (pre : list (Q * Event)) (a : t) :
  Forall (fun ev => snd ev <> EvEnter) pre ->
  phaseInv a -> currentPhase a = PhasePortal ->
  pageInv (fun _ => True) c 0 p0 0 a ->
  phaseInv (run M cfg pre a)
  /\ currentPhase (run M cfg pre a) = PhasePortal
  /\ pageInv (fun _ => True) c 0 p0 0 (run M cfg pre a).
Proof.
  unfold run. intros Hpre. revert a.
  induction Hpre as [|ev pre Hev Hrest IH]; intros a HI Ph HP;
    [split; [|split]; assumption|].
  cbn [fold_left]. apply IH.
  - now destruct (step_phaseInv M cfg world_canvas a ev HI).
  - now rewrite step_currentPhase.
  - apply step_pageInv; [apply admits_True | now left | exact HP].
Qed.

Lemma boot_pageInv (t0 : Q) (w h dpr : num) (p0 : nat) :
  currentPhase (boot M cfg t0 (Browser.open w h dpr)) = PhasePortal
  /\ pageInv (fun _ => True) t0 0 p0 0
       (boot M cfg t0 (Browser.open w h dpr)).
Proof.
  unfold boot. rewrite portal_canvas.
  pose proof (create_frameInv M t0 (portalAssets cfg) w h dpr p0) as H.
  destruct (PortalScene.create M t0 (portalAssets cfg) (Browser.open w h dpr))
    as [e1 s].
  split; [reflexivity|]. exists s. now split.
Qed.

(** Where the sequence has ended, each count is one. *)
Lemma finished_counts (a : t) :
  phaseInv a -> currentPhase a = PhaseWorld -> 4 <= stage a ->
  calls a = [Finished] /\ counts a = (1, 1).
Proof.
  intros [_ Hp] Ph Hs. rewrite Ph in Hp. destruct Hp as (pc & Hc & Hpc).
  unfold stage in Hs. rewrite Hc in Hs.
  destruct pc; cbn in Hs; try lia.
  split; [exact Hc | exact (proj2 Hpc)].
Qed.

(** At any time, each count is at most one. *)
Lemma counts_at_most_one (a : t) :
  phaseInv a -> fst (counts a) <= 1 /\ snd (counts a) <= 1.
Proof.
  intros [_ Hp]. destruct (currentPhase a).
  - destruct Hp as (_ & _ & ->). cbn. lia.
  - destruct Hp as (pc & _ & Hpc).
    destruct pc; destruct Hpc as [_ ->]; cbn; lia.
Qed.

End Entering.

(** C4. The page is loaded, with both canvases in the document.
    Anything but a click on the enter button may happen first; then the
    button is clicked twice in a row; then, among any other events
    (further clicks included), a frame comes once the transition's
    duration has passed and the three timers of the sequence fire.
    The portal controller is destroyed exactly once and exactly one
    world controller is constructed.  At any point of any run each of
    the two has happened at most once, and a click on the enter button
    while the orchestrator is in the world phase leaves the whole state
    as it is. *)
Theorem C4_enter_twice_runs_the_sequence_once
    (M : MathLib) (cfg : GallantExperience.Config) (w h dpr : num) (t0 : Q)
    (pre : list (Q * GallantExperience.Event)) (t1 t2 : Q)
    (mid1 : list (Q * GallantExperience.Event)) (now1 : Q)
    (mid2 : list (Q * GallantExperience.Event)) (tA : Q)
    (mid3 : list (Q * GallantExperience.Event)) (tB : Q)
    (mid4 : list (Q * GallantExperience.Event)) (tC : Q)
    (rest evs : list (Q * GallantExperience.Event)) (now : Q) :
  GallantExperience.hasPortalCanvas cfg = true ->
  GallantExperience.hasWorldCanvas cfg = true ->
  Forall (fun ev => snd ev <> GallantExperience.EvEnter) pre ->
  (t1 + 0.7 <= now1)%Q ->
  let page := GallantExperience.boot M cfg t0 (Browser.open w h dpr) in
  let final :=
    GallantExperience.run M cfg
      (pre
       ++ [(t1, GallantExperience.EvEnter); (t2, GallantExperience.EvEnter)]
       ++ mid1 ++ [(now1, GallantExperience.EvFrame)]
       ++ mid2 ++ [(tA, GallantExperience.EvTimeout 0)]
       ++ mid3 ++ [(tB, GallantExperience.EvTimeout 0)]
       ++ mid4 ++ [(tC, GallantExperience.EvTimeout 0)]
       ++ rest) page in
  let any := GallantExperience.run M cfg evs page in
  (GallantExperience.portalDestroyCalls final = 1
   /\ GallantExperience.worldConstructions final = 1
   /\ GallantExperience.calls final = [GallantExperience.Finished])
  /\ (GallantExperience.portalDestroyCalls any <= 1
      /\ GallantExperience.worldConstructions any <= 1)
  /\ (GallantExperience.currentPhase any = GallantExperience.PhaseWorld ->
      GallantExperience.enterWorld now any = any
      /\ GallantExperience.step M cfg any (now, GallantExperience.EvEnter)
         = any).
Proof.
  intros Hpc Hwc Hpre Hnow page final any.
  destruct (boot_phaseInv M cfg Hpc t0 (Browser.open w h dpr)) as [B1 B2].
  destruct (boot_pageInv M cfg Hpc t0 w h dpr 0) as [B3 B4].
  fold page in B1, B2, B3, B4.
  split; [|split].
  - (* the run of the sequence *)
    subst final. rewrite run_app.
    destruct (run_before_enter M cfg Hwc t0 0 pre page Hpre B1 B3 B4)
      as (P1 & P2 & P3).
    set (a0 := GallantExperience.run M cfg pre page) in *.
    change ([(t1, GallantExperience.EvEnter); (t2, GallantExperience.EvEnter)]
            ++ mid1 ++ [(now1, GallantExperience.EvFrame)]
            ++ mid2 ++ [(tA, GallantExperience.EvTimeout 0)]
            ++ mid3 ++ [(tB, GallantExperience.EvTimeout 0)]
            ++ mid4 ++ [(tC, GallantExperience.EvTimeout 0)] ++ rest)
      with ([(t1, GallantExperience.EvEnter)]
            ++ ((t2, GallantExperience.EvEnter) :: mid1)
            ++ [(now1, GallantExperience.EvFrame)]
            ++ mid2 ++ [(tA, GallantExperience.EvTimeout 0)]
            ++ mid3 ++ [(tB, GallantExperience.EvTimeout 0)]
            ++ mid4 ++ [(tC, GallantExperience.EvTimeout 0)] ++ rest).
    rewrite !run_app.
    destruct (enter_live M cfg Hwc t1 t0 0 a0 Hpc P1 P2 P3) as (p & L1).
    change (GallantExperience.run M cfg [(t1, GallantExperience.EvEnter)] a0)
      with (GallantExperience.step M cfg a0 (t1, GallantExperience.EvEnter)).
    set (a1 := GallantExperience.step M cfg a0 (t1, GallantExperience.EvEnter))
      in *.
    destruct (run_live M cfg Hwc t1 t0 p
                ((t2, GallantExperience.EvEnter) :: mid1) a1 L1) as [L2 _].
    set (a2 := GallantExperience.run M cfg
                 ((t2, GallantExperience.EvEnter) :: mid1) a1) in *.
    pose proof (frame_live M cfg Hwc t1 t0 p now1 a2 L2 Hnow) as S3.
    destruct (step_live M cfg Hwc t1 t0 p a2 (now1, GallantExperience.EvFrame) L2)
      as (L3 & _ & _).
    change (GallantExperience.run M cfg [(now1, GallantExperience.EvFrame)] a2)
      with (GallantExperience.step M cfg a2 (now1, GallantExperience.EvFrame)).
    set (a3 := GallantExperience.step M cfg a2 (now1, GallantExperience.EvFrame))
      in *.
    destruct (run_live M cfg Hwc t1 t0 p mid2 a3 L3) as [L4 S4].
    set (a4 := GallantExperience.run M cfg mid2 a3) in *.
    destruct (step_live M cfg Hwc t1 t0 p a4 (tA, GallantExperience.EvTimeout 0) L4)
      as (L5 & _ & S5). specialize (S5 eq_refl).
    change (GallantExperience.run M cfg [(tA, GallantExperience.EvTimeout 0)] a4)
      with (GallantExperience.step M cfg a4 (tA, GallantExperience.EvTimeout 0)).
    set (a5 := GallantExperience.step M cfg a4 (tA, GallantExperience.EvTimeout 0))
      in *.
    destruct (run_live M cfg Hwc t1 t0 p mid3 a5 L5) as [L6 S6].
    set (a6 := GallantExperience.run M cfg mid3 a5) in *.
    destruct (step_live M cfg Hwc t1 t0 p a6 (tB, GallantExperience.EvTimeout 0) L6)
      as (L7 & _ & S7). specialize (S7 eq_refl).
    change (GallantExperience.run M cfg [(tB, GallantExperience.EvTimeout 0)] a6)
      with (GallantExperience.step M cfg a6 (tB, GallantExperience.EvTimeout 0)).
    set (a7 := GallantExperience.step M cfg a6 (tB, GallantExperience.EvTimeout 0))
      in *.
    destruct (run_live M cfg Hwc t1 t0 p mid4 a7 L7) as [L8 S8].
    set (a8 := GallantExperience.run M cfg mid4 a7) in *.
    destruct (step_live M cfg Hwc t1 t0 p a8 (tC, GallantExperience.EvTimeout 0) L8)
      as (L9 & _ & S9). specialize (S9 eq_refl).
    change (GallantExperience.run M cfg [(tC, GallantExperience.EvTimeout 0)] a8)
      with (GallantExperience.step M cfg a8 (tC, GallantExperience.EvTimeout 0)).
    set (a9 := GallantExperience.step M cfg a8 (tC, GallantExperience.EvTimeout 0))
      in *.
    destruct (run_live M cfg Hwc t1 t0 p rest a9 L9) as [L10 S10].
    set (a10 := GallantExperience.run M cfg rest a9) in *.
    assert (S : 4 <= Spec.stage a10) by lia.
    destruct L10 as (I10 & _ & Ph10 & _).
    destruct (finished_counts a10 I10 Ph10 S) as [Hc Hn].
    pose proof (f_equal fst Hn) as Hd. pose proof (f_equal snd Hn) as Hw.
    cbn [fst snd Spec.counts] in Hd, Hw.
    split; [exact Hd | split; [exact Hw | exact Hc]].
  - (* at most once, at any time *)
    destruct (run_phaseInv M cfg Hwc evs page B1 B2) as [A1 _].
    fold any in A1. exact (counts_at_most_one any A1).
  - (* a click in the world phase *)
    intros Ph. destruct (run_phaseInv M cfg Hwc evs page B1 B2) as [_ A2].
    fold any in A2. now apply enter_again.
Qed.

Lemma C4_witness :
  let page := GallantExperience.boot Sample.math Sample.config 0
                (Browser.open (Fin 1920) (Fin 1080) (Fin 1)) in
  let final :=
    GallantExperience.run Sample.math Sample.config
      (Sample.idle
       ++ [(1%Q, GallantExperience.EvEnter);
           (1.01%Q, GallantExperience.EvEnter)]
       ++ Sample.zooming ++ [(1.8%Q, GallantExperience.EvFrame)]
       ++ [] ++ [(1.95%Q, GallantExperience.EvTimeout 0)]
       ++ [(1.97%Q, GallantExperience.EvFrame)]
       ++ [(2%Q, GallantExperience.EvTimeout 0)]
       ++ [] ++ [(2.4%Q, GallantExperience.EvTimeout 0)]
       ++ Sample.scrolling) page in
  let any := GallantExperience.run Sample.math Sample.config
               Sample.doubleEnter page in
  (GallantExperience.portalDestroyCalls final = 1
   /\ GallantExperience.worldConstructions final = 1
   /\ GallantExperience.calls final = [GallantExperience.Finished])
  /\ (GallantExperience.portalDestroyCalls any <= 1
      /\ GallantExperience.worldConstructions any <= 1)
  /\ (GallantExperience.currentPhase any = GallantExperience.PhaseWorld ->
      GallantExperience.enterWorld 5 any = any
      /\ GallantExperience.step Sample.math Sample.config any
           (5%Q, GallantExperience.EvEnter)
         = any).
Proof.
  apply (C4_enter_twice_runs_the_sequence_once
           Sample.math Sample.config (Fin 1920) (Fin 1080) (Fin 1) 0
           Sample.idle 1 1.01 Sample.zooming 1.8 [] 1.95
           [(1.97%Q, GallantExperience.EvFrame)] 2 [] 2.4
           Sample.scrolling Sample.doubleEnter 5).
  - reflexivity.
  - reflexivity.
  - repeat constructor; discriminate.
  - discriminate.
Defined.

(* ================================================================= *)
(** * Further properties of the code *)

(** ** Pointer and scroll inputs *)

Section Inputs.
Local Open Scope Q_scope.

Lemma div_Fin_pos (a b : Q) : 0 < b -> Num.div (Fin a) (Fin b) = Fin (a / b).
Proof.
  intros H. unfold Num.div.
  destruct (Qcompare_spec b 0) as [E|L|G]; [lra | lra | reflexivity].
Qed.

Lemma Qdiv_bounds (a b : Q) : 0 < b -> 0 <= a <= b -> 0 <= a / b <= 1.
Proof.
  intros Hb [H0 H1]. split.
  - apply Qle_shift_div_l; [exact Hb | lra].
  - apply Qle_shift_div_r; [exact Hb | lra].
Qed.

(** The normalised device coordinates both controllers compute. *)
Lemma ndc_value (x y w h : Q) :
  0 < w -> 0 < h ->
  Num.sub (Num.mul (Num.div (Fin x) (Fin w)) (Fin 2)) (Fin 1)
    = Fin (x / w * 2 + - 1)
  /\ Num.add (Num.mul (Num.neg (Num.div (Fin y) (Fin h))) (Fin 2)) (Fin 1)
     = Fin (- (y / h) * 2 + 1).
Proof.
  intros Hw Hh. now rewrite !div_Fin_pos.
Qed.

End Inputs.

(** X1. A pointer event inside a window of positive size sets the
    target pointer of either controller to normalised device
    coordinates: [x / w * 2 - 1] and [1 - y / h * 2], each between -1
    and 1, with the Y axis pointing up.  The listeners do this whether
    or not the controller is destroyed, and both controllers compute
    the same target. *)
Theorem X1_pointer_target_is_normalised
    (x y w h : Q) (ep : Env) (p : PortalScene.t)
    (ew : Env) (s : WorldScene.t) :
  (0 < w)%Q -> (0 < h)%Q -> (0 <= x <= w)%Q -> (0 <= y <= h)%Q ->
  innerWidth ep = Fin w -> innerHeight ep = Fin h ->
  innerWidth ew = Fin w -> innerHeight ew = Fin h ->
  exists nx ny : Q,
    PortalScene.targetMouse (snd (PortalScene.onMouseMove (Fin x) (Fin y) (ep, p)))
      = Vector2.mk (Fin nx) (Fin ny)
    /\ WorldScene.targetMouse (snd (WorldScene.handleMove (Fin x) (Fin y) (ew, s)))
       = Vector2.mk (Fin nx) (Fin ny)
    /\ (nx == 2 * x / w - 1)%Q /\ (ny == 1 - 2 * y / h)%Q
    /\ (-1 <= nx <= 1)%Q /\ (-1 <= ny <= 1)%Q.
Proof.
  intros Hw Hh Hx Hy Pw Ph Ww Wh.
  destruct (ndc_value x y w h Hw Hh) as [Ex Ey].
  exists (x / w * 2 + - 1)%Q, (- (y / h) * 2 + 1)%Q.
  pose proof (Qdiv_bounds x w Hw Hx) as Bx.
  pose proof (Qdiv_bounds y h Hh Hy) as By.
  repeat split.
  - cbn [PortalScene.onMouseMove snd PortalScene.targetMouse].
    rewrite Pw, Ph. unfold Num.sub in Ex. cbn [Num.neg] in Ex.
    unfold Num.sub. cbn [Num.neg]. now rewrite Ex, Ey.
  - cbn [WorldScene.handleMove snd WorldScene.targetMouse].
    rewrite Ww, Wh. unfold Num.sub in Ex. cbn [Num.neg] in Ex.
    unfold Num.sub. cbn [Num.neg]. now rewrite Ex, Ey.
  - field. lra.
  - field. lra.
  - lra.
  - lra.
  - lra.
  - lra.
Qed.

Lemma X1_witness :
  exists nx ny : Q,
    PortalScene.targetMouse
      (snd (PortalScene.onMouseMove (Fin 960) (Fin 180)
              (fst Sample.portalTornDown, snd Sample.portalTornDown)))
      = Vector2.mk (Fin nx) (Fin ny)
    /\ WorldScene.targetMouse
         (snd (WorldScene.handleMove (Fin 960) (Fin 180)
                 (Browser.resizeTo (Fin 1280) (Fin 720) (fst Sample.world),
                  snd Sample.world)))
       = Vector2.mk (Fin nx) (Fin ny)
    /\ (nx == 2 * 960 / 1280 - 1)%Q /\ (ny == 1 - 2 * 180 / 720)%Q
    /\ (-1 <= nx <= 1)%Q /\ (-1 <= ny <= 1)%Q.
Proof.
  apply (X1_pointer_target_is_normalised 960 180 1280 720
           (fst Sample.portalTornDown) (snd Sample.portalTornDown)
           (Browser.resizeTo (Fin 1280) (Fin 720) (fst Sample.world))
           (snd Sample.world)).
  - reflexivity.
  - reflexivity.
  - split; discriminate.
  - split; discriminate.
  - vm_compute. reflexivity.
  - vm_compute. reflexivity.
  - reflexivity.
  - reflexivity.
Defined.

(** X2. When the content overflows its container ([scrollHeight >
    clientHeight]) and [scrollTop] lies between 0 and the overflow, the
    progress the scroll listener hands to [updateScroll] is a fraction
    between 0 and 1: 0 at the top, 1 at the bottom, and it grows with
    [scrollTop]. *)
Theorem X2_scroll_progress_is_a_fraction
    (top top' sh ch : Q) (a : GallantExperience.t) (w : WorldScene.t) :
  (ch < sh)%Q -> (0 <= top)%Q -> (top <= top')%Q -> (top' <= sh - ch)%Q ->
  GallantExperience.world a = true ->
  GallantExperience.worldObj a = Some w ->
  exists q q' : Q,
    GallantExperience.scrollProgressOf (Fin top) (Fin sh) (Fin ch) = Fin q
    /\ GallantExperience.scrollProgressOf (Fin top') (Fin sh) (Fin ch) = Fin q'
    /\ (0 <= q)%Q /\ (q <= q')%Q /\ (q' <= 1)%Q
    /\ (q == top / (sh - ch))%Q
    /\ GallantExperience.scrollProgressOf (Fin 0) (Fin sh) (Fin ch) =n= Fin 0
    /\ GallantExperience.scrollProgressOf (Fin (sh - ch)) (Fin sh) (Fin ch)
         =n= Fin 1
    /\ option_map WorldScene.scrollProgress
         (GallantExperience.worldObj
            (GallantExperience.onScroll (Fin top) (Fin sh) (Fin ch) a))
       = Some (Fin q).
Proof.
  intros Hov H0 Hm H1 Hw Ho.
  assert (Hd : (0 < sh + - ch)%Q) by lra.
  assert (E : forall t : Q,
             GallantExperience.scrollProgressOf (Fin t) (Fin sh) (Fin ch)
             = Fin (t / (sh + - ch))).
  { intros t. unfold GallantExperience.scrollProgressOf.
    cbn [Num.sub Num.neg Num.add]. now apply div_Fin_pos. }
  exists (top / (sh + - ch))%Q, (top' / (sh + - ch))%Q.
  rewrite !E.
  assert (B : (0 <= top / (sh + - ch) <= 1)%Q)
    by (apply Qdiv_bounds; [exact Hd | lra]).
  assert (B' : (0 <= top' / (sh + - ch) <= 1)%Q)
    by (apply Qdiv_bounds; [exact Hd | lra]).
  split; [reflexivity|]. split; [reflexivity|].
  split; [lra|]. split; [|split; [lra|]].
  { unfold Qdiv. apply Qmult_le_compat_r; [exact Hm|].
    apply Qlt_le_weak. now apply Qinv_lt_0_compat. }
  split; [reflexivity|].
  split; [cbn [Num.equiv]; field; lra|].
  split; [cbn [Num.equiv]; field; lra|].
  unfold GallantExperience.onScroll. rewrite Hw, Ho, E. reflexivity.
Qed.

Lemma X2_witness :
  exists q q' : Q,
    GallantExperience.scrollProgressOf (Fin 300) (Fin 2400) (Fin 600) = Fin q
    /\ GallantExperience.scrollProgressOf (Fin 900) (Fin 2400) (Fin 600) = Fin q'
    /\ (0 <= q)%Q /\ (q <= q')%Q /\ (q' <= 1)%Q
    /\ (q == 300 / (2400 - 600))%Q
    /\ GallantExperience.scrollProgressOf (Fin 0) (Fin 2400) (Fin 600) =n= Fin 0
    /\ GallantExperience.scrollProgressOf (Fin (2400 - 600)) (Fin 2400) (Fin 600)
         =n= Fin 1
    /\ option_map WorldScene.scrollProgress
         (GallantExperience.worldObj
            (GallantExperience.onScroll (Fin 300) (Fin 2400) (Fin 600)
               Sample.entered))
       = Some (Fin q).
Proof.
  apply (X2_scroll_progress_is_a_fraction 300 900 2400 600
           Sample.entered Sample.enteredWorld).
  - reflexivity.
  - discriminate.
  - discriminate.
  - discriminate.
  - vm_compute. reflexivity.
  - vm_compute. reflexivity.
Defined.

(** ** Numbers that are not numbers *)

Lemma add_NaN_r (x : num) : Num.add x NaN = NaN.
Proof. now destruct x. Qed.

Lemma mul_NaN_l (x : num) : Num.mul NaN x = NaN.
Proof. reflexivity. Qed.

(** One frame keeps a camera coordinate that is not a number. *)
Lemma world_animate_nan (M : MathLib) (now : Q) (es : Env * WorldScene.t) :
  let s' := snd (WorldScene.animate M now es) in
  (Vector3.y (position (WorldScene.camera (snd es))) = NaN ->
   Vector3.y (position (WorldScene.camera s')) = NaN)
  /\ (Vector3.z (position (WorldScene.camera (snd es))) = NaN ->
      Vector3.z (position (WorldScene.camera s')) = NaN).
Proof.
  destruct es as [e s]. unfold WorldScene.animate.
  destruct (WorldScene.isDestroyed s); [now split|].
  destruct (Clock.getElapsedTime now (WorldScene.clock s)) as [clk time].
  cbn [snd fst WorldScene.camera position Vector3.y Vector3.z].
  split; intros ->; reflexivity.
Qed.

Lemma world_act_nan (M : MathLib) (a : WorldPage.Action)
    (es : Env * WorldScene.t) :
  Vector3.y (position (WorldScene.camera (snd es))) = NaN
  /\ Vector3.z (position (WorldScene.camera (snd es))) = NaN ->
  Vector3.y (position (WorldScene.camera (snd (WorldPage.act M es a)))) = NaN
  /\ Vector3.z (position (WorldScene.camera (snd (WorldPage.act M es a)))) = NaN.
Proof.
  intros H. destruct a as [now|x y|w h|p|]; cbn [WorldPage.act].
  - unfold WorldScene.frame.
    apply (runFrame_inv (WorldScene.runCallback M now)
             (fun _ x =>
                Vector3.y (position (WorldScene.camera (snd x))) = NaN
                /\ Vector3.z (position (WorldScene.camera (snd x))) = NaN));
      [|exact H].
    intros c rest x [Hy Hz]. destruct c as [id [|st q|]]; cbn [snd WorldScene.runCallback];
      try (now split).
    destruct (world_animate_nan M now x) as [A B]. split; auto.
  - destruct es as [e s]. exact H.
  - destruct es as [e s]. cbn [fst snd] in *. unfold WorldScene.onResize.
    destruct (WorldScene.isDestroyed s); exact H.
  - exact H.
  - destruct es as [e s]. exact H.
Qed.

(** X3. A progress that is not a number poisons the camera for good.
    Once [updateScroll] is handed [NaN], the next frame the world
    controller renders sets camera Y and camera Z to [NaN]; and
    whatever happens afterwards (frames, later scroll positions of any
    value, pointer moves, resizes) they stay [NaN]. *)
Theorem X3_nan_progress_poisons_the_camera
    (M : MathLib) (now : Q) (e : Env) (w : WorldScene.t)
    (later : list WorldPage.Action) :
  WorldScene.isDestroyed w = false ->
  let es1 := WorldScene.animate M now (e, WorldScene.updateScroll NaN w) in
  let es2 := WorldPage.acts M later es1 in
  (Vector3.y (position (WorldScene.camera (snd es1))) = NaN
   /\ Vector3.z (position (WorldScene.camera (snd es1))) = NaN)
  /\ (Vector3.y (position (WorldScene.camera (snd es2))) = NaN
      /\ Vector3.z (position (WorldScene.camera (snd es2))) = NaN).
Proof.
  intros Hd es1 es2.
  assert (H1 : Vector3.y (position (WorldScene.camera (snd es1))) = NaN
               /\ Vector3.z (position (WorldScene.camera (snd es1))) = NaN).
  { subst es1. unfold WorldScene.animate, WorldScene.updateScroll.
    cbn [WorldScene.isDestroyed WorldScene.clock]. rewrite Hd.
    destruct (Clock.getElapsedTime now (WorldScene.clock w)) as [clk time].
    cbn. rewrite !add_NaN_r. now split. }
  split; [exact H1|]. subst es2. unfold WorldPage.acts.
  generalize dependent es1. induction later as [|a l IH]; intros es1 H1;
    [exact H1|].
  cbn [fold_left]. apply IH. now apply world_act_nan.
Qed.

Lemma X3_witness :
  let es1 := WorldScene.animate Sample.math 1
               (fst Sample.world,
                WorldScene.updateScroll NaN (snd Sample.world)) in
  let es2 := WorldPage.acts Sample.math Scenario.afterNaN es1 in
  (Vector3.y (position (WorldScene.camera (snd es1))) = NaN
   /\ Vector3.z (position (WorldScene.camera (snd es1))) = NaN)
  /\ (Vector3.y (position (WorldScene.camera (snd es2))) = NaN
      /\ Vector3.z (position (WorldScene.camera (snd es2))) = NaN).
Proof.
  apply (X3_nan_progress_poisons_the_camera Sample.math 1
           (fst Sample.world) (snd Sample.world) Scenario.afterNaN).
  reflexivity.
Defined.

(** ** The grid floor stays within one period *)

Section GridRange.
Local Open Scope Q_scope.

Lemma gridOffset_range (t : Q) :
  0 <= t ->
  exists o, WorldScene.gridOffset (Fin t) = Fin o /\ -4 < o /\ o <= 0.
Proof.
  intros Ht. rewrite gridOffset_Fin. eexists. split; [reflexivity|].
  assert (N : - (t * 0.5) / 4 <= 0).
  { assert (- (t * 0.5) / 4 == - t * (1 # 8)) as -> by field. lra. }
  rewrite (trunc_nonpos _ N).
  pose proof (Qle_ceiling (- (t * 0.5) / 4)) as C1.
  pose proof (Qceiling_lt (- (t * 0.5) / 4)) as C2.
  unfold Zminus in C2. rewrite inject_Z_plus in C2.
  change (inject_Z (Z.opp 1)) with (-1) in C2.
  revert C1 C2. generalize (inject_Z (Qceiling (- (t * 0.5) / 4))).
  intros c C1 C2.
  assert (E : - (t * 0.5) / 4 == - (t * 0.5) * (1 # 4)) by field.
  rewrite E in C1, C2. split; lra.
Qed.

End GridRange.

(** X6. From the start of the clock on, the grid floor's Z offset is
    never positive and never reaches -4: a frame never moves the grid
    by a whole wrap or more, and never forward. *)
Theorem X6_grid_offset_stays_within_one_wrap
    (M : MathLib) (now c : Q) (e : Env) (w : WorldScene.t) :
  (c <= now)%Q ->
  WorldScene.isDestroyed w = false ->
  WorldScene.clock w = Some (Fin c) ->
  exists o : Q,
    Vector3.z (WorldScene.gridFloor (snd (WorldScene.animate M now (e, w))))
      = Fin o
    /\ (-4 < o)%Q /\ (o <= 0)%Q.
Proof.
  intros Hc Hd Hk. unfold WorldScene.animate. rewrite Hd, Hk.
  cbn [Clock.getElapsedTime Browser.requestAnimationFrame snd
       WorldScene.gridFloor Vector3.set_z Vector3.z Num.sub Num.neg Num.add].
  apply gridOffset_range. lra.
Qed.

Lemma X6_witness :
  exists o : Q,
    Vector3.z (WorldScene.gridFloor
                 (snd (WorldScene.animate Sample.math 7.3
                         (fst Sample.world, snd Sample.world))))
      = Fin o
    /\ (-4 < o)%Q /\ (o <= 0)%Q.
Proof.
  apply (X6_grid_offset_stays_within_one_wrap Sample.math 7.3 0
           (fst Sample.world) (snd Sample.world)).
  - discriminate.
  - reflexivity.
  - reflexivity.
Defined.

(** ** The transition stays within its range *)

Section TransitionRange.
Local Open Scope Q_scope.

Lemma cube_range (u : Q) : 0 <= u <= 1 -> 0 <= u * (u * (u * 1)) <= 1.
Proof.
  intros [H0 H1].
  assert (A : 0 <= u * 1 <= 1) by lra.
  assert (B : 0 <= u * (u * 1) <= 1) by nra.
  nra.
Qed.

Lemma cube_mono (u v : Q) :
  0 <= v -> v <= u -> v * (v * (v * 1)) <= u * (u * (u * 1)).
Proof.
  intros H0 H1.
  assert (A : v * 1 <= u * 1) by lra.
  assert (B : 0 <= v * (v * 1)) by nra.
  assert (C : v * (v * 1) <= u * (u * 1)) by nra.
  nra.
Qed.

(** The eased value of a progress between 0 and 1. *)
Lemma eased_value (q : Q) :
  0 <= q <= 1 ->
  exists z, PortalScene.eased (Fin q) = Fin z /\ 0 <= z <= 1.
Proof.
  intros H. eexists. split; [reflexivity|].
  pose proof (cube_range (1 + - q)) as C. lra.
Qed.

Lemma eased_mono (q r : Q) :
  q <= r -> r <= 1 ->
  exists z y, PortalScene.eased (Fin q) = Fin z
              /\ PortalScene.eased (Fin r) = Fin y /\ z <= y.
Proof.
  intros H1 H2. eexists. eexists. split; [reflexivity|].
  split; [reflexivity|].
  pose proof (cube_mono (1 + - q) (1 + - r)) as C. lra.
Qed.

(** Progress and eased value at a non-negative elapsed time. *)
Lemma eased_progress (x : Q) :
  0 <= x ->
  exists z, PortalScene.eased (PortalScene.progress (Fin x)) = Fin z
            /\ 0 <= z <= 1.
Proof.
  intros Hx. destruct (progress_value x) as (q & -> & Hq1 & Hqx & Hq).
  apply eased_value. split; [|exact Hq1].
  assert (0 <= x / 0.7) by (apply Qle_shift_div_l; [reflexivity | lra]).
  destruct Hq; lra.
Qed.

Lemma eased_progress_mono (x y : Q) :
  x <= y ->
  exists z z', PortalScene.eased (PortalScene.progress (Fin x)) = Fin z
               /\ PortalScene.eased (PortalScene.progress (Fin y)) = Fin z'
               /\ z <= z'.
Proof.
  intros H. pose proof (div_07_mono x y H) as D.
  destruct (progress_value x) as (q & -> & Hq1 & Hqx & Hq).
  destruct (progress_value y) as (r & -> & Hr1 & Hry & Hr).
  apply eased_mono; [|exact Hr1]. destruct Hr; lra.
Qed.

End TransitionRange.

Lemma Forall_imap_intro {A B : Type} (P : B -> Prop) (f : nat -> A -> B)
    (l : list A) :
  (forall i x, P (f i x)) -> Forall P (imap f l).
Proof.
  intros H. revert f H. induction l as [|x l IH]; intros f H; [constructor|].
  rewrite imap_cons. constructor; [apply H|]. apply IH. intros i y. apply H.
Qed.

(** X4. On every frame of the transition that finds the controller
    alive, at a time not before the transition started, the values it
    writes stay in range: the field of view between 60 and 100, camera Z between -0.5 and 5, the globe's
    glow between 0.5 and 3.5, the core's intensity between 1 and 6,
    every ring's opacity between 0 and 0.4 and every ring's scale at
    least 1.  The number of rings is unchanged. *)
Theorem X4_transition_values_stay_in_range
    (now c st : Q) (pr : nat) (e : Env) (s : PortalScene.t) :
  (st <= now - c)%Q ->
  PortalScene.isDestroyed s = false ->
  PortalScene.clock s = Some (Fin c) ->
  let s' := snd (PortalScene.transitionAnimate now (Fin st) pr (e, s)) in
  Extra.within (Fin 60) (Fin 100) (fov (PortalScene.camera s'))
  /\ Extra.within (Fin (-0.5)) (Fin 5)
       (Vector3.z (position (PortalScene.camera s')))
  /\ Extra.within (Fin 0.5) (Fin 3.5)
       (PortalScene.glowIntensity (PortalScene.globeMaterial s'))
  /\ Extra.within (Fin 1) (Fin 6)
       (PortalScene.intensity (PortalScene.coreMaterial s'))
  /\ Forall (fun r => Extra.within (Fin 0) (Fin 0.4) (PortalScene.ring_opacity r)
                      /\ Num.leb (Fin 1) (PortalScene.ring_scale r) = true)
       (PortalScene.rings s')
  /\ length (PortalScene.rings s') = length (PortalScene.rings s).
Proof.
  intros Hst Hd Hk s'. subst s'.
  unfold PortalScene.transitionAnimate. rewrite Hd, Hk.
  cbn [Clock.getElapsedTime Num.sub Num.neg Num.add].
  destruct (eased_progress (now + - c + - st)) as (z & Ez & Hz); [lra|].
  rewrite Ez.
  destruct (Num.ltb (PortalScene.progress (Fin (now + - c + - st))) (Fin 1));
    cbn [snd PortalScene.camera fov position Vector3.set_z Vector3.z
         PortalScene.globeMaterial PortalScene.glowIntensity
         PortalScene.coreMaterial PortalScene.intensity PortalScene.rings
         Num.add Num.mul Num.sub Num.neg];
    (split; [split; apply leb_Fin; lra|]);
    (split; [split; apply leb_Fin; lra|]);
    (split; [split; apply leb_Fin; lra|]);
    (split; [split; apply leb_Fin; lra|]);
    (split; [|apply length_imap]);
    apply Forall_imap_intro; intros i r;
    cbn [PortalScene.burstRing PortalScene.ring_opacity PortalScene.ring_scale
         PortalScene.index Num.add Num.mul Num.sub Num.neg];
    (assert (Hi : (0 <= inject_Z (Z.of_nat i))%Q)
       by (change 0%Q with (inject_Z 0); rewrite <- Zle_Qle; lia));
    (split; [split; apply leb_Fin; lra|]);
    apply leb_Fin; nra.
Qed.

Lemma X4_witness :
  let s' := snd (PortalScene.transitionAnimate 1.3 (Fin 1) 0
                   (fst Sample.portal, snd Sample.portal)) in
  Extra.within (Fin 60) (Fin 100) (fov (PortalScene.camera s'))
  /\ Extra.within (Fin (-0.5)) (Fin 5)
       (Vector3.z (position (PortalScene.camera s')))
  /\ Extra.within (Fin 0.5) (Fin 3.5)
       (PortalScene.glowIntensity (PortalScene.globeMaterial s'))
  /\ Extra.within (Fin 1) (Fin 6)
       (PortalScene.intensity (PortalScene.coreMaterial s'))
  /\ Forall (fun r => Extra.within (Fin 0) (Fin 0.4) (PortalScene.ring_opacity r)
                      /\ Num.leb (Fin 1) (PortalScene.ring_scale r) = true)
       (PortalScene.rings s')
  /\ length (PortalScene.rings s') = length (PortalScene.rings (snd Sample.portal)).
Proof.
  apply (X4_transition_values_stay_in_range 1.3 0 1 0
           (fst Sample.portal) (snd Sample.portal)).
  - discriminate.
  - reflexivity.
  - reflexivity.
Defined.

(** X5. The zoom never reverses.  The field of view and camera Z a
    transition frame writes depend on the clock only: of two frames of
    the same transition, the later one writes a field of view at least
    as wide and a camera Z at least as close, whatever state each frame
    found. *)
Theorem X5_zoom_never_reverses
    (now now' c st : Q) (pr : nat)
    (e e' : Env) (s s' : PortalScene.t) :
  (now <= now')%Q ->
  PortalScene.isDestroyed s = false -> PortalScene.isDestroyed s' = false ->
  PortalScene.clock s = Some (Fin c) -> PortalScene.clock s' = Some (Fin c) ->
  let r := snd (PortalScene.transitionAnimate now (Fin st) pr (e, s)) in
  let r' := snd (PortalScene.transitionAnimate now' (Fin st) pr (e', s')) in
  Num.leb (fov (PortalScene.camera r)) (fov (PortalScene.camera r')) = true
  /\ Num.leb (Vector3.z (position (PortalScene.camera r')))
             (Vector3.z (position (PortalScene.camera r))) = true.
Proof.
  intros Hn Hd Hd' Hk Hk' r r'. subst r r'.
  unfold PortalScene.transitionAnimate. rewrite Hd, Hd', Hk, Hk'.
  cbn [Clock.getElapsedTime Num.sub Num.neg Num.add].
  destruct (eased_progress_mono (now + - c + - st) (now' + - c + - st))
    as (z & z' & -> & -> & Hz); [lra|].
  destruct (Num.ltb (PortalScene.progress (Fin (now + - c + - st))) (Fin 1)),
           (Num.ltb (PortalScene.progress (Fin (now' + - c + - st))) (Fin 1));
    cbn [snd PortalScene.camera fov position Vector3.set_z Vector3.z
         Num.add Num.mul Num.sub Num.neg];
    split; apply leb_Fin; lra.
Qed.

Lemma X5_witness :
  let r := snd (PortalScene.transitionAnimate 1.2 (Fin 1) 0
                  (fst Sample.portal, snd Sample.portal)) in
  let r' := snd (PortalScene.transitionAnimate 1.5 (Fin 1) 0
                   (fst Sample.portalMoved, snd Sample.portalMoved)) in
  Num.leb (fov (PortalScene.camera r)) (fov (PortalScene.camera r')) = true
  /\ Num.leb (Vector3.z (position (PortalScene.camera r')))
             (Vector3.z (position (PortalScene.camera r))) = true.
Proof.
  apply (X5_zoom_never_reverses 1.2 1.5 0 1 0
           (fst Sample.portal) (fst Sample.portalMoved)
           (snd Sample.portal) (snd Sample.portalMoved)).
  - discriminate.
  - reflexivity.
  - reflexivity.
  - reflexivity.
  - reflexivity.
Defined.

Section Particles.
Local Open Scope Q_scope.

Lemma shrink_axis (x z : Q) :
  0 <= z <= 1 -> Qabs (x * (1 + - (z * 0.02))) <= Qabs x.
Proof.
  intros Hz. rewrite Qabs_Qmult.
  rewrite (Qabs_pos (1 + - (z * 0.02))) by lra.
  pose proof (Qabs_nonneg x). nra.
Qed.

Lemma rushParticle_inward (z : Q) (p : Vector3.t) :
  0 <= z <= 1 -> Extra.finite3 p ->
  Extra.inward p (PortalScene.rushParticle (Fin z) p)
  /\ Extra.finite3 (PortalScene.rushParticle (Fin z) p).
Proof.
  intros Hz (Fx & Fy & Fz). destruct p as [[x| | |] [y| | |] [w| | |]];
    try discriminate.
  split; [|now repeat split].
  repeat split; apply leb_Fin; now apply shrink_axis.
Qed.

End Particles.

(** X7. A transition frame pulls the cosmic particles toward the
    centre and loses none: the position attribute keeps its length,
    every particle stays finite, and on each axis no particle ends
    farther from the origin than it was. *)
Theorem X7_particles_rush_inward
    (now c st : Q) (pr : nat) (e : Env) (s : PortalScene.t) :
  (st <= now - c)%Q ->
  PortalScene.isDestroyed s = false ->
  PortalScene.clock s = Some (Fin c) ->
  Forall Extra.finite3 (PortalScene.particles s) ->
  let s' := snd (PortalScene.transitionAnimate now (Fin st) pr (e, s)) in
  length (PortalScene.particles s') = length (PortalScene.particles s)
  /\ Forall Extra.finite3 (PortalScene.particles s')
  /\ Forall2 Extra.inward (PortalScene.particles s) (PortalScene.particles s').
Proof.
  intros Hst Hd Hk Hf s'. subst s'.
  unfold PortalScene.transitionAnimate. rewrite Hd, Hk.
  cbn [Clock.getElapsedTime Num.sub Num.neg Num.add].
  destruct (eased_progress (now + - c + - st)) as (z & Ez & Hz); [lra|].
  rewrite Ez.
  assert (K : length (List.map (PortalScene.rushParticle (Fin z))
                        (PortalScene.particles s))
              = length (PortalScene.particles s)
              /\ Forall Extra.finite3
                   (List.map (PortalScene.rushParticle (Fin z))
                      (PortalScene.particles s))
              /\ Forall2 Extra.inward (PortalScene.particles s)
                   (List.map (PortalScene.rushParticle (Fin z))
                      (PortalScene.particles s))).
  { split; [apply List.length_map|].
    induction Hf as [|p l Hp Hl IH]; cbn [List.map]; [split; constructor|].
    destruct IH as [I1 I2].
    destruct (rushParticle_inward z p Hz Hp) as [R1 R2].
    split; constructor; assumption. }
  destruct (Num.ltb (PortalScene.progress (Fin (now + - c + - st))) (Fin 1));
    exact K.
Qed.

Lemma X7_witness :
  let s' := snd (PortalScene.transitionAnimate 1.3 (Fin 1) 0
                   (fst Sample.portal, snd Sample.portal)) in
  length (PortalScene.particles s')
    = length (PortalScene.particles (snd Sample.portal))
  /\ Forall Extra.finite3 (PortalScene.particles s')
  /\ Forall2 Extra.inward (PortalScene.particles (snd Sample.portal))
       (PortalScene.particles s').
Proof.
  apply (X7_particles_rush_inward 1.3 0 1 0
           (fst Sample.portal) (snd Sample.portal)).
  - discriminate.
  - reflexivity.
  - reflexivity.
  - repeat constructor.
Defined.

(** ** The effect log of the orchestrator follows the script *)

Section ScriptOrder.
Import GallantExperience.

Variable M : MathLib.
Variable cfg : Config.

Lemma logInv_ext (a a' : t) :
  (portalObj a <> None -> portalObj a' <> None) ->
  currentPhase a' = currentPhase a -> calls a' = calls a ->
  effects a' = effects a -> portal a' = portal a ->
  Script.logInv cfg a -> Script.logInv cfg a'.
Proof.
  intros Ho H2 H3 H4 H5 [Hp Hl]. split.
  - rewrite H5. intros F. apply Ho, Hp, F.
  - now rewrite H2, H3, H4, H5.
Qed.

Lemma settle_logInv (a : t) : Script.logInv cfg a -> Script.logInv cfg (settle a).
Proof.
  intros [Hp Hl]. split; [exact Hp|]. unfold settle.
  cbn [currentPhase with_calls calls effects portal].
  destruct (currentPhase a).
  - destruct Hl as (Hc & He & Hf). rewrite Hc, He. now repeat split.
  - destruct Hl as (pc & Hc & He & Hf). rewrite Hc, He.
    cbn [List.map flat_map]. rewrite List.app_nil_r.
    destruct pc as [p| | | |]; cbn [settleCall fst snd];
      try (eexists; split; [reflexivity|]; split;
           [now rewrite List.app_nil_r | exact Hf]).
    destruct (Browser.resolveCalls p (env a)); cbn [fst snd].
    + eexists. split; [reflexivity|]. split;
        [now rewrite List.app_nil_r | exact Hf].
    + eexists. split; [reflexivity|]. split; [reflexivity|].
      destruct Hf as [Hf Hk]. now rewrite Hf, Hk.
Qed.

Lemma enterWorld_logInv (now : Q) (a : t) :
  Script.logInv cfg a -> Script.logInv cfg (enterWorld now a).
Proof.
  intros [Hp Hl]. unfold enterWorld.
  destruct (currentPhase a) eqn:Ph; [|split; [exact Hp | now rewrite Ph]].
  destruct Hl as (Hc & He & Hf).
  destruct (portal a) eqn:Pa.
  - destruct (portalObj a) as [p|] eqn:Op; [|now destruct (Hp eq_refl)].
    destruct (PortalScene.transitionOut now (env a, p)) as [[e1 p1] pr].
    split; cbn [portalObj portal currentPhase calls effects]; [discriminate|].
    exists (AwaitTransition pr). rewrite Hc, He. repeat split; congruence.
  - split; cbn [portalObj portal currentPhase calls effects];
      [discriminate|].
    exists AwaitFlashPeak. rewrite Hc, He. repeat split; congruence.
Qed.

Lemma onTimeout_logInv (now : Q) (k : nat) (a : t) :
  Script.logInv cfg a -> Script.logInv cfg (onTimeout M cfg now k a).
Proof.
  intros H. pose proof H as [Hp Hl]. unfold onTimeout.
  destruct (currentPhase a) eqn:Ph.
  { destruct Hl as (Hc & _). rewrite Hc. exact H. }
  destruct Hl as (pc & Hc & He & Hf). rewrite Hc.
  destruct k as [|k]; [|exact H]. cbn [lookup list_lookup].
  destruct pc; cbn [resume].
  - (* no timer is pending *)
    split; [exact Hp|]. cbn [currentPhase with_calls calls effects portal].
    rewrite Ph, Hc, He. eexists. split; [reflexivity|].
    split; [now rewrite List.app_nil_r | exact Hf].
  - (* the flash has peaked *)
    unfold initWorld. destruct (hasWorldCanvas cfg) eqn:Wc.
    + destruct (WorldScene.create M now (worldAssets cfg) _) as [e1 w].
      split; cbn [portalObj with_calls currentPhase calls effects portal];
        [exact Hp|].
      rewrite Ph, Hc, He. eexists. split; [reflexivity|].
      split; [|exact Hf]. cbn [Script.upTo]. unfold Script.shown. rewrite Wc.
      now rewrite List.app_nil_r, <- !List.app_assoc.
    + split; cbn [portalObj with_calls currentPhase calls effects portal];
        [exact Hp|].
      rewrite Ph, Hc, He. eexists. split; [reflexivity|].
      split; [|exact Hf]. cbn [Script.upTo]. unfold Script.shown. rewrite Wc.
      now rewrite !List.app_nil_r, <- !List.app_assoc.
  - (* the world has started *)
    cbn [portal with_calls portalObj].
    destruct (portal a) eqn:Pa.
    + destruct (portalObj a) as [p|] eqn:Op; [|now destruct (Hp eq_refl)].
      destruct (PortalScene.destroy _) as [e1 p1].
      split; cbn [portalObj with_calls currentPhase calls effects portal];
        [discriminate|].
      rewrite Ph, Hc, He. eexists. split; [reflexivity|].
      split; [|exact I]. cbn [Script.upTo]. unfold Script.hidden. rewrite <- Hf.
      now rewrite List.app_nil_r, <- !List.app_assoc.
    + split; cbn [portalObj with_calls currentPhase calls effects portal];
        [try rewrite Pa; discriminate|].
      rewrite Ph, Hc, He. eexists. split; [reflexivity|].
      split; [|exact I]. cbn [Script.upTo]. unfold Script.hidden. rewrite <- Hf.
      now rewrite !List.app_nil_r.
  - (* the flash is removed *)
    split; [exact Hp|]. cbn [currentPhase with_calls calls effects portal].
    rewrite Ph, Hc, He. eexists. split; [reflexivity|].
    split; [now rewrite List.app_nil_r | exact I].
  - (* the sequence is over *)
    split; [exact Hp|]. cbn [currentPhase with_calls calls effects portal].
    rewrite Ph, Hc, He. eexists. split; [reflexivity|].
    split; [now rewrite List.app_nil_r | exact I].
Qed.

Lemma step_logInv (a : t) (ev : Q * Event) :
  Script.logInv cfg a -> Script.logInv cfg (step M cfg a ev).
Proof.
  intros H. unfold step. apply settle_logInv.
  destruct ev as [now [| |k|top sh ch|x y|w h]]; cbn [fst snd].
  - unfold onEnterClick.
    destruct (hasPortalCanvas cfg); [now apply enterWorld_logInv | exact H].
  - destruct (onFrame_shape M now a) as (H1 & H2 & H3 & H4).
    apply (logInv_ext a); try assumption. apply onFrame_portalObj.
  - now apply onTimeout_logInv.
  - destruct (iter_onScroll_shape (scrollListeners a) top sh ch a)
      as (H1 & H2 & H3 & H4 & H5 & _).
    apply (logInv_ext a); try assumption. now rewrite H1.
  - apply (logInv_ext a); try reflexivity; [|exact H].
    cbn [onMouseMove with_heap portalObj fst].
    destruct (portalObj a); [discriminate | contradiction].
  - apply (logInv_ext a); try reflexivity; [|exact H].
    cbn [onResize with_heap portalObj fst].
    destruct (portalObj a); [discriminate | contradiction].
Qed.

Lemma run_logInv (evs : list (Q * Event)) (a : t) :
  Script.logInv cfg a -> Script.logInv cfg (run M cfg evs a).
Proof.
  unfold run. revert a. induction evs as [|ev evs IH]; intros a H; [exact H|].
  cbn [fold_left]. apply IH. now apply step_logInv.
Qed.

Lemma boot_logInv (now : Q) (e : Env) : Script.logInv cfg (boot M cfg now e).
Proof.
  unfold boot. destruct (hasPortalCanvas cfg) eqn:Pc.
  - destruct (PortalScene.create M now (portalAssets cfg) e) as [e1 p].
    split; [discriminate|]. cbn. now rewrite Pc.
  - split; [discriminate|]. cbn. now rewrite Pc.
Qed.

Lemma upTo_prefix (pc : Pc) : Script.upTo cfg pc `prefix_of` Script.whole cfg.
Proof.
  destruct pc; cbn [Script.upTo];
    [| | | |exists []; now rewrite List.app_nil_r];
    unfold Script.whole, Script.hidden, Script.shown, Script.opening;
    eexists; rewrite <- ?List.app_assoc; cbn [app]; reflexivity.
Qed.

Lemma upTo_whole (pc : Pc) : Script.upTo cfg pc = Script.whole cfg <-> pc = Finished.
Proof.
  split; [|now intros ->].
  intros H. apply (f_equal (@length Effect)) in H.
  unfold Script.whole, Script.hidden, Script.shown in H.
  destruct pc; [| | | |reflexivity]; exfalso;
    cbn [Script.upTo] in H; unfold Script.hidden, Script.shown in H;
    destruct (hasWorldCanvas cfg), (hasPortalCanvas cfg); cbn in H; lia.
Qed.

(** Without the portal canvas no event moves an inert page. *)
Lemma step_inert (a : t) (ev : Q * Event) :
  hasPortalCanvas cfg = false ->
  Script.inert a -> Script.inert (step M cfg a ev).
Proof.
  intros Pc (I1 & I2 & I3 & I4 & I5 & I6 & I7 & I8 & I9 & I10).
  destruct a as [e po wo pf wf ph cs sl fx]. cbn in *. subst.
  unfold step, settle, onEnterClick. rewrite Pc.
  destruct ev as [now [| |k|top sh ch|x y|w h]]; cbn [fst snd].
  - now repeat split.
  - unfold onFrame, runFrame. cbn [env portalObj worldObj fst snd].
    rewrite I9. cbn. now repeat split.
  - unfold onTimeout. cbn [calls]. rewrite lookup_nil. now repeat split.
  - cbn [scrollListeners Nat.iter nat_rect]. now repeat split.
  - unfold onMouseMove. cbn. now repeat split.
  - unfold onResize. cbn. now repeat split.
Qed.

Lemma run_inert (evs : list (Q * Event)) (a : t) :
  hasPortalCanvas cfg = false ->
  Script.inert a -> Script.inert (run M cfg evs a).
Proof.
  intros Pc. unfold run. revert a.
  induction evs as [|ev evs IH]; intros a H; [exact H|].
  cbn [fold_left]. apply IH. now apply step_inert.
Qed.

End ScriptOrder.

(** X8. Whatever happens to the page, and whichever canvases the
    document has, what the orchestrator has done to its collaborators
    is a beginning of the one script of [enterWorld]: the whoosh, the
    ambient sound, the fade of the portal UI, the flash, the world
    shown (and constructed if it has a canvas), the portal hidden (and
    destroyed if it had a canvas), the flash removed, the sound stopped,
    the world revealed.  Nothing is done out of order or twice, and the
    script is complete exactly when the call of [enterWorld] has
    returned. *)
Theorem X8_effects_follow_the_script
    (M : MathLib) (cfg : GallantExperience.Config) (now : Q) (e : Env)
    (evs : list (Q * GallantExperience.Event)) :
  let a := GallantExperience.run M cfg evs (GallantExperience.boot M cfg now e) in
  GallantExperience.effects a `prefix_of` Script.whole cfg
  /\ (GallantExperience.effects a = Script.whole cfg
      <-> GallantExperience.calls a = [GallantExperience.Finished]).
Proof.
  intros a.
  destruct (run_logInv M cfg evs _ (boot_logInv M cfg now e)) as [_ Hl].
  fold a in Hl. destruct (GallantExperience.currentPhase a).
  - destruct Hl as (Hc & He & _). rewrite Hc, He. split.
    + now exists (Script.whole cfg).
    + split; discriminate.
  - destruct Hl as (pc & Hc & He & _). rewrite Hc, He. split.
    + apply upTo_prefix.
    + rewrite upTo_whole. split; [now intros ->|]. now inversion 1.
Qed.

(** X9. On a page without the portal canvas the enter button is
    dead.  [initPortal] returns before it installs the click listener,
    the only caller of [enterWorld]: whatever events reach the page,
    clicks on the button included, the orchestrator stays in the portal
    phase, no call of [enterWorld] is in flight, none of its effects
    happens, no controller is constructed, no animation frame is
    requested and nothing is put on the GPU. *)
Theorem X9_no_portal_canvas_no_entering
    (M : MathLib) (cfg : GallantExperience.Config) (now : Q) (w h dpr : num)
    (evs : list (Q * GallantExperience.Event)) :
  GallantExperience.hasPortalCanvas cfg = false ->
  let a := GallantExperience.run M cfg evs
             (GallantExperience.boot M cfg now (Browser.open w h dpr)) in
  GallantExperience.currentPhase a = GallantExperience.PhasePortal
  /\ GallantExperience.calls a = []
  /\ GallantExperience.effects a = []
  /\ GallantExperience.portalObj a = None
  /\ GallantExperience.worldObj a = None
  /\ GallantExperience.worldConstructions a = 0
  /\ GallantExperience.portalDestroyCalls a = 0
  /\ rafQueue (GallantExperience.env a) = []
  /\ gpuLive (GallantExperience.env a) = ∅.
Proof.
  intros Pc a.
  assert (I : Script.inert a).
  { subst a. apply run_inert; [exact Pc|].
    unfold GallantExperience.boot. rewrite Pc. now repeat split. }
  destruct I as (I1 & I2 & I3 & I4 & I5 & _ & _ & _ & I9 & I10).
  unfold GallantExperience.worldConstructions,
    GallantExperience.portalDestroyCalls.
  rewrite I3. now repeat split.
Qed.

Lemma X9_witness :
  let a := GallantExperience.run Sample.math Scenario.noPortal Sample.doubleEnter
             (GallantExperience.boot Sample.math Scenario.noPortal 0
                (Browser.open (Fin 1920) (Fin 1080) (Fin 1))) in
  GallantExperience.currentPhase a = GallantExperience.PhasePortal
  /\ GallantExperience.calls a = []
  /\ GallantExperience.effects a = []
  /\ GallantExperience.portalObj a = None
  /\ GallantExperience.worldObj a = None
  /\ GallantExperience.worldConstructions a = 0
  /\ GallantExperience.portalDestroyCalls a = 0
  /\ rafQueue (GallantExperience.env a) = []
  /\ gpuLive (GallantExperience.env a) = ∅.
Proof.
  apply (X9_no_portal_canvas_no_entering Sample.math Scenario.noPortal 0
           (Fin 1920) (Fin 1080) (Fin 1) Sample.doubleEnter).
  reflexivity.
Defined.

(** ** The render loop of the world controller *)

Section WorldLoop.

Variable M : MathLib.

Lemma world_teardown_queue (e : Env) (s : WorldScene.t) :
  rafQueue (fst (WorldScene.destroy (e, s)))
  = List.filter (fun c => negb (Nat.eqb (fst c) (WorldScene.animationId s)))
      (rafQueue e).
Proof.
  unfold WorldScene.destroy. cbn -[Browser.disposeAll Browser.dispose
    Browser.cancelAnimationFrame]. now rewrite teardown_spec.
Qed.

Lemma world_act_loop (es : Env * WorldScene.t) (a : WorldPage.Action) :
  Loop.loopInv es ->
  let es' := WorldPage.act M es a in
  Loop.loopInv es'
  /\ WorldScene.isDestroyed (snd es')
     = WorldScene.isDestroyed (snd es) || Loop.isDestroy a
  /\ renders (WorldScene.renderer (snd es'))
     = renders (WorldScene.renderer (snd es))
       + (if WorldScene.isDestroyed (snd es) then 0
          else if Loop.isFrame a then 1 else 0).
Proof.
  destruct es as [e s]. unfold Loop.loopInv. cbn [fst snd]. intros Hq.
  destruct a as [now|x y|w h|p|]; cbn [WorldPage.act Loop.isDestroy Loop.isFrame].
  - unfold WorldScene.frame, runFrame. cbn [fst snd]. rewrite Hq.
    destruct (WorldScene.isDestroyed s) eqn:D; cbn [fold_left snd].
    + cbn. rewrite D. repeat split; lia.
    + cbn [WorldScene.runCallback]. unfold WorldScene.animate. rewrite D.
      destruct (Clock.getElapsedTime now (WorldScene.clock s)).
      cbn. repeat split; lia.
  - cbn. rewrite Hq, orb_false_r.
    destruct (WorldScene.isDestroyed s); repeat split; lia.
  - unfold WorldScene.onResize. cbn [fst snd].
    destruct (WorldScene.isDestroyed s) eqn:D; cbn; rewrite ?D, Hq;
      repeat split; lia.
  - cbn. rewrite Hq, orb_false_r.
    destruct (WorldScene.isDestroyed s); repeat split; lia.
  - cbn zeta. rewrite world_teardown_queue, Hq.
    unfold WorldScene.destroy. cbn [snd WorldScene.isDestroyed
      WorldScene.renderer WorldScene.animationId].
    rewrite orb_true_r.
    destruct (WorldScene.isDestroyed s); cbn [List.filter fst negb];
      rewrite ?Nat.eqb_refl; cbn [negb]; repeat split; lia.
Qed.

Lemma world_acts_loop (l : list WorldPage.Action) (es : Env * WorldScene.t) :
  Loop.loopInv es ->
  let es' := WorldPage.acts M l es in
  Loop.loopInv es'
  /\ WorldScene.isDestroyed (snd es')
     = WorldScene.isDestroyed (snd es) || Loop.destroys l
  /\ renders (WorldScene.renderer (snd es'))
     = renders (WorldScene.renderer (snd es))
       + (if WorldScene.isDestroyed (snd es) then 0 else Loop.framesAlive l).
Proof.
  unfold WorldPage.acts. revert es.
  induction l as [|a l IH]; intros es H; cbn [fold_left].
  - cbn. rewrite orb_false_r. repeat split; [exact H|].
    destruct (WorldScene.isDestroyed (snd es)); lia.
  - destruct (world_act_loop es a H) as (H1 & D1 & R1).
    destruct (IH _ H1) as (H2 & D2 & R2). cbv zeta in *.
    split; [exact H2|]. rewrite D2, R2, D1, R1. split.
    + cbn [Loop.destroys existsb]. now rewrite orb_assoc.
    + destruct (WorldScene.isDestroyed (snd es)); cbn [orb]; [lia|].
      destruct a; cbn [Loop.isDestroy Loop.isFrame Loop.framesAlive]; lia.
Qed.

Lemma world_create_loop (now : Q) (a : WorldScene.Assets) (e : Env) :
  rafQueue e = [] ->
  let es := WorldScene.create M now a e in
  Loop.loopInv es
  /\ WorldScene.isDestroyed (snd es) = false
  /\ renders (WorldScene.renderer (snd es)) = 1.
Proof.
  intros Hq. unfold WorldScene.create.
  destruct (uploadAll_with_gpu (WorldScene.assets_scene a)
              (Browser.upload (WorldScene.assets_context a) e)) as [g ->].
  unfold WorldScene.animate. cbn [WorldScene.isDestroyed].
  destruct (Clock.getElapsedTime now _).
  unfold Loop.loopInv. cbn. rewrite Hq. now repeat split.
Qed.

End WorldLoop.

(** X10. The render loop of the world controller, on a page that
    holds it alone: whatever the sequence of frames, pointer moves,
    resizes, scroll reports and calls of [destroy], exactly one frame
    request is pending while the controller lives, and it is the one
    [destroy] would cancel; none is pending once it is destroyed; and
    the scene was rendered once by the constructor and once per frame
    that came before the first [destroy], never after. *)
Theorem X10_world_render_loop
    (M : MathLib) (now : Q) (a : WorldScene.Assets) (w h d : num)
    (l : list WorldPage.Action) :
  let es := WorldPage.acts M l
              (WorldScene.create M now a (Browser.open w h d)) in
  WorldScene.isDestroyed (snd es) = Loop.destroys l
  /\ rafQueue (fst es)
     = (if Loop.destroys l then []
        else [(WorldScene.animationId (snd es), CbWorldAnimate)])
  /\ renders (WorldScene.renderer (snd es)) = S (Loop.framesAlive l).
Proof.
  destruct (world_create_loop M now a (Browser.open w h d) eq_refl)
    as (H0 & D0 & R0).
  destruct (world_acts_loop M l _ H0) as (H & D & R). cbv zeta in *.
  rewrite D0 in D, R. cbn [orb] in D. rewrite R0 in R.
  split; [exact D|]. split; [|exact R].
  unfold Loop.loopInv in H. now rewrite D in H.
Qed.

(** ** The approach of the camera in closed form *)

Section Approach.
Local Open Scope Q_scope.

Variable M : MathLib.

Lemma world_act_camera (p y0 z0 : Q) (es : Env * WorldScene.t)
    (a : WorldPage.Action) :
  Loop.steady [a] = true ->
  Loop.loopInv es ->
  WorldScene.isDestroyed (snd es) = false ->
  WorldScene.scrollProgress (snd es) = Fin p ->
  Vector3.y (position (WorldScene.camera (snd es))) = Fin y0 ->
  Vector3.z (position (WorldScene.camera (snd es))) = Fin z0 ->
  let es' := WorldPage.act M es a in
  WorldScene.scrollProgress (snd es') = Fin p
  /\ exists y z,
       Vector3.y (position (WorldScene.camera (snd es'))) = Fin y
       /\ Vector3.z (position (WorldScene.camera (snd es'))) = Fin z
       /\ y - (2 - 3 * p) == Loop.decay (Loop.framesAlive [a]) * (y0 - (2 - 3 * p))
       /\ z - (10 - 5 * p) == Loop.decay (Loop.framesAlive [a]) * (z0 - (10 - 5 * p)).
Proof.
  destruct es as [e s]. unfold Loop.loopInv. cbn [fst snd].
  intros St Hq D Hp Hy Hz.
  destruct a as [now|x y|w h|q|]; try discriminate;
    cbn [WorldPage.act Loop.framesAlive Loop.decay].
  - unfold WorldScene.frame, runFrame. cbn [fst snd]. rewrite Hq, D.
    cbn [fold_left snd WorldScene.runCallback]. unfold WorldScene.animate.
    rewrite D. destruct (Clock.getElapsedTime now (WorldScene.clock s)).
    cbn [snd WorldScene.scrollProgress WorldScene.camera position
         Vector3.y Vector3.z].
    rewrite Hp, Hy, Hz. split; [reflexivity|].
    unfold WorldScene.targetY, WorldScene.targetZ.
    cbn [Num.sub Num.add Num.mul Num.neg].
    eexists. eexists. split; [reflexivity|]. split; [reflexivity|].
    split; ring.
  - cbn. rewrite Hp, Hy, Hz. split; [reflexivity|].
    exists y0, z0. repeat split; ring.
  - unfold WorldScene.onResize. cbn [fst snd]. rewrite D. cbn.
    rewrite Hp, Hy, Hz. split; [reflexivity|].
    exists y0, z0. repeat split; ring.
Qed.

Lemma world_acts_camera (p : Q) (l : list WorldPage.Action) :
  Loop.steady l = true ->
  forall (y0 z0 : Q) (es : Env * WorldScene.t),
  Loop.loopInv es ->
  WorldScene.isDestroyed (snd es) = false ->
  WorldScene.scrollProgress (snd es) = Fin p ->
  Vector3.y (position (WorldScene.camera (snd es))) = Fin y0 ->
  Vector3.z (position (WorldScene.camera (snd es))) = Fin z0 ->
  let es' := WorldPage.acts M l es in
  exists y z,
    Vector3.y (position (WorldScene.camera (snd es'))) = Fin y
    /\ Vector3.z (position (WorldScene.camera (snd es'))) = Fin z
    /\ y - (2 - 3 * p) == Loop.decay (Loop.framesAlive l) * (y0 - (2 - 3 * p))
    /\ z - (10 - 5 * p) == Loop.decay (Loop.framesAlive l) * (z0 - (10 - 5 * p)).
Proof.
  unfold WorldPage.acts.
  induction l as [|a l IH]; intros St y0 z0 es Hq D Hp Hy Hz; cbn [fold_left].
  - exists y0, z0. cbn. repeat split; trivial; ring.
  - assert (Sa : Loop.steady [a] = true /\ Loop.steady l = true).
    { unfold Loop.steady in *. cbn [forallb] in *.
      apply andb_true_iff in St. destruct St as [-> ->]. now split. }
    destruct Sa as [Sa Sl].
    destruct (world_act_camera p y0 z0 es a Sa Hq D Hp Hy Hz)
      as (Hp1 & y1 & z1 & Hy1 & Hz1 & Ey & Ez).
    destruct (world_act_loop M es a Hq) as (Hq1 & D1 & _).
    cbv zeta in *. rewrite D in D1.
    assert (Da : Loop.isDestroy a = false) by (destruct a; trivial; discriminate).
    rewrite Da in D1. cbn [orb] in D1.
    destruct (IH Sl y1 z1 _ Hq1 D1 Hp1 Hy1 Hz1) as (y & z & Hy2 & Hz2 & Ey2 & Ez2).
    exists y, z. split; [exact Hy2|]. split; [exact Hz2|].
    assert (K : Loop.decay (Loop.framesAlive (a :: l))
                == Loop.decay (Loop.framesAlive l) * Loop.decay (Loop.framesAlive [a])).
    { destruct a; try discriminate; cbn [Loop.framesAlive Loop.decay]; ring. }
    rewrite K. split.
    + rewrite Ey2. rewrite <- Qmult_assoc, <- Ey. ring.
    + rewrite Ez2. rewrite <- Qmult_assoc, <- Ez. ring.
Qed.

End Approach.

(** X11. The approach of the camera in closed form.  Once the scroll
    listener has reported the progress [p] to a freshly constructed
    world controller, and as long as no other progress is reported,
    each frame takes the camera a twentieth of the way to its target:
    after [n] frames, with pointer moves and resizes in between or not,
    the camera's Y is [2 - 3p(1 - 0.95^n)] and its Z is
    [10 - 5p(1 - 0.95^n)]. *)
Theorem X11_camera_approach_in_closed_form
    (M : MathLib) (now : Q) (a : WorldScene.Assets) (w h d : num)
    (p : Q) (l : list WorldPage.Action) :
  Loop.steady l = true ->
  let es := WorldPage.acts M (WorldPage.DoScroll (Fin p) :: l)
              (WorldScene.create M now a (Browser.open w h d)) in
  let k := Loop.decay (Loop.framesAlive l) in
  exists y z,
    Vector3.y (position (WorldScene.camera (snd es))) = Fin y
    /\ Vector3.z (position (WorldScene.camera (snd es))) = Fin z
    /\ (y == 2 - 3 * p * (1 - k))%Q
    /\ (z == 10 - 5 * p * (1 - k))%Q.
Proof.
  intros St es k. subst es k.
  destruct (world_create_loop M now a (Browser.open w h d) eq_refl)
    as (H0 & D0 & _).
  cbv zeta in *. unfold WorldPage.acts. cbn [fold_left WorldPage.act].
  set (es0 := WorldScene.create M now a (Browser.open w h d)) in *.
  assert (C : exists y0 z0,
             Vector3.y (position (WorldScene.camera (snd es0))) = Fin y0
             /\ Vector3.z (position (WorldScene.camera (snd es0))) = Fin z0
             /\ (y0 == 2)%Q /\ (z0 == 10)%Q).
  { subst es0. unfold WorldScene.create, WorldScene.animate.
    cbn [WorldScene.isDestroyed].
    destruct (Clock.getElapsedTime now _). cbn.
    eexists. eexists. split; [reflexivity|]. split; [reflexivity|].
    split; ring. }
  destruct C as (y0 & z0 & Hy0 & Hz0 & Ey0 & Ez0).
  destruct (world_acts_camera M p l St y0 z0
              (fst es0, WorldScene.updateScroll (Fin p) (snd es0)))
    as (y & z & Hy & Hz & Ey & Ez); trivial.
  exists y, z. split; [exact Hy|]. split; [exact Hz|].
  rewrite Ey0 in Ey. rewrite Ez0 in Ez.
  set (k := Loop.decay (Loop.framesAlive l)) in *. split; lra.
Qed.

Lemma X11_witness :
  let es := WorldPage.acts Sample.math
              (WorldPage.DoScroll (Fin 0.5) :: Scenario.steadyFrames)
              (WorldScene.create Sample.math 0 Sample.worldAssets
                 (Browser.open (Fin 1920) (Fin 1080) (Fin 1))) in
  let k := Loop.decay (Loop.framesAlive Scenario.steadyFrames) in
  exists y z,
    Vector3.y (position (WorldScene.camera (snd es))) = Fin y
    /\ Vector3.z (position (WorldScene.camera (snd es))) = Fin z
    /\ (y == 2 - 3 * 0.5 * (1 - k))%Q
    /\ (z == 10 - 5 * 0.5 * (1 - k))%Q.
Proof.
  apply (X11_camera_approach_in_closed_form Sample.math 0 Sample.worldAssets
           (Fin 1920) (Fin 1080) (Fin 1) 0.5 Scenario.steadyFrames).
  reflexivity.
Defined.

(** ** What the constructors upload *)

Section GpuLife.

Lemma fold_upload_spec (ms : list nat) (e : Env) :
  fold_left (fun acc m => Browser.upload m acc) ms e
  = Browser.with_gpu e (list_to_set ms ∪ gpuLive e).
Proof.
  revert e. induction ms as [|m ms IH]; intros e; cbn [fold_left].
  - destruct e; unfold Browser.with_gpu; cbn. f_equal. set_solver.
  - rewrite IH. unfold Browser.upload. rewrite with_gpu_with_gpu.
    f_equal. cbn. set_solver.
Qed.

Lemma uploadObject_spec (o : Object3D) (e : Env) :
  Browser.uploadObject o e
  = Browser.with_gpu e (Spec.handlesOf o ∪ gpuLive e).
Proof.
  unfold Browser.uploadObject, Spec.handlesOf. rewrite fold_upload_spec.
  destruct (geometry o) as [g|].
  - unfold Browser.upload. rewrite with_gpu_with_gpu. f_equal. cbn.
    set_solver.
  - f_equal. set_solver.
Qed.

Lemma uploadAll_spec (os : list Object3D) (e : Env) :
  Browser.uploadAll os e
  = Browser.with_gpu e (Spec.handles os ∪ gpuLive e).
Proof.
  unfold Browser.uploadAll, Spec.handles. revert e.
  induction os as [|o os IH]; intros e; cbn [fold_left List.map].
  - destruct e; unfold Browser.with_gpu; cbn. f_equal. set_solver.
  - rewrite IH, uploadObject_spec, with_gpu_with_gpu. f_equal. cbn.
    set_solver.
Qed.

End GpuLife.

(** X13. The two controllers cap the pixel ratio alike when they are
    constructed, at 2, but not when the window is resized: the portal
    controller keeps its ratio, the world controller caps it anew, at
    1.5.  On a display whose ratio is above 1.5 the first resize thus
    lowers the world's ratio, to exactly 1.5.  Either resize takes the
    size and the aspect of the window. *)
Theorem X13_resize_recaps_the_world_pixel_ratio
    (M : MathLib) (now : Q)
    (ap : PortalScene.Assets) (aw : WorldScene.Assets)
    (w h w' h' : num) (d : Q) :
  (1.5 < d)%Q ->
  let e := Browser.open w h (Fin d) in
  let ps := PortalScene.create M now ap e in
  let ws := WorldScene.create M now aw e in
  let ps' := PortalScene.onResize (Browser.resizeTo w' h' (fst ps), snd ps) in
  let ws' := WorldScene.onResize (Browser.resizeTo w' h' (fst ws), snd ws) in
  (pixelRatio (PortalScene.renderer (snd ps))
   = pixelRatio (WorldScene.renderer (snd ws))
   /\ Num.ltb (Fin 1.5) (pixelRatio (WorldScene.renderer (snd ws))) = true
   /\ Num.leb (pixelRatio (WorldScene.renderer (snd ws))) (Fin 2) = true)
  /\ (pixelRatio (PortalScene.renderer (snd ps'))
      = pixelRatio (PortalScene.renderer (snd ps))
      /\ pixelRatio (WorldScene.renderer (snd ws')) = Fin 1.5)
  /\ (width (PortalScene.renderer (snd ps')) = w'
      /\ height (PortalScene.renderer (snd ps')) = h'
      /\ aspect (PortalScene.camera (snd ps')) = Num.div w' h')
  /\ (width (WorldScene.renderer (snd ws')) = w'
      /\ height (WorldScene.renderer (snd ws')) = h'
      /\ aspect (WorldScene.camera (snd ws')) = Num.div w' h').
Proof.
  intros Hd e ps ws ps' ws'. subst ps' ws' ps ws e.
  unfold PortalScene.create, WorldScene.create,
    PortalScene.animate, WorldScene.animate.
  cbn [PortalScene.isDestroyed WorldScene.isDestroyed].
  rewrite !uploadAll_spec.
  cbn [PortalScene.clock WorldScene.clock].
  destruct (Clock.getElapsedTime now Clock.fresh) as [c2 t2].
  cbn -[Num.min Num.ltb Num.leb Num.div].
  assert (L : Num.ltb (Fin 1.5) (Fin d) = true) by now apply ltb_Fin.
  assert (K : Num.min (Fin d) (Fin 1.5) = Fin 1.5)
    by (unfold Num.min; now rewrite L).
  rewrite K. unfold Num.min.
  destruct (Num.ltb (Fin 2) (Fin d)) eqn:L2.
  - repeat split.
  - apply ltb_Fin_false in L2. repeat split; trivial. now apply leb_Fin.
Qed.

Lemma X13_witness :
  let e := Browser.open (Fin 1920) (Fin 1080) (Fin 2) in
  let ps := PortalScene.create Sample.math 0 Sample.portalAssets e in
  let ws := WorldScene.create Sample.math 0 Sample.worldAssets e in
  let ps' := PortalScene.onResize
               (Browser.resizeTo (Fin 1280) (Fin 720) (fst ps), snd ps) in
  let ws' := WorldScene.onResize
               (Browser.resizeTo (Fin 1280) (Fin 720) (fst ws), snd ws) in
  (pixelRatio (PortalScene.renderer (snd ps))
   = pixelRatio (WorldScene.renderer (snd ws))
   /\ Num.ltb (Fin 1.5) (pixelRatio (WorldScene.renderer (snd ws))) = true
   /\ Num.leb (pixelRatio (WorldScene.renderer (snd ws))) (Fin 2) = true)
  /\ (pixelRatio (PortalScene.renderer (snd ps'))
      = pixelRatio (PortalScene.renderer (snd ps))
      /\ pixelRatio (WorldScene.renderer (snd ws')) = Fin 1.5)
  /\ (width (PortalScene.renderer (snd ps')) = Fin 1280
      /\ height (PortalScene.renderer (snd ps')) = Fin 720
      /\ aspect (PortalScene.camera (snd ps')) = Num.div (Fin 1280) (Fin 720))
  /\ (width (WorldScene.renderer (snd ws')) = Fin 1280
      /\ height (WorldScene.renderer (snd ws')) = Fin 720
      /\ aspect (WorldScene.camera (snd ws')) = Num.div (Fin 1280) (Fin 720)).
Proof.
  apply (X13_resize_recaps_the_world_pixel_ratio Sample.math 0
           Sample.portalAssets Sample.worldAssets
           (Fin 1920) (Fin 1080) (Fin 1280) (Fin 720) 2).
  reflexivity.
Defined.

(** ** The bookkeeping of the audio system *)

Section Audio.
Import AudioSystem.

Local Ltac web_simpl :=
  cbn [fst snd setButton rampTo startNode stopNode with_sounding with_timers
       createNode newContext stopNodeAt setFrequency elapse
       contexts nextNode sounding frequency stopsAt ramps timers button
       with_playing with_sources ctx masterGain isPlaying oscillators
       noiseNode] in *.

Lemma fold_stopNode (os : list nat) (w : Web) :
  fold_left (fun acc o => stopNode o acc) os w
  = with_sounding w (sounding w ∖ list_to_set os).
Proof.
  revert w. induction os as [|o os IH]; intros w; cbn [fold_left].
  - destruct w; unfold with_sounding; cbn. f_equal. set_solver.
  - rewrite IH. unfold stopNode, with_sounding. cbn. f_equal. set_solver.
Qed.

Lemma initContext_grown (ws : Web * t) : grown ws (initContext ws).
Proof.
  destruct ws as [w s]. unfold initContext, grown.
  destruct (ctx s); web_simpl; repeat split; lia.
Qed.

Lemma initContext_ctx (ws : Web * t) :
  inv ws ->
  exists c g, ctx (snd (initContext ws)) = Some c
              /\ masterGain (snd (initContext ws)) = Some g.
Proof.
  destruct ws as [w s]. intros H. unfold initContext.
  destruct (ctx s) as [c|] eqn:C.
  - destruct (masterGain s) as [g|] eqn:G; [now exists c, g|].
    pose proof (inv_gain _ H G) as K. cbn in K. congruence.
  - web_simpl. now eexists; eexists.
Qed.

Lemma initContext_inv (ws : Web * t) :
  inv ws -> inv (initContext ws).
Proof.
  destruct ws as [w s]. intros H. unfold initContext.
  destruct (ctx s) eqn:C; [exact H|].
  destruct H as [I1 I2 I3 I4 I5 I6 I7 I8 I9]. cbn [fst snd] in *.
  constructor; web_simpl; try assumption.
  - rewrite C in I1. now rewrite I1.
  - discriminate.
  - intros n Hn. apply Nat.lt_lt_succ_r. apply I3. exact Hn.
  - discriminate.
Qed.

(** The voices of the drone: what the loop over [freqs] adds. *)
Lemma voices_spec (vs : list (nat * Q)) (w : Web) (s : t) :
  exists new,
    let ws' := fold_left voice vs (w, s) in
    oscillators (snd ws') = oscillators s ++ new
    /\ sounding (fst ws') = list_to_set new ∪ sounding w
    /\ nextNode w <= nextNode (fst ws')
    /\ Forall (fun n => nextNode w <= n < nextNode (fst ws')) new
    /\ length new = 2 * length vs
    /\ contexts (fst ws') = contexts w
    /\ stopsAt (fst ws') = stopsAt w
    /\ timers (fst ws') = timers w
    /\ button (fst ws') = button w
    /\ ctx (snd ws') = ctx s
    /\ masterGain (snd ws') = masterGain s
    /\ isPlaying (snd ws') = isPlaying s
    /\ noiseNode (snd ws') = noiseNode s.
Proof.
  revert w s. induction vs as [|[i f] vs IH]; intros w s; cbn [fold_left].
  - exists []. cbn. rewrite List.app_nil_r. repeat split; trivial.
    set_solver.
  - set (p := voice (w, s) (i, f)).
    destruct (IH (fst p) (snd p))
      as (new & H1 & H2 & H3 & H4 & H5 & H6 & H7 & H8 & H9 & H10 & H11
          & H12 & H13).
    cbv zeta in *. rewrite <- !surjective_pairing in *.
    exists (nextNode w :: S (S (nextNode w)) :: new).
    rewrite H1, H2, H6, H7, H8, H9, H10, H11, H12, H13.
    assert (N : nextNode (fst p) = S (S (S (S (nextNode w))))) by reflexivity.
    rewrite N in H3, H4. clear N.
    assert (E1 : oscillators (snd p)
                 = oscillators s ++ [nextNode w; S (S (nextNode w))])
      by reflexivity.
    assert (E2 : sounding (fst p)
                 = {[nextNode w]} ∪ ({[S (S (nextNode w))]} ∪ sounding w))
      by reflexivity.
    rewrite E1, E2. clear E1 E2.
    rewrite <- List.app_assoc. cbn [app length].
    repeat split; trivial; try lia.
    + set_solver.
    + constructor; [lia|]. constructor; [lia|].
      eapply Forall_impl; [|exact H4]. cbn. intros n Hn. lia.
Qed.

(** What [start] does when the system is not playing. *)
Lemma start_spec (now : Q) (ws : Web * t) :
  inv ws -> isPlaying (snd ws) = false ->
  exists new noise,
    let ws' := start now ws in
    oscillators (snd ws') = oscillators (snd ws) ++ new
    /\ noiseNode (snd ws') = Some noise
    /\ isPlaying (snd ws') = true
    /\ sounding (fst ws') = {[noise]} ∪ (list_to_set new ∪ sounding (fst ws))
    /\ (forall m, In m new -> nextNode (fst ws) <= m < noise)
    /\ nextNode (fst ws) <= noise < nextNode (fst ws')
    /\ length new = 8
    /\ stopsAt (fst ws') = stopsAt (fst ws)
    /\ timers (fst ws') = timers (fst ws)
    /\ contexts (fst ws') = contexts (fst (initContext ws))
    /\ ctx (snd ws') = ctx (snd (initContext ws))
    /\ masterGain (snd ws') = masterGain (snd (initContext ws))
    /\ (forall b, button (fst ws') = Some b -> playingClass b = true).
Proof.
  intros H P. unfold start.
  destruct (initContext_ctx ws H) as (c & g & C & G).
  destruct (initContext_grown ws) as (N0 & S0 & T0 & K0 & B0 & P0 & O0 & Z0).
  destruct (initContext ws) as [w0 s0]. cbn [fst snd] in *.
  rewrite C, G, P0, P.
  destruct (voices_spec (imap pair freqs) w0 (with_playing s0 true))
    as (new & H1 & H2 & H3 & H4 & H5 & H6 & H7 & H8 & H9 & H10 & H11
        & H12 & H13).
  cbv zeta in *.
  destruct (fold_left voice (imap pair freqs) (w0, with_playing s0 true))
    as [w1 s1].
  web_simpl. exists new, (nextNode w1).
  rewrite H1, H2, H6, H7, H8, H10, H11, O0, S0, T0, K0.
  repeat split; trivial; try lia.
  - rewrite Forall_forall in H4. apply H4 in H0. lia.
  - rewrite Forall_forall in H4. apply H4 in H0. lia.
  - intros b Hb. destruct (button w1); [|discriminate].
    cbn in Hb. now inversion Hb.
Qed.

Lemma start_playing (now : Q) (ws : Web * t) :
  isPlaying (snd ws) = true -> start now ws = initContext ws.
Proof.
  intros P. unfold start.
  destruct (initContext_grown ws) as (_ & _ & _ & _ & _ & P0 & _).
  destruct (initContext ws) as [w0 s0]. cbn [fst snd] in *.
  destruct (ctx s0), (masterGain s0); trivial. now rewrite P0, P.
Qed.

Lemma start_inv (now : Q) (ws : Web * t) : inv ws -> inv (start now ws).
Proof.
  intros H. destruct (isPlaying (snd ws)) eqn:P.
  { rewrite start_playing by exact P. now apply initContext_inv. }
  destruct (start_spec now ws H P)
    as (new & noise & O & Z & Pl & S & F & Fn & L & T & K & C & X & G & B).
  pose proof (initContext_inv ws H) as [J1 J2 _ _ _ _ _ _ _].
  destruct (initContext_ctx ws H) as (c0 & g0 & Cc & Gg).
  destruct H as [I1 I2 I3 I4 I5 I6 I7 I8 I9]. cbv zeta in *.
  destruct (start now ws) as [w' s']. destruct ws as [w s].
  cbn [fst snd] in *.
  assert (F' : forall m, m ∈ new -> nextNode w <= m < noise).
  { intros m Hm. apply F. now apply list_elem_of_In. }
  assert (I3a : forall n, n ∈ sounding w -> n < nextNode w)
    by (intros n Hn; apply I3; now left).
  assert (I3b : forall n, n ∈ oscillators s -> n < nextNode w).
  { intros n Hn. apply I3. right. left. unfold drone. set_solver. }
  assert (I3c : forall n, In n (List.map fst (stopsAt w)) -> n < nextNode w)
    by (intros n Hn; apply I3; now right; right).
  assert (I4a : forall n, n ∈ oscillators s -> n ∈ sounding w).
  { intros n Hn. apply I4. unfold drone. set_solver. }
  assert (I5a : forall n, In n (List.map fst (stopsAt w)) -> n ∉ oscillators s).
  { intros n Hn Hm. apply (I5 n Hn). unfold drone. set_solver. }
  constructor; cbn [fst snd]; unfold drone; rewrite ?O, ?Z, ?S, ?T, ?K.
  - now rewrite C, X.
  - now rewrite G, X.
  - intros n Hn. set_unfold.
    destruct Hn as [[->|[Hn|Hn]]|[[[Hn|Hn]| ->]|Hn]]; try lia.
    + apply F' in Hn. lia.
    + apply I3a in Hn. lia.
    + apply I3b in Hn. lia.
    + apply F' in Hn. lia.
    + apply I3c in Hn. lia.
  - set_unfold. intros n [[Hn|Hn]| ->]; auto.
  - intros n Hn. pose proof (I3c n Hn) as Lt. pose proof (I5a n Hn) as No.
    set_unfold. intros [[Hm|Hm]| ->]; [tauto | | lia].
    apply F' in Hm. lia.
  - intros n Hn. inversion Hn; subst n. rewrite in_app_iff.
    intros [Hm|Hm].
    + apply list_elem_of_In, I3b in Hm. lia.
    + apply list_elem_of_In, F' in Hm. lia.
  - rewrite Pl. discriminate.
  - intros b Hb. rewrite Pl. now apply B.
  - rewrite X, Cc. discriminate.
Qed.

Lemma stop_inv (now : Q) (ws : Web * t) : inv ws -> inv (stop now ws).
Proof.
  destruct ws as [w s]. intros H. unfold stop.
  destruct (ctx s) as [c|] eqn:C; [|exact H].
  destruct (masterGain s) as [g|] eqn:G; [|exact H].
  destruct H as [I1 I2 I3 I4 I5 I6 I7 I8 I9]. cbn [fst snd] in *.
  constructor; web_simpl; try assumption.
  - intros _. left. lia.
  - intros b Hb. destruct (button w); [|discriminate].
    cbn in Hb. now inversion Hb.
  - discriminate.
Qed.

Lemma onStopTimer_spec (w : Web) (s : t) :
  onStopTimer (w, s)
  = (with_sounding w (sounding w ∖ drone s), with_sources s [] None).
Proof.
  unfold onStopTimer, drone. rewrite fold_stopNode. f_equal.
  destruct (noiseNode s); unfold stopNode, with_sounding; cbn; f_equal;
    set_solver.
Qed.

Lemma fireTimer_inv (ws : Web * t) : inv ws -> inv (fireTimer ws).
Proof.
  destruct ws as [w s]. intros H. unfold fireTimer. cbn [fst snd].
  destruct (timers w) as [|k] eqn:K; [exact H|].
  rewrite onStopTimer_spec.
  destruct H as [I1 I2 I3 I4 I5 I6 I7 I8 I9]. cbn [fst snd] in *.
  constructor; web_simpl; unfold drone; web_simpl; try assumption.
  - intros n [Hn|[Hn|Hn]].
    + apply I3. left. set_solver.
    + set_solver.
    + apply I3. now right; right.
  - set_solver.
  - set_solver.
  - discriminate.
  - intros _. now right.
Qed.

Lemma oneShot_inv (k : nat) (at_ : Q) (f : list (nat * Q)) (w : Web) (s : t) :
  inv (w, s) ->
  inv ({| contexts := contexts w; nextNode := S (nextNode w + k);
          sounding := {[nextNode w]} ∪ sounding w;
          frequency := f;
          stopsAt := stopsAt w ++ [(nextNode w, at_)];
          ramps := ramps w; timers := timers w; button := button w |}, s).
Proof.
  intros [I1 I2 I3 I4 I5 I6 I7 I8 I9]. cbn [fst snd] in *.
  constructor; web_simpl; try assumption.
  - intros n Hn. rewrite List.map_app, in_app_iff in Hn. cbn in Hn.
    destruct Hn as [Hn|[Hn|[Hn|[Hn|[]]]]].
    + set_unfold. destruct Hn as [->|Hn]; [lia|].
      enough (n < nextNode w) by lia. apply I3. now left.
    + enough (n < nextNode w) by lia. apply I3. now right; left.
    + enough (n < nextNode w) by lia. apply I3. now right; right.
    + subst n. lia.
  - set_solver.
  - intros n Hn. rewrite List.map_app, in_app_iff in Hn. cbn in Hn.
    destruct Hn as [Hn|[Hn|[]]]; [now apply I5|]. subst n.
    intros Hd. assert (nextNode w < nextNode w); [|lia].
    apply I3. now right; left.
Qed.

Lemma playTransitionWhoosh_inv (now : Q) (ws : Web * t) :
  inv ws -> inv (playTransitionWhoosh now ws).
Proof.
  intros H. apply initContext_inv in H. unfold playTransitionWhoosh.
  destruct (initContext ws) as [w s].
  destruct (ctx s) as [c|] eqn:C; [|exact H].
  destruct (masterGain s) as [g|] eqn:G; [|exact H].
  web_simpl. pose proof (oneShot_inv 2 (now + 2)%Q
    (frequency w ++ [(nextNode w, 200%Q)]) w s H) as K.
  now rewrite !Nat.add_succ_r, Nat.add_0_r in K.
Qed.

Lemma playHoverBlip_inv (now : Q) (ws : Web * t) :
  inv ws -> inv (playHoverBlip now ws).
Proof.
  intros H. apply initContext_inv in H. unfold playHoverBlip.
  destruct (initContext ws) as [w s].
  destruct (ctx s) as [c|] eqn:C; [|exact H].
  destruct (masterGain s) as [g|] eqn:G; [|exact H].
  web_simpl. pose proof (oneShot_inv 1 (now + 0.2)%Q
    (frequency w ++ [(nextNode w, 800%Q)]) w s H) as K.
  now rewrite !Nat.add_succ_r, Nat.add_0_r in K.
Qed.

Lemma elapse_inv (now : Q) (ws : Web * t) :
  inv ws -> inv (elapse now (fst ws), snd ws).
Proof.
  destruct ws as [w s]. intros [I1 I2 I3 I4 I5 I6 I7 I8 I9]. cbn [fst snd] in *.
  assert (Sub : forall n (f : nat * Q -> bool),
            In n (List.map fst (List.filter f (stopsAt w))) ->
            In n (List.map fst (stopsAt w))).
  { intros n f. rewrite !in_map_iff. intros (c & E & Hc).
    apply filter_In in Hc. exists c. tauto. }
  constructor; web_simpl; try assumption.
  - intros n [Hn|[Hn|Hn]].
    + apply I3. left. set_solver.
    + apply I3. now right; left.
    + apply I3. right; right. eapply Sub, Hn.
  - intros n Hn. apply elem_of_difference. split; [now apply I4|].
    rewrite elem_of_list_to_set, list_elem_of_In. intros Hd.
    apply Sub in Hd. now apply (I5 n Hd).
  - intros n Hn. apply I5. eapply Sub, Hn.
Qed.

Lemma act_inv (ws : Web * t) (a : Action) : inv ws -> inv (act ws a).
Proof.
  intros H. destruct a; cbn [act].
  - now apply start_inv.
  - now apply stop_inv.
  - unfold toggle. destruct (isPlaying (snd ws));
      [now apply stop_inv | now apply start_inv].
  - now apply playTransitionWhoosh_inv.
  - now apply playHoverBlip_inv.
  - now apply fireTimer_inv.
  - now apply elapse_inv.
Qed.

Lemma acts_inv (l : list Action) (ws : Web * t) : inv ws -> inv (acts l ws).
Proof.
  unfold acts. revert ws. induction l as [|a l IH]; intros ws H; [exact H|].
  cbn [fold_left]. apply IH. now apply act_inv.
Qed.

Lemma create_inv (b : option bool) : inv (create b).
Proof.
  constructor; cbn; try easy.
  - intros n [Hn|[Hn|[]]]; set_solver.
  - intros _. now right.
  - intros bt Hb. destruct b; [|discriminate]. cbn in Hb. now inversion Hb.
Qed.

(** Nothing stops an orphan. *)
Lemma grown_orphan (n : nat) (ws ws' : Web * t) :
  grown ws ws' -> orphan n ws -> orphan n ws'.
Proof.
  intros (_ & S & T & _ & _ & _ & O & Z). unfold orphan, drone.
  now rewrite S, T, O, Z.
Qed.

Lemma oneShot_orphan (n k : nat) (at_ : Q) (f : list (nat * Q))
    (w : Web) (s : t) :
  inv (w, s) -> orphan n (w, s) ->
  orphan n ({| contexts := contexts w; nextNode := S (nextNode w + k);
               sounding := {[nextNode w]} ∪ sounding w;
               frequency := f;
               stopsAt := stopsAt w ++ [(nextNode w, at_)];
               ramps := ramps w; timers := timers w; button := button w |}, s).
Proof.
  intros H (H1 & H2 & H3). unfold orphan in *. web_simpl.
  split; [set_solver|]. split; [exact H2|].
  rewrite List.map_app, in_app_iff. cbn. intros [Hn|[Hn|[]]]; [tauto|].
  subst n. assert (nextNode w < nextNode w); [|lia].
  apply (inv_fresh _ H). now left.
Qed.

Lemma act_orphan (n : nat) (ws : Web * t) (a : Action) :
  inv ws -> orphan n ws -> orphan n (act ws a).
Proof.
  intros H Ho.
  assert (St : forall now, orphan n (start now ws)).
  { intros now. destruct (isPlaying (snd ws)) eqn:P.
    - rewrite start_playing by exact P.
      exact (grown_orphan n _ _ (initContext_grown ws) Ho).
    - destruct (start_spec now ws H P)
        as (new & noise & O & Z & Pl & S & F & Fn & L & T & K & _).
      cbv zeta in *. destruct Ho as (H1 & H2 & H3).
      pose proof (inv_fresh _ H n (or_introl H1)) as Lt.
      unfold orphan, drone in *. rewrite S, O, Z, T.
      split; [set_solver|]. split; [|exact H3].
      set_unfold. intros [[Hn|Hn]| ->]; [tauto | | lia].
      apply list_elem_of_In, F in Hn. lia. }
  assert (Sp : forall now, orphan n (stop now ws)).
  { intros now. destruct ws as [w s]. unfold stop.
    destruct (ctx s); [|exact Ho]. destruct (masterGain s); [|exact Ho].
    exact Ho. }
  destruct a; cbn [act]; trivial.
  - unfold toggle. destruct (isPlaying (snd ws)); trivial.
  - pose proof (grown_orphan n _ _ (initContext_grown ws) Ho) as Ho'.
    pose proof (initContext_inv ws H) as H'. unfold playTransitionWhoosh.
    destruct (initContext ws) as [w s].
    destruct (ctx s); [|exact Ho']. destruct (masterGain s); [|exact Ho'].
    web_simpl. pose proof (oneShot_orphan n 2 (now + 2)%Q
      (frequency w ++ [(nextNode w, 200%Q)]) w s H' Ho') as K.
    now rewrite !Nat.add_succ_r, Nat.add_0_r in K.
  - pose proof (grown_orphan n _ _ (initContext_grown ws) Ho) as Ho'.
    pose proof (initContext_inv ws H) as H'. unfold playHoverBlip.
    destruct (initContext ws) as [w s].
    destruct (ctx s); [|exact Ho']. destruct (masterGain s); [|exact Ho'].
    web_simpl. pose proof (oneShot_orphan n 1 (now + 0.2)%Q
      (frequency w ++ [(nextNode w, 800%Q)]) w s H' Ho') as K.
    now rewrite !Nat.add_succ_r, Nat.add_0_r in K.
  - destruct ws as [w s]. unfold fireTimer. cbn [fst snd].
    destruct (timers w); [exact Ho|]. rewrite onStopTimer_spec.
    destruct Ho as (H1 & H2 & H3). unfold orphan, drone in *. web_simpl.
    split; [set_solver|]. split; [set_solver | exact H3].
  - destruct ws as [w s]. destruct Ho as (H1 & H2 & H3).
    unfold orphan in *. web_simpl.
    assert (Sub : forall (f : nat * Q -> bool),
              In n (List.map fst (List.filter f (stopsAt w))) ->
              In n (List.map fst (stopsAt w))).
    { intros f. rewrite !in_map_iff. intros (c & E & Hc).
      apply filter_In in Hc. exists c. tauto. }
    split; [|split; [exact H2|]].
    + apply elem_of_difference. split; [exact H1|].
      rewrite elem_of_list_to_set, list_elem_of_In. intros Hd.
      now apply Sub in Hd.
    + intros Hd. now apply Sub in Hd.
Qed.

Lemma acts_orphan (n : nat) (l : list Action) (ws : Web * t) :
  inv ws -> orphan n ws -> orphan n (acts l ws).
Proof.
  unfold acts. revert ws. induction l as [|a l IH]; intros ws H Ho; [exact Ho|].
  cbn [fold_left]. apply IH; [now apply act_inv | now apply act_orphan].
Qed.

End Audio.

(** X14. The audio system keeps its books, whatever is asked of it
    and whenever its timers fire: at most one [AudioContext] is ever
    constructed, however many sounds are played; every source its
    fields refer to is sounding; once it is stopped and no timer of
    [stop()] is pending, its fields refer to no source; and the button
    has the class [playing] exactly when [isPlaying] is set. *)
Theorem X14_audio_bookkeeping
    (b : option bool) (l : list AudioSystem.Action) :
  let ws := AudioSystem.acts l (AudioSystem.create b) in
  AudioSystem.contexts (fst ws) <= 1
  /\ (forall n, In n (AudioSystem.oscillators (snd ws))
                \/ AudioSystem.noiseNode (snd ws) = Some n ->
                n ∈ AudioSystem.sounding (fst ws))
  /\ (AudioSystem.isPlaying (snd ws) = false ->
      AudioSystem.timers (fst ws) = 0 ->
      AudioSystem.oscillators (snd ws) = []
      /\ AudioSystem.noiseNode (snd ws) = None)
  /\ (forall bt, AudioSystem.button (fst ws) = Some bt ->
                 AudioSystem.playingClass bt = AudioSystem.isPlaying (snd ws)).
Proof.
  intros ws.
  pose proof (acts_inv l _ (create_inv b)) as [I1 _ _ I4 _ _ I7 I8 _].
  fold ws in I1, I4, I7, I8. split; [|split; [|split]].
  - rewrite I1. destruct (AudioSystem.ctx (snd ws)); lia.
  - intros n Hn. apply I4. unfold AudioSystem.drone.
    destruct Hn as [Hn| ->]; [|set_solver].
    apply list_elem_of_In in Hn. set_solver.
  - intros P T. destruct (I7 P) as [K|K]; [lia | exact K].
  - exact I8.
Qed.

(** X15. A restart that comes before the timer of [stop()] has fired
    silences itself.  When a playing system is stopped and started
    again, and a timer of [stop()] then fires, the timer stops the
    sources of the new drone with those of the old and empties the
    fields, while [isPlaying] stays set and the button keeps the class
    [playing]: nothing that the restart created is sounding.  The
    noise source of the first drone, which the restart dropped from
    the fields, keeps sounding, and nothing that happens later stops
    it. *)
Theorem X15_restart_before_the_stop_timer
    (b : option bool) (l l' : list AudioSystem.Action) (t1 t2 : Q) (n : nat) :
  let ws := AudioSystem.acts l (AudioSystem.create b) in
  AudioSystem.isPlaying (snd ws) = true ->
  AudioSystem.noiseNode (snd ws) = Some n ->
  let ws' := AudioSystem.acts
               [AudioSystem.DoStop t1; AudioSystem.DoStart t2;
                AudioSystem.DoTimer] ws in
  (AudioSystem.isPlaying (snd ws') = true
   /\ (forall bt, AudioSystem.button (fst ws') = Some bt ->
                  AudioSystem.playingClass bt = true)
   /\ AudioSystem.oscillators (snd ws') = []
   /\ AudioSystem.noiseNode (snd ws') = None
   /\ AudioSystem.sounding (fst ws') ⊆ AudioSystem.sounding (fst ws))
  /\ AudioSystem.orphan n (AudioSystem.acts l' ws').
Proof.
  intros ws P Z ws'.
  pose proof (acts_inv l _ (create_inv b)) as H. fold ws in H.
  pose proof (AudioSystem.inv_playing _ H P) as C.
  pose proof (AudioSystem.inv_gain _ H) as G.
  pose proof (stop_inv t1 ws H) as H1.
  assert (E1 : exists w1 s1, AudioSystem.stop t1 ws = (w1, s1)
             /\ AudioSystem.isPlaying s1 = false
             /\ AudioSystem.oscillators s1 = AudioSystem.oscillators (snd ws)
             /\ AudioSystem.noiseNode s1 = Some n
             /\ AudioSystem.sounding w1 = AudioSystem.sounding (fst ws)
             /\ AudioSystem.stopsAt w1 = AudioSystem.stopsAt (fst ws)
             /\ AudioSystem.nextNode w1 = AudioSystem.nextNode (fst ws)
             /\ 1 <= AudioSystem.timers w1).
  { destruct ws as [w s]. cbn [fst snd] in *. unfold AudioSystem.stop.
    destruct (AudioSystem.ctx s); [|congruence].
    destruct (AudioSystem.masterGain s); [|now destruct G].
    eexists. eexists. split; [reflexivity|]. cbn. repeat split; trivial; lia. }
  destruct E1 as (w1 & s1 & E1 & P1 & O1 & Z1 & S1 & T1 & N1 & K1).
  rewrite E1 in H1.
  destruct (start_spec t2 (w1, s1) H1 P1)
    as (new & noise & O2 & Z2 & P2 & S2 & F & Fn & L & T2 & K2 & _ & _ & _ & B2).
  pose proof (start_inv t2 (w1, s1) H1) as H2.
  cbv zeta in *.
  assert (E3 : ws' = AudioSystem.fireTimer (AudioSystem.start t2 (w1, s1))).
  { subst ws'. unfold AudioSystem.acts. cbn [fold_left AudioSystem.act].
    now rewrite E1. }
  destruct (AudioSystem.start t2 (w1, s1)) as [w2 s2]. cbn [fst snd] in *.
  assert (E4 : ws' = (AudioSystem.with_sounding
                        (AudioSystem.with_timers w2 (Nat.pred (AudioSystem.timers w2)))
                        (AudioSystem.sounding w2 ∖ AudioSystem.drone s2),
                      AudioSystem.with_sources s2 [] None)).
  { rewrite E3. unfold AudioSystem.fireTimer. cbn [fst snd].
    destruct (AudioSystem.timers w2) as [|k] eqn:K; [lia|].
    now rewrite onStopTimer_spec. }
  pose proof (fireTimer_inv _ H2) as H3. rewrite <- E3 in H3.
  assert (Nn : n ∈ AudioSystem.sounding (fst ws) /\ n < AudioSystem.nextNode (fst ws)
               /\ ~ In n (AudioSystem.oscillators (snd ws))
               /\ ~ In n (List.map fst (AudioSystem.stopsAt (fst ws)))).
  { assert (D : n ∈ AudioSystem.drone (snd ws))
      by (unfold AudioSystem.drone; rewrite Z; set_solver).
    split; [now apply (AudioSystem.inv_sounding _ H)|].
    split; [apply (AudioSystem.inv_fresh _ H); now right; left|].
    split; [now apply (AudioSystem.inv_noise _ H)|].
    intros Hs. now apply (AudioSystem.inv_oneshot _ H n Hs). }
  destruct Nn as (Ns & Nl & No & Nt).
  assert (Od : AudioSystem.orphan n ws').
  { rewrite E4. unfold AudioSystem.orphan, AudioSystem.drone.
    cbn [fst snd AudioSystem.with_sounding AudioSystem.with_timers
         AudioSystem.with_sources AudioSystem.sounding AudioSystem.oscillators
         AudioSystem.noiseNode AudioSystem.stopsAt].
    rewrite S2, O2, Z2, T2, S1, O1, T1. rewrite N1 in F, Fn.
    split; [|split; [set_solver | exact Nt]].
    set_unfold. split; [tauto|].
    intros [[Hn|Hn]| ->]; [apply list_elem_of_In in Hn; tauto | | lia].
    apply list_elem_of_In, F in Hn. lia. }
  split; [|now apply acts_orphan].
  rewrite E4. unfold AudioSystem.drone.
  cbn [fst snd AudioSystem.with_sounding AudioSystem.with_timers
       AudioSystem.with_sources AudioSystem.sounding AudioSystem.oscillators
       AudioSystem.noiseNode AudioSystem.stopsAt AudioSystem.isPlaying
       AudioSystem.button].
  rewrite S2, O2, Z2, S1. repeat split; trivial.
  set_solver.
Qed.

Lemma X15_witness :
  let ws := AudioSystem.acts [AudioSystem.DoStart 0]
              (AudioSystem.create (Some true)) in
  (AudioSystem.isPlaying (snd ws) = true
   /\ AudioSystem.noiseNode (snd ws) = Some 17)
  /\ let ws' := AudioSystem.acts
                  [AudioSystem.DoStop 3; AudioSystem.DoStart 3.5;
                   AudioSystem.DoTimer] ws in
     (AudioSystem.isPlaying (snd ws') = true
      /\ (forall bt, AudioSystem.button (fst ws') = Some bt ->
                     AudioSystem.playingClass bt = true)
      /\ AudioSystem.oscillators (snd ws') = []
      /\ AudioSystem.noiseNode (snd ws') = None
      /\ AudioSystem.sounding (fst ws') ⊆ AudioSystem.sounding (fst ws))
     /\ AudioSystem.orphan 17
          (AudioSystem.acts AudioScenario.laterSounds ws').
Proof.
  split; [split; reflexivity|].
  apply (X15_restart_before_the_stop_timer (Some true)
           [AudioSystem.DoStart 0] AudioScenario.laterSounds 3 3.5 17).
  - reflexivity.
  - reflexivity.
Defined.

(** ** The counters of the home section *)

Section CountersUp.
Local Open Scope Q_scope.

Lemma min_one_value (q : Q) :
  exists p, Num.min (Fin q) (Fin 1) = Fin p
            /\ p <= 1 /\ p <= q /\ (q <= 1 -> p == q) /\ (1 <= q -> p == 1).
Proof.
  unfold Num.min. destruct (Num.ltb (Fin 1) (Fin q)) eqn:E.
  - apply ltb_Fin in E. exists 1. repeat split; lra.
  - apply ltb_Fin_false in E. exists q. repeat split; lra.
Qed.

Lemma Qfloor_half (z : Z) : Qfloor (inject_Z z + (1 # 2)) = z.
Proof.
  apply Qfloor_unique; [lra|]. rewrite inject_Z_plus.
  change (inject_Z 1) with 1. lra.
Qed.

(** The number a counter shows at an eased progress [e]. *)
Lemma shown_range (z : Z) (e e' : Q) :
  (0 <= z)%Z -> 0 <= e -> e <= e' -> e' <= 1 ->
  (0 <= Qfloor (inject_Z z * e + (1 # 2))
   <= Qfloor (inject_Z z * e' + (1 # 2)))%Z
  /\ (Qfloor (inject_Z z * e' + (1 # 2)) <= z)%Z.
Proof.
  intros Hz H0 H1 H2.
  assert (Z0 : 0 <= inject_Z z) by (change 0 with (inject_Z 0);
    now rewrite <- Zle_Qle).
  split; [split|].
  - change 0%Z with (Qfloor 0). apply Qfloor_resp_le. nra.
  - apply Qfloor_resp_le. nra.
  - rewrite <- (Qfloor_half z) at 2. apply Qfloor_resp_le. nra.
Qed.

End CountersUp.

(** X16. A counter of the home section counts up to its target and
    stops there.  For a target that [parseInt] reads as the integer
    [z >= 0], the element shows an integer between 0 and [z] at every
    update from the start on, a later update never shows less than an
    earlier one, and an update two seconds or more after the start shows
    exactly [z] and requests no further frame, so that the frames that
    follow leave the element alone.  Before that, every update requests
    the next frame. *)
Theorem X16_counter_counts_up_to_its_target
    (z : Z) (start now now' : Q) :
  (0 <= z)%Z -> (start <= now)%Q -> (now <= now')%Q ->
  let c := Counters.begin (Counters.Digits z) start in
  exists k k' : Z,
    Counters.textContent (Counters.update now c) = Some (Fin (inject_Z k))
    /\ Counters.textContent (Counters.update now' c) = Some (Fin (inject_Z k'))
    /\ (0 <= k <= k')%Z /\ (k' <= z)%Z
    /\ ((now < start + 2000)%Q ->
        Counters.requested (Counters.update now c) = true)
    /\ ((start + 2000 <= now)%Q ->
        k = z
        /\ Counters.requested (Counters.update now c) = false
        /\ Counters.frame now' (Counters.update now c) = Counters.update now c).
Proof.
  intros Hz H1 H2 c. subst c. unfold Counters.update, Counters.frame.
  cbn [Counters.begin Counters.start Counters.target Counters.textContent
       Counters.requested Counters.parseTarget Num.sub Num.neg Num.add].
  unfold Counters.duration. rewrite !div_Fin_pos by reflexivity.
  destruct (min_one_value ((now + - start) / 2000))
    as (p & -> & Hp1 & Hpq & Hple & Hpge).
  destruct (min_one_value ((now' + - start) / 2000))
    as (p' & -> & Hp1' & Hpq' & Hple' & Hpge').
  assert (D : ((now + - start) / 2000 <= (now' + - start) / 2000)%Q).
  { unfold Qdiv. apply Qmult_le_compat_r; [lra | now vm_compute]. }
  assert (D0 : (0 <= (now + - start) / 2000)%Q)
    by (apply Qle_shift_div_l; [reflexivity | lra]).
  assert (P0 : (0 <= p)%Q).
  { destruct (Qlt_le_dec 1 ((now + - start) / 2000)) as [L|L].
    - rewrite Hpge; lra.
    - rewrite Hple; lra. }
  assert (PP : (p <= p')%Q).
  { destruct (Qlt_le_dec 1 ((now' + - start) / 2000)) as [L|L].
    - rewrite Hpge'; lra.
    - rewrite Hple'; lra. }
  cbn [Num.pow Num.sub Num.neg Num.add Num.mul Counters.round].
  pose proof (cube_range (1 + - p) ltac:(lra)) as C.
  pose proof (cube_range (1 + - p') ltac:(lra)) as C'.
  pose proof (cube_mono (1 + - p) (1 + - p') ltac:(lra) ltac:(lra)) as CM.
  set (u := ((1 + - p) * ((1 + - p) * ((1 + - p) * 1)))%Q) in *.
  set (u' := ((1 + - p') * ((1 + - p') * ((1 + - p') * 1)))%Q) in *.
  destruct (shown_range z (1 + - u) (1 + - u') Hz ltac:(lra) ltac:(lra)
              ltac:(lra)) as [[K0 K1] K2].
  eexists. eexists. split; [reflexivity|]. split; [reflexivity|].
  split; [split; assumption|]. split; [exact K2|]. split.
  - intros Lt. apply ltb_Fin.
    assert ((now + - start) / 2000 < 1)%Q
      by (apply Qlt_shift_div_r; [reflexivity | lra]).
    rewrite Hple by lra. exact H.
  - intros Ge.
    assert (G : (1 <= (now + - start) / 2000)%Q)
      by (apply Qle_shift_div_l; [reflexivity | lra]).
    assert (E : (p == 1)%Q) by now apply Hpge.
    assert (F : Num.ltb (Fin p) (Fin 1) = false) by (apply ltb_Fin_false; lra).
    rewrite F. split; [|now split].
    rewrite <- (Qfloor_half z) at 2. apply Qfloor_comp.
    subst u. rewrite E. ring.
Qed.

Lemma X16_witness :
  let c := Counters.begin (Counters.Digits 150) 700 in
  ((0 <= 150)%Z /\ (700 <= 1700)%Q /\ (1700 <= 2700)%Q)
  /\ exists k k' : Z,
    Counters.textContent (Counters.update 1700 c) = Some (Fin (inject_Z k))
    /\ Counters.textContent (Counters.update 2700 c) = Some (Fin (inject_Z k'))
    /\ (0 <= k <= k')%Z /\ (k' <= 150)%Z
    /\ ((1700 < 700 + 2000)%Q ->
        Counters.requested (Counters.update 1700 c) = true)
    /\ ((700 + 2000 <= 1700)%Q ->
        k = 150%Z
        /\ Counters.requested (Counters.update 1700 c) = false
        /\ Counters.frame 2700 (Counters.update 1700 c)
           = Counters.update 1700 c).
Proof.
  split; [repeat split; [lia | discriminate | discriminate]|].
  apply (X16_counter_counts_up_to_its_target 150 700 1700 2700).
  - lia.
  - discriminate.
  - discriminate.
Defined.

(** ** The active navigation link *)

Section ActiveNav.

Variable q : string -> bool.

(** The loop of [updateActiveNav] ends on the last section of the list
    that passes the test, or on the first of the list if none does. *)
Lemma pick_spec :
  let r := fold_left (fun active id => if q id then id else active)
             Nav.sections "home"%string in
  In r Nav.sections
  /\ (q r = true \/ r = "home"%string)
  /\ forall id, In id Nav.sections -> Nav.place r < Nav.place id ->
                q id = false.
Proof.
  unfold Nav.sections. cbn [fold_left].
  destruct (q "contact") eqn:E7;
    [|destruct (q "cta") eqn:E6;
      [|destruct (q "testimonials") eqn:E5;
        [|destruct (q "about") eqn:E4;
          [|destruct (q "portfolio") eqn:E3;
            [|destruct (q "services") eqn:E2;
              [|destruct (q "home") eqn:E1]]]]]];
    (split; [cbn; tauto|]);
    (split; [auto|]);
    intros id [<-|[<-|[<-|[<-|[<-|[<-|[<-|[]]]]]]]]; cbn; intros L;
    trivial; lia.
Qed.

End ActiveNav.

Lemma reached_later (doc : Nav.Document) (a a' : Q) (id : string) :
  (a <= a')%Q ->
  Nav.reached doc (Fin a) id = true -> Nav.reached doc (Fin a') id = true.
Proof.
  intros H. unfold Nav.reached. destruct (doc !! id) as [[o| | |]|]; trivial.
  rewrite !leb_Fin. intros K. now apply Qle_trans with a.
Qed.

(** X17. The navigation link that [updateActiveNav] marks.  The active
    section is always one of the seven of the list, even in a document
    that has none of them; it is the last section of the list whose top
    is within 200 pixels below the scroll position, whatever the order
    of the sections in the document, and [home] if there is none; and
    scrolling down never takes the mark back to an earlier section of
    the list. *)
Theorem X17_active_section_is_the_last_one_reached
    (doc : Nav.Document) (top top' : Q) :
  (top <= top')%Q ->
  let r := Nav.activeSection doc (Fin top) in
  let r' := Nav.activeSection doc (Fin top') in
  In r Nav.sections
  /\ (Nav.reached doc (Fin (top + 200)) r = true \/ r = "home"%string)
  /\ (forall id, In id Nav.sections -> Nav.place r < Nav.place id ->
                 Nav.reached doc (Fin (top + 200)) id = false)
  /\ Nav.place r <= Nav.place r'.
Proof.
  intros H r r'. subst r r'. unfold Nav.activeSection.
  cbn [Num.add].
  destruct (pick_spec (Nav.reached doc (Fin (top + 200)))) as (A1 & A2 & A3).
  destruct (pick_spec (Nav.reached doc (Fin (top' + 200)))) as (B1 & B2 & B3).
  cbv zeta in *.
  set (r := fold_left _ Nav.sections "home"%string) in *.
  set (r' := fold_left _ Nav.sections "home"%string) in B1, B2, B3 |- *.
  split; [exact A1|]. split; [exact A2|]. split; [exact A3|].
  destruct (le_lt_dec (Nav.place r) (Nav.place r')) as [L|L]; [exact L|].
  exfalso. pose proof (B3 r A1 L) as N.
  destruct A2 as [A2| ->].
  - apply (reached_later doc _ (top' + 200)) in A2; [congruence|].
    now apply Qplus_le_compat.
  - cbn in L. lia.
Qed.

Lemma X17_witness :
  let r := Nav.activeSection NavScenario.sectionTops (Fin 700) in
  let r' := Nav.activeSection NavScenario.sectionTops (Fin 2500) in
  (700 <= 2500)%Q
  /\ In r Nav.sections
  /\ (Nav.reached NavScenario.sectionTops (Fin (700 + 200)) r = true
      \/ r = "home"%string)
  /\ (forall id, In id Nav.sections -> Nav.place r < Nav.place id ->
                 Nav.reached NavScenario.sectionTops (Fin (700 + 200)) id = false)
  /\ Nav.place r <= Nav.place r'.
Proof.
  split; [discriminate|].
  apply (X17_active_section_is_the_last_one_reached
           NavScenario.sectionTops 700 2500).
  discriminate.
Defined.

(** ** The tilt of a card *)

Section TiltLoop.
Import Tilt.
Local Open Scope Q_scope.

Local Ltac tilt_simpl :=
  cbn [with_raf with_animId with_target with_current requestAnimationFrame
       cancelAnimationFrame serviceCard currentRotateX currentRotateY
       targetRotateX targetRotateY animId transform rafNext rafQueue
       fst snd] in *.

Lemma shrink_range (r : Q) (n : nat) :
  0 <= r <= 1 -> 0 <= shrink r n <= 1.
Proof.
  intros Hr. induction n as [|n IH]; cbn [shrink]; [lra|]. nra.
Qed.

Lemma gtb_Fin_false (a b : Q) : Num.gtb (Fin a) (Fin b) = false <-> a <= b.
Proof. unfold Num.gtb. apply ltb_Fin_false. Qed.

(** The target a pointer over the element sets. *)
Lemma move_target (x y : Q) (r : Rect) (s : t) :
  inside x y r ->
  exists tx ty,
    targetRotateX (with_target s
       (Num.mul (Num.neg (Num.div (Num.sub (Fin y)
            (Num.add (Fin (top r)) (Num.div (Fin (height r)) (Fin 2))))
          (Num.div (Fin (height r)) (Fin 2))))
          (if serviceCard s then Fin 6 else Fin 8))
       (Num.mul (Num.div (Num.sub (Fin x)
            (Num.add (Fin (left r)) (Num.div (Fin (width r)) (Fin 2))))
          (Num.div (Fin (width r)) (Fin 2)))
          (if serviceCard s then Fin 6 else Fin 8))) = Fin tx
    /\ targetRotateY (with_target s
       (Num.mul (Num.neg (Num.div (Num.sub (Fin y)
            (Num.add (Fin (top r)) (Num.div (Fin (height r)) (Fin 2))))
          (Num.div (Fin (height r)) (Fin 2))))
          (if serviceCard s then Fin 6 else Fin 8))
       (Num.mul (Num.div (Num.sub (Fin x)
            (Num.add (Fin (left r)) (Num.div (Fin (width r)) (Fin 2))))
          (Num.div (Fin (width r)) (Fin 2)))
          (if serviceCard s then Fin 6 else Fin 8))) = Fin ty
    /\ Qabs tx <= 8 /\ Qabs ty <= 8.
Proof.
  intros (Hw & Hh & [Hx1 Hx2] & [Hy1 Hy2]). tilt_simpl.
  rewrite !(div_Fin_pos _ 2) by reflexivity.
  cbn [Num.add Num.sub Num.neg].
  assert (W2 : width r / 2 == width r * (1 # 2)) by (now field).
  assert (H2 : height r / 2 == height r * (1 # 2)) by (now field).
  assert (Wp : 0 < width r / 2) by (rewrite W2; lra).
  assert (Hp : 0 < height r / 2) by (rewrite H2; lra).
  rewrite !div_Fin_pos by assumption.
  assert (Rx : -1 <= (x + - (left r + width r / 2)) / (width r / 2) <= 1).
  { split; [apply Qle_shift_div_l | apply Qle_shift_div_r]; trivial;
      rewrite W2; lra. }
  assert (Ry : -1 <= (y + - (top r + height r / 2)) / (height r / 2) <= 1).
  { split; [apply Qle_shift_div_l | apply Qle_shift_div_r]; trivial;
      rewrite H2; lra. }
  destruct (serviceCard s); cbn [Num.mul Num.neg];
    eexists; eexists; (split; [reflexivity|]); (split; [reflexivity|]);
    split; apply Qabs_Qle_condition; lra.
Qed.

Lemma Qabs_scale (a b : Q) : 0 <= a -> Qabs (a * b) == a * Qabs b.
Proof. intros H. rewrite Qabs_Qmult, (Qabs_pos a) by exact H. reflexivity. Qed.

(** A frame of the loop of [updateTilt]. *)
Lemma frame_following (cx cy tx ty : Q) (k : nat) (s : t) :
  following cx cy tx ty k s ->
  following cx cy tx ty (S k) (frame s)
  /\ (shrink 0.92 (S k) * Qabs (cx - tx) <= 0.01 ->
      shrink 0.92 (S k) * Qabs (cy - ty) <= 0.01 ->
      rafQueue (frame s) = []).
Proof.
  intros (Tx & Ty & x & y & Cx & Cy & [(id & Hq & A & Hid & Ex & Ey)|
                                       (Hq & A & Bx & By)]).
  - unfold frame. rewrite Hq. cbn [fold_left snd runCallback].
    unfold updateTilt. tilt_simpl. rewrite Cx, Cy, Tx, Ty. unfold lerp.
    cbn [Num.add Num.sub Num.mul Num.neg Num.abs].
    set (x' := x + (tx + - x) * 0.08). set (y' := y + (ty + - y) * 0.08).
    assert (Ex' : x' - tx == shrink 0.92 (S k) * (cx - tx)).
    { cbn [shrink]. rewrite <- Qmult_assoc, <- Ex. subst x'. ring. }
    assert (Ey' : y' - ty == shrink 0.92 (S k) * (cy - ty)).
    { cbn [shrink]. rewrite <- Qmult_assoc, <- Ey. subst y'. ring. }
    pose proof (shrink_range 0.92 (S k) ltac:(split; now vm_compute))
      as [S0 _].
    destruct (Num.gtb (Fin (Qabs (x' + - tx))) (Fin 0.01)
              || Num.gtb (Fin (Qabs (y' + - ty))) (Fin 0.01))%bool eqn:E.
    + unfold following. tilt_simpl. split.
      * split; [exact Tx|]. split; [exact Ty|]. exists x', y'.
        split; [reflexivity|]. split; [reflexivity|]. left.
        exists (rafNext s). split; [reflexivity|]. split; [reflexivity|].
        split; [cbn; lia|]. split; assumption.
      * intros Lx Ly. exfalso. apply orb_true_iff in E.
        rewrite <- Qabs_scale, <- Ex' in Lx by exact S0.
        rewrite <- Qabs_scale, <- Ey' in Ly by exact S0.
        destruct E as [E|E]; apply ltb_Fin in E; unfold Qminus in *; lra.
    + apply orb_false_iff in E. destruct E as [E1 E2].
      apply gtb_Fin_false in E1, E2. unfold following. tilt_simpl.
      split; [|reflexivity].
      split; [exact Tx|]. split; [exact Ty|]. exists x', y'.
      split; [reflexivity|]. split; [reflexivity|]. right.
      rewrite A. repeat split; trivial.
      destruct id; [lia | reflexivity].
  - unfold frame. rewrite Hq. cbn [fold_left]. unfold following. tilt_simpl.
    split; [|reflexivity].
    split; [exact Tx|]. split; [exact Ty|]. exists x, y.
    split; [exact Cx|]. split; [exact Cy|]. right. now repeat split.
Qed.

Lemma frames_S (n : nat) (s : t) : frames (S n) s = frame (frames n s).
Proof. reflexivity. Qed.

Lemma frames_following (cx cy tx ty : Q) (n k : nat) (s : t) :
  following cx cy tx ty k s ->
  following cx cy tx ty (n + k) (frames n s).
Proof.
  intros H. induction n as [|n IH]; [exact H|].
  rewrite frames_S. now apply frame_following.
Qed.

(** The first pointer move over a fresh element starts the loop. *)
Lemma move_following (service : bool) (x y : Q) (r : Rect) :
  inside x y r ->
  exists tx ty,
    following 0 0 tx ty 0 (onMouseMove x y r (create service))
    /\ Qabs tx <= 8 /\ Qabs ty <= 8.
Proof.
  intros H. unfold onMouseMove.
  destruct (move_target x y r (create service) H) as (tx & ty & Tx & Ty & Bx & By).
  exists tx, ty. split; [|now split].
  cbn [create animId truthy with_target] in *. unfold following. tilt_simpl.
  split; [exact Tx|]. split; [exact Ty|]. exists 0, 0.
  split; [reflexivity|]. split; [reflexivity|]. left. exists 1%nat.
  cbn [shrink]. split; [reflexivity|]. split; [reflexivity|].
  split; [cbn; lia|]. split; ring.
Qed.

(** Once the loop has stopped and left its handle in [animId], what
    comes next moves the target and nothing else, until the pointer
    leaves. *)
Lemma act_frozen (s : t) (a : Action) :
  rafQueue s = [] -> truthy (animId s) = true -> stays [a] = true ->
  rafQueue (act s a) = [] /\ truthy (animId (act s a)) = true
  /\ currentRotateX (act s a) = currentRotateX s
  /\ currentRotateY (act s a) = currentRotateY s
  /\ transform (act s a) = transform s.
Proof.
  intros Hq A St. destruct a as [x y r| |]; [| discriminate |]; cbn [act].
  - unfold onMouseMove. tilt_simpl. rewrite A. tilt_simpl. now repeat split.
  - unfold frame. rewrite Hq. cbn [fold_left]. tilt_simpl. now repeat split.
Qed.

Lemma acts_frozen (l : list Action) (s : t) :
  rafQueue s = [] -> truthy (animId s) = true -> stays l = true ->
  rafQueue (acts l s) = [] /\ truthy (animId (acts l s)) = true
  /\ currentRotateX (acts l s) = currentRotateX s
  /\ currentRotateY (acts l s) = currentRotateY s
  /\ transform (acts l s) = transform s.
Proof.
  unfold acts. revert s. induction l as [|a l IH]; intros s Hq A St;
    [now repeat split|].
  cbn [fold_left].
  assert (Sa : stays [a] = true /\ stays l = true).
  { unfold stays in *. cbn [forallb] in *.
    apply andb_true_iff in St. destruct St as [-> ->]. now split. }
  destruct Sa as [Sa Sl].
  destruct (act_frozen s a Hq A Sa) as (H1 & H2 & H3 & H4 & H5).
  destruct (IH _ H1 H2 Sl) as (K1 & K2 & K3 & K4 & K5).
  repeat split; congruence.
Qed.

(** Nothing changes the class of the element. *)
Lemma runCallback_service (cb : Callback) (s : t) :
  serviceCard (runCallback cb s) = serviceCard s.
Proof.
  destruct cb; cbn [runCallback]; [unfold updateTilt | unfold resetAnim];
    match goal with |- context [if ?b then _ else _] => destruct b end;
    reflexivity.
Qed.

Lemma frame_service (s : t) : serviceCard (frame s) = serviceCard s.
Proof.
  unfold frame.
  change (serviceCard s) with (serviceCard (with_raf s (rafNext s) [])).
  generalize (with_raf s (rafNext s) []).
  induction (rafQueue s) as [|c q IH]; intros u; [reflexivity|].
  cbn [fold_left]. now rewrite IH, runCallback_service.
Qed.

Lemma act_service (s : t) (a : Action) :
  serviceCard (act s a) = serviceCard s.
Proof.
  destruct a as [x y r| |]; cbn [act].
  - unfold onMouseMove. now destruct (truthy _).
  - unfold onMouseLeave. cbn [with_target animId].
    destruct (truthy (animId s)); [destruct (animId s)|]; reflexivity.
  - apply frame_service.
Qed.

Lemma acts_service (l : list Action) (s : t) :
  serviceCard (acts l s) = serviceCard s.
Proof.
  unfold acts. revert s. induction l as [|a l IH]; intros s; [reflexivity|].
  cbn [fold_left]. now rewrite IH, act_service.
Qed.

Lemma frames_service (n : nat) (s : t) :
  serviceCard (frames n s) = serviceCard s.
Proof.
  induction n as [|n IH]; [reflexivity|].
  now rewrite frames_S, frame_service.
Qed.

Lemma shrink_92_100 : shrink 0.92 100 * 8 <= 0.01.
Proof. now vm_compute. Qed.

Lemma small_after_100 (d : Q) :
  Qabs d <= 8 -> shrink 0.92 100 * Qabs (0 - d) <= 0.01.
Proof.
  intros H. assert (Qabs (0 - d) == Qabs d) as ->
    by (rewrite <- (Qabs_opp d); apply Qabs_wd; ring).
  pose proof shrink_92_100 as K.
  pose proof (shrink_range 0.92 100 ltac:(split; now vm_compute)) as [S0 _].
  pose proof (Qabs_nonneg d).
  generalize dependent (shrink 0.92 100). intros c K S0. nra.
Qed.

(** A frame of the loop of [resetAnim]. *)
Lemma frame_resetting (cx cy : Q) (k : nat) (s : t) :
  resetting cx cy k s ->
  resetting cx cy (S k) (frame s)
  /\ (shrink 0.9 (S k) * Qabs cx <= 0.1 ->
      shrink 0.9 (S k) * Qabs cy <= 0.1 ->
      rafQueue (frame s) = [] /\ transform (frame s) = None).
Proof.
  intros (A & Tx & Ty & x & y & Cx & Cy & [(id & Hq & Ex & Ey)|
                                           (Hq & Tr & Bx & By)]).
  - unfold frame. rewrite Hq. cbn [fold_left snd runCallback].
    unfold resetAnim. tilt_simpl. rewrite Cx, Cy. unfold lerp.
    cbn [Num.add Num.sub Num.mul Num.neg Num.abs].
    set (x' := x + (0 + - x) * 0.1). set (y' := y + (0 + - y) * 0.1).
    assert (Ex' : x' == shrink 0.9 (S k) * cx).
    { cbn [shrink]. rewrite <- Qmult_assoc, <- Ex. subst x'. ring. }
    assert (Ey' : y' == shrink 0.9 (S k) * cy).
    { cbn [shrink]. rewrite <- Qmult_assoc, <- Ey. subst y'. ring. }
    pose proof (shrink_range 0.9 (S k) ltac:(split; now vm_compute))
      as [S0 _].
    destruct (Num.gtb (Fin (Qabs x')) (Fin 0.1)
              || Num.gtb (Fin (Qabs y')) (Fin 0.1))%bool eqn:E.
    + unfold resetting. tilt_simpl. split.
      * split; [exact A|]. split; [exact Tx|]. split; [exact Ty|].
        exists x', y'. split; [reflexivity|]. split; [reflexivity|]. left.
        exists (rafNext s). split; [reflexivity|]. split; assumption.
      * intros Lx Ly. exfalso. apply orb_true_iff in E.
        rewrite <- Qabs_scale, <- Ex' in Lx by exact S0.
        rewrite <- Qabs_scale, <- Ey' in Ly by exact S0.
        destruct E as [E|E]; apply ltb_Fin in E; lra.
    + apply orb_false_iff in E. destruct E as [E1 E2].
      apply gtb_Fin_false in E1, E2. unfold resetting. tilt_simpl.
      split; [|now split].
      split; [exact A|]. split; [exact Tx|]. split; [exact Ty|].
      exists x', y'. split; [reflexivity|]. split; [reflexivity|]. right.
      now repeat split.
  - unfold frame. rewrite Hq. cbn [fold_left]. unfold resetting. tilt_simpl.
    split; [|now split].
    split; [exact A|]. split; [exact Tx|]. split; [exact Ty|].
    exists x, y. split; [exact Cx|]. split; [exact Cy|]. right.
    now repeat split.
Qed.

Lemma frames_resetting (cx cy : Q) (n k : nat) (s : t) :
  resetting cx cy k s -> resetting cx cy (n + k) (frames n s).
Proof.
  intros H. induction n as [|n IH]; [exact H|].
  rewrite frames_S. now apply frame_resetting.
Qed.

(** The pointer leaves while the loop of [updateTilt] runs or after it
    has stopped: the loop of [resetAnim] starts from where the rotation
    is. *)
Lemma leave_resetting (tx ty : Q) (k : nat) (s : t) :
  Qabs tx <= 8 -> Qabs ty <= 8 ->
  following 0 0 tx ty k s ->
  exists x y, resetting x y 0 (onMouseLeave s)
              /\ Qabs x <= 8.01 /\ Qabs y <= 8.01.
Proof.
  intros Bx By (Tx & Ty & x & y & Cx & Cy & H).
  exists x, y.
  assert (Tr : truthy (animId s) = true
               /\ exists id, animId s = Some id
                   /\ List.filter (fun c => negb (Nat.eqb (fst c) id))
                        (rafQueue s) = []).
  { destruct H as [(id & Hq & A & Hid & _)|(Hq & A & _)].
    - rewrite A, Hq. split; [destruct id; [lia | reflexivity]|].
      exists id. split; [reflexivity|]. cbn. now rewrite Nat.eqb_refl.
    - split; [exact A|]. destruct (animId s) as [id|]; [|discriminate].
      exists id. now rewrite Hq. }
  destruct Tr as (Tr & id & A & Fq).
  split.
  - unfold onMouseLeave. cbn [with_target animId]. rewrite Tr, A.
    unfold resetting. tilt_simpl. rewrite Fq.
    split; [reflexivity|]. split; [reflexivity|]. split; [reflexivity|].
    exists x, y. split; [exact Cx|]. split; [exact Cy|]. left.
    exists (rafNext s). cbn [shrink]. split; [reflexivity|]. split; ring.
  - pose proof (shrink_range 0.92 k ltac:(split; now vm_compute)) as [S0 S1].
    apply Qabs_Qle_condition in Bx, By.
    destruct H as [(_ & _ & _ & _ & Ex & Ey)|(_ & _ & Dx & Dy)].
    + split; apply Qabs_Qle_condition; nra.
    + apply Qabs_Qle_condition in Dx, Dy.
      split; apply Qabs_Qle_condition; lra.
Qed.

Lemma shrink_9_50 : shrink 0.9 50 * 8.01 <= 0.1.
Proof. now vm_compute. Qed.

Lemma small_after_50 (d : Q) :
  Qabs d <= 8.01 -> shrink 0.9 50 * Qabs d <= 0.1.
Proof.
  intros H. pose proof shrink_9_50 as K.
  pose proof (shrink_range 0.9 50 ltac:(split; now vm_compute)) as [S0 _].
  pose proof (Qabs_nonneg d).
  generalize dependent (shrink 0.9 50). intros c K S0. nra.
Qed.

End TiltLoop.

(** X18. Once the tilt of a card has settled, the card no longer
    follows the pointer.  On a fresh element a pointer move starts the
    loop of [updateTilt]; with the pointer at rest the loop stops, within
    a hundred frames, no farther than 0.01 degrees from its target, and
    leaves the handle of its last frame in [animId].  From then on, as
    long as the pointer does not leave the element, moves set the
    target as before (a last move sets it to what it would set on a
    fresh element) but request no frame, so that neither the rotation
    nor the transform of the card changes, however the pointer moves and
    however many frames pass. *)
Theorem X18_settled_tilt_stops_following
    (service : bool) (x y : Q) (r : Tilt.Rect)
    (l : list Tilt.Action) (x' y' : Q) (r' : Tilt.Rect) :
  Tilt.inside x y r -> Tilt.stays l = true ->
  let s := Tilt.frames 100 (Tilt.onMouseMove x y r (Tilt.create service)) in
  let s' := Tilt.acts (l ++ [Tilt.DoMove x' y' r'; Tilt.DoFrame]) s in
  (Tilt.rafQueue s = [] /\ Tilt.truthy (Tilt.animId s) = true
   /\ exists cx cy tx ty,
        Tilt.currentRotateX s = Fin cx /\ Tilt.currentRotateY s = Fin cy
        /\ Tilt.targetRotateX s = Fin tx /\ Tilt.targetRotateY s = Fin ty
        /\ (Qabs (cx - tx) <= 0.01)%Q /\ (Qabs (cy - ty) <= 0.01)%Q
        /\ (Qabs tx <= 8)%Q /\ (Qabs ty <= 8)%Q)
  /\ (Tilt.currentRotateX s' = Tilt.currentRotateX s
      /\ Tilt.currentRotateY s' = Tilt.currentRotateY s
      /\ Tilt.transform s' = Tilt.transform s
      /\ Tilt.rafQueue s' = [])
  /\ (Tilt.targetRotateX s'
      = Tilt.targetRotateX (Tilt.onMouseMove x' y' r' (Tilt.create service))
      /\ Tilt.targetRotateY s'
         = Tilt.targetRotateY (Tilt.onMouseMove x' y' r' (Tilt.create service))).
Proof.
  intros Hin St s s'.
  destruct (move_following service x y r Hin) as (tx & ty & F0 & Bx & By).
  pose proof (frames_following 0 0 tx ty 99 0 _ F0) as F99.
  rewrite Nat.add_0_r in F99.
  destruct (frame_following 0 0 tx ty _ _ F99) as [F100 Q100].
  rewrite <- frames_S in F100, Q100.
  specialize (Q100 (small_after_100 tx Bx) (small_after_100 ty By)).
  clear F0 F99.
  assert (Es : s = Tilt.frames 100
                     (Tilt.onMouseMove x y r (Tilt.create service)))
    by reflexivity.
  clearbody s. subst s'. rewrite <- Es in F100, Q100.
  assert (Sv : Tilt.serviceCard s = service).
  { rewrite Es, frames_service. unfold Tilt.onMouseMove.
    now destruct (Tilt.truthy _). }
  clear Es.
  destruct F100 as (Tx & Ty & cx & cy & Cx & Cy & [(id & Hq & _)|
                                                   (_ & A & Dx & Dy)]);
    [congruence|].
  assert (Sl : Tilt.stays (l ++ [Tilt.DoMove x' y' r'; Tilt.DoFrame]) = true).
  { unfold Tilt.stays in *. rewrite forallb_app, St. reflexivity. }
  destruct (acts_frozen _ s Q100 A Sl) as (H1 & H2 & H3 & H4 & H5).
  split; [|split].
  - split; [exact Q100|]. split; [exact A|].
    exists cx, cy, tx, ty. now repeat split.
  - now repeat split.
  - unfold Tilt.acts. rewrite fold_left_app.
    cbn [fold_left Tilt.act].
    destruct (acts_frozen l s Q100 A St) as (G1 & G2 & _).
    pose proof (acts_service l s) as Sv'. rewrite Sv in Sv'.
    unfold Tilt.acts in G1, G2, Sv'.
    generalize dependent (fold_left Tilt.act l s). intros s1 G1 G2 Sv'.
    destruct (act_frozen s1 (Tilt.DoMove x' y' r') G1 G2 eq_refl)
      as (M1 & _).
    cbn [Tilt.act] in M1. unfold Tilt.frame. rewrite M1. cbn [fold_left].
    unfold Tilt.onMouseMove.
    cbn [Tilt.with_target Tilt.animId Tilt.create]. rewrite G2, Sv'.
    cbn [Tilt.truthy]. now split.
Qed.

Lemma X18_witness :
  let r := TiltScenario.card in
  let s := Tilt.frames 100 (Tilt.onMouseMove 175 500 r (Tilt.create true)) in
  let s' := Tilt.acts (TiltScenario.hovering
                         ++ [Tilt.DoMove 390 210 r; Tilt.DoFrame]) s in
  (Tilt.inside 175 500 r /\ Tilt.stays TiltScenario.hovering = true)
  /\ (Tilt.rafQueue s = [] /\ Tilt.truthy (Tilt.animId s) = true
      /\ exists cx cy tx ty,
           Tilt.currentRotateX s = Fin cx /\ Tilt.currentRotateY s = Fin cy
           /\ Tilt.targetRotateX s = Fin tx /\ Tilt.targetRotateY s = Fin ty
           /\ (Qabs (cx - tx) <= 0.01)%Q /\ (Qabs (cy - ty) <= 0.01)%Q
           /\ (Qabs tx <= 8)%Q /\ (Qabs ty <= 8)%Q)
  /\ (Tilt.currentRotateX s' = Tilt.currentRotateX s
      /\ Tilt.currentRotateY s' = Tilt.currentRotateY s
      /\ Tilt.transform s' = Tilt.transform s
      /\ Tilt.rafQueue s' = [])
  /\ (Tilt.targetRotateX s'
      = Tilt.targetRotateX (Tilt.onMouseMove 390 210 r (Tilt.create true))
      /\ Tilt.targetRotateY s'
         = Tilt.targetRotateY (Tilt.onMouseMove 390 210 r (Tilt.create true))).
Proof.
  intros r.
  assert (H : Tilt.inside 175 500 r)
    by (unfold Tilt.inside; cbn; repeat split; discriminate).
  split; [split; [exact H | reflexivity]|].
  apply (X18_settled_tilt_stops_following true 175 500 r
           TiltScenario.hovering 390 210 r H eq_refl).
Defined.

(** X19. When the pointer leaves a tilted card, the card comes back
    to rest.  Whether the loop of [updateTilt] still runs or has
    stopped, [mouseleave] cancels it, clears [animId] and starts the
    loop of [resetAnim], which ends within fifty frames: the inline
    transform is then the empty string, no frame is requested, and the
    rotation kept in the closure is within 0.1 degrees of zero (it is
    not set to zero).  The next pointer move over the element requests
    a frame of [updateTilt] again. *)
Theorem X19_tilt_reset_comes_to_rest
    (service : bool) (x y : Q) (r : Tilt.Rect) (k : nat)
    (x' y' : Q) (r' : Tilt.Rect) :
  Tilt.inside x y r ->
  let s := Tilt.frames 50
             (Tilt.onMouseLeave
                (Tilt.frames k (Tilt.onMouseMove x y r (Tilt.create service)))) in
  Tilt.transform s = None /\ Tilt.rafQueue s = [] /\ Tilt.animId s = None
  /\ (exists cx cy,
        Tilt.currentRotateX s = Fin cx /\ Tilt.currentRotateY s = Fin cy
        /\ (Qabs cx <= 0.1)%Q /\ (Qabs cy <= 0.1)%Q)
  /\ exists id,
       Tilt.rafQueue (Tilt.onMouseMove x' y' r' s) = [(id, Tilt.UpdateTilt)]
       /\ Tilt.animId (Tilt.onMouseMove x' y' r' s) = Some id.
Proof.
  intros Hin s.
  destruct (move_following service x y r Hin) as (tx & ty & F0 & Bx & By).
  pose proof (frames_following 0 0 tx ty k 0 _ F0) as Fk.
  destruct (leave_resetting tx ty _ _ Bx By Fk) as (cx & cy & R0 & Cx & Cy).
  pose proof (frames_resetting cx cy 49 0 _ R0) as R49.
  rewrite Nat.add_0_r in R49.
  destruct (frame_resetting cx cy _ _ R49) as [R50 Q50].
  rewrite <- frames_S in R50, Q50.
  specialize (Q50 (small_after_50 cx Cx) (small_after_50 cy Cy)).
  clear F0 Fk R0 R49.
  assert (Es : s = Tilt.frames 50
                     (Tilt.onMouseLeave
                        (Tilt.frames k
                           (Tilt.onMouseMove x y r (Tilt.create service)))))
    by reflexivity.
  clearbody s. rewrite <- Es in R50, Q50. clear Es.
  destruct Q50 as [Hq Tr].
  destruct R50 as (A & _ & _ & ux & uy & Ux & Uy & [(id & Hq' & _)|
                                                   (_ & _ & Dx & Dy)]);
    [congruence|].
  split; [exact Tr|]. split; [exact Hq|]. split; [exact A|]. split.
  - exists ux, uy. now repeat split.
  - unfold Tilt.onMouseMove. cbn [Tilt.with_target Tilt.animId].
    rewrite A. cbn [Tilt.truthy Tilt.requestAnimationFrame Tilt.with_animId
      Tilt.with_raf Tilt.rafQueue Tilt.animId Tilt.with_target Tilt.rafNext].
    rewrite Hq. eexists. split; reflexivity.
Qed.

Lemma X19_witness :
  let r := TiltScenario.card in
  let s := Tilt.frames 50
             (Tilt.onMouseLeave
                (Tilt.frames 7 (Tilt.onMouseMove 175 500 r (Tilt.create false)))) in
  Tilt.inside 175 500 r
  /\ Tilt.transform s = None /\ Tilt.rafQueue s = [] /\ Tilt.animId s = None
  /\ (exists cx cy,
        Tilt.currentRotateX s = Fin cx /\ Tilt.currentRotateY s = Fin cy
        /\ (Qabs cx <= 0.1)%Q /\ (Qabs cy <= 0.1)%Q)
  /\ exists id,
       Tilt.rafQueue (Tilt.onMouseMove 390 210 r s) = [(id, Tilt.UpdateTilt)]
       /\ Tilt.animId (Tilt.onMouseMove 390 210 r s) = Some id.
Proof.
  intros r.
  assert (H : Tilt.inside 175 500 r)
    by (unfold Tilt.inside; cbn; repeat split; discriminate).
  split; [exact H|].
  apply (X19_tilt_reset_comes_to_rest false 175 500 r 7 390 210 r H).
Defined.

(** ** The sound of [enterWorld] *)

Section Entering_sound.
Import AudioSystem.

(** The audio context, once constructed, stays. *)
Lemma act_ctx (ws : Web * t) (a : Action) :
  inv ws -> ctx (snd ws) <> None -> ctx (snd (act ws a)) <> None.
Proof.
  intros H C.
  assert (I : ctx (snd (initContext ws)) <> None).
  { destruct (initContext_ctx ws H) as (c & g & -> & _). discriminate. }
  assert (St : forall now, ctx (snd (start now ws)) <> None).
  { intros now. destruct (isPlaying (snd ws)) eqn:P.
    - now rewrite start_playing.
    - destruct (start_spec now ws H P)
        as (new & noise & _ & _ & _ & _ & _ & _ & _ & _ & _ & _ & X & _).
      cbv zeta in X. now rewrite X. }
  assert (Sp : forall now, ctx (snd (stop now ws)) <> None).
  { intros now. destruct ws as [w s]. unfold stop. cbn [snd] in *.
    destruct (ctx s) eqn:E; [|contradiction].
    destruct (masterGain s); cbn; now rewrite E. }
  destruct a; cbn [act]; trivial.
  - unfold toggle. destruct (isPlaying (snd ws)); trivial.
  - unfold playTransitionWhoosh. destruct (initContext ws) as [w s].
    cbn [snd] in I. destruct (ctx s) eqn:E; [|contradiction].
    destruct (masterGain s); cbn; now rewrite E.
  - unfold playHoverBlip. destruct (initContext ws) as [w s].
    cbn [snd] in I. destruct (ctx s) eqn:E; [|contradiction].
    destruct (masterGain s); cbn; now rewrite E.
  - destruct ws as [w s]. unfold fireTimer. cbn [fst snd] in *.
    destruct (timers w); [exact C|]. now rewrite onStopTimer_spec.
Qed.

Lemma acts_ctx (l : list Action) (ws : Web * t) :
  inv ws -> ctx (snd ws) <> None -> ctx (snd (acts l ws)) <> None.
Proof.
  unfold acts. revert ws. induction l as [|a l IH]; intros ws H C; [exact C|].
  cbn [fold_left]. apply IH; [now apply act_inv | now apply act_ctx].
Qed.

Lemma whoosh_ctx (now : Q) (ws : Web * t) :
  inv ws -> ctx (snd (playTransitionWhoosh now ws)) <> None.
Proof.
  intros H. destruct (initContext_ctx ws H) as (c & g & C & G).
  unfold playTransitionWhoosh. destruct (initContext ws) as [w s].
  cbn [snd] in *. rewrite C, G. cbn. now rewrite C.
Qed.

End Entering_sound.

(** X20. Entering the world always ends with the ambient sound
    switched off.  Whatever the visitor did to the audio system before
    the click, and whatever happens to it during the transition (the
    toggle, hover sounds, timers), the call of [stop()] that ends
    [enterWorld] finds an audio context (the whoosh constructs one if
    there is none) and so takes effect: [isPlaying] is cleared, a timer
    to stop the sources is pending, exactly one [AudioContext] exists,
    and the button, if the page has one, loses the class [playing] and
    shows the muted icon. *)
Theorem X20_entering_ends_with_the_sound_off
    (b : option bool) (l between : list AudioSystem.Action) (t0 t1 : Q) :
  let ws := AudioSystem.acts l (AudioSystem.create b) in
  let ws' := AudioSystem.acts (Soundtrack.entering t0 between t1) ws in
  AudioSystem.isPlaying (snd ws') = false
  /\ 1 <= AudioSystem.timers (fst ws')
  /\ AudioSystem.contexts (fst ws') = 1
  /\ (forall bt, AudioSystem.button (fst ws') = Some bt ->
                 AudioSystem.playingClass bt = false
                 /\ (AudioSystem.audioIcon bt = None
                     \/ AudioSystem.audioIcon bt = Some AudioSystem.IconMuted)).
Proof.
  intros ws ws'.
  pose proof (acts_inv l _ (create_inv b)) as H. fold ws in H.
  subst ws'. unfold Soundtrack.entering. unfold AudioSystem.acts at 1 2 3 4.
  cbn [app fold_left AudioSystem.act].
  rewrite fold_left_app. cbn [fold_left AudioSystem.act].
  set (w1 := AudioSystem.playTransitionWhoosh t0 ws) in *.
  pose proof (playTransitionWhoosh_inv t0 ws H) as H1. fold w1 in H1.
  pose proof (whoosh_ctx t0 ws H) as C1. fold w1 in C1.
  pose proof (act_inv w1 (AudioSystem.DoStart t0) H1) as H2.
  pose proof (act_ctx w1 (AudioSystem.DoStart t0) H1 C1) as C2.
  cbn [AudioSystem.act] in H2, C2.
  set (w2 := AudioSystem.start t0 w1) in *.
  pose proof (acts_inv between w2 H2) as H3.
  pose proof (acts_ctx between w2 H2 C2) as C3.
  unfold AudioSystem.acts in H3, C3.
  set (w3 := fold_left AudioSystem.act between w2) in *.
  pose proof (AudioSystem.inv_gain _ H3) as G3.
  pose proof (AudioSystem.inv_ctx _ H3) as K3.
  destruct w3 as [w s]. cbn [fst snd] in *.
  unfold AudioSystem.stop.
  destruct (AudioSystem.ctx s) eqn:C; [|contradiction].
  destruct (AudioSystem.masterGain s) eqn:G; [|now specialize (G3 eq_refl)].
  cbn. repeat split; trivial; try lia.
  - destruct (AudioSystem.button w); [|discriminate].
    cbn in H0. now inversion H0.
  - destruct (AudioSystem.button w) as [b0|]; [|discriminate].
    cbn in H0. inversion H0. cbn. destruct (AudioSystem.audioIcon b0); auto.
Qed.

(** ** The spin of the rings *)

Section RingSpin.

Variable M : MathLib.

Lemma loops_app (q q' : list (nat * Callback)) :
  Spin.loops (q ++ q') = Spin.loops q + Spin.loops q'.
Proof. unfold Spin.loops. now rewrite List.filter_app, List.length_app. Qed.

Lemma loops_cons (c : nat * Callback) (q : list (nat * Callback)) :
  Spin.loops (c :: q) = (if Spin.isAnimate c then 1 else 0) + Spin.loops q.
Proof. unfold Spin.loops. cbn [List.filter]. now destruct (Spin.isAnimate c). Qed.

Lemma turned_spin (time : num) (k : nat) (r0 r : PortalScene.Ring) :
  Spin.turned k r0 r -> Spin.turned (S k) r0 (PortalScene.spinRing M time r).
Proof.
  intros (Hs & y0 & y & sp & E0 & E & Es & Ey).
  split; [exact Hs|]. exists y0, (y + sp * 0.01)%Q, sp.
  split; [exact E0|]. split.
  - cbn. now rewrite E, Hs, Es.
  - split; [exact Es|]. rewrite Nat2Z.inj_succ, <- Z.add_1_r, inject_Z_plus.
    rewrite Ey. change (inject_Z 1) with 1%Q. ring.
Qed.

Lemma turned_burst (ez : num) (i k : nat) (r0 r : PortalScene.Ring) :
  Spin.turned k r0 r -> Spin.turned k r0 (PortalScene.burstRing ez i r).
Proof. intros H. exact H. Qed.

Lemma Forall2_map_r {A B : Type} (R R' : A -> B -> Prop) (f : B -> B)
    (l : list A) (l' : list B) :
  (forall a b, R a b -> R' a (f b)) ->
  Forall2 R l l' -> Forall2 R' l (List.map f l').
Proof.
  intros H F. induction F as [|a b l l' Hab _ IH]; cbn [List.map];
    constructor; auto.
Qed.

Lemma Forall2_imap_r {A B : Type} (R : A -> B -> Prop) (f : nat -> B -> B)
    (l : list A) (l' : list B) :
  (forall i a b, R a b -> R a (f i b)) ->
  Forall2 R l l' -> Forall2 R l (imap f l').
Proof.
  intros H F. revert f H. induction F as [|a b l l' Hab _ IH]; intros f H;
    cbn [imap]; constructor; auto.
  apply IH. intros i. apply H.
Qed.

(** Each callback of a frame: the render loop turns the rings once and
    requests its next frame; a frame of the transition leaves their
    rotation alone. *)
Lemma callback_midFrame (now : Q) (k : nat) (c : nat * Callback)
    (rest : list (nat * Callback)) (es : Env * PortalScene.t) :
  Spin.midFrame k (c :: rest) es ->
  Spin.midFrame k rest (PortalScene.runCallback M now (snd c) es).
Proof.
  destruct es as [e s]. unfold Spin.midFrame. cbn [fst snd].
  intros (D & H). rewrite loops_cons in H. unfold Spin.isAnimate in H.
  destruct c as [id [|st p|]]; cbn [snd PortalScene.runCallback] in *.
  - unfold PortalScene.animate. rewrite D.
    destruct (Clock.getElapsedTime now (PortalScene.clock s)).
    cbn [fst snd Browser.requestAnimationFrame Browser.with_raf rafQueue
         PortalScene.isDestroyed PortalScene.rings].
    split; [first [exact D | reflexivity]|]. destruct H as [(H1 & H2 & H3)|(H1 & _)]; [|lia].
    right. rewrite loops_app, H2. split; [lia|]. split; [reflexivity|].
    eapply Forall2_map_r; [|exact H3]. intros a b. apply turned_spin.
  - unfold PortalScene.transitionAnimate. rewrite D.
    destruct (Clock.getElapsedTime now (PortalScene.clock s)).
    assert (K : forall e',
               Spin.loops (rafQueue e') = Spin.loops (rafQueue e) ->
               (Spin.loops rest = 1 /\ Spin.loops (rafQueue e') = 0
                /\ Forall2 (Spin.turned k) PortalScene.ringConfigs
                     (imap (PortalScene.burstRing
                              (PortalScene.eased
                                 (PortalScene.progress (Num.sub n st))))
                        (PortalScene.rings s)))
               \/ (Spin.loops rest = 0 /\ Spin.loops (rafQueue e') = 1
                   /\ Forall2 (Spin.turned (S k)) PortalScene.ringConfigs
                        (imap (PortalScene.burstRing
                                 (PortalScene.eased
                                    (PortalScene.progress (Num.sub n st))))
                           (PortalScene.rings s)))).
    { intros e' E. rewrite E.
      destruct H as [(H1 & H2 & H3)|(H1 & H2 & H3)]; [left | right];
        (split; [exact H1|]); (split; [exact H2|]);
        apply Forall2_imap_r; trivial; intros i a b; apply turned_burst. }
    destruct (Num.ltb _ _); cbn [fst snd PortalScene.isDestroyed
      PortalScene.rings]; (split; [first [exact D | reflexivity]|]); apply K.
    + cbn [snd Browser.requestAnimationFrame Browser.with_raf rafQueue].
      rewrite loops_app. cbn. lia.
    + reflexivity.
  - split; [first [exact D | reflexivity]|]. exact H.
Qed.

Lemma frame_spinning (now : Q) (k : nat) (es : Env * PortalScene.t) :
  Spin.spinning k es -> Spin.spinning (S k) (PortalScene.frame M now es).
Proof.
  intros (D & L & T). unfold PortalScene.frame.
  pose proof (runFrame_inv (PortalScene.runCallback M now) (Spin.midFrame k)
                (callback_midFrame now k) es) as F.
  destruct F as (D' & [(H1 & _)|(_ & H2 & H3)]).
  - split; [first [exact D | reflexivity]|]. left. cbn. now repeat split.
  - cbn in H1. discriminate.
  - now split.
Qed.

Lemma act_spinning (k : nat) (es : Env * PortalScene.t)
    (a : PortalScene.Action) :
  Spin.lives [a] = true -> Spin.spinning k es ->
  Spin.spinning (Spin.frameCount [a] + k) (PortalScene.act M es a).
Proof.
  intros La H. destruct a as [now|x y|w h|now|]; [| | | |discriminate];
    cbn [PortalScene.act].
  - now apply frame_spinning.
  - destruct es as [e s]. exact H.
  - destruct es as [e s]. destruct H as (D & L & T).
    cbn [fst snd] in *. unfold PortalScene.onResize. cbn [fst snd].
    rewrite D. now split.
  - destruct es as [e s]. destruct H as (D & L & T).
    cbn [fst snd] in *. unfold PortalScene.transitionOut.
    cbn [Browser.newPromise].
    destruct (PortalScene.isTransitioning s); [now split|].
    destruct (Clock.getElapsedTime now (PortalScene.clock s)).
    split; [first [exact D | reflexivity]|]. split; [|exact T].
    cbn [fst snd Browser.requestAnimationFrame Browser.with_raf rafQueue].
    rewrite loops_app, L. reflexivity.
Qed.

Lemma acts_spinning (l : list PortalScene.Action) (k : nat)
    (es : Env * PortalScene.t) :
  Spin.lives l = true -> Spin.spinning k es ->
  Spin.spinning (Spin.frameCount l + k) (PortalScene.acts M l es).
Proof.
  unfold PortalScene.acts. revert k es.
  induction l as [|a l IH]; intros k es Ll H; [exact H|].
  cbn [fold_left].
  assert (La : Spin.lives [a] = true /\ Spin.lives l = true).
  { unfold Spin.lives in *. cbn [forallb] in *.
    apply andb_true_iff in Ll. destruct Ll as [-> ->]. now split. }
  destruct La as [La Ll'].
  pose proof (IH _ _ Ll' (act_spinning k es a La H)) as K.
  replace (Spin.frameCount (a :: l) + k)
    with (Spin.frameCount l + (Spin.frameCount [a] + k)); [exact K|].
  unfold Spin.frameCount. cbn [List.filter].
  destruct a; cbn [length]; lia.
Qed.

Lemma create_spinning (now : Q) (a : PortalScene.Assets) (w h d : num) :
  Spin.spinning 1 (PortalScene.create M now a (Browser.open w h d)).
Proof.
  unfold PortalScene.create. rewrite uploadAll_spec.
  unfold PortalScene.animate. cbn [PortalScene.isDestroyed].
  destruct (Clock.getElapsedTime now _).
  split; [reflexivity|]. split; [reflexivity|].
  cbn [snd PortalScene.rings].
  apply Forall2_map_r with (R := Spin.turned 0);
    [intros r0 r; apply turned_spin|].
  unfold PortalScene.ringConfigs.
  repeat constructor; eexists; eexists; eexists;
    (split; [reflexivity|]); (split; [reflexivity|]);
    (split; [reflexivity|]); cbn; ring.
Qed.

End RingSpin.

(** X21. The rings spin by the frame, not by the second.  As long as
    the portal controller is not destroyed, each animation frame turns
    each ring about Y by its speed times 0.01, once, whatever the time
    of the frame and whatever happens between frames (pointer moves,
    resizes, the transition and its frames): after [n] frames a ring
    has turned [n + 1] steps from where [init] put it, the first step
    being the constructor's. *)
Theorem X21_rings_spin_by_the_frame
    (M : MathLib) (now : Q) (a : PortalScene.Assets) (w h d : num)
    (l : list PortalScene.Action) :
  Spin.lives l = true ->
  let es := PortalScene.acts M l
              (PortalScene.create M now a (Browser.open w h d)) in
  PortalScene.isDestroyed (snd es) = false
  /\ Forall2 (Spin.turned (S (Spin.frameCount l))) PortalScene.ringConfigs
       (PortalScene.rings (snd es)).
Proof.
  intros Ll es.
  destruct (acts_spinning M l 1 _ Ll (create_spinning M now a w h d))
    as (D & _ & T).
  fold es in D, T. rewrite Nat.add_1_r in T. now split.
Qed.

Lemma X21_witness :
  let es := PortalScene.acts Sample.math (Sample.before ++ Sample.during)
              (PortalScene.create Sample.math 0 Sample.portalAssets
                 (Browser.open (Fin 1920) (Fin 1080) (Fin 1))) in
  PortalScene.isDestroyed (snd es) = false
  /\ Forall2 (Spin.turned (S (Spin.frameCount (Sample.before ++ Sample.during))))
       PortalScene.ringConfigs (PortalScene.rings (snd es)).
Proof.
  apply (X21_rings_spin_by_the_frame Sample.math 0 Sample.portalAssets
           (Fin 1920) (Fin 1080) (Fin 1) (Sample.before ++ Sample.during)).
  reflexivity.
Defined.

(** ** The renders of a transition *)

Section TransitionRenders.

Variable M : MathLib.

Lemma animate_renders (now : Q) (e : Env) (s : PortalScene.t) :
  PortalScene.isDestroyed s = false ->
  renders (PortalScene.renderer (snd (PortalScene.animate M now (e, s))))
  = S (renders (PortalScene.renderer s))
  /\ PortalScene.isTransitioning (snd (PortalScene.animate M now (e, s)))
     = PortalScene.isTransitioning s.
Proof.
  intros D. unfold PortalScene.animate. rewrite D.
  destruct (Clock.getElapsedTime now (PortalScene.clock s)). now split.
Qed.

Lemma transitionAnimate_renders (now : Q) (st : num) (p : nat)
    (e : Env) (s : PortalScene.t) :
  PortalScene.isDestroyed s = false ->
  renders (PortalScene.renderer
             (snd (PortalScene.transitionAnimate now st p (e, s))))
  = S (renders (PortalScene.renderer s))
  /\ PortalScene.isTransitioning
       (snd (PortalScene.transitionAnimate now st p (e, s)))
     = PortalScene.isTransitioning s.
Proof.
  intros D. unfold PortalScene.transitionAnimate. rewrite D.
  destruct (Clock.getElapsedTime now (PortalScene.clock s)).
  now destruct (Num.ltb _ _).
Qed.

Lemma progress_running (x : Q) :
  (x < 0.7)%Q -> Num.ltb (PortalScene.progress (Fin x)) (Fin 1) = true.
Proof.
  intros H. destruct (progress_value x) as (q & -> & _ & Hq & _).
  apply ltb_Fin. apply Qle_lt_trans with (x / 0.7)%Q; [exact Hq|].
  apply Qlt_shift_div_r; [reflexivity | lra].
Qed.

(** A frame with the render loop alone. *)
Lemma frame_idle (now c : Q) (tr : bool) (n : nat) (es : Env * PortalScene.t) :
  Spin.idle c tr n es -> Spin.idle c tr (S n) (PortalScene.frame M now es).
Proof.
  destruct es as [e s]. intros (D & C & T & R & a & Hq). cbn [fst snd] in *.
  unfold PortalScene.frame, runFrame. cbn [fst snd]. rewrite Hq.
  cbn [fold_left snd PortalScene.runCallback].
  destruct (animate_alive M now (Browser.with_raf e (rafNext e) []) s D)
    as (E1 & A1 & C1 & D1).
  destruct (animate_renders now (Browser.with_raf e (rafNext e) []) s D)
    as (R1 & T1).
  destruct (PortalScene.animate M now (Browser.with_raf e (rafNext e) [], s))
    as [e1 s1].
  cbn [fst snd] in *. rewrite C, clock_running in C1. cbn [fst] in C1.
  unfold Spin.idle. cbn [fst snd].
  split; [exact D1|]. split; [exact C1|]. split; [congruence|].
  split; [congruence|]. subst e1. cbn. now eexists.
Qed.

Lemma frames_idle (nows : list Q) (c : Q) (tr : bool) (n : nat)
    (es : Env * PortalScene.t) :
  Spin.idle c tr n es ->
  Spin.idle c tr (n + length nows) (PortalScene.frames M nows es).
Proof.
  unfold PortalScene.frames. revert n es.
  induction nows as [|now nows IH]; intros n es H; cbn [fold_left length].
  - now rewrite Nat.add_0_r.
  - replace (n + S (length nows)) with (S n + length nows) by lia.
    apply IH. now apply frame_idle.
Qed.

Lemma transitionAnimate_fov (now : Q) (st : num) (p : nat)
    (e : Env) (s : PortalScene.t) :
  PortalScene.isDestroyed s = false ->
  fov (PortalScene.camera
         (snd (PortalScene.transitionAnimate now st p (e, s))))
  = Num.add (Fin 60)
      (Num.mul
         (PortalScene.eased
            (PortalScene.progress
               (Num.sub (snd (Clock.getElapsedTime now (PortalScene.clock s)))
                        st)))
         (Fin 40)).
Proof.
  intros D. unfold PortalScene.transitionAnimate. rewrite D.
  destruct (Clock.getElapsedTime now (PortalScene.clock s)).
  cbn [snd]. now destruct (Num.ltb _ _).
Qed.

(** A frame of the transition: the render loop renders, then the frame
    of the transition writes the field of view of its progress and
    renders again; it requests itself again until the duration has
    passed. *)
Lemma frame_zooming (now c sq : Q) (p n : nat) (es : Env * PortalScene.t) :
  Spin.zooming c (Fin sq) p n es ->
  let es' := PortalScene.frame M now es in
  fov (PortalScene.camera (snd es'))
  = Num.add (Fin 60)
      (Num.mul (PortalScene.eased
                  (PortalScene.progress (Fin (now + - c + - sq))))
               (Fin 40))
  /\ ((now < c + sq + 0.7)%Q -> Spin.zooming c (Fin sq) p (S (S n)) es')
  /\ ((c + sq + 0.7 <= now)%Q -> Spin.idle c
        (PortalScene.isTransitioning (snd es)) (S (S n)) es').
Proof.
  destruct es as [e s]. intros (D & C & R & a & b & Hq). cbn [fst snd] in *.
  unfold PortalScene.frame, runFrame. cbn [fst snd]. rewrite Hq.
  cbn [fold_left snd PortalScene.runCallback].
  destruct (animate_alive M now (Browser.with_raf e (rafNext e) []) s D)
    as (E1 & A1 & C1 & D1).
  destruct (animate_renders now (Browser.with_raf e (rafNext e) []) s D)
    as (R1 & T1).
  destruct (PortalScene.animate M now (Browser.with_raf e (rafNext e) [], s))
    as [e1 s1].
  cbn [fst snd] in *. rewrite C, clock_running in C1. cbn [fst] in C1.
  destruct (transitionAnimate_alive now (Fin sq) p e1 s1 D1)
    as (E2 & A2 & C2 & D2).
  destruct (transitionAnimate_renders now (Fin sq) p e1 s1 D1) as (R2 & T2).
  pose proof (transitionAnimate_fov now (Fin sq) p e1 s1 D1) as F2.
  destruct (PortalScene.transitionAnimate now (Fin sq) p (e1, s1))
    as [e2 s2].
  cbn [fst snd] in *. rewrite C1, clock_running in C2, E2, F2.
  cbn [fst snd Num.sub Num.neg Num.add] in C2, E2, F2.
  unfold Spin.idle, Spin.zooming. cbn [fst snd].
  split; [exact F2|]. split.
  - intros Lt. rewrite progress_running in E2 by lra.
    split; [exact D2|]. split; [exact C2|]. split; [congruence|].
    subst e2 e1. cbn. now eexists; eexists.
  - intros Ge.
    destruct (progress_done (Fin (now + - c + - sq))) as [_ F];
      [apply leb_Fin; lra|].
    rewrite F in E2.
    split; [exact D2|]. split; [exact C2|]. split; [congruence|].
    split; [congruence|]. subst e2 e1. cbn. now eexists.
Qed.

Lemma frames_zooming (ts : list Q) (t0 c sq : Q) (p n : nat)
    (es : Env * PortalScene.t) :
  (t0 == c + sq)%Q ->
  Forall (fun t => (t + Clock.tolerance <= t0 + 0.7)%Q) ts ->
  Spin.zooming c (Fin sq) p n es ->
  Spin.zooming c (Fin sq) p (n + 2 * length ts) (PortalScene.frames M ts es).
Proof.
  intros E F. unfold PortalScene.frames. revert n es.
  induction F as [|t ts Ht _ IH]; intros n es H; cbn [fold_left length].
  - now rewrite Nat.mul_0_r, Nat.add_0_r.
  - replace (n + 2 * S (length ts)) with (S (S n) + 2 * length ts) by lia.
    apply IH. apply (frame_zooming t c sq p n es H).
    unfold Clock.tolerance in Ht. lra.
Qed.

(** The constructor leaves the render loop alone requested. *)
Lemma create_idle (now : Q) (a : PortalScene.Assets) (w h d : num) :
  Spin.idle now false 1 (PortalScene.create M now a (Browser.open w h d)).
Proof.
  unfold PortalScene.create. rewrite uploadAll_spec.
  unfold PortalScene.animate. cbn [PortalScene.isDestroyed].
  cbn [PortalScene.clock Clock.getElapsedTime Clock.fresh].
  split; [reflexivity|]. split; [reflexivity|]. split; [reflexivity|].
  split; [reflexivity|]. cbn. now eexists.
Qed.

(** A first call of [transitionOut] requests the frame of the
    transition behind the render loop's, with the clock's reading as
    its start time. *)
Lemma transitionOut_zooming (t0 c : Q) (n : nat) (es : Env * PortalScene.t) :
  Spin.idle c false n es ->
  Spin.zooming c (Fin (t0 + - c)) (snd (PortalScene.transitionOut t0 es)) n
    (fst (PortalScene.transitionOut t0 es)).
Proof.
  destruct es as [e s]. intros (D & C & T & R & a0 & Hq). cbn [fst snd] in *.
  unfold PortalScene.transitionOut. cbn [Browser.newPromise].
  rewrite T, C, clock_running. unfold Spin.zooming. cbn [fst snd].
  split; [exact D|]. split; [reflexivity|]. split; [exact R|].
  cbn [Browser.requestAnimationFrame Browser.with_raf rafQueue snd].
  rewrite Hq. cbn. now eexists; eexists.
Qed.

End TransitionRenders.

(** ** A transition from the call to its completion *)

Section TransitionRun.
Import Spec.

Variable M : MathLib.

(** What is neither a call of [destroy] nor one of [transitionOut]
    leaves the render loop alone requested. *)
Lemma acts_idle (l : list PortalScene.Action) (c : Q) (tr : bool) (n : nat)
    (es : Env * PortalScene.t) :
  quiet l = true -> Spin.idle c tr n es ->
  exists n', Spin.idle c tr n' (PortalScene.acts M l es).
Proof.
  unfold PortalScene.acts. revert n es.
  induction l as [|a l IH]; intros n es Q H; [now exists n|].
  cbn [quiet forallb] in Q. apply andb_prop in Q. destruct Q as [Qa Ql].
  cbn [fold_left].
  destruct a as [now|x y|w h|now|]; try discriminate; cbn [PortalScene.act].
  - apply (IH (S n)); [exact Ql | now apply frame_idle].
  - apply (IH n); [exact Ql|]. destruct es as [e s].
    destruct H as (D & C & T & R & a & Hq). cbn [fst snd] in *.
    unfold Spin.idle, PortalScene.onMouseMove. cbn [fst snd].
    repeat (split; [assumption|]). now exists a.
  - apply (IH n); [exact Ql|]. destruct es as [e s].
    destruct H as (D & C & T & R & a & Hq). cbn [fst snd] in *.
    unfold Spin.idle, PortalScene.onResize. rewrite D. cbn.
    split; [reflexivity|]. repeat (split; [assumption|]). now exists a.
Qed.

Lemma frames_frameInv (P : Callback -> Prop) (c : Q) (n p r : nat)
    (nows : list Q) (es : Env * PortalScene.t) :
  admits P n ->
  frameInv P c n p r [] es ->
  frameInv P c n p r [] (PortalScene.frames M nows es).
Proof.
  intros HP. unfold PortalScene.frames. revert es.
  induction nows as [|now nows IH]; intros es HI; [exact HI|].
  cbn [fold_left]. apply IH. now apply portal_frame_frameInv.
Qed.

(** While the transition runs one frame is requested for its promise;
    once the render loop is alone, none. *)
Lemma zooming_pending (c : Q) (st : num) (p n : nat) (es : Env * PortalScene.t) :
  Spin.zooming c st p n es -> pendingIn p (rafQueue (fst es)) = 1.
Proof.
  intros (_ & _ & _ & a & b & ->). unfold pendingIn. cbn.
  now rewrite Nat.eqb_refl.
Qed.

Lemma idle_pending (c : Q) (tr : bool) (p n : nat) (es : Env * PortalScene.t) :
  Spin.idle c tr n es -> pendingIn p (rafQueue (fst es)) = 0.
Proof. now intros (_ & _ & _ & _ & a & ->). Qed.

(** The field of view a frame writes depends on the elapsed time as a
    value. *)
Lemma fov_compat (x y : Q) :
  (x == y)%Q ->
  Num.add (Fin 60)
    (Num.mul (PortalScene.eased (PortalScene.progress (Fin x))) (Fin 40))
  =n= Num.add (Fin 60)
        (Num.mul (PortalScene.eased (PortalScene.progress (Fin y))) (Fin 40)).
Proof.
  intros E.
  assert (D : (x / 0.7 == y / 0.7)%Q) by now rewrite E.
  destruct (progress_value x) as (q & -> & Hq1 & Hqx & Hq).
  destruct (progress_value y) as (r & -> & Hr1 & Hry & Hr).
  assert (Eqr : (q == r)%Q) by (destruct Hq, Hr; lra).
  cbn. now rewrite Eqr.
Qed.

(** The field of view at the end of the transition. *)
Lemma fov_done (x : Q) :
  (0.7 <= x)%Q ->
  Num.add (Fin 60)
    (Num.mul (PortalScene.eased (PortalScene.progress (Fin x))) (Fin 40))
  =n= Fin 100.
Proof.
  intros H.
  destruct (progress_done (Fin x)) as [Hp _]; [now apply leb_Fin|].
  apply eased_one in Hp.
  destruct (PortalScene.eased (PortalScene.progress (Fin x))) as [q| | |];
    try contradiction.
  cbn in *. rewrite Hp. reflexivity.
Qed.

End TransitionRun.

(** C3. A first call of [transitionOut] on a live portal controller,
    the frames that follow it, and the promise it returns.  The call
    resolves nothing and requests one frame of the transition.  The
    frame that runs at time [t] writes the field of view
    [60 + 40 * eased (progress)] with [progress = min ((t - now0) / 0.7, 1)],
    [now0] being the time of the call: the progress never decreases
    from one frame to a later one and never exceeds 1.  As long as the
    frames come before the 0.7 s duration the progress is below 1, the
    promise is not resolved and one frame stays requested; on the first
    frame after the duration the progress is 1, the field of view is
    100, the promise is resolved and no frame is requested again; the
    promise then stays resolved exactly once whatever happens.  Of
    every call, first or not, on a controller destroyed or not: the
    promise it returns is resolved at most once at any time, and
    exactly once from the first frame after the duration on.  The
    frames are taken [Clock.tolerance] away from the duration. *)
Theorem C3_transition_progress_and_completion
    (M : MathLib) (w h dpr : num) (assets : PortalScene.Assets) (t0 : Q)
    (before : list PortalScene.Action) (now0 : Q)
    (ts : list Q) (now1 : Q)
    (later history mid : list PortalScene.Action) :
  Spec.quiet before = true ->
  Forall (fun t => (t + Clock.tolerance <= now0 + 0.7)%Q) ts ->
  (now0 + 0.7 + Clock.tolerance <= now1)%Q ->
  let es0 := PortalScene.acts M before
               (PortalScene.create M t0 assets (Browser.open w h dpr)) in
  let es1 := fst (PortalScene.transitionOut now0 es0) in
  let p := snd (PortalScene.transitionOut now0 es0) in
  let progressAt := fun t : Q => PortalScene.progress (Fin (t - now0)) in
  let fovAt := fun t : Q =>
    Num.add (Fin 60) (Num.mul (PortalScene.eased (progressAt t)) (Fin 40)) in
  let es3 := PortalScene.frame M now1 (PortalScene.frames M ts es1) in
  (Browser.resolveCalls p (fst es1) = 0
   /\ Spec.pendingIn p (rafQueue (fst es1)) = 1)
  /\ (forall k t, ts !! k = Some t ->
        let es := PortalScene.frames M (take (S k) ts) es1 in
        fov (PortalScene.camera (snd es)) =n= fovAt t
        /\ Num.ltb (progressAt t) (Fin 1) = true
        /\ Browser.resolveCalls p (fst es) = 0
        /\ Spec.pendingIn p (rafQueue (fst es)) = 1)
  /\ (forall a b, (a <= b)%Q ->
        Num.leb (progressAt a) (progressAt b) = true
        /\ Num.leb (progressAt b) (Fin 1) = true)
  /\ (progressAt now1 =n= Fin 1
      /\ fov (PortalScene.camera (snd es3)) =n= Fin 100
      /\ Browser.resolveCalls p (fst es3) = 1
      /\ Spec.pendingIn p (rafQueue (fst es3)) = 0)
  /\ Browser.resolveCalls p (fst (PortalScene.acts M later es3)) = 1
  /\ (let fs0 := PortalScene.acts M history
                   (PortalScene.create M t0 assets (Browser.open w h dpr)) in
      let q := snd (PortalScene.transitionOut now0 fs0) in
      let fs1 := PortalScene.acts M mid
                   (fst (PortalScene.transitionOut now0 fs0)) in
      let fs2 := PortalScene.frame M now1 fs1 in
      Browser.resolveCalls q (fst fs1) <= 1
      /\ Browser.resolveCalls q (fst fs2) = 1
      /\ Browser.resolveCalls q (fst (PortalScene.acts M later fs2)) = 1).
Proof.
  intros Hq F Ge es0 es1 p progressAt fovAt es3.
  unfold Clock.tolerance in Ge.
  pose proof (started_frameInv M w h dpr assets t0 before now0) as H1.
  cbv zeta in H1. fold es0 in H1. fold p in H1. fold es1 in H1.
  set (st := (now0 + - t0)%Q) in *.
  destruct (acts_idle M before t0 false 1 _ Hq (create_idle M t0 assets w h dpr))
    as (n0 & I0).
  fold es0 in I0.
  pose proof (transitionOut_zooming now0 t0 n0 es0 I0) as Z1.
  fold es1 in Z1. fold p in Z1. fold st in Z1.
  assert (E0 : (now0 == t0 + st)%Q) by (unfold st; ring).
  assert (Cnt : forall r es,
             Spec.frameInv (Spec.tracks p (Fin st)) t0 (S p) p r [] es ->
             Browser.resolveCalls p (fst es)
             + Spec.pendingIn p (rafQueue (fst es)) = 1).
  { intros r es (IQ & _ & _ & IN & _). cbn [app] in IQ.
    exact (queueInv_count _ _ _ p IQ IN). }
  split; [|split; [|split; [|split; [|split]]]].
  - (* the call *)
    pose proof (zooming_pending _ _ _ _ _ Z1) as P1.
    pose proof (Cnt _ _ H1). lia.
  - (* the frames before the duration *)
    intros k t Hk es.
    assert (Ht : (t + Clock.tolerance <= now0 + 0.7)%Q)
      by exact (Forall_lookup_1 _ _ _ _ F Hk).
    unfold Clock.tolerance in Ht.
    assert (Ek : es = PortalScene.frame M t
                        (PortalScene.frames M (take k ts) es1)).
    { subst es. rewrite (take_S_r ts k t Hk). unfold PortalScene.frames.
      now rewrite fold_left_app. }
    pose proof (frames_zooming M (take k ts) now0 t0 st p _ es1 E0
                  (Forall_take _ k _ F) Z1) as Z2.
    pose proof (frames_frameInv M _ _ _ _ _ (take k ts) es1
                  (admits_tracks p _) H1) as H2.
    destruct (frame_zooming M t t0 st p _ _ Z2) as (Fv & Zn & _).
    specialize (Zn ltac:(lra)).
    pose proof (portal_frame_frameInv M t _ _ _ _ _ _
                  (admits_tracks p _) H2) as H3.
    rewrite <- Ek in Fv, Zn, H3.
    split; [|split].
    + rewrite Fv. apply fov_compat. unfold st. ring.
    + apply progress_running. lra.
    + pose proof (zooming_pending _ _ _ _ _ Zn) as P3.
      pose proof (Cnt _ _ H3). lia.
  - (* the progress *)
    intros a b Hab. split.
    + apply progress_mono. lra.
    + apply progress_le_1.
  - (* the frame after the duration *)
    pose proof (frames_zooming M ts now0 t0 st p _ es1 E0 F Z1) as Z2.
    pose proof (frames_frameInv M _ _ _ _ _ ts es1 (admits_tracks p _) H1)
      as H2.
    destruct (frame_zooming M now1 t0 st p _ _ Z2) as (Fv & _ & In).
    specialize (In ltac:(lra)). fold es3 in Fv, In.
    pose proof (portal_frame_frameInv M now1 _ _ _ _ _ _
                  (admits_tracks p _) H2) as H3.
    fold es3 in H3.
    pose proof (idle_pending _ _ p _ _ In) as P3.
    pose proof (Cnt _ _ H3).
    split; [|split; [|split]].
    + apply progress_done. apply leb_Fin. lra.
    + rewrite Fv. apply fov_done. lra.
    + lia.
    + exact P3.
  - (* afterwards *)
    pose proof (frames_zooming M ts now0 t0 st p _ es1 E0 F Z1) as Z2.
    pose proof (frames_frameInv M _ _ _ _ _ ts es1 (admits_tracks p _) H1)
      as H2.
    destruct (frame_zooming M now1 t0 st p _ _ Z2) as (_ & _ & In).
    specialize (In ltac:(lra)). fold es3 in In.
    pose proof (portal_frame_frameInv M now1 _ _ _ _ _ _
                  (admits_tracks p _) H2) as H3.
    fold es3 in H3.
    pose proof (idle_pending _ _ p _ _ In) as P3.
    pose proof (Cnt _ _ H3) as C3.
    assert (H4 : Spec.frameInv (Spec.tracks p (Fin st)) t0 (S p) p 1 []
                   (PortalScene.acts M later es3)).
    { apply acts_frameInv; [apply admits_tracks|].
      apply (frameInv_resolved _ _ _ _ 0); [lia | exact H3]. }
    pose proof (resolved_at_most_once _ _ _ _ _ H4). lia.
  - (* every call, whatever came before it and whatever comes after *)
    intros fs0 q fs1 fs2.
    pose proof (started_frameInv M w h dpr assets t0 history now0) as G1.
    cbv zeta in G1. fold fs0 in G1. fold q in G1. fold st in G1.
    assert (G2 : Spec.frameInv (Spec.tracks q (Fin st)) t0 (S q) q 0 [] fs1).
    { apply acts_frameInv; [apply admits_tracks | exact G1]. }
    assert (Hd : Num.leb PortalScene.duration
                   (Num.sub (Fin (now1 + - t0)) (Fin st)) = true).
    { apply leb_Fin. unfold st. lra. }
    destruct (frame_completes M now1 t0 q 0 _ _ G2 (or_intror Hd)) as [R1 _].
    fold fs2 in R1.
    assert (G4 : Spec.frameInv (Spec.tracks q (Fin st)) t0 (S q) q 1 []
                   (PortalScene.acts M later fs2)).
    { apply acts_frameInv; [apply admits_tracks|].
      apply (frameInv_resolved _ _ _ _ 0); [lia|].
      apply portal_frame_frameInv; [apply admits_tracks | exact G2]. }
    split; [|split].
    + apply (resolved_at_most_once _ _ _ _ _ G2).
    + exact R1.
    + pose proof (resolved_at_most_once _ _ _ _ _ G4). lia.
Qed.

Lemma C3_witness :
  let es0 := PortalScene.acts Sample.math Sample.before
               (PortalScene.create Sample.math 0 Sample.portalAssets
                  (Browser.open (Fin 1920) (Fin 1080) (Fin 1))) in
  let es1 := fst (PortalScene.transitionOut 1 es0) in
  let p := snd (PortalScene.transitionOut 1 es0) in
  let progressAt := fun t : Q => PortalScene.progress (Fin (t - 1)) in
  let fovAt := fun t : Q =>
    Num.add (Fin 60) (Num.mul (PortalScene.eased (progressAt t)) (Fin 40)) in
  let es3 := PortalScene.frame Sample.math 1.75
               (PortalScene.frames Sample.math [1.2; 1.4]%Q es1) in
  (Browser.resolveCalls p (fst es1) = 0
   /\ Spec.pendingIn p (rafQueue (fst es1)) = 1)
  /\ (forall k t, [1.2; 1.4]%Q !! k = Some t ->
        let es := PortalScene.frames Sample.math (take (S k) [1.2; 1.4]%Q) es1 in
        fov (PortalScene.camera (snd es)) =n= fovAt t
        /\ Num.ltb (progressAt t) (Fin 1) = true
        /\ Browser.resolveCalls p (fst es) = 0
        /\ Spec.pendingIn p (rafQueue (fst es)) = 1)
  /\ (forall a b, (a <= b)%Q ->
        Num.leb (progressAt a) (progressAt b) = true
        /\ Num.leb (progressAt b) (Fin 1) = true)
  /\ (progressAt 1.75%Q =n= Fin 1
      /\ fov (PortalScene.camera (snd es3)) =n= Fin 100
      /\ Browser.resolveCalls p (fst es3) = 1
      /\ Spec.pendingIn p (rafQueue (fst es3)) = 0)
  /\ Browser.resolveCalls p
       (fst (PortalScene.acts Sample.math Sample.afterwards es3)) = 1
  /\ (let fs0 := PortalScene.acts Sample.math Sample.during
                   (PortalScene.create Sample.math 0 Sample.portalAssets
                      (Browser.open (Fin 1920) (Fin 1080) (Fin 1))) in
      let q := snd (PortalScene.transitionOut 1 fs0) in
      let fs1 := PortalScene.acts Sample.math Sample.during
                   (fst (PortalScene.transitionOut 1 fs0)) in
      let fs2 := PortalScene.frame Sample.math 1.75 fs1 in
      Browser.resolveCalls q (fst fs1) <= 1
      /\ Browser.resolveCalls q (fst fs2) = 1
      /\ Browser.resolveCalls q
           (fst (PortalScene.acts Sample.math Sample.afterwards fs2)) = 1).
Proof.
  apply (C3_transition_progress_and_completion
           Sample.math (Fin 1920) (Fin 1080) (Fin 1) Sample.portalAssets 0
           Sample.before 1 [1.2; 1.4]%Q 1.75 Sample.afterwards
           Sample.during Sample.during).
  - reflexivity.
  - repeat constructor; now vm_compute.
  - now vm_compute.
Defined.

(** X22. While the transition runs the scene is rendered twice per
    frame.  The render loop keeps running during the transition, and
    both it and the frame of the transition call [render]: before the
    click the constructor and each frame render once; from the call of
    [transitionOut] to the frame that completes the transition, that
    frame included, each frame renders twice; afterwards each frame
    renders once again.  The frames are taken [Clock.tolerance] away
    from the duration: those before it keep the transition running, the
    first one after it completes it. *)
Theorem X22_transition_frames_render_twice
    (M : MathLib) (now : Q) (a : PortalScene.Assets) (w h d : num)
    (nows ts ts' : list Q) (t0 t1 : Q) :
  Forall (fun t => (t + Clock.tolerance <= t0 + 0.7)%Q) ts ->
  (t0 + 0.7 + Clock.tolerance <= t1)%Q ->
  let count := fun es : Env * PortalScene.t =>
                 renders (PortalScene.renderer (snd es)) in
  let es0 := PortalScene.frames M nows
               (PortalScene.create M now a (Browser.open w h d)) in
  let es1 := fst (PortalScene.transitionOut t0 es0) in
  let es2 := PortalScene.frames M ts es1 in
  let es3 := PortalScene.frame M t1 es2 in
  let es4 := PortalScene.frames M ts' es3 in
  count es0 = S (length nows)
  /\ count es1 = count es0
  /\ count es2 = count es1 + 2 * length ts
  /\ count es3 = count es2 + 2
  /\ count es4 = count es3 + length ts'.
Proof.
  intros F Ge count es0 es1 es2 es3 es4.
  pose proof (frames_idle M nows now false 1 _ (create_idle M now a w h d))
    as I1.
  fold es0 in I1.
  pose proof (transitionOut_zooming t0 now _ es0 I1) as Z1.
  fold es1 in Z1.
  set (p := snd (PortalScene.transitionOut t0 es0)) in Z1.
  assert (E0 : (t0 == now + (t0 + - now))%Q) by ring.
  pose proof (frames_zooming M ts t0 now (t0 + - now) p _ es1 E0 F Z1) as Z2.
  fold es2 in Z2.
  destruct (frame_zooming M t1 now (t0 + - now) p _ es2 Z2) as (_ & _ & I3).
  specialize (I3 ltac:(unfold Clock.tolerance in Ge; lra)). fold es3 in I3.
  pose proof (frames_idle M ts' now _ _ es3 I3) as I4. fold es4 in I4.
  destruct I1 as (_ & _ & _ & R0 & _). destruct Z1 as (_ & _ & R1 & _).
  destruct Z2 as (_ & _ & R2 & _). destruct I3 as (_ & _ & _ & R3 & _).
  destruct I4 as (_ & _ & _ & R4 & _).
  subst count. cbv beta. rewrite R0, R1, R2, R3, R4. lia.
Qed.

Lemma X22_witness :
  let count := fun es : Env * PortalScene.t =>
                 renders (PortalScene.renderer (snd es)) in
  let es0 := PortalScene.frames Sample.math [0.2; 0.4]%Q
               (PortalScene.create Sample.math 0 Sample.portalAssets
                  (Browser.open (Fin 1920) (Fin 1080) (Fin 1))) in
  let es1 := fst (PortalScene.transitionOut 1 es0) in
  let es2 := PortalScene.frames Sample.math [1.1; 1.4; 1.6]%Q es1 in
  let es3 := PortalScene.frame Sample.math 1.75 es2 in
  let es4 := PortalScene.frames Sample.math [1.9; 2]%Q es3 in
  count es0 = 3
  /\ count es1 = count es0
  /\ count es2 = count es1 + 2 * 3
  /\ count es3 = count es2 + 2
  /\ count es4 = count es3 + 2.
Proof.
  apply (X22_transition_frames_render_twice Sample.math 0 Sample.portalAssets
           (Fin 1920) (Fin 1080) (Fin 1)
           [0.2; 0.4]%Q [1.1; 1.4; 1.6]%Q [1.9; 2]%Q 1 1.75).
  - repeat constructor; now vm_compute.
  - now vm_compute.
Defined.

(** ** A second call of [transitionOut] *)

Section OneShot.

Variable M : MathLib.

Lemma callback_transitioning (now : Q) (cb : Callback)
    (es : Env * PortalScene.t) :
  PortalScene.isTransitioning (snd es) = true ->
  PortalScene.isTransitioning (snd (PortalScene.runCallback M now cb es)) = true.
Proof.
  destruct es as [e s]. cbn [snd]. intros T.
  destruct cb as [|st p|]; cbn [PortalScene.runCallback snd]; trivial.
  - unfold PortalScene.animate.
    destruct (PortalScene.isDestroyed s); [exact T|].
    now destruct (Clock.getElapsedTime now (PortalScene.clock s)).
  - unfold PortalScene.transitionAnimate.
    destruct (PortalScene.isDestroyed s); [exact T|].
    destruct (Clock.getElapsedTime now (PortalScene.clock s)).
    now destruct (Num.ltb _ _).
Qed.

Lemma act_transitioning (es : Env * PortalScene.t) (a : PortalScene.Action) :
  PortalScene.isTransitioning (snd es) = true ->
  PortalScene.isTransitioning (snd (PortalScene.act M es a)) = true.
Proof.
  intros T. destruct a as [now|x y|w h|now|]; cbn [PortalScene.act].
  - unfold PortalScene.frame.
    apply (runFrame_inv (PortalScene.runCallback M now)
             (fun _ x => PortalScene.isTransitioning (snd x) = true));
      [|exact T].
    intros c rest x. apply callback_transitioning.
  - destruct es as [e s]. exact T.
  - destruct es as [e s]. unfold PortalScene.onResize. cbn [fst snd] in *.
    now destruct (PortalScene.isDestroyed s).
  - destruct es as [e s]. unfold PortalScene.transitionOut.
    cbn [Browser.newPromise snd] in *. now rewrite T.
  - destruct es as [e s]. exact T.
Qed.

Lemma acts_transitioning (l : list PortalScene.Action)
    (es : Env * PortalScene.t) :
  PortalScene.isTransitioning (snd es) = true ->
  PortalScene.isTransitioning (snd (PortalScene.acts M l es)) = true.
Proof.
  unfold PortalScene.acts. revert es.
  induction l as [|a l IH]; intros es T; [exact T|].
  cbn [fold_left]. apply IH. now apply act_transitioning.
Qed.

Lemma transitionOut_transitioning (now : Q) (es : Env * PortalScene.t) :
  PortalScene.isTransitioning (snd (fst (PortalScene.transitionOut now es)))
  = true.
Proof.
  destruct es as [e s]. unfold PortalScene.transitionOut.
  cbn [Browser.newPromise].
  destruct (PortalScene.isTransitioning s) eqn:T; [exact T|].
  now destruct (Clock.getElapsedTime now (PortalScene.clock s)).
Qed.

End OneShot.

(** X23. [transitionOut] runs one transition in the life of a portal
    controller.  Nothing clears [isTransitioning] once the first call
    has set it, neither the completion of the transition nor
    [destroy].  Whatever happens afterwards, a later call changes
    nothing about the controller and requests no frame, and the promise
    it returns is resolved on the spot, once, whether or not the first
    transition has completed. *)
Theorem X23_transitionOut_is_one_shot
    (M : MathLib) (now : Q) (a : PortalScene.Assets) (w h d : num)
    (l1 l2 : list PortalScene.Action) (t0 t : Q) :
  let es := PortalScene.acts M (l1 ++ PortalScene.DoTransitionOut t0 :: l2)
              (PortalScene.create M now a (Browser.open w h d)) in
  let r := PortalScene.transitionOut t es in
  PortalScene.isTransitioning (snd es) = true
  /\ snd (fst r) = snd es
  /\ rafQueue (fst (fst r)) = rafQueue (fst es)
  /\ Browser.resolveCalls (snd r) (fst (fst r)) = 1.
Proof.
  intros es r.
  assert (T : PortalScene.isTransitioning (snd es) = true).
  { subst es. unfold PortalScene.acts. rewrite fold_left_app.
    cbn [fold_left PortalScene.act]. apply acts_transitioning.
    apply transitionOut_transitioning. }
  pose proof (acts_frameInv M (fun _ => True) now 0 0 0
                (l1 ++ PortalScene.DoTransitionOut t0 :: l2) _
                (admits_True 0) (create_frameInv M now a w h d 0))
    as (IQ & _).
  fold es in IQ. subst r. destruct es as [e s]. cbn [fst snd app] in *.
  destruct (queueInv_fresh _ _ _ (promiseNext e) IQ (Nat.le_refl _))
    as [R0 _].
  unfold PortalScene.transitionOut. cbn [Browser.newPromise]. rewrite T.
  cbn [fst snd]. split; [reflexivity|]. split; [reflexivity|].
  split; [reflexivity|].
  rewrite resolveCalls_resolve, Nat.eqb_refl.
  unfold Browser.resolveCalls in *. cbn [resolved]. rewrite R0. reflexivity.
Qed.

(** ** The parallax of the section headers *)

(** X24. The parallax of a section header.  In a window of positive
    height the header is pushed forward by between 0 and 40 pixels and
    never by a negative amount: by [40 - 30 |offset|] where that is
    positive, [offset] being the distance of its top from the middle of
    the window in half-heights, and by 0 beyond; its tilt is [-3] times
    the offset.  A header whose top is within the window is pushed
    forward by 10 pixels at least and tilted by 3 degrees at most. *)
Theorem X24_header_parallax_range (h t : Q) :
  (0 < h)%Q ->
  let st := Parallax.headerStyle (Fin h) (Fin t) in
  let offset := ((t - h / 2) / (h / 2))%Q in
  exists z r,
    Parallax.translateZ st = Fin z /\ Parallax.rotateX st = Fin r
    /\ (0 <= z <= 40)%Q
    /\ (Qabs offset <= (4 # 3) -> z == 40 - 30 * Qabs offset)%Q
    /\ ((4 # 3) <= Qabs offset -> z == 0)%Q
    /\ (r == -3 * offset)%Q
    /\ ((0 <= t <= h)%Q -> (10 <= z)%Q /\ (Qabs r <= 3)%Q).
Proof.
  intros Hh st offset. subst st. unfold Parallax.headerStyle.
  assert (H2 : (h / 2 == h * (1 # 2))%Q) by (now field).
  assert (Hp : (0 < h / 2)%Q) by (rewrite H2; lra).
  rewrite (div_Fin_pos h 2) by reflexivity.
  cbn [Num.sub Num.neg Num.add]. rewrite div_Fin_pos by exact Hp.
  cbn [Num.abs Num.mul Num.sub Num.neg Num.add Parallax.translateZ
       Parallax.rotateX].
  assert (Eo : ((t + - (h / 2)) / (h / 2) == offset)%Q)
    by (subst offset; unfold Qminus; reflexivity).
  set (o := ((t + - (h / 2)) / (h / 2))%Q) in *.
  pose proof (Qabs_nonneg o) as A0.
  assert (In : (0 <= t <= h)%Q -> (Qabs o <= 1)%Q).
  { intros [T0 T1]. apply Qabs_Qle_condition. subst o.
    split; [apply Qle_shift_div_l | apply Qle_shift_div_r]; trivial;
      rewrite H2; lra. }
  unfold Parallax.max.
  destruct (Num.ltb (Fin 0) (Fin (40 + - (Qabs o * 30)))) eqn:E.
  - apply ltb_Fin in E. eexists. eexists.
    split; [reflexivity|]. split; [reflexivity|].
    rewrite <- Eo. split; [lra|]. split; [intros _; ring|].
    split; [intros G; lra|]. split; [ring|].
    intros Ht. specialize (In Ht). split; [lra|].
    rewrite Qabs_Qmult. change (Qabs (-3)) with 3%Q. lra.
  - apply ltb_Fin_false in E. eexists. eexists.
    split; [reflexivity|]. split; [reflexivity|].
    rewrite <- Eo. split; [lra|]. split; [intros G; lra|].
    split; [reflexivity|]. split; [ring|].
    intros Ht. specialize (In Ht). lra.
Qed.

Lemma X24_witness :
  let st := Parallax.headerStyle (Fin 1080) (Fin 300) in
  let offset := ((300 - 1080 / 2) / (1080 / 2))%Q in
  (0 < 1080)%Q
  /\ exists z r,
    Parallax.translateZ st = Fin z /\ Parallax.rotateX st = Fin r
    /\ (0 <= z <= 40)%Q
    /\ (Qabs offset <= (4 # 3) -> z == 40 - 30 * Qabs offset)%Q
    /\ ((4 # 3) <= Qabs offset -> z == 0)%Q
    /\ (r == -3 * offset)%Q
    /\ ((0 <= 300 <= 1080)%Q -> (10 <= z)%Q /\ (Qabs r <= 3)%Q).
Proof.
  split; [reflexivity|].
  apply (X24_header_parallax_range 1080 300). reflexivity.
Defined.
